(* ===== verification/_CoqProject ===== *)
-Q . S2P
Prelude.v
RustStr.v
RustNum.v
Assurance.v
SpiffeId.v
External.v
Consumer.v
Pseudonym.v
Audience.v
Hint.v
Json.v
Jwt.v
Toy.v
Signer.v
TrustBundle.v
RwLock.v
SharedStore.v
Claim.v
Machine.v
SshWire.v
DidKey.v
GpgKeys.v
GpgRun.v
Verify.v
Agent.v
Tailscale.v
Unix.v
Oidc.v
Gpg.v
Devices.v
Attestor.v
Conduct.v
ConsumerAttest.v
Socket.v
Service.v
Validate.v
ServiceSpec.v
ValidateSpec.v
Hired.v
Workload.v
Server.v
Daemon.v
Nmh.v
Install.v
Cli.v
EndToEnd.v
Standards.v
CoreTests.v
SourceTests.v
KnownAnswers.v
ApiTests.v
ServerTests.v
IntegrationTests.v
HostTests.v
