(* ===== verification/Prelude.v ===== *)
(** * hired: a verification development

    hired is a daemon that turns the identities a human already holds on a
    machine — ssh keys, a gpg key, a [did:key], a Tailscale login, cached OIDC
    tokens, the Unix account — into short-lived SPIFFE JWT-SVIDs for local
    programs, over the SPIFFE Workload API on a Unix socket.  A program that
    connects is named by the file its executable's path names; what it is given
    names the human only by a pseudonym of its own.

    This library models the program's own logic, crate by crate, and proves
    what makes it correct.  Code outside the repository (cryptography, base64,
    JSON and JWT encoding, the operating system) is a parameter: a class with
    the operations the code calls and, where a theorem needs it, a named law
    that states documented behaviour.  [Toy] and [Machine] give concrete
    instances in which the laws hold and the models compute.

    ** How the program fits together

    [hired/src/main.rs] makes a signing key, publishes its bundle, probes the
    identity sources and serves.  On each connection [consumer_attest] names
    the peer.  A [FetchJWTSVID] request is parsed (audiences, selector); every
    attestor is asked to enumerate candidates and, within the consent rules, to
    prove them against a fresh challenge; [Claim::derive] turns evidence into a
    claim; the policy gates of [issue] decide; the signer issues a token for
    the consumer's pseudonym.  [ValidateJWTSVID] checks tokens against
    published bundles alone.  [hire] and [hire-nmh] are clients.

    ** Files and the code they model

    Shared: [Prelude] (results, the state monad [ST], time), [RustStr] (the
    [str] API), [RustNum] (integers as text and bytes, lossy UTF-8, hex).

    - [Assurance] — [hire-core/src/assurance.rs], both level types.
    - [SpiffeId] — [hire-core/src/spiffe_id.rs], trust domains and IDs.
    - [Consumer], [Pseudonym] — [consumer.rs], [pseudonym.rs].
    - [Audience], [Hint] — [audience.rs], [hint.rs], both parsers.
    - [Json] — JSON values and the [hire] object of [hvid.rs].
    - [External], [Jwt], [Toy] — interfaces to crates, and their instances.
    - [Signer], [TrustBundle] — [signer.rs], [trust_bundle.rs]; [RwLock],
      [SharedStore] — its lock, and the store as threads share it.
    - [Claim] — [hire-attestors/src/claim.rs]: candidates, evidence, derivation.
    - [Machine] — the clock, environment, files, sockets and processes.
    - [SshWire], [DidKey], [GpgKeys] — the pure halves of [ssh.rs],
      [did_key.rs] and [gpg.rs]: wire format, base58 decoder, colon listing.
    - [Verify] — the three verifying constructors of [claim.rs].
    - [Agent] — the agent client, the ssh and [did:key] attestors.
    - [GpgRun] — the gpg child, its pipes and the two tasks that serve them.
    - [Tailscale], [Unix], [Oidc], [Gpg] — the other attestors.
    - [Devices] — [fido2.rs], [goa.rs], [piv.rs], in every build.
    - [Attestor] — the trait as a record of operations, and [registry.rs].
    - [Conduct] — what the daemon may rely on in an attestor: a class that
      every source of the registry discharges.
    - [ConsumerAttest], [Socket] — [consumer_attest.rs], [socket.rs], on Linux,
      macOS and elsewhere.
    - [Service], [Validate] — the handlers of [hire-grpc/src/service.rs], the
      first with the start-up of [hired/src/main.rs].
    - [ServiceSpec], [ValidateSpec] — what those handlers promise.
    - [Hired] — start-up composed with the handlers, the sources used through
      [Conduct] alone.
    - [Workload] — the seven calls as they are served: connections accepted,
      used and closed in any order, a step relation with a log.
    - [Server] — [server.rs]: directory, lock, listener and [serve].
    - [Daemon] — [hired/src/main.rs] from the key to the exit, and any number of
      daemons on one socket, interleaved by system call.
    - [Nmh] — [hire-nmh/src/main.rs].  [Install], [Cli] — [hire/src/main.rs].
    - [EndToEnd] — both clients over a daemon as [hired] builds it, joined by one
      promise of the transport, a class.

    - [Standards] — SHA-256, HMAC, HKDF and base64 as their standards give them,
      instances of the classes that stand for those crates.
    - [CoreTests], [SourceTests], [KnownAnswers], [ApiTests], [ServerTests],
      [IntegrationTests], [HostTests] — the repository's own tests, under their own names, as
      executable checks on the model: the evidence that the definitions are
      the code's.

    State is passed explicitly: an effectful function is an [ST W], a function
    from a world to a result and a world, and makes its calls in the order the
    code makes them.  A record of Rust is a [Record], an enum an [Inductive],
    an early return with [?] is [let?] (pure) or [let*?] (effectful).

    ** What is shown

    - Issuance ([ServiceSpec]): every SVID meets every policy of its request;
      it stands on evidence an attestor gave in this request for this
      challenge; an unnamed request never makes a proof that may prompt, a
      named one makes one; refusals come before effects; the list is best
      first, stable, complete and without duplicates; and every proven claim
      that meets every policy gets its SVID.
    - Validation ([ValidateSpec]): what is vouched for was verified under a
      published key of its own domain, for the audience asked about if it names
      any; what the daemon issues it accepts until it expires.
    - The daemon as built ([Conduct], [Hired]): whatever sources the machine
      offers, nothing above a source's own level is issued and no presence;
      every SVID is well formed in all its parts; those in [ssh.local]
      validate at the daemon, those in the tailnet's domain never do.
    - The daemon as served ([Workload]): an accepted connection keeps its
      identity through every event, and over a daemon's life a subject is one
      identity as one program knows it.
    - Evidence ([Claim], [Verify], [Agent], [Tailscale], [Unix], [Oidc]): levels and
      instants come from bound evidence only; each verifying constructor
      succeeds exactly on a real signature; each attestor's proof is worth what
      it says, and the cached tokens are shown as they are and prove nothing.
    - Names ([SpiffeId], [Pseudonym], [DidKey]): printing and parsing are
      inverse, pseudonyms collide only if HKDF does, the base58 decoder is
      exact.
    - Text and wire formats ([Audience], [Hint], [SshWire], [GpgKeys],
      [Tailscale], [Nmh]): each parser accepts exactly its grammar.
    - Processes ([Server], [Daemon], [ConsumerAttest], [Socket]): the socket
      directory is this user's and closed to others, or root's and sticky, or
      refused; one daemon serves, start-up never displaces a running one, a
      peer is named by the bytes of the file at its executable's path, no
      buffer the kernel fills is read past its end — and shutdown can unlink a
      live socket, even one its daemon never bound.
    - Concurrency ([SharedStore], [GpgRun]): the bundle store is linearizable
      under any interleaving, poisoned or not, and no call on it blocks for
      ever; feeding and reading gpg at once is, under any schedule and any size
      of pipe, the one call the attestor is modelled with, and feeding it
      first is a deadlock.
    - Commands ([Cli], [Install]): an exit status of 0 means the daemon answered
      or the service file was written, and the nonce of [hire prove] is signed
      whole.
    - From end to end ([EndToEnd]): what a client hands out was issued to it for
      a proven identity and validates at the daemon, and the token of
      [hire prove] serves no other nonce and no other peer.

    ** Bounds and fuel

    Loops that are not structural take fuel, and a theorem says it suffices.
    [Unix.PASSWD_FUEL] is 21: the buffer doubles from at least one byte to at
    most 2^20.  [Tailscale.dechunk], [SshWire.parse_keys] and [Nmh.nmh_loop]
    take the length of their input (plus one), each turn consuming at least a
    byte.  [ConsumerAttest.hash_loop] takes its fuel from the caller, since a
    file may be of any length; its theorem asks for more turns than the file
    has reads.  Integers are [Z] with their width written out where the code
    can reach it: [u64] parsing and saturation, [u32] lengths, [u8] carries.
    [SystemTime] is in nanoseconds from the epoch, of either sign: signing panics
    on a clock before it, and the handler with it ([Fault]).  The case mappings and
    [{:?}] of a [str] beyond ASCII are parameters ([RustStr.Unicode]).

    ** Not modelled

    The tonic server and the generated protobuf code, which [Server.serve]
    takes as an argument and [Workload] as the order of its events; logging;
    of the repository's tests, those that drive a real agent or another process,
    or that need the curves or the text of a token;
    builds for other than Unix; the interleaving of two calls of the API inside
    one another (a call is one event of [Workload], and what other processes
    do meanwhile is in the world's operations), which the state they share,
    the bundle store, is modelled for by itself. *)

From Stdlib Require Export Ascii.
From stdpp Require Export base list strings gmap.
From Stdlib Require Export ZArith Lia.

(** Rust's [Result]. *)
Inductive result (A E : Type) : Type :=
| Ok (a : A)
| Err (e : E).
Arguments Ok {A E} a.
Arguments Err {A E} e.

Create HintDb hire.
Create Rewrite HintDb hire.
Declare Scope rust_scope.
Delimit Scope rust_scope with rust.
Global Open Scope rust_scope.

(** [e?] on a [Result] and on an [Option]. *)
Notation "'let?' x ':=' e 'in' k" :=
  (match e with Ok x => k | Err er => Err er end)
  (at level 10, x pattern, e at level 200, k at level 200) : rust_scope.
Notation "'let!' x ':=' e 'in' k" :=
  (match e with Some x => k | None => None end)
  (at level 10, x pattern, e at level 200, k at level 200) : rust_scope.

Definition ok_or {A E} (o : option A) (e : E) : result A E :=
  match o with Some a => Ok a | None => Err e end.

Definition map_err {A E F} (f : E → F) (r : result A E) : result A F :=
  match r with Ok a => Ok a | Err e => Err (f e) end.

Definition res_ok {A E} (r : result A E) : option A :=
  match r with Ok a => Some a | Err _ => None end.

(** How a call ends that gives no value: with an error of its own, or unwinding
    from a panic. *)
Inductive Fault (E : Type) : Type :=
| Failed (e : E)
| Panicked (msg : string).
Arguments Failed {E} e.
Arguments Panicked {E} msg.

Definition map_fault {E F} (f : E → F) (x : Fault E) : Fault F :=
  match x with Failed e => Failed (f e) | Panicked m => Panicked m end.

Definition is_ok {A E} (r : result A E) : bool :=
  match r with Ok _ => true | Err _ => false end.

(** [iter().map(f).collect::<Result<Vec<_>, _>>()]: the first error wins. *)
Fixpoint collect_results {A B E} (f : A → result B E) (l : list A)
    : result (list B) E :=
  match l with
  | [] => Ok []
  | x :: l => let? y := f x in let? ys := collect_results f l in Ok (y :: ys)
  end.

(** [iter().find(p)] and [iter().find_map(f)]. *)
Fixpoint find_first {A} (p : A → bool) (l : list A) : option A :=
  match l with
  | [] => None
  | x :: l => if p x then Some x else find_first p l
  end.

Fixpoint find_map {A B} (f : A → option B) (l : list A) : option B :=
  match l with
  | [] => None
  | x :: l => match f x with Some y => Some y | None => find_map f l end
  end.

(** ** State monad

    Handlers that call into the outside world thread it explicitly. *)
Definition ST (W A : Type) : Type := W → A * W.
Definition ret {W A} (a : A) : ST W A := λ w, (a, w).
Definition bind {W A B} (m : ST W A) (k : A → ST W B) : ST W B :=
  λ w, let '(a, w') := m w in k a w'.

Notation "'let*' x ':=' m 'in' k" := (bind m (λ x, k))
  (at level 10, x pattern, m at level 200, k at level 200) : rust_scope.
(** [m?] in a handler: an error ends it, keeping the world reached. *)
Notation "'let*?' x ':=' m 'in' k" :=
  (bind m (λ r, match r with Ok x => k | Err er => ret (Err er) end))
  (at level 10, x pattern, m at level 200, k at level 200) : rust_scope.

(** ** Bytes

    A byte is an [ascii]; a Rust [&str] is the [string] of its UTF-8 bytes and
    a [&[u8]] is a [list byte]. *)
Abbreviation byte := ascii.

Definition as_bytes (s : string) : list byte := Stdlib.Strings.String.list_ascii_of_string s.

(** [b as u64] and [z as u8]. *)
Definition u8_val (b : byte) : Z := Z.of_N (N_of_ascii b).
Definition as_u8 (z : Z) : byte := ascii_of_N (Z.to_N (z mod 256)).

Lemma u8_val_range b : (0 ≤ u8_val b < 256)%Z.
Proof. unfold u8_val. pose proof (N_ascii_bounded b). lia. Qed.

Lemma u8_val_as_u8 z : u8_val (as_u8 z) = (z mod 256)%Z.
Proof.
  unfold u8_val, as_u8. pose proof (Z.mod_pos_bound z 256 ltac:(lia)).
  rewrite N_ascii_embedding; lia.
Qed.

Lemma as_u8_val b : as_u8 (u8_val b) = b.
Proof.
  pose proof (u8_val_range b). unfold as_u8.
  rewrite Z.mod_small by lia. unfold u8_val. rewrite N2Z.id.
  apply ascii_N_embedding.
Qed.

Lemma u8_val_inj a b : u8_val a = u8_val b → a = b.
Proof. intros H. by rewrite <-(as_u8_val a), <-(as_u8_val b), H. Qed.

Lemma as_bytes_inj s t : as_bytes s = as_bytes t → s = t.
Proof.
  revert t; induction s as [|c s IH]; intros [|d t] H; cbn in *; simplify_eq; [done|].
  f_equal. by apply IH.
Qed.

(** [+:+] is [simpl never]: these equations drive it. *)
Lemma str_app_nil t : "" +:+ t = t.
Proof. done. Qed.

Lemma str_app_cons c s t : String c s +:+ t = String c (s +:+ t).
Proof. done. Qed.

Lemma str_app_nil_r s : s +:+ "" = s.
Proof. induction s as [|c s IH]; [done|]. by rewrite str_app_cons, IH. Qed.

Lemma str_app_assoc s t u : (s +:+ t) +:+ u = s +:+ (t +:+ u).
Proof. induction s as [|c s IH]; [done|]. by rewrite !str_app_cons, IH. Qed.

Lemma as_bytes_app s t : as_bytes (s +:+ t) = as_bytes s ++ as_bytes t.
Proof. induction s as [|c s IH]; [done|]. rewrite str_app_cons. cbn. f_equal. exact IH. Qed.

#[export] Hint Rewrite str_app_nil str_app_nil_r str_app_assoc : hire.

(** ** Widths *)
Definition U64_MAX : Z := (2 ^ 64 - 1)%Z.
Definition USIZE_MAX : Z := U64_MAX.

(** [saturating_add] on [u64]. *)
Definition u64_saturating_add (a b : Z) : Z := Z.min (a + b) U64_MAX.

(** ** Time

    A [SystemTime] is a signed number of nanoseconds from the Unix epoch (the
    resolution the platform offers), a [Duration] a non-negative one. *)
Definition NANOS : Z := 1000000000%Z.
Abbreviation SystemTime := Z (only parsing).
Abbreviation Duration := Z (only parsing).

Definition from_secs (s : Z) : Duration := (s * NANOS)%Z.
Definition as_secs (d : Duration) : Z := (d / NANOS)%Z.
Definition UNIX_EPOCH : SystemTime := 0%Z.

(** [later.duration_since(earlier).ok()]. *)
Definition duration_since (later earlier : SystemTime) : option Duration :=
  if (earlier <=? later)%Z then Some (later - earlier)%Z else None.

Lemma duration_since_epoch t d : duration_since t UNIX_EPOCH = Some d ↔ (0 ≤ t)%Z ∧ d = t.
Proof.
  unfold duration_since, UNIX_EPOCH. destruct (Z.leb_spec 0 t); [|split; [done|lia]].
  rewrite Z.sub_0_r. split; [by intros [= <-]|by intros [_ ->]].
Qed.

(** ** Tactics and hints *)

(** Case analysis on the scrutinee of a [match] in a hypothesis or the goal,
    closing the branches that equate distinct constructors. *)
Ltac case_result :=
  repeat (case_match; simplify_eq/=; try done).

(** Case analysis on the next string comparison of the goal. *)
Ltac case_streq :=
  match goal with
  | |- context [String.eqb ?a ?b] => let Heq := fresh "Heq" in let Hne := fresh "Hne" in
      destruct (String.eqb_spec a b) as [Heq|Hne]; [try subst a|]
  end.

(** Turn boolean tests on [Z] into (in)equalities. *)
Ltac zify_bool :=
  repeat match goal with
  | H : (_ <=? _)%Z = true |- _ => apply Z.leb_le in H
  | H : (_ <=? _)%Z = false |- _ => apply Z.leb_gt in H
  | H : (_ <? _)%Z = true |- _ => apply Z.ltb_lt in H
  | H : (_ <? _)%Z = false |- _ => apply Z.ltb_ge in H
  | H : (_ =? _)%Z = true |- _ => apply Z.eqb_eq in H
  | H : (_ =? _)%Z = false |- _ => apply Z.eqb_neq in H
  end.

(** ** Lists and options *)
Lemma find_first_Some {A} (p : A → bool) l x :
  find_first p l = Some x ↔
  ∃ l1 l2, l = l1 ++ x :: l2 ∧ p x = true ∧ ∀ y, y ∈ l1 → p y = false.
Proof.
  induction l as [|y l IH]; cbn.
  - split; [done|]. intros (l1 & l2 & H & _). by destruct l1.
  - destruct (p y) eqn:Hp.
    + split.
      * intros [= ->]. exists [], l. split_and!; [done..|]. intros ? ?%elem_of_nil. done.
      * intros (l1 & l2 & H & Hx & Hl). destruct l1 as [|z l1]; simplify_eq/=; [done|].
        specialize (Hl z ltac:(set_solver)). congruence.
    + rewrite IH. split.
      * intros (l1 & l2 & -> & Hx & Hl). exists (y :: l1), l2.
        split_and!; [done..|]. intros z [->|Hz]%elem_of_cons; auto.
      * intros (l1 & l2 & H & Hx & Hl). destruct l1 as [|z l1]; simplify_eq/=; [congruence|].
        exists l1, l2. split_and!; [done..|]. intros ? ?. apply Hl. set_solver.
Qed.

Lemma find_first_None {A} (p : A → bool) l :
  find_first p l = None ↔ ∀ y, y ∈ l → p y = false.
Proof.
  induction l as [|y l IH]; cbn.
  - split; [|done]. intros _ ? ?%elem_of_nil. done.
  - destruct (p y) eqn:Hp.
    + split; [done|]. intros H. specialize (H y ltac:(set_solver)). congruence.
    + rewrite IH. split.
      * intros H z [->|Hz]%elem_of_cons; auto.
      * intros H z Hz. apply H. set_solver.
Qed.

Lemma find_first_elem {A} (p : A → bool) l x :
  find_first p l = Some x → x ∈ l ∧ p x = true.
Proof. intros (l1 & l2 & -> & Hp & _)%find_first_Some. set_solver. Qed.

Lemma collect_results_Ok {A B E} (f : A → result B E) l ys :
  collect_results f l = Ok ys ↔ Forall2 (λ x y, f x = Ok y) l ys.
Proof.
  revert ys; induction l as [|x l IH]; intros ys; cbn.
  - split; [intros [= <-]; constructor | intros H; by inversion H].
  - destruct (f x) eqn:Hf.
    + destruct (collect_results f l) eqn:Hc.
      * split; [intros [= <-]; constructor; [done|by apply IH]|].
        intros H; inv H. apply IH in H4. congruence.
      * split; [done|]. intros H; inv H. apply IH in H4. congruence.
    + split; [done|]. intros H; inv H. congruence.
Qed.

Lemma bind_ret_l {W A B} (a : A) (k : A → ST W B) w : bind (ret a) k w = k a w.
Proof. done. Qed.

Lemma bind_assoc {W A B C} (m : ST W A) (f : A → ST W B) (g : B → ST W C) w :
  bind (bind m f) g w = bind m (λ a, bind (f a) g) w.
Proof. unfold bind. by destruct (m w). Qed.

(** A step that has no panic of its own, in a handler that may; and a handler
    that looks at the [Result] of a call whose panic would go on unwinding. *)
Definition failing {W A E} (m : ST W (result A E)) : ST W (result A (Fault E)) :=
  λ w, let '(r, w') := m w in (map_err Failed r, w').
Definition unwinding {W A E} (m : ST W (result A (Fault E))) : ST W (result (result A E) (Fault E)) :=
  λ w, let '(r, w') := m w in
    (match r with Ok a => Ok (Ok a) | Err (Failed e) => Ok (Err e) | Err (Panicked p) => Err (Panicked p) end, w').

Lemma failing_ok_inv {W A E} (m : ST W (result A E)) w a w' :
  failing m w = (Ok a, w') → m w = (Ok a, w').
Proof. unfold failing. destruct (m w) as [[] ?]; cbn; [|done]. by intros [= -> ->]. Qed.

(** Inverting a handler that succeeded: each [let*?] of it succeeded. *)
Lemma bind_ok_inv {W A B E} (m : ST W (result A E)) (k : A → ST W (result B E)) w y w' :
  bind m (λ r, match r with Ok x => k x | Err er => ret (Err er) end) w = (Ok y, w') →
  ∃ a w1, m w = (Ok a, w1) ∧ k a w1 = (Ok y, w').
Proof.
  unfold bind. destruct (m w) as [[a|e] w1]; [|done]. eauto.
Qed.

Lemma bind_ok {W A B E} (m : ST W (result A E)) (k : A → ST W (result B E)) w a w1 :
  m w = (Ok a, w1) →
  bind m (λ r, match r with Ok x => k x | Err er => ret (Err er) end) w = k a w1.
Proof. unfold bind. by intros ->. Qed.

Lemma bind_err {W A B E} (m : ST W (result A E)) (k : A → ST W (result B E)) w e w1 :
  m w = (Err e, w1) →
  bind m (λ r, match r with Ok x => k x | Err er => ret (Err er) end) w = (Err e, w1).
Proof. unfold bind. by intros ->. Qed.

Lemma ok_or_Ok {A E} (o : option A) (e : E) a : ok_or o e = Ok a → o = Some a.
Proof. destruct o; by intros [= ->]. Qed.

Lemma ok_or_inv {A E W} (o : option A) (e : E) (w : W) a w' :
  ret (ok_or o e) w = (Ok a, w') → o = Some a ∧ w' = w.
Proof. by intros [= ->%ok_or_Ok ->]. Qed.

(** What holds of a list's elements holds of a sublist's. *)
Lemma Forall_sublist {A} (P : A → Prop) l k : l `sublist_of` k → Forall P k → Forall P l.
Proof. induction 1; inversion 1; subst; auto. Qed.
