(* ===== verification/RustStr.v ===== *)
(** * The parts of [str] the program uses

    Rust's [&str] API over the bytes of the string: every delimiter the program
    splits on is ASCII, and an ASCII byte never occurs inside a multi-byte
    UTF-8 sequence, so splitting on bytes is splitting on characters.  The
    white-space functions decode the multi-byte white-space characters. *)
From S2P Require Import Prelude.

(** ** Prefixes and suffixes *)

(** [s.strip_prefix(p)] *)
Fixpoint strip_prefix (p s : string) : option string :=
  match p, s with
  | EmptyString, _ => Some s
  | String a p, String b s => if Ascii.eqb a b then strip_prefix p s else None
  | _, _ => None
  end.

(** [s.starts_with(p)] *)
Definition starts_with (p s : string) : bool :=
  match strip_prefix p s with Some _ => true | None => false end.

(** [s.ends_with(p)] *)
Fixpoint ends_with (p s : string) : bool :=
  String.eqb p s || match s with EmptyString => false | String _ s => ends_with p s end.

(** [s.contains(p)] *)
Fixpoint contains (p s : string) : bool :=
  starts_with p s || match s with EmptyString => false | String _ s => contains p s end.

(** Does the character occur in the string? *)
Fixpoint has_char (c : ascii) (s : string) : bool :=
  match s with
  | EmptyString => false
  | String d s => Ascii.eqb c d || has_char c s
  end.

(** [s.bytes().all(p)] *)
Fixpoint all_bytes (p : ascii → bool) (s : string) : bool :=
  match s with
  | EmptyString => true
  | String c s => p c && all_bytes p s
  end.

Fixpoint map_bytes (f : ascii → ascii) (s : string) : string :=
  match s with
  | EmptyString => EmptyString
  | String c s => String (f c) (map_bytes f s)
  end.

Definition is_empty (s : string) : bool :=
  match s with EmptyString => true | _ => false end.

(** ** Replacing *)

(** [s.replace(p, to)], for a non-empty [p]: the matches do not overlap, and
    [skip] bytes of the last one are still to be passed over. *)
Fixpoint replace_from (p to : string) (skip : nat) (s : string) : string :=
  match s with
  | EmptyString => EmptyString
  | String c rest =>
      match skip with
      | Datatypes.S k => replace_from p to k rest
      | O => if starts_with p s then to +:+ replace_from p to (String.length p - 1) rest
             else String c (replace_from p to 0 rest)
      end
  end.
Definition replace (p to s : string) : string := replace_from p to 0 s.

(** ** Splitting *)

(** [s.split_once(c)] *)
Fixpoint split_once (c : ascii) (s : string) : option (string * string) :=
  match s with
  | EmptyString => None
  | String d s =>
      if Ascii.eqb c d then Some (EmptyString, s)
      else match split_once c s with
           | Some (a, b) => Some (String d a, b)
           | None => None
           end
  end.

(** [s.rsplit_once(c)] *)
Fixpoint rsplit_once (c : ascii) (s : string) : option (string * string) :=
  match s with
  | EmptyString => None
  | String d s =>
      match rsplit_once c s with
      | Some (a, b) => Some (String d a, b)
      | None => if Ascii.eqb c d then Some (EmptyString, s) else None
      end
  end.

(** [s.split(c)]: never empty. *)
Fixpoint split_char (c : ascii) (s : string) : list string :=
  match s with
  | EmptyString => [EmptyString]
  | String d s =>
      if Ascii.eqb c d then EmptyString :: split_char c s
      else match split_char c s with
           | h :: t => String d h :: t
           | [] => [String d EmptyString]
           end
  end.

(** [s.splitn(n, c)], for [n > 0]. *)
Fixpoint splitn (n : nat) (c : ascii) (s : string) : list string :=
  match n with
  | O => []
  | S O => [s]
  | S n => match split_once c s with
           | Some (a, b) => a :: splitn n c b
           | None => [s]
           end
  end.

(** [l.join(sep)] *)
Fixpoint join (sep : string) (l : list string) : string :=
  match l with
  | [] => EmptyString
  | [x] => x
  | x :: l => x +:+ sep +:+ join sep l
  end.

(** [s.trim_end_matches(c)] *)
Fixpoint trim_end_matches (c : ascii) (s : string) : string :=
  match s with
  | EmptyString => EmptyString
  | String d t =>
      match trim_end_matches c t with
      | EmptyString => if Ascii.eqb c d then EmptyString else String d EmptyString
      | t' => String d t'
      end
  end.

(** [s.lines()]: split on [\n], dropping one [\r] before it and the empty
    piece after a final [\n]. *)
Fixpoint strip_cr (s : string) : string :=
  match s with
  | EmptyString => EmptyString
  | String c EmptyString => if Ascii.eqb c "013"%char then EmptyString else s
  | String c t => String c (strip_cr t)
  end.

Fixpoint lines_of (l : list string) : list string :=
  match l with
  | [] => []
  | [x] => if is_empty x then [] else [x]
  | x :: l => strip_cr x :: lines_of l
  end.

Definition lines (s : string) : list string := lines_of (split_char "010"%char s).

(** ** Case *)
Definition ascii_lower (c : ascii) : ascii :=
  let n := N_of_ascii c in
  if ((65 <=? n) && (n <=? 90))%N then ascii_of_N (n + 32) else c.

(** [s.to_ascii_lowercase()] *)
Definition to_ascii_lowercase (s : string) : string := map_bytes ascii_lower s.

(** What goes by the Unicode tables of the standard library: the full case
    mappings and [{:?}]. *)
Class Unicode := {
  to_lowercase : string → string;
  to_uppercase : string → string;
  debug_str : string → string;
}.

(** The tables as far as printable ASCII goes. *)
Definition ascii_upper (c : ascii) : ascii :=
  let n := N_of_ascii c in
  if ((97 <=? n) && (n <=? 122))%N then ascii_of_N (n - 32) else c.
Definition ascii_escape (c : ascii) : string :=
  if Ascii.eqb c "034"%char || Ascii.eqb c "092"%char then String "092"%char (String c EmptyString)
  else String c EmptyString.
Fixpoint ascii_escaped (s : string) : string :=
  match s with EmptyString => EmptyString | String c s => ascii_escape c +:+ ascii_escaped s end.
Definition ascii_tables : Unicode := {|
  to_lowercase := to_ascii_lowercase;
  to_uppercase := map_bytes ascii_upper;
  debug_str s := String "034"%char (ascii_escaped s +:+ String "034"%char EmptyString);
|}.

(** [a.eq_ignore_ascii_case(b)] *)
Definition eq_ignore_ascii_case (a b : string) : bool :=
  String.eqb (to_ascii_lowercase a) (to_ascii_lowercase b).

(** ** White space (the Unicode [White_Space] property, in UTF-8) *)
Definition strip_ws (s : string) : option string :=
  match s with
  | EmptyString => None
  | String c s1 =>
      let n := N_of_ascii c in
      if (((9 <=? n) && (n <=? 13)) || (n =? 32))%N then Some s1
      else match s1 with
      | EmptyString => None
      | String d s2 =>
          let m := N_of_ascii d in
          if ((n =? 194) && ((m =? 133) || (m =? 160)))%N then Some s2
          else match s2 with
          | EmptyString => None
          | String e s3 =>
              let k := N_of_ascii e in
              if (((n =? 225) && (m =? 154) && (k =? 128))
                  || ((n =? 226) && (m =? 128) &&
                      (((128 <=? k) && (k <=? 138)) || (k =? 168) || (k =? 169) || (k =? 175)))
                  || ((n =? 226) && (m =? 129) && (k =? 159))
                  || ((n =? 227) && (m =? 128) && (k =? 128)))%N
              then Some s3 else None
          end
      end
  end.

(** [fuel] bounds the number of characters: [String.length s] is enough. *)
Fixpoint trim_start_go (fuel : nat) (s : string) : string :=
  match fuel with
  | O => s
  | S fuel => match strip_ws s with Some s' => trim_start_go fuel s' | None => s end
  end.
Definition trim_start (s : string) : string := trim_start_go (String.length s) s.

Definition all_ws (s : string) : bool := is_empty (trim_start s).

Fixpoint trim_end (s : string) : string :=
  match s with
  | EmptyString => EmptyString
  | String c t => if all_ws s then EmptyString else String c (trim_end t)
  end.

Definition trim (s : string) : string := trim_end (trim_start s).

(** [s.split_whitespace()]: the non-empty pieces between runs of white space. *)
Fixpoint split_ws_go (fuel : nat) (cur : string) (s : string) : list string :=
  let flush := if is_empty cur then [] else [String.rev cur] in
  match fuel with
  | O => flush
  | S fuel =>
      match strip_ws s with
      | Some s' => flush ++ split_ws_go fuel EmptyString s'
      | None => match s with
                | EmptyString => flush
                | String c s' => split_ws_go fuel (String c cur) s'
                end
      end
  end.
Definition split_whitespace (s : string) : list string :=
  split_ws_go (S (String.length s)) EmptyString s.

Example split_whitespace_ex :
  split_whitespace " did:key:z6  a b " = ["did:key:z6"; "a"; "b"].
Proof. reflexivity. Qed.

Example lines_ex : lines (String.append "a:b" (String "013" (String "010" "c")))
  = ["a:b"; "c"].
Proof. reflexivity. Qed.

(** ** Lemmas *)

Lemma string_eqb_refl s : String.eqb s s = true.
Proof. apply String.eqb_refl. Qed.

Lemma str_app_inj_l p s t : p +:+ s = p +:+ t → s = t.
Proof. induction p as [|c p IH]; [done|]. rewrite !str_app_cons. intros [= H]. auto. Qed.

Lemma str_app_inj_r s t u : s +:+ u = t +:+ u → s = t.
Proof.
  intros H. apply (f_equal as_bytes) in H. rewrite !as_bytes_app in H.
  apply app_inj_2 in H as [H _]; [by apply as_bytes_inj|done].
Qed.

Lemma str_app_is_nil s t : s +:+ t = EmptyString → s = EmptyString ∧ t = EmptyString.
Proof. destruct s; [done|]. by rewrite str_app_cons. Qed.

Lemma strip_prefix_Some p s r : strip_prefix p s = Some r ↔ s = p +:+ r.
Proof.
  revert s; induction p as [|a p IH]; intros [|b s]; cbn.
  - rewrite str_app_nil. naive_solver.
  - rewrite str_app_nil. naive_solver.
  - rewrite str_app_cons. naive_solver.
  - rewrite str_app_cons. destruct (Ascii.eqb_spec a b) as [->|Hne].
    + rewrite IH. split; [by intros ->|by intros [= ->]].
    + split; [done|]. intros [= ?]; congruence.
Qed.

Lemma strip_prefix_app p r : strip_prefix p (p +:+ r) = Some r.
Proof. by apply strip_prefix_Some. Qed.

Lemma starts_with_true p s : starts_with p s = true ↔ ∃ r, s = p +:+ r.
Proof.
  unfold starts_with. split.
  - destruct (strip_prefix p s) eqn:H; [|done]. apply strip_prefix_Some in H. eauto.
  - intros [r ->]. by rewrite strip_prefix_app.
Qed.

Lemma starts_with_app p r : starts_with p (p +:+ r) = true.
Proof. apply starts_with_true. eauto. Qed.

Lemma has_char_app c s t : has_char c (s +:+ t) = has_char c s || has_char c t.
Proof.
  induction s as [|d s IH]; [done|]. rewrite str_app_cons. cbn.
  by rewrite IH, orb_assoc.
Qed.

Lemma all_bytes_app p s t : all_bytes p (s +:+ t) = all_bytes p s && all_bytes p t.
Proof.
  induction s as [|d s IH]; [done|]. rewrite str_app_cons. cbn.
  by rewrite IH, andb_assoc.
Qed.

(** A character outside an alphabet does not occur in a string over it. *)
Lemma all_bytes_no_char p c s : all_bytes p s = true → p c = false → has_char c s = false.
Proof.
  intros H Hc. induction s as [|d s IH]; [done|]. cbn in *.
  apply andb_true_iff in H as [Hd Hs]. rewrite (IH Hs), orb_false_r.
  destruct (Ascii.eqb_spec c d); congruence.
Qed.

Lemma split_once_app c a b :
  has_char c a = false → split_once c (a +:+ String c b) = Some (a, b).
Proof.
  induction a as [|d a IH]; cbn; intros H.
  - by rewrite str_app_nil; cbn; rewrite Ascii.eqb_refl.
  - apply orb_false_iff in H as [Hd Ha]. rewrite str_app_cons. cbn.
    by rewrite Hd, IH.
Qed.

Lemma split_once_Some c s a b :
  split_once c s = Some (a, b) ↔ s = a +:+ String c b ∧ has_char c a = false.
Proof.
  split; [|intros [-> ?]; by apply split_once_app].
  revert a; induction s as [|d s IH]; intros a; cbn; [done|].
  destruct (Ascii.eqb c d) eqn:Hd.
  - intros [= <- <-]. apply Ascii.eqb_eq in Hd as ->. done.
  - destruct (split_once c s) as [[a' b']|]; [|done]. intros [= <- <-].
    destruct (IH a' eq_refl) as [-> Ha]. rewrite str_app_cons. cbn.
    by rewrite Hd, Ha.
Qed.

Lemma split_once_None c s : split_once c s = None ↔ has_char c s = false.
Proof.
  induction s as [|d s IH]; cbn; [done|].
  destruct (Ascii.eqb c d) eqn:Hd; cbn; [done|].
  rewrite <-IH. destruct (split_once c s) as [[??]|]; naive_solver.
Qed.

Lemma rsplit_once_None c s : rsplit_once c s = None ↔ has_char c s = false.
Proof.
  induction s as [|d s IH]; cbn; [done|].
  rewrite orb_false_iff, <-IH.
  destruct (rsplit_once c s) as [[??]|], (Ascii.eqb c d); naive_solver.
Qed.

Lemma rsplit_once_Some c s a b :
  rsplit_once c s = Some (a, b) ↔ s = a +:+ String c b ∧ has_char c b = false.
Proof.
  revert a; induction s as [|d s IH]; intros a; cbn.
  - split; [done|]. intros [H _]. by destruct a.
  - destruct (rsplit_once c s) as [[a' b']|] eqn:Hr.
    + split.
      * intros [= <- <-]. destruct (proj1 (IH a') eq_refl) as [-> ?]. done.
      * intros [H Hb]. destruct a as [|e a].
        { rewrite str_app_nil in H. injection H as -> ->.
          apply rsplit_once_None in Hb. congruence. }
        rewrite str_app_cons in H. injection H as -> H.
        pose proof (proj2 (IH a) (conj H Hb)) as [= -> ->]. done.
    + apply rsplit_once_None in Hr. destruct (Ascii.eqb_spec c d) as [->|Hne].
      * split.
        { intros [= <- <-]. done. }
        intros [H Hb]. destruct a as [|e a].
        { rewrite str_app_nil in H. by injection H as ->. }
        rewrite str_app_cons in H. injection H as -> ->.
        rewrite has_char_app in Hr. cbn in Hr. rewrite Ascii.eqb_refl in Hr.
        by rewrite orb_true_r in Hr.
      * split; [done|]. intros [H Hb]. destruct a as [|e a].
        { rewrite str_app_nil in H. congruence. }
        rewrite str_app_cons in H. injection H as -> ->.
        rewrite has_char_app in Hr. cbn in Hr. rewrite Ascii.eqb_refl in Hr.
        by rewrite orb_true_r in Hr.
Qed.

Lemma split_char_no c s : has_char c s = false → split_char c s = [s].
Proof.
  induction s as [|d s IH]; cbn; [done|]. intros [Hd Hs]%orb_false_iff.
  by rewrite Hd, (IH Hs).
Qed.

Lemma split_char_app c a b :
  has_char c a = false → split_char c (a +:+ String c b) = a :: split_char c b.
Proof.
  induction a as [|d a IH]; cbn; intros H.
  - rewrite str_app_nil. cbn. by rewrite Ascii.eqb_refl.
  - apply orb_false_iff in H as [Hd Ha]. rewrite str_app_cons. cbn.
    by rewrite Hd, IH.
Qed.

Lemma split_char_nonempty c s : split_char c s ≠ [].
Proof. destruct s; cbn; [done|]. case_match; [done|]. by destruct (split_char c s). Qed.

(** Joining what [split] produced gives the string back, and every piece is
    free of the delimiter. *)
Lemma join_split_char c s : join (String c EmptyString) (split_char c s) = s.
Proof.
  induction s as [|d s IH]; [done|]. cbn.
  destruct (Ascii.eqb c d) eqn:Hd.
  - apply Ascii.eqb_eq in Hd as ->. pose proof (split_char_nonempty d s).
    cbn. destruct (split_char d s) eqn:Hs; [done|].
    rewrite str_app_nil, str_app_cons, str_app_nil. by rewrite IH.
  - pose proof (split_char_nonempty c s).
    destruct (split_char c s) as [|h t] eqn:Hs; [done|].
    destruct t; cbn in *; [by rewrite IH|].
    rewrite str_app_cons. by rewrite IH.
Qed.

Lemma split_char_pieces c s : Forall (λ p, has_char c p = false) (split_char c s).
Proof.
  induction s as [|d s IH]; cbn; [by repeat constructor|].
  destruct (Ascii.eqb c d) eqn:Hd; [by constructor|].
  destruct (split_char c s) as [|h t]; cbn in *.
  - repeat constructor. cbn. by rewrite Hd.
  - inv IH. constructor; [cbn; by rewrite Hd|done].
Qed.

(** Splitting a join of delimiter-free pieces gives the pieces back. *)
Lemma split_char_join c l :
  Forall (λ p, has_char c p = false) l → l ≠ [] →
  split_char c (join (String c EmptyString) l) = l.
Proof.
  induction l as [|x l IH]; [done|]. intros H _. inv H.
  destruct l as [|y l]; cbn.
  - by apply split_char_no.
  - rewrite str_app_cons, str_app_nil, split_char_app by done.
    f_equal. by apply IH.
Qed.

Lemma ends_with_app p s : ends_with p (s +:+ p) = true.
Proof.
  induction s as [|c s IH].
  - rewrite str_app_nil. destruct p; cbn; [done|]. by rewrite Ascii.eqb_refl, String.eqb_refl.
  - rewrite str_app_cons. cbn. rewrite IH. by rewrite orb_true_r.
Qed.

Lemma ends_with_true p s : ends_with p s = true ↔ ∃ r, s = r +:+ p.
Proof.
  split; [|intros [r ->]; apply ends_with_app].
  induction s as [|c s IH]; cbn; intros H.
  - rewrite orb_false_r in H. apply String.eqb_eq in H as ->. by exists EmptyString.
  - apply orb_true_iff in H as [H|H].
    + apply String.eqb_eq in H as ->. by exists EmptyString.
    + destruct (IH H) as [r ->]. by exists (String c r).
Qed.

#[export] Hint Rewrite strip_prefix_app starts_with_app has_char_app all_bytes_app : hire.
#[export] Hint Resolve starts_with_app strip_prefix_app : hire.

Lemma is_empty_true s : is_empty s = true ↔ s = EmptyString.
Proof. by destruct s. Qed.
Lemma is_empty_false s : s ≠ "" → is_empty s = false.
Proof. by destruct s. Qed.

(** The last character of a string is the last of its non-empty end. *)
Lemma ends_with_char_app c s t :
  t ≠ "" → ends_with (String c "") (s +:+ t) = ends_with (String c "") t.
Proof.
  intros Ht. induction s as [|d s IH]; [by rewrite str_app_nil|].
  change (String d s +:+ t) with (String d (s +:+ t)). cbn [ends_with]. rewrite IH.
  cbn [String.eqb]. destruct (Ascii.eqb c d); [|done]. by destruct s, t.
Qed.

Lemma str_length_app s t : String.length (s +:+ t) = (String.length s + String.length t)%nat.
Proof.
  induction s as [|c s IH]; [by rewrite str_app_nil|].
  change (String c s +:+ t) with (String c (s +:+ t)). cbn. by rewrite IH.
Qed.

Lemma starts_with_char_app c s t :
  s ≠ "" → starts_with (String c "") (s +:+ t) = starts_with (String c "") s.
Proof.
  destruct s as [|d s]; [done|]. intros _. change (String d s +:+ t) with (String d (s +:+ t)).
  unfold starts_with. cbn. by destruct (Ascii.eqb c d).
Qed.

(** ** Trimming *)

(** A run of white space. *)
Inductive Blank : string → Prop :=
| blank_nil : Blank ""
| blank_cons s s' : strip_ws s = Some s' → Blank s' → Blank s.

Lemma strip_ws_app s s' :
  strip_ws s = Some s' → ∃ p, p ≠ "" ∧ s = p +:+ s' ∧ ∀ t, strip_ws (p +:+ t) = Some t.
Proof.
  destruct s as [|c s]; [done|]. cbn [strip_ws]. cbv zeta.
  case_match eqn:H1; [intros [= <-]; exists (String c "")
    |destruct s as [|d s]; [done|]; case_match eqn:H2; [intros [= <-]; exists (String c (String d ""))
    |destruct s as [|e s]; [done|]; case_match eqn:H3; [|done]; intros [= <-];
     exists (String c (String d (String e "")))]].
  all: split_and!; [done..|intros t; rewrite !str_app_cons, str_app_nil; cbn [strip_ws]; cbv zeta;
    rewrite ?H1, ?H2, ?H3; done].
Qed.

Lemma strip_ws_shorter s s' : strip_ws s = Some s' → (String.length s' < String.length s)%nat.
Proof.
  intros (p & Hp & -> & _)%strip_ws_app. rewrite str_length_app. destruct p; [done|]. cbn. lia.
Qed.


Lemma trim_start_go_split fuel s :
  ∃ b, Blank b ∧ s = b +:+ trim_start_go fuel s.
Proof.
  revert s; induction fuel as [|fuel IH]; intros s; cbn [trim_start_go].
  { exists "". split; [constructor|done]. }
  destruct (strip_ws s) as [s'|] eqn:H; [|exists ""; split; [constructor|done]].
  destruct (IH s') as (b & Hb & E). apply strip_ws_app in H as (p & _ & -> & Hp).
  exists (p +:+ b). split; [by econstructor|]. by rewrite str_app_assoc, <-E.
Qed.

Lemma trim_start_go_blank b fuel s :
  Blank b → strip_ws s = None → (String.length (b +:+ s) ≤ fuel)%nat →
  trim_start_go fuel (b +:+ s) = s.
Proof.
  intros Hb Hs. revert fuel; induction Hb as [|b b' Hw _ IH]; intros fuel Hf.
  - rewrite str_app_nil. destruct fuel; cbn; [done|]. by rewrite Hs.
  - pose proof (strip_ws_shorter _ _ Hw). rewrite str_length_app in Hf, IH.
    apply strip_ws_app in Hw as (p & _ & -> & Hp).
    destruct fuel as [|fuel]; [lia|]. cbn [trim_start_go]. rewrite str_app_assoc, Hp.
    apply IH. lia.
Qed.

Lemma trim_start_blank b s : Blank b → strip_ws s = None → trim_start (b +:+ s) = s.
Proof. intros. by apply trim_start_go_blank. Qed.

Lemma all_ws_blank s : all_ws s = true ↔ Blank s.
Proof.
  unfold all_ws. rewrite is_empty_true. split.
  - intros H. destruct (trim_start_go_split (String.length s) s) as (b & Hb & E).
    unfold trim_start in H. rewrite H in E. by rewrite E, str_app_nil_r.
  - intros H. rewrite <-(str_app_nil_r s). by apply trim_start_blank.
Qed.

Lemma trim_end_split s : ∃ b, Blank b ∧ s = trim_end s +:+ b.
Proof.
  induction s as [|c s (b & Hb & E)]; [exists ""; split; [constructor|done]|].
  cbn [trim_end]. destruct (all_ws (String c s)) eqn:H.
  - exists (String c s). split; [by apply all_ws_blank|done].
  - exists b. split; [done|]. by rewrite str_app_cons, <-E.
Qed.

(** What trimming leaves alone: text no end of which is white space. *)
Lemma trim_end_blank s b :
  Blank b → (∀ p t, s = p +:+ t → t ≠ "" → strip_ws (t +:+ b) = None) → trim_end (s +:+ b) = s.
Proof.
  intros Hb. induction s as [|c s IH]; intros Hs.
  - rewrite str_app_nil. destruct b as [|d b]; [done|]. cbn [trim_end].
    by rewrite (proj2 (all_ws_blank _) Hb).
  - rewrite str_app_cons. cbn [trim_end]. rewrite IH.
    + assert (all_ws (String c (s +:+ b)) = false) as ->; [|done].
      specialize (Hs "" (String c s) eq_refl). rewrite str_app_cons in Hs.
      unfold all_ws, trim_start. cbn [String.length trim_start_go]. by rewrite Hs.
    + intros p t -> Ht. by apply (Hs (String c p) t).
Qed.

(** Text of printable ASCII without the space: no part of it is white space. *)
Definition graphic (c : ascii) : bool := ((33 <=? N_of_ascii c) && (N_of_ascii c <=? 126))%N.

Lemma strip_ws_graphic c s : graphic c = true → strip_ws (String c s) = None.
Proof.
  unfold graphic. intros [H1%N.leb_le H2%N.leb_le]%andb_true_iff. cbn [strip_ws]. cbv zeta.
  replace (N_of_ascii c <=? 13)%N with false by (symmetry; apply N.leb_gt; lia).
  replace (N_of_ascii c =? 32)%N with false by (symmetry; apply N.eqb_neq; lia).
  replace (N_of_ascii c =? 194)%N with false by (symmetry; apply N.eqb_neq; lia).
  replace (N_of_ascii c =? 225)%N with false by (symmetry; apply N.eqb_neq; lia).
  replace (N_of_ascii c =? 226)%N with false by (symmetry; apply N.eqb_neq; lia).
  replace (N_of_ascii c =? 227)%N with false by (symmetry; apply N.eqb_neq; lia).
  rewrite andb_false_r. by destruct s as [|d [|e s]].
Qed.

(** Trimming takes a run of white space off each end, and all of it when what
    is left is graphic. *)
Lemma trim_split s : ∃ b1 b2, Blank b1 ∧ Blank b2 ∧ s = b1 +:+ trim s +:+ b2.
Proof.
  destruct (trim_start_go_split (String.length s) s) as (b1 & H1 & E1).
  destruct (trim_end_split (trim_start s)) as (b2 & H2 & E2).
  exists b1, b2. split_and!; [done..|]. unfold trim. rewrite <-E2. exact E1.
Qed.

Lemma trim_graphic b1 s b2 :
  Blank b1 → Blank b2 → s ≠ "" → all_bytes graphic s = true → trim (b1 +:+ s +:+ b2) = s.
Proof.
  intros H1 H2 Hn Hs. unfold trim. destruct s as [|c s]; [done|].
  rewrite trim_start_blank; [|done|].
  - apply trim_end_blank; [done|]. intros p t E Ht. rewrite E, all_bytes_app in Hs.
    apply andb_true_iff in Hs as [_ Hs]. destruct t as [|d t]; [done|]. cbn [all_bytes] in Hs.
    apply andb_true_iff in Hs as [Hd _]. rewrite str_app_cons. by apply strip_ws_graphic.
  - cbn [all_bytes] in Hs. apply andb_true_iff in Hs as [Hc _]. rewrite str_app_cons.
    by apply strip_ws_graphic.
Qed.
