(* ===== verification/RustNum.v ===== *)
(** * Integers as text and as wire words

    [u64::from_str], [usize::from_str_radix(_, 16)], [Display] for unsigned
    integers, [{:02x}] for bytes, [to_be_bytes]/[from_be_bytes] and their
    little-endian forms, and lossy UTF-8 decoding. *)
From S2P Require Import Prelude RustStr.

Open Scope Z_scope.

(** ** Parsing *)

(** [char::to_digit(radix)] for a byte. *)
Definition to_digit (radix : Z) (c : ascii) : option Z :=
  let n := u8_val c in
  let d :=
    if (48 <=? n) && (n <=? 57) then Some (n - 48)
    else if (97 <=? n) && (n <=? 122) then Some (n - 87)
    else if (65 <=? n) && (n <=? 90) then Some (n - 55)
    else None in
  match d with
  | Some d => if d <? radix then Some d else None
  | None => None
  end.

(** The digit loop: [checked_mul] then [checked_add], [None] on overflow. *)
Fixpoint parse_digits (radix max acc : Z) (s : string) : option Z :=
  match s with
  | EmptyString => Some acc
  | String c s =>
      match to_digit radix c with
      | None => None
      | Some d =>
          if max <? acc * radix then None
          else if max <? acc * radix + d then None
          else parse_digits radix max (acc * radix + d) s
      end
  end.

(** [<uN>::from_str_radix(s, radix)]: one leading [+] is accepted, the empty
    string and a lone sign are not. *)
Definition from_str_radix (radix max : Z) (s : string) : option Z :=
  match s with
  | EmptyString => None
  | String "+" EmptyString => None
  | String "+" rest => parse_digits radix max 0 rest
  | _ => parse_digits radix max 0 s
  end.

Definition parse_u64 (s : string) : option Z := from_str_radix 10 U64_MAX s.

(** ** Printing *)
Definition digit_char (d : Z) : ascii := as_u8 (48 + d).

Fixpoint dec_digits (fuel : nat) (n : Z) (acc : string) : string :=
  match fuel with
  | O => acc
  | S fuel =>
      let acc := String (digit_char (n mod 10)) acc in
      if n <? 10 then acc else dec_digits fuel (n / 10) acc
  end.

(** [Display] for an unsigned integer: 20 digits are enough for 64 bits. *)
Definition show_u64 (n : Z) : string := dec_digits 20 n EmptyString.

(** ** Hex *)
Definition hex_digit (d : Z) : ascii :=
  if d <? 10 then as_u8 (48 + d) else as_u8 (87 + d).

(** [format!("{b:02x}")], appended for every byte. *)
Definition hex_byte (b : byte) : string :=
  String (hex_digit (u8_val b / 16)) (String (hex_digit (u8_val b mod 16)) EmptyString).

Fixpoint hex (bs : list byte) : string :=
  match bs with
  | [] => EmptyString
  | b :: bs => hex_byte b +:+ hex bs
  end.

(** ** Fixed-width words *)
Definition u32_to_be (n : Z) : list byte :=
  [as_u8 (Z.shiftr n 24); as_u8 (Z.shiftr n 16); as_u8 (Z.shiftr n 8); as_u8 n].
Definition u32_from_be (b0 b1 b2 b3 : byte) : Z :=
  u8_val b0 * 16777216 + u8_val b1 * 65536 + u8_val b2 * 256 + u8_val b3.

Definition u32_to_le (n : Z) : list byte := rev (u32_to_be n).
Definition u32_from_le (b0 b1 b2 b3 : byte) : Z := u32_from_be b3 b2 b1 b0.

(** ** [String::from_utf8_lossy]

    A maximal prefix of an ill-formed sequence becomes one U+FFFD. *)
Definition REPLACEMENT : list byte := [as_u8 239; as_u8 191; as_u8 189].

Definition cont (lo hi : Z) (b : byte) : bool := (lo <=? u8_val b) && (u8_val b <=? hi).

(** The length of the sequence a leading byte opens, and the range its second
    byte must lie in; [None] for a byte that opens no sequence. *)
Definition utf8_lead (b : byte) : option (nat * Z * Z) :=
  let n := u8_val b in
  if n <? 128 then Some (1%nat, 0, 0)
  else if n <? 194 then None
  else if n <? 224 then Some (2%nat, 128, 191)
  else if n =? 224 then Some (3%nat, 160, 191)
  else if n =? 237 then Some (3%nat, 128, 159)
  else if n <? 240 then Some (3%nat, 128, 191)
  else if n =? 240 then Some (4%nat, 144, 191)
  else if n <? 244 then Some (4%nat, 128, 191)
  else if n =? 244 then Some (4%nat, 128, 143)
  else None.

Fixpoint lossy_go (fuel : nat) (bs : list byte) : list byte :=
  match fuel, bs with
  | O, _ | _, [] => []
  | S fuel, b :: r =>
      match utf8_lead b with
      | None => REPLACEMENT ++ lossy_go fuel r
      | Some (1%nat, _, _) => b :: lossy_go fuel r
      | Some (len, lo, hi) =>
          match r with
          | c1 :: r1 =>
              if negb (cont lo hi c1) then REPLACEMENT ++ lossy_go fuel r
              else if Nat.eqb len 2 then b :: c1 :: lossy_go fuel r1
              else match r1 with
              | c2 :: r2 =>
                  if negb (cont 128 191 c2) then REPLACEMENT ++ lossy_go fuel r1
                  else if Nat.eqb len 3 then b :: c1 :: c2 :: lossy_go fuel r2
                  else match r2 with
                  | c3 :: r3 =>
                      if negb (cont 128 191 c3) then REPLACEMENT ++ lossy_go fuel r2
                      else b :: c1 :: c2 :: c3 :: lossy_go fuel r3
                  | [] => REPLACEMENT
                  end
              | [] => REPLACEMENT
              end
          | [] => REPLACEMENT
          end
      end
  end.

Definition of_bytes (bs : list byte) : string := Stdlib.Strings.String.string_of_list_ascii bs.

Definition from_utf8_lossy (bs : list byte) : string :=
  of_bytes (lossy_go (length bs) bs).

(** [Path::display], for a path given by its bytes. *)
Definition path_display (path : string) : string := from_utf8_lossy (as_bytes path).

(** [&s[..n]]: the start of a [str], unless [n] is past its end or inside a
    character, where the source panics. *)
Definition is_char_boundary (s : string) (n : nat) : bool :=
  match as_bytes s !! n with
  | Some b => negb ((128 <=? u8_val b) && (u8_val b <? 192))
  | None => (n =? String.length s)%nat
  end.
Definition str_slice_to (n : nat) (s : string) : option string :=
  if is_char_boundary s n then Some (Stdlib.Strings.String.substring 0 n s) else None.

(** ** Lemmas *)

Lemma to_digit_digit_char d : 0 ≤ d < 10 → to_digit 10 (digit_char d) = Some d.
Proof.
  intros H. unfold to_digit, digit_char. rewrite u8_val_as_u8, Z.mod_small by lia.
  replace ((48 <=? 48 + d) && (48 + d <=? 57)) with true by lia.
  replace (48 + d - 48) with d by lia. by replace (d <? 10) with true by lia.
Qed.

(** Printing then reading back, from any accumulator. *)
Lemma parse_dec_digits fuel n acc :
  0 ≤ n ≤ U64_MAX → n < 10 ^ Z.of_nat fuel →
  parse_digits 10 U64_MAX 0 (dec_digits fuel n acc) = parse_digits 10 U64_MAX n acc.
Proof.
  revert n acc; induction fuel as [|fuel IH]; intros n acc Hn Hf.
  - change (n < 1) in Hf. assert (n = 0) as -> by lia. done.
  - cbn. pose proof (Z.mod_pos_bound n 10 ltac:(lia)).
    pose proof (Z.div_mod n 10 ltac:(lia)).
    destruct (n <? 10) eqn:H10; zify_bool.
    + cbn. rewrite to_digit_digit_char by lia.
      rewrite Z.mod_small by lia.
      change (0 * 10) with 0. rewrite Z.add_0_l.
      replace (U64_MAX <? 0) with false by lia.
      by replace (U64_MAX <? n) with false by lia.
    + rewrite Nat2Z.inj_succ, Z.pow_succ_r in Hf by lia.
      rewrite IH by (try split; try lia; apply Z.div_lt_upper_bound; lia).
      cbn. rewrite to_digit_digit_char by lia.
      replace (n / 10 * 10 + n mod 10) with n by lia.
      replace (U64_MAX <? n / 10 * 10) with false by lia.
      by replace (U64_MAX <? n) with false by lia.
Qed.

Lemma digit_char_not_plus d : 0 ≤ d < 10 → digit_char d ≠ "+"%char.
Proof.
  intros H E. apply (f_equal u8_val) in E. unfold digit_char in E.
  rewrite u8_val_as_u8, Z.mod_small in E by lia.
  change (u8_val "+"%char) with 43 in E. lia.
Qed.

(** The first character printed is a digit. *)
Lemma dec_digits_head fuel n acc :
  0 ≤ n → ∃ d s, 0 ≤ d < 10 ∧ dec_digits (S fuel) n acc = String (digit_char d) s.
Proof.
  revert n acc; induction fuel as [|fuel IH]; intros n acc Hn; cbn.
  - pose proof (Z.mod_pos_bound n 10 ltac:(lia)).
    exists (n mod 10), acc. split; [lia|]. by destruct (n <? 10).
  - pose proof (Z.mod_pos_bound n 10 ltac:(lia)).
    destruct (n <? 10); [by exists (n mod 10), acc; split; [lia|]|].
    destruct (IH (n / 10) (String (digit_char (n mod 10)) acc)) as (d & s & ? & E);
      [apply Z.div_pos; lia|].
    exists d, s. done.
Qed.

Lemma parse_show_u64 n : 0 ≤ n ≤ U64_MAX → parse_u64 (show_u64 n) = Some n.
Proof.
  intros H. unfold parse_u64, from_str_radix, show_u64.
  assert (Hp : parse_digits 10 U64_MAX 0 (dec_digits 20 n EmptyString) = Some n).
  { rewrite parse_dec_digits; [done|lia|]. unfold U64_MAX in H. lia. }
  destruct (dec_digits_head 19 n EmptyString ltac:(lia)) as (d & s & Hd & E).
  rewrite E in Hp |- *.
  destruct (digit_char d) as [[] [] [] [] [] [] [] []] eqn:Hc; try exact Hp.
  exfalso. by apply (digit_char_not_plus d).
Qed.

Lemma show_u64_inj n m : 0 ≤ n ≤ U64_MAX → 0 ≤ m ≤ U64_MAX → show_u64 n = show_u64 m → n = m.
Proof.
  intros Hn Hm E. apply parse_show_u64 in Hn. apply parse_show_u64 in Hm.
  rewrite E, Hm in Hn. by injection Hn.
Qed.

Lemma digit_char_ascii d : 0 ≤ d < 10 → 48 ≤ u8_val (digit_char d) ≤ 57.
Proof. intros H. unfold digit_char. rewrite u8_val_as_u8, Z.mod_small; lia. Qed.

(** A decimal number contains none of the program's delimiters. *)
Definition is_digit (c : ascii) : bool := (48 <=? u8_val c) && (u8_val c <=? 57).

(** [k] digits are enough below [10 ^ k]. *)
Lemma dec_digits_length fuel n acc k :
  0 ≤ n < 10 ^ Z.of_nat (S k) →
  (String.length (dec_digits fuel n acc) ≤ S k + String.length acc)%nat.
Proof.
  revert n acc k; induction fuel as [|fuel IH]; intros n acc k Hn; cbn [dec_digits]; [lia|].
  destruct (Z.ltb_spec n 10); [cbn; lia|]. destruct k as [|k]; [cbn in Hn; lia|].
  rewrite Nat2Z.inj_succ, Z.pow_succ_r in Hn by lia.
  etrans; [apply (IH _ _ k)|cbn; lia].
  split; [apply Z.div_pos; lia|apply Z.div_lt_upper_bound; lia].
Qed.

Lemma dec_digits_all fuel n acc :
  0 ≤ n → all_bytes is_digit acc = true → all_bytes is_digit (dec_digits fuel n acc) = true.
Proof.
  revert n acc; induction fuel as [|fuel IH]; intros n acc Hn Ha; cbn; [done|].
  pose proof (Z.mod_pos_bound n 10 ltac:(lia)).
  pose proof (digit_char_ascii (n mod 10) ltac:(lia)).
  assert (all_bytes is_digit (String (digit_char (n mod 10)) acc) = true).
  { cbn. rewrite Ha. unfold is_digit. lia. }
  destruct (n <? 10); [done|]. apply IH; [apply Z.div_pos; lia|done].
Qed.

Lemma show_u64_digits n : 0 ≤ n → all_bytes is_digit (show_u64 n) = true.
Proof. intros. by apply dec_digits_all. Qed.

Lemma to_digit_nonneg radix c d : to_digit radix c = Some d → 0 ≤ d.
Proof.
  unfold to_digit. pose proof (u8_val_range c).
  destruct (48 <=? u8_val c) eqn:?, (u8_val c <=? 57) eqn:?, (97 <=? u8_val c) eqn:?,
    (u8_val c <=? 122) eqn:?, (65 <=? u8_val c) eqn:?, (u8_val c <=? 90) eqn:?; cbn;
    try done; destruct (_ <? radix); try done; intros [= <-]; zify_bool; lia.
Qed.

Lemma parse_digits_nonneg radix max acc s n :
  0 ≤ acc → 0 ≤ radix → parse_digits radix max acc s = Some n → 0 ≤ n.
Proof.
  intros Ha Hr. revert acc Ha; induction s as [|c s IH]; intros acc Ha; cbn [parse_digits].
  - intros [= <-]. done.
  - destruct (to_digit radix c) as [d|] eqn:Hd; [|done].
    apply to_digit_nonneg in Hd.
    do 2 (case_match; [done|]). intros E; revert E. apply IH. nia.
Qed.

Lemma from_str_radix_nonneg radix max s n :
  0 ≤ radix → from_str_radix radix max s = Some n → 0 ≤ n.
Proof.
  intros Hr. unfold from_str_radix.
  repeat case_match; try done; intros H'; eapply parse_digits_nonneg; try exact H'; lia.
Qed.

Lemma parse_u64_range s n : parse_u64 s = Some n → 0 ≤ n ≤ U64_MAX.
Proof.
  unfold parse_u64.
  assert (Hg : ∀ s acc n, 0 ≤ acc ≤ U64_MAX →
    parse_digits 10 U64_MAX acc s = Some n → 0 ≤ n ≤ U64_MAX).
  { clear. intros s. induction s as [|c s IH]; intros acc n Ha; cbn; [naive_solver|].
    destruct (to_digit 10 c) as [d|] eqn:Hd; [|done].
    assert (0 ≤ d < 10).
    { unfold to_digit in Hd. pose proof (u8_val_range c).
      destruct (48 <=? u8_val c) eqn:?, (u8_val c <=? 57) eqn:?; cbn in Hd;
        case_result; zify_bool; lia. }
    do 2 (case_match; [done|]). zify_bool. intros E; revert E. apply IH. lia. }
  unfold from_str_radix. destruct s as [|c s]; [done|].
  assert (0 ≤ 0 ≤ U64_MAX) by (unfold U64_MAX; lia).
  destruct (Ascii.eqb_spec c "+"%char) as [->|].
  - destruct s; [done|]. by apply Hg.
  - destruct c as [[] [] [] [] [] [] [] []]; try by apply Hg.
    done.
Qed.

(** ** Hex lemmas *)
Definition is_hex_digit (c : ascii) : bool :=
  is_digit c || ((97 <=? u8_val c) && (u8_val c <=? 102)).

Lemma hex_digit_val d : 0 ≤ d < 16 →
  u8_val (hex_digit d) = (if d <? 10 then 48 + d else 87 + d).
Proof.
  intros H. unfold hex_digit. destruct (d <? 10); rewrite u8_val_as_u8, Z.mod_small; lia.
Qed.

Lemma hex_digit_inj d e : 0 ≤ d < 16 → 0 ≤ e < 16 → hex_digit d = hex_digit e → d = e.
Proof.
  intros Hd He H. apply (f_equal u8_val) in H. rewrite !hex_digit_val in H by done.
  destruct (d <? 10) eqn:?, (e <? 10) eqn:?; zify_bool; lia.
Qed.

Lemma hex_digit_is_hex d : 0 ≤ d < 16 → is_hex_digit (hex_digit d) = true.
Proof.
  intros H. unfold is_hex_digit, is_digit. rewrite hex_digit_val by done.
  destruct (d <? 10) eqn:?; zify_bool; lia.
Qed.

Lemma nibbles b : 0 ≤ u8_val b / 16 < 16 ∧ 0 ≤ u8_val b mod 16 < 16.
Proof.
  pose proof (u8_val_range b). split; [|apply Z.mod_pos_bound; lia].
  split; [apply Z.div_pos; lia|apply Z.div_lt_upper_bound; lia].
Qed.

Lemma hex_byte_inj a b s t : hex_byte a +:+ s = hex_byte b +:+ t → a = b ∧ s = t.
Proof.
  unfold hex_byte. rewrite !str_app_cons, !str_app_nil. intros [= H1 H2 ->].
  destruct (nibbles a), (nibbles b).
  apply hex_digit_inj in H1; [|done..]. apply hex_digit_inj in H2; [|done..].
  split; [|done]. apply u8_val_inj.
  by rewrite (Z.div_mod (u8_val a) 16), (Z.div_mod (u8_val b) 16), H1, H2 by lia.
Qed.

Lemma hex_inj bs cs : hex bs = hex cs → bs = cs.
Proof.
  revert cs; induction bs as [|b bs IH]; intros [|c cs]; cbn; [done|done|done|].
  intros H. apply hex_byte_inj in H as [-> H]. f_equal. by apply IH.
Qed.

Lemma hex_length bs : String.length (hex bs) = (2 * length bs)%nat.
Proof.
  induction bs as [|b bs IH]; [done|]. cbn. unfold hex_byte.
  rewrite !str_app_cons, str_app_nil. cbn. rewrite IH. lia.
Qed.

Lemma hex_all_hex bs : all_bytes is_hex_digit (hex bs) = true.
Proof.
  induction bs as [|b bs IH]; [done|]. cbn. unfold hex_byte.
  rewrite !str_app_cons, str_app_nil. cbn. destruct (nibbles b).
  by rewrite !hex_digit_is_hex, IH by done.
Qed.

(** ** Word round trips *)
Lemma u32_be_roundtrip n :
  0 ≤ n < 2 ^ 32 →
  match u32_to_be n with
  | [b0; b1; b2; b3] => u32_from_be b0 b1 b2 b3 = n
  | _ => False
  end.
Proof.
  intros H. unfold u32_to_be, u32_from_be. rewrite !u8_val_as_u8.
  rewrite !Z.shiftr_div_pow2 by lia.
  change (2 ^ 24) with 16777216; change (2 ^ 16) with 65536; change (2 ^ 8) with 256.
  Z.div_mod_to_equations; lia.
Qed.

Lemma u32_from_be_range b0 b1 b2 b3 : 0 ≤ u32_from_be b0 b1 b2 b3 < 2 ^ 32.
Proof.
  unfold u32_from_be. pose proof (u8_val_range b0). pose proof (u8_val_range b1).
  pose proof (u8_val_range b2). pose proof (u8_val_range b3). lia.
Qed.

Lemma u32_to_from_be b0 b1 b2 b3 : u32_to_be (u32_from_be b0 b1 b2 b3) = [b0; b1; b2; b3].
Proof.
  pose proof (u8_val_range b0). pose proof (u8_val_range b1).
  pose proof (u8_val_range b2). pose proof (u8_val_range b3).
  unfold u32_to_be, u32_from_be. rewrite !Z.shiftr_div_pow2 by lia.
  change (2 ^ 24) with 16777216; change (2 ^ 16) with 65536; change (2 ^ 8) with 256.
  repeat f_equal; apply u8_val_inj; rewrite u8_val_as_u8; Z.div_mod_to_equations; lia.
Qed.

(** ASCII bytes decode to themselves. *)
Lemma lossy_go_ascii fuel bs :
  Forall (λ b, u8_val b < 128) bs → (length bs ≤ fuel)%nat → lossy_go fuel bs = bs.
Proof.
  revert bs; induction fuel as [|fuel IH]; intros bs H Hl.
  - destruct bs; [done|cbn in Hl; lia].
  - destruct bs as [|b bs]; [done|]. inv H. cbn in *. unfold utf8_lead.
    replace (u8_val b <? 128) with true by lia. f_equal. apply IH; [done|lia].
Qed.

Lemma from_utf8_lossy_ascii bs :
  Forall (λ b, u8_val b < 128) bs → from_utf8_lossy bs = of_bytes bs.
Proof. intros H. unfold from_utf8_lossy. by rewrite lossy_go_ascii. Qed.

Lemma of_bytes_as_bytes s : of_bytes (as_bytes s) = s.
Proof. induction s as [|c s IH]; [done|]. cbn. f_equal. exact IH. Qed.

Lemma as_bytes_of_bytes bs : as_bytes (of_bytes bs) = bs.
Proof. induction bs as [|c s IH]; [done|]. cbn. f_equal. exact IH. Qed.

(** A character that is no digit makes the whole parse fail. *)
Lemma parse_digits_bad radix max acc s c r :
  to_digit radix c = None → parse_digits radix max acc (s +:+ String c r) = None.
Proof.
  intros Hc. revert acc; induction s as [|b s IH]; intros acc;
    rewrite ?str_app_nil, ?str_app_cons; cbn [parse_digits]; [by rewrite Hc|].
  destruct (to_digit radix b); [|done]. rewrite IH. by repeat case_match.
Qed.

Lemma parse_u64_bad s c r :
  to_digit 10 c = None → c ≠ "+"%char → parse_u64 (s +:+ String c r) = None.
Proof.
  intros Hc Hp. unfold parse_u64, from_str_radix.
  destruct s as [|b s]; rewrite ?str_app_nil, ?str_app_cons.
  - destruct c as [[] [] [] [] [] [] [] []]; try done; cbn [parse_digits]; by rewrite Hc.
  - destruct (Ascii.eqb_spec b "+"%char) as [-> | Hb].
    + destruct (s +:+ String c r) as [|x y] eqn:E; [done|]. rewrite <-E. by apply parse_digits_bad.
    + pose proof (parse_digits_bad 10 U64_MAX 0 (String b s) c r Hc) as H.
      rewrite str_app_cons in H. by destruct b as [[] [] [] [] [] [] [] []].
Qed.

Example parse_plus : parse_u64 "+5" = Some 5. Proof. reflexivity. Qed.
Example parse_over : parse_u64 "18446744073709551616" = None. Proof. reflexivity. Qed.
Example show_max : show_u64 U64_MAX = "18446744073709551615". Proof. reflexivity. Qed.

(** ** Hexadecimal numerals *)

(** A digit is worth its place in the alphabet, a letter in either case. *)
Definition hex_place (c : ascii) : option Z :=
  Z.of_nat <$> Stdlib.Strings.String.index 0 (String (ascii_lower c) "") "0123456789abcdef".

(** What a numeral after one worth [acc] makes of the two together. *)
Fixpoint hex_value (acc : Z) (s : string) : option Z :=
  match s with
  | EmptyString => Some acc
  | String c s => let! d := hex_place c in hex_value (16 * acc + d) s
  end.

(** [from_str_radix(_, 16)] reads a numeral of at least one digit, after at
    most one [+]. *)
Definition hex_numeral (s : string) (n : Z) : Prop := s ≠ "" ∧ hex_value 0 s = Some n.

Lemma to_digit_hex c : to_digit 16 c = hex_place c.
Proof. by destruct c as [[] [] [] [] [] [] [] []]. Qed.

Lemma hex_place_range c d : hex_place c = Some d → 0 ≤ d < 16 ∧ graphic c = true ∧ c ≠ "+"%char ∧ c ≠ ";"%char.
Proof. destruct c as [[] [] [] [] [] [] [] []]; cbn; try done; intros [= <-]; done. Qed.

Lemma hex_value_ge acc s n : 0 ≤ acc → hex_value acc s = Some n → acc ≤ n.
Proof.
  revert acc; induction s as [|c s IH]; intros acc Ha; cbn [hex_value]; [intros [= <-]; lia|].
  destruct (hex_place c) as [d|] eqn:Hd; [|done]. apply hex_place_range in Hd as [Hd _].
  intros H. apply IH in H; lia.
Qed.

(** The bounded loop agrees with the unbounded value wherever that fits. *)
Lemma parse_digits_hex max acc s n :
  0 ≤ acc ≤ max → parse_digits 16 max acc s = Some n ↔ hex_value acc s = Some n ∧ n ≤ max.
Proof.
  revert acc; induction s as [|c s IH]; intros acc Ha; cbn [parse_digits hex_value].
  - split; [intros [= <-]; split; [done|lia]|by intros [? _]].
  - rewrite to_digit_hex. destruct (hex_place c) as [d|] eqn:Hd; [|by split; [|intros [? _]]].
    apply hex_place_range in Hd as [Hd _]. cbn [mbind option_bind].
    replace (acc * 16) with (16 * acc) by lia.
    destruct (Z.ltb_spec max (16 * acc)); [|destruct (Z.ltb_spec max (16 * acc + d))].
    1,2: split; [done|intros [Hv ?]; apply hex_value_ge in Hv; lia].
    apply IH. lia.
Qed.

Lemma hex_value_graphic acc s n :
  hex_value acc s = Some n → all_bytes graphic s = true ∧ has_char ";" s = false.
Proof.
  revert acc; induction s as [|c s IH]; intros acc; cbn [hex_value all_bytes has_char]; [done|].
  destruct (hex_place c) as [d|] eqn:Hd; [|done]. intros [-> ->]%IH.
  apply hex_place_range in Hd as (_ & -> & _ & Hc). split; [done|].
  by destruct (Ascii.eqb_spec ";" c).
Qed.

Lemma from_str_radix_hex max s n :
  0 ≤ max →
  from_str_radix 16 max s = Some n ↔
  ∃ sign digits, s = sign +:+ digits ∧ (sign = "" ∨ sign = "+") ∧ hex_numeral digits n ∧ n ≤ max.
Proof.
  intros Hm. unfold from_str_radix. destruct s as [|c s].
  { split; [done|]. intros (sign & digits & E & _ & [Hd _] & _). symmetry in E.
    by apply str_app_is_nil in E as [_ ->]. }
  destruct (Ascii.eqb_spec c "+"%char) as [->|Hc].
  - assert (match s with "" => None | _ => parse_digits 16 max 0 s end = Some n ↔
      hex_numeral s n ∧ n ≤ max) as Hs.
    { destruct s as [|b s]; [split; [done|by intros [[? _] _]]|].
      rewrite parse_digits_hex by lia. unfold hex_numeral. split; [by intros []|by intros [[] ?]]. }
    etrans; [exact Hs|]. split.
    + intros [? ?]. exists "+", s. by auto.
    + intros (sign & digits & E & [->| ->] & Hn & ?).
      * rewrite str_app_nil in E. subst digits. exfalso. destruct Hn as [_ Hn].
        cbn [hex_value] in Hn. destruct (hex_place "+") as [d|] eqn:Hd; [|done].
        by apply hex_place_range in Hd as (_ & _ & ? & _).
      * rewrite str_app_cons, str_app_nil in E. by injection E as ->.
  - etrans; [|etrans; [exact (parse_digits_hex max 0 (String c s) n ltac:(lia))|]].
    { destruct c as [[] [] [] [] [] [] [] []]; done. }
    split.
    + intros [? ?]. exists "", (String c s). split_and!; [done|by left|done..].
    + intros (sign & digits & Es & [->| ->] & [Hn1 Hn2] & ?).
      * rewrite str_app_nil in Es. by subst.
      * rewrite str_app_cons in Es. congruence.
Qed.

(** ASCII text before anything else decodes to itself. *)
Lemma from_utf8_lossy_ascii_app s bs :
  all_bytes graphic s = true → from_utf8_lossy (as_bytes s ++ bs) = s +:+ from_utf8_lossy bs.
Proof.
  intros Hs. unfold from_utf8_lossy. induction s as [|c s IH]; [done|].
  cbn [all_bytes] in Hs. apply andb_true_iff in Hs as [Hc Hs].
  change (as_bytes (String c s)) with (c :: as_bytes s). rewrite str_app_cons, <-IH by done.
  cbn [app length lossy_go]. unfold utf8_lead.
  assert ((u8_val c <? 128) = true) as ->; [|done].
  unfold graphic in Hc. apply andb_true_iff in Hc as [_ Hc%N.leb_le]. unfold u8_val. lia.
Qed.
