(* ===== verification/Assurance.v ===== *)
(** * Identity assurance and presence levels ([hire-core/src/assurance.rs])

    The two enums, their derived order (declaration order), [Display] and
    [FromStr].  Everything above compares levels with [>], [>=] and [max]. *)
From S2P Require Import Prelude RustStr.

Inductive AssuranceError : Type :=
| UnknownAssurance (s : string)
| UnknownPresence (s : string).

Inductive IdentityAssurance : Type := Iaa1 | Iaa2 | Iaa3.

Inductive PresenceLevel : Type :=
| PresenceNone | PresenceSession | PresenceSoftware | PresenceHardware.

#[export] Instance IdentityAssurance_eq_dec : EqDecision IdentityAssurance.
Proof. solve_decision. Defined.
#[export] Instance PresenceLevel_eq_dec : EqDecision PresenceLevel.
Proof. solve_decision. Defined.

(** [#[derive(PartialOrd, Ord)]]: the position in the declaration. *)
Definition assurance_rank (a : IdentityAssurance) : nat :=
  match a with Iaa1 => 0 | Iaa2 => 1 | Iaa3 => 2 end.
Definition presence_rank (p : PresenceLevel) : nat :=
  match p with
  | PresenceNone => 0 | PresenceSession => 1
  | PresenceSoftware => 2 | PresenceHardware => 3
  end.

Definition assurance_leb (a b : IdentityAssurance) : bool :=
  assurance_rank a <=? assurance_rank b.
Definition presence_leb (p q : PresenceLevel) : bool :=
  presence_rank p <=? presence_rank q.
Definition presence_ltb (p q : PresenceLevel) : bool :=
  presence_rank p <? presence_rank q.

(** [Ord::max]: the second argument on a tie, which no one can observe here. *)
Definition assurance_max (a b : IdentityAssurance) : IdentityAssurance :=
  if assurance_leb a b then b else a.
Definition presence_max (p q : PresenceLevel) : PresenceLevel :=
  if presence_leb p q then q else p.

Definition show_assurance (a : IdentityAssurance) : string :=
  match a with Iaa1 => "iaa1" | Iaa2 => "iaa2" | Iaa3 => "iaa3" end.

Definition parse_assurance (s : string) : result IdentityAssurance AssuranceError :=
  if String.eqb s "iaa1" then Ok Iaa1
  else if String.eqb s "iaa2" then Ok Iaa2
  else if String.eqb s "iaa3" then Ok Iaa3
  else Err (UnknownAssurance s).

Definition show_presence (p : PresenceLevel) : string :=
  match p with
  | PresenceNone => "none"
  | PresenceSession => "session"
  | PresenceSoftware => "software"
  | PresenceHardware => "hardware"
  end.

Definition parse_presence (s : string) : result PresenceLevel AssuranceError :=
  if String.eqb s "none" then Ok PresenceNone
  else if String.eqb s "session" then Ok PresenceSession
  else if String.eqb s "software" then Ok PresenceSoftware
  else if String.eqb s "hardware" then Ok PresenceHardware
  else Err (UnknownPresence s).

(** ** Lemmas *)
Lemma parse_show_assurance a : parse_assurance (show_assurance a) = Ok a.
Proof. by destruct a. Qed.

Lemma parse_show_presence p : parse_presence (show_presence p) = Ok p.
Proof. by destruct p. Qed.

Lemma parse_assurance_Ok s a : parse_assurance s = Ok a ↔ s = show_assurance a.
Proof.
  split; [|intros ->; apply parse_show_assurance].
  unfold parse_assurance.
  repeat (case_streq; [by intros [= <-]|]). done.
Qed.

Lemma parse_presence_Ok s p : parse_presence s = Ok p ↔ s = show_presence p.
Proof.
  split; [|intros ->; apply parse_show_presence].
  unfold parse_presence.
  repeat (case_streq; [by intros [= <-]|]). done.
Qed.

Lemma presence_leb_refl p : presence_leb p p = true.
Proof. by destruct p. Qed.
Lemma presence_leb_trans p q r :
  presence_leb p q = true → presence_leb q r = true → presence_leb p r = true.
Proof. by destruct p, q, r. Qed.
Lemma presence_ltb_nle p q : presence_ltb p q = negb (presence_leb q p).
Proof. by destruct p, q. Qed.
Lemma presence_rank_inj p q : presence_rank p = presence_rank q → p = q.
Proof. by destruct p, q. Qed.
Lemma assurance_rank_inj a b : assurance_rank a = assurance_rank b → a = b.
Proof. by destruct a, b. Qed.

(** [max] forms a commutative idempotent monoid with the least level as unit,
    so folds over requirements do not depend on order. *)
Lemma presence_max_comm p q : presence_max p q = presence_max q p.
Proof. by destruct p, q. Qed.
Lemma presence_max_assoc p q r :
  presence_max (presence_max p q) r = presence_max p (presence_max q r).
Proof. by destruct p, q, r. Qed.
Lemma presence_max_none_l p : presence_max PresenceNone p = p.
Proof. by destruct p. Qed.
Lemma presence_max_lub p q r :
  presence_leb (presence_max p q) r = presence_leb p r && presence_leb q r.
Proof. by destruct p, q, r. Qed.
Lemma presence_max_rank p q :
  presence_rank (presence_max p q) = presence_rank p `max` presence_rank q.
Proof. by destruct p, q. Qed.
Lemma assurance_max_rank a b :
  assurance_rank (assurance_max a b) = assurance_rank a `max` assurance_rank b.
Proof. by destruct a, b. Qed.
Lemma assurance_max_comm a b : assurance_max a b = assurance_max b a.
Proof. by destruct a, b. Qed.
Lemma assurance_max_assoc a b c :
  assurance_max (assurance_max a b) c = assurance_max a (assurance_max b c).
Proof. by destruct a, b, c. Qed.

#[export] Hint Resolve presence_leb_refl presence_leb_trans : hire.
#[export] Hint Rewrite parse_show_assurance parse_show_presence : hire.
