(* ===== verification/SpiffeId.v ===== *)
(** * SPIFFE IDs and trust domains ([hire-core/src/spiffe_id.rs])

    [TrustDomain] with its [Display] and [FromStr], [SpiffeId] with [uri],
    [provenance], [pseudonymous] and [FromStr]. *)
From S2P Require Import Prelude RustStr.

Inductive SpiffeIdError : Type :=
| MissingScheme
| MissingTrustDomain
| MissingPath
| UnknownTrustDomain (s : string)
| IllegalTrustDomain (s : string).

(** The [#[error(...)]] texts. *)
Definition show_spiffe_error (e : SpiffeIdError) : string :=
  match e with
  | MissingScheme => "missing spiffe:// scheme"
  | MissingTrustDomain => "missing trust domain"
  | MissingPath => "missing path"
  | UnknownTrustDomain s => "unknown trust domain: " +:+ s
  | IllegalTrustDomain s => "illegal character in trust domain: " +:+ s
  end.

Inductive TrustDomain : Type :=
| Tailscale
| OrgOidc (domain : string)
| PersonalDid (did : string)
| PivIssuer (issuer : string)
| SshLocal
| PgpLocal.

#[export] Instance TrustDomain_eq_dec : EqDecision TrustDomain.
Proof. solve_decision. Defined.

(** [impl Display for TrustDomain] *)
Definition show_td (td : TrustDomain) : string :=
  match td with
  | Tailscale => "tailscale"
  | OrgOidc domain => "oidc." +:+ domain
  | PersonalDid did => "personal." +:+ did
  | PivIssuer issuer => "piv." +:+ issuer
  | SshLocal => "ssh.local"
  | PgpLocal => "pgp.local"
  end.

(** [b.is_ascii_lowercase() || b.is_ascii_digit() || b".-_".contains(&b)] *)
Definition td_char (c : ascii) : bool :=
  let n := N_of_ascii c in
  ((97 <=? n) && (n <=? 122))%N || ((48 <=? n) && (n <=? 57))%N
  || has_char c ".-_".

(** [impl FromStr for TrustDomain] *)
Definition parse_td (s : string) : result TrustDomain SpiffeIdError :=
  if is_empty s then Err MissingTrustDomain
  else if negb (all_bytes td_char s) then Err (IllegalTrustDomain s)
  else if String.eqb s "tailscale" then Ok Tailscale
  else if String.eqb s "ssh.local" then Ok SshLocal
  else if String.eqb s "pgp.local" then Ok PgpLocal
  else match split_once "."%char s with
       | Some (label, rest) =>
           if String.eqb label "personal" && negb (is_empty rest) then Ok (PersonalDid rest)
           else if String.eqb label "piv" && negb (is_empty rest) then Ok (PivIssuer rest)
           else if String.eqb label "oidc" && negb (is_empty rest) then Ok (OrgOidc rest)
           else Err (UnknownTrustDomain s)
       | None => Err (UnknownTrustDomain s)
       end.

Record SpiffeId : Type := mkSpiffeId {
  trust_domain : TrustDomain;
  path : string;
}.

#[export] Instance SpiffeId_eq_dec : EqDecision SpiffeId.
Proof. solve_decision. Defined.

(** [SpiffeId::uri], also [Display]. *)
Definition uri (id : SpiffeId) : string :=
  "spiffe://" +:+ show_td (trust_domain id) +:+ "/" +:+ path id.

(** [SpiffeId::provenance] *)
Definition provenance (id : SpiffeId) : option string :=
  let! (prefix, source) := rsplit_once "/"%char (path id) in
  if String.eqb prefix "via" || ends_with "/via" prefix then Some source else None.

(** [SpiffeId::pseudonymous] *)
Definition pseudonymous (td : TrustDomain) (hkdf_id : string) : SpiffeId :=
  mkSpiffeId td ("pseudonym/" +:+ hkdf_id).

(** [impl FromStr for SpiffeId] *)
Definition parse_spiffe_id (s : string) : result SpiffeId SpiffeIdError :=
  let? rest := ok_or (strip_prefix "spiffe://" s) MissingScheme in
  let? (td_str, p) := ok_or (split_once "/"%char rest) MissingPath in
  if is_empty td_str then Err MissingTrustDomain
  else if is_empty p then Err MissingPath
  else let? td := parse_td td_str in Ok (mkSpiffeId td p).

(** The payloads [FromStr] can give back: non-empty, over the alphabet. *)
Definition td_payload (td : TrustDomain) : option string :=
  match td with
  | OrgOidc s | PersonalDid s | PivIssuer s => Some s
  | _ => None
  end.
Definition td_canonical (td : TrustDomain) : bool :=
  match td_payload td with
  | Some s => negb (is_empty s) && all_bytes td_char s
  | None => true
  end.

(** ** Lemmas *)

Lemma td_char_not_slash : td_char "/"%char = false.
Proof. reflexivity. Qed.

Lemma show_td_canonical_chars td :
  td_canonical td = true → all_bytes td_char (show_td td) = true.
Proof.
  unfold td_canonical; destruct td; cbn [td_payload show_td]; try done;
    intros [_ H]%andb_true_iff; by rewrite all_bytes_app, H.
Qed.

(** [Display] then [FromStr]. *)
Lemma parse_show_td td : td_canonical td = true → parse_td (show_td td) = Ok td.
Proof.
  intros H. pose proof (show_td_canonical_chars td H) as Hc.
  destruct td as [|s|s|s| |]; try done.
  all: unfold td_canonical, td_payload in H; apply andb_true_iff in H as [He _].
  all: unfold parse_td; rewrite Hc; cbn [show_td].
  all: destruct s as [|c s]; [done|]; reflexivity.
Qed.

(** [FromStr] accepts nothing but what [Display] writes. *)
Lemma parse_td_Ok s td : parse_td s = Ok td → show_td td = s ∧ td_canonical td = true.
Proof.
  unfold parse_td. destruct (is_empty s) eqn:He; [done|].
  destruct (all_bytes td_char s) eqn:Hc; [cbn [negb]|done].
  do 3 (case_streq; [by intros [= <-]|]).
  destruct (split_once "."%char s) as [[label rest]|] eqn:Hs; [|done].
  apply split_once_Some in Hs as [-> _].
  rewrite all_bytes_app in Hc. apply andb_true_iff in Hc as [_ Hc].
  change (all_bytes td_char rest = true) in Hc.
  destruct (is_empty rest) eqn:Hr; [by repeat case_streq|].
  rewrite !andb_true_r.
  do 3 (case_streq; [intros [= <-]; unfold td_canonical; cbn [td_payload];
                     by rewrite Hr, Hc|]). done.
Qed.

Lemma show_td_inj td td' : show_td td = show_td td' → td = td'.
Proof.
  destruct td, td'; cbn [show_td]; try done; intros H;
    try (apply str_app_inj_l in H; by subst).
Qed.

Lemma show_td_no_slash td :
  td_canonical td = true → has_char "/"%char (show_td td) = false.
Proof.
  intros H. eapply all_bytes_no_char; [by apply show_td_canonical_chars|done].
Qed.

Lemma show_td_nonempty td : is_empty (show_td td) = false.
Proof. by destruct td. Qed.

Lemma split_uri td p :
  has_char "/"%char (show_td td) = false →
  split_once "/"%char (show_td td +:+ "/" +:+ p) = Some (show_td td, p).
Proof. intros H. change ("/" +:+ p) with (String "/" p). by apply split_once_app. Qed.

Lemma parse_uri id :
  td_canonical (trust_domain id) = true → path id ≠ EmptyString →
  parse_spiffe_id (uri id) = Ok id.
Proof.
  intros Ht Hp. unfold parse_spiffe_id, uri.
  rewrite strip_prefix_app; cbn [ok_or].
  rewrite split_uri by (by apply show_td_no_slash). cbn [ok_or].
  rewrite show_td_nonempty, parse_show_td by done.
  destruct id as [td [|c p]]; done.
Qed.

Lemma parse_spiffe_id_Ok s id :
  parse_spiffe_id s = Ok id →
  uri id = s ∧ td_canonical (trust_domain id) = true ∧ path id ≠ EmptyString.
Proof.
  unfold parse_spiffe_id.
  destruct (strip_prefix _ s) as [rest|] eqn:Hp; [cbn [ok_or]|done].
  apply strip_prefix_Some in Hp as ->.
  destruct (split_once _ rest) as [[a b]|] eqn:Hs; [cbn [ok_or]|done].
  apply split_once_Some in Hs as [-> _].
  destruct (is_empty a); [done|]. destruct (is_empty b) eqn:Hb; [done|].
  destruct (parse_td a) as [td|] eqn:Ht; [|done]. intros [= <-].
  apply parse_td_Ok in Ht as [<- Hc]. unfold uri; cbn [trust_domain path].
  split_and!; [done..|]. by intros ->.
Qed.

(** Two SPIFFE IDs with one URI agree when neither authority holds a slash. *)
Lemma uri_inj id id' :
  has_char "/"%char (show_td (trust_domain id)) = false →
  has_char "/"%char (show_td (trust_domain id')) = false →
  uri id = uri id' → id = id'.
Proof.
  intros H H' E. unfold uri in E. apply str_app_inj_l in E.
  pose proof (split_uri _ (path id) H) as S. pose proof (split_uri _ (path id') H') as S'.
  rewrite E, S' in S. destruct id as [td p], id' as [td' p']; cbn in *.
  injection S as E1 ->. by apply show_td_inj in E1 as ->.
Qed.

(** No DID survives the round trip the type promises: a DID contains a
    colon, a colon is outside the trust-domain alphabet, so the string form of
    [PersonalDid did] is refused as an illegal authority and a SPIFFE ID under
    it never parses back from its own URI. *)
Lemma personal_did_does_not_round_trip did p :
  has_char ":"%char did = true →
  parse_td (show_td (PersonalDid did)) = Err (IllegalTrustDomain (show_td (PersonalDid did)))
  ∧ parse_spiffe_id (uri (mkSpiffeId (PersonalDid did) p)) ≠ Ok (mkSpiffeId (PersonalDid did) p).
Proof.
  intros Hd.
  assert (Hc : all_bytes td_char (show_td (PersonalDid did)) = false).
  { apply not_true_iff_false. intros H.
    pose proof (all_bytes_no_char td_char ":"%char _ H eq_refl) as Hn.
    cbn [show_td] in Hn. rewrite has_char_app, Hd, orb_true_r in Hn. done. }
  split.
  - unfold parse_td. by rewrite Hc.
  - intros (_ & Ht & _)%parse_spiffe_id_Ok. cbn [trust_domain] in Ht.
    apply show_td_canonical_chars in Ht. congruence.
Qed.

(** ** Properties *)

(** C8: the string forms are exact.  The string of a trust domain is
    injective — over every payload, attacker-chosen ones included — and
    [FromStr] is its inverse: it accepts a string if and only if that is the
    [Display] form of a trust domain with a non-empty payload over
    [[a-z0-9.-_]], and gives that trust domain back.  A SPIFFE ID parses
    exactly when the string is its URI, its trust domain is such a one and its
    path is not empty, so a parsed identity re-prints byte for byte.  A DID
    holds a colon: no [PersonalDid] of a real DID survives the round trip. *)
Theorem spiffe_text_exact :
  (∀ td td', show_td td = show_td td' → td = td')
  ∧ (∀ s td, parse_td s = Ok td ↔ show_td td = s ∧ td_canonical td = true)
  ∧ (∀ s id, parse_spiffe_id s = Ok id ↔
       uri id = s ∧ td_canonical (trust_domain id) = true ∧ path id ≠ EmptyString)
  ∧ (∀ did p, has_char ":"%char did = true →
       parse_td (show_td (PersonalDid did)) = Err (IllegalTrustDomain (show_td (PersonalDid did)))
       ∧ parse_spiffe_id (uri (mkSpiffeId (PersonalDid did) p)) ≠ Ok (mkSpiffeId (PersonalDid did) p)).
Proof.
  split_and!; [apply show_td_inj|..|apply personal_did_does_not_round_trip].
  - intros s td. split; [apply parse_td_Ok|]. intros [<- H]. by apply parse_show_td.
  - intros s id. split; [apply parse_spiffe_id_Ok|]. intros (<- & Ht & Hp). by apply parse_uri.
Qed.

(** [provenance] reads a source exactly when the path is [via/source] or
    ends in [/via/source] with [source] one whole segment, so a tail segment
    after a segment that merely ends in [via] is not a source. *)
Theorem provenance_whole_segment id source :
  provenance id = Some source ↔
  has_char "/"%char source = false ∧
  (path id = "via/" +:+ source ∨ ∃ pre, path id = pre +:+ "/via/" +:+ source).
Proof.
  unfold provenance. split.
  - destruct (rsplit_once _ (path id)) as [[prefix src]|] eqn:Hr; [|done].
    apply rsplit_once_Some in Hr as [-> Hs].
    destruct (String.eqb prefix "via" || ends_with "/via" prefix) eqn:Hv; [|done].
    intros [= <-]. split; [done|]. apply orb_true_iff in Hv as [Hv|Hv].
    + apply String.eqb_eq in Hv as ->. by left.
    + apply ends_with_true in Hv as [pre ->]. right. exists pre. by rewrite str_app_assoc.
  - intros [Hs Hp].
    assert (∃ prefix, path id = prefix +:+ String "/" source ∧
              String.eqb prefix "via" || ends_with "/via" prefix = true) as (pr & E & Hv).
    { destruct Hp as [->|[pre ->]].
      - by exists "via".
      - exists (pre +:+ "/via"). rewrite str_app_assoc. split; [done|].
        by rewrite ends_with_app, orb_true_r. }
    assert (rsplit_once "/"%char (path id) = Some (pr, source)) as ->
      by (by apply rsplit_once_Some).
    by rewrite Hv.
Qed.

Definition a_did : string := "did:key:z6MkhaXgBZDvotDkL5257faiztiGiC2QtKLGpbnnEGta2doK".

Lemma personal_did_does_not_round_trip_witness :
  parse_td (show_td (PersonalDid a_did)) = Err (IllegalTrustDomain ("personal." +:+ a_did))
  ∧ parse_spiffe_id (uri (mkSpiffeId (PersonalDid a_did) "user")) ≠
      Ok (mkSpiffeId (PersonalDid a_did) "user").
Proof. apply (personal_did_does_not_round_trip a_did "user"). reflexivity. Defined.

#[export] Hint Rewrite parse_show_td : hire.
#[export] Hint Resolve parse_uri show_td_inj : hire.
