(* ===== verification/External.v ===== *)
(** * Interfaces to code outside the repository

    The cryptographic and encoding crates the program calls are parameters of
    the model: one class per crate function family.  What a theorem relies on
    is a named law, stated next to the function; the classes carry no law by
    default. *)
From S2P Require Import Prelude.

(** [hkdf]: [Hkdf::<Sha256>::new(Some(salt), ikm).expand(info, &mut [0; 32])]. *)
Class Hkdf := hkdf_sha256 : ∀ (salt ikm info : list byte), list byte.

(** The documented output length. *)
Definition hkdf_len (H : Hkdf) : Prop :=
  ∀ salt ikm info, length (hkdf_sha256 salt ikm info) = 32%nat.

(** [sha2]: [Sha256::digest]. *)
Class Sha2 := sha256 : list byte → list byte.
Definition sha256_len (H : Sha2) : Prop := ∀ m, length (sha256 m) = 32%nat.

(** [base64]: the two engines used. *)
Class Base64 := {
  b64_std_nopad : list byte → string;
  b64url_encode : list byte → string;
  b64url_decode : string → option (list byte);
}.
Definition b64url_roundtrip (B : Base64) : Prop :=
  ∀ m, b64url_decode (b64url_encode m) = Some m.

(** [ed25519-dalek]: [VerifyingKey::from_bytes] accepts the point;
    [verify_strict] accepts the signature. *)
Class Ed25519 := {
  point_valid : list byte → bool;
  verify_strict : list byte → list byte → list byte → bool;
}.

(** ** Concrete instances for the witnesses

    Executable stand-ins with the right shapes; nothing is claimed of them
    but the laws a witness discharges. *)
Definition pad32 (l : list byte) : list byte := take 32 (l ++ replicate 32 "000"%char).

Lemma pad32_len l : length (pad32 l) = 32%nat.
Proof. unfold pad32. rewrite length_take, length_app, length_replicate. lia. Qed.

Definition toy_hkdf : Hkdf := λ salt ikm info, pad32 (rev info ++ ikm).
Definition toy_sha2 : Sha2 := λ m, pad32 (rev m).

Lemma toy_hkdf_len : hkdf_len toy_hkdf.
Proof. intros ???. apply pad32_len. Qed.
Lemma toy_sha2_len : sha256_len toy_sha2.
Proof. intros ?. apply pad32_len. Qed.

Definition toy_sign (point msg : list byte) : list byte :=
  take 64 (msg ++ point ++ replicate 64 "000"%char).
Definition toy_ed25519 : Ed25519 := {|
  point_valid p := Nat.eqb (length p) 32;
  verify_strict p m s := bool_decide (s = toy_sign p m);
|}.
