(* ===== verification/Consumer.v ===== *)
(** * Consumer identities ([hire-core/src/consumer.rs]) *)
From S2P Require Import Prelude RustStr RustNum.

Inductive ConsumerIdentity : Type :=
| BinarySha256 (hash : list byte)
| MacosBundleId (bundle_id team_id : string)
| FlatpakApp (id : string)
| SnapName (name : string)
| ChromeExtension (id : string).

#[export] Instance ConsumerIdentity_eq_dec : EqDecision ConsumerIdentity.
Proof. solve_decision. Defined.

(** [ConsumerIdentity::selector_key]: the HKDF [info] of the consumer. *)
Definition selector_key (c : ConsumerIdentity) : string :=
  match c with
  | BinarySha256 hash => "binary_sha256:" +:+ hex hash
  | MacosBundleId bundle_id team_id =>
      "macos:bundle_id:" +:+ bundle_id +:+ ":team_id:" +:+ team_id
  | FlatpakApp id => "flatpak:app:" +:+ id
  | SnapName name => "snap:name:" +:+ name
  | ChromeExtension id => "chrome_extension:id:" +:+ id
  end.

(** A bundle identifier as Apple defines it holds no colon. *)
Definition bundle_ok (c : ConsumerIdentity) : bool :=
  match c with MacosBundleId b _ => negb (has_char ":"%char b) | _ => true end.

Lemma selector_key_inj_ok c c' :
  bundle_ok c = true → bundle_ok c' = true → selector_key c = selector_key c' → c = c'.
Proof.
  destruct c as [h|b t|i|n|i], c' as [h'|b' t'|i'|n'|i']; cbn [bundle_ok selector_key];
    intros Hb Hb' E; try done; try (apply str_app_inj_l in E).
  - by apply hex_inj in E as ->.
  - apply negb_true_iff in Hb, Hb'.
    pose proof (split_once_app _ b ("team_id:" +:+ t) Hb) as S.
    pose proof (split_once_app _ b' ("team_id:" +:+ t') Hb') as S'.
    change (String ":" ("team_id:" +:+ t)) with (":team_id:" +:+ t) in S.
    change (String ":" ("team_id:" +:+ t')) with (":team_id:" +:+ t') in S'.
    rewrite E, S' in S. injection S as <- S. rewrite !str_app_nil in S. by subst.
  - by subst.
  - by subst.
  - by subst.
Qed.

(** ** Properties *)

(** Two consumers with the same selector key — the HKDF [info] that
    separates pseudonyms — are the same consumer, whenever macOS bundle
    identifiers hold no colon; the five variants never collide with each
    other, and two binaries share a key only if their hashes are equal. *)
Theorem selector_key_separates_consumers c c' :
  bundle_ok c = true → bundle_ok c' = true →
  (selector_key c = selector_key c' ↔ c = c').
Proof. intros H H'. split; [by apply selector_key_inj_ok|by intros ->]. Qed.

Lemma selector_key_separates_consumers_witness :
  selector_key (SnapName "firefox") = selector_key (FlatpakApp "firefox")
  ↔ SnapName "firefox" = FlatpakApp "firefox".
Proof.
  apply (selector_key_separates_consumers (SnapName "firefox") (FlatpakApp "firefox"));
    reflexivity.
Defined.

(** Without the colon rule the macOS format is ambiguous. *)
Lemma macos_selector_ambiguous b t u :
  selector_key (MacosBundleId (b +:+ ":team_id:" +:+ t) u) =
  selector_key (MacosBundleId b (t +:+ ":team_id:" +:+ u)).
Proof. cbn [selector_key]. by rewrite !str_app_assoc. Qed.
