(* ===== verification/Pseudonym.v ===== *)
(** * Pseudonym derivation ([hire-core/src/pseudonym.rs])

    [derive_pseudonym], [derive_pseudonymous_id] and the lowercase hex the
    pseudonym takes in a SPIFFE path, over an abstract HKDF. *)
From S2P Require Import Prelude RustStr RustNum External SpiffeId Consumer.

Definition SCHEME : string := "hire-pseudonym-v1:".

Section Pseudonym.
Context {H : Hkdf}.

(** Salt: the trust domain's string form; [info]: scheme then selector key. *)
Definition derive_pseudonym (ikm : list byte) (td : TrustDomain)
    (consumer : ConsumerIdentity) : list byte :=
  hkdf_sha256 (as_bytes (show_td td)) ikm
              (as_bytes (SCHEME +:+ selector_key consumer)).

Definition derive_pseudonymous_id (ikm : list byte) (root : SpiffeId)
    (consumer : ConsumerIdentity) : SpiffeId :=
  let material := ikm ++ as_bytes (uri root) in
  let okm := derive_pseudonym material (trust_domain root) consumer in
  pseudonymous (trust_domain root) (hex okm).

(** ** Lemmas *)

(** What a consumer is given has the form [pseudonym/<64 hex digits>]
    under the root's own trust domain, and its URI parses back to it when that
    domain is canonical. *)
Lemma pseudonymous_id_shape ikm root consumer :
  hkdf_len H →
  let id := derive_pseudonymous_id ikm root consumer in
  trust_domain id = trust_domain root
  ∧ (∃ seg, split_char "/"%char (path id) = ["pseudonym"; seg]
      ∧ String.length seg = 64%nat ∧ all_bytes is_hex_digit seg = true)
  ∧ (td_canonical (trust_domain root) = true → parse_spiffe_id (uri id) = Ok id).
Proof.
  intros Hlen id. split_and!; [done| |].
  - eexists. split_and!; [|by rewrite hex_length, Hlen|apply hex_all_hex].
    change (path id) with ("pseudonym" +:+ String "/" (hex (derive_pseudonym
      (ikm ++ as_bytes (uri root)) (trust_domain root) consumer))).
    rewrite split_char_app by done. rewrite split_char_no; [done|].
    eapply all_bytes_no_char; [apply hex_all_hex|done].
  - intros Ht. by apply parse_uri.
Qed.


(** Equal pseudonyms mean the same root and the same consumer, or an
    HKDF collision: with the daemon's 32-byte key fixed, the (salt, key
    material, info) triple fed to HKDF determines the root identity and the
    consumer's selector key, so nothing but the KDF itself can make two
    identities linkable. *)
Lemma pseudonym_collision_is_hkdf_collision ikm r1 c1 r2 c2 :
  has_char "/"%char (show_td (trust_domain r1)) = false →
  has_char "/"%char (show_td (trust_domain r2)) = false →
  derive_pseudonymous_id ikm r1 c1 = derive_pseudonymous_id ikm r2 c2 →
  (r1 = r2 ∧ selector_key c1 = selector_key c2)
  ∨ ∃ salt m1 i1 m2 i2, (m1, i1) ≠ (m2, i2)
      ∧ hkdf_sha256 salt m1 i1 = hkdf_sha256 salt m2 i2.
Proof.
  intros Hs1 Hs2 E. unfold derive_pseudonymous_id, pseudonymous in E.
  pose proof (f_equal trust_domain E) as Et. apply (f_equal path) in E as Ep.
  cbn [trust_domain path] in Et, Ep. apply str_app_inj_l, hex_inj in Ep.
  unfold derive_pseudonym in Ep. rewrite <-Et in Ep.
  destruct (decide ((ikm ++ as_bytes (uri r1), as_bytes (SCHEME +:+ selector_key c1)) =
                    (ikm ++ as_bytes (uri r2), as_bytes (SCHEME +:+ selector_key c2))))
    as [Eq|Ne].
  - left. apply pair_equal_spec in Eq as [Eu Es]. split.
    + apply app_inj_1 in Eu as [_ Eu]; [|done]. apply as_bytes_inj in Eu.
      by apply uri_inj.
    + apply as_bytes_inj in Es. by apply str_app_inj_l in Es.
  - right. by eexists _, _, _, _, _.
Qed.
End Pseudonym.

(** A KDF that ignores its input makes two consumers collide. *)
Definition constant_hkdf : Hkdf := λ _ _ _, replicate 32 "000"%char.

Lemma pseudonym_collision_is_hkdf_collision_witness :
  let r := mkSpiffeId SshLocal "user/alice" in
  let c1 := SnapName "firefox" in
  let c2 := SnapName "chromium" in
  (r = r ∧ selector_key c1 = selector_key c2)
  ∨ ∃ salt m1 i1 m2 i2, (m1, i1) ≠ (m2, i2)
      ∧ @hkdf_sha256 constant_hkdf salt m1 i1 = @hkdf_sha256 constant_hkdf salt m2 i2.
Proof.
  apply (@pseudonym_collision_is_hkdf_collision constant_hkdf []
    (mkSpiffeId SshLocal "user/alice") (SnapName "firefox")
    (mkSpiffeId SshLocal "user/alice") (SnapName "chromium")); reflexivity.
Defined.
