(* ===== verification/Audience.v ===== *)
(** * Audience strings ([hire-core/src/audience.rs])

    [AudienceExtensions::parse]: the [hire_] query parameters of an audience,
    extracted, validated and stripped. *)
From S2P Require Import Prelude RustStr RustNum Assurance.

Open Scope Z_scope.

Record AudienceExtensions : Type := mkAudience {
  audience : string;
  require_presence : PresenceLevel;
  max_age : option Duration;
}.

Inductive AudienceParseError : Type :=
| AudUnknownPresence (v : string)
| UnprefixedExtension (name : string)
| InvalidMaxAge (v : string)
| UnsupportedExtension (name : string).

(** The [#[error(...)]] texts. *)
Definition show_audience_error (e : AudienceParseError) : string :=
  match e with
  | AudUnknownPresence v => "unknown hire_require_presence value: " +:+ v
  | UnprefixedExtension n =>
      n +:+ " must be written hire_" +:+ n +:+ "; refusing to ignore a presence requirement"
  | InvalidMaxAge v => "hire_max_age must be a whole number of seconds: " +:+ v
  | UnsupportedExtension n => "unsupported hire extension: " +:+ n
  end.

(** [param.split_once('=').map_or(param, |(n, _)| n)] *)
Definition param_name (param : string) : string :=
  match split_once "="%char param with Some (n, _) => n | None => param end.

Definition is_unprefixed_policy_name (param : string) : bool :=
  let name := param_name param in
  String.eqb name "require_presence" || String.eqb name "max_age".

(** [max_age.map_or(named, |cur| cur.min(named))] *)
Definition tighten (cur : option Duration) (named : Duration) : option Duration :=
  Some match cur with Some c => Z.min c named | None => named end.

(** The body of the [for param in q.split('&')] loop, over its three locals. *)
Definition audience_step (st : PresenceLevel * option Duration * list string)
    (param : string)
    : result (PresenceLevel * option Duration * list string) AudienceParseError :=
  let '(rp, ma, kept) := st in
  match strip_prefix "hire_require_presence=" param with
  | Some v =>
      let? level := map_err (λ _, AudUnknownPresence v) (parse_presence v) in
      Ok (presence_max rp level, ma, kept)
  | None =>
  match strip_prefix "hire_max_age=" param with
  | Some v =>
      let? secs := ok_or (parse_u64 v) (InvalidMaxAge v) in
      Ok (rp, tighten ma (from_secs secs), kept)
  | None =>
      if starts_with "hire_" param then Err (UnsupportedExtension (param_name param))
      else if is_unprefixed_policy_name param then
        Err (UnprefixedExtension (param_name param))
      else Ok (rp, ma, kept ++ [param])
  end end.

Fixpoint audience_loop (st : PresenceLevel * option Duration * list string)
    (params : list string)
    : result (PresenceLevel * option Duration * list string) AudienceParseError :=
  match params with
  | [] => Ok st
  | p :: ps => let? st' := audience_step st p in audience_loop st' ps
  end.

(** [q.split('&').filter(|s| !s.is_empty())] *)
Definition query_params (q : string) : list string :=
  filter (λ s, is_empty s = false) (split_char "&"%char q).

Definition audience_split (raw : string) : string * option string :=
  match split_once "?"%char raw with Some (b, q) => (b, Some q) | None => (raw, None) end.

(** The parameters the loop runs over: none without a [?]. *)
Definition audience_params (raw : string) : list string :=
  match (audience_split raw).2 with Some q => query_params q | None => [] end.

Definition parse_audience (raw : string) : result AudienceExtensions AudienceParseError :=
  let '(base, query) := audience_split raw in
  let params := match query with Some q => query_params q | None => [] end in
  let? (rp, ma, kept) := audience_loop (PresenceNone, None, []) params in
  Ok {| audience := match kept with [] => base | _ => base +:+ "?" +:+ join "&" kept end;
        require_presence := rp;
        max_age := ma |}.

(** ** What one parameter means *)

Inductive param_kind : Type :=
| PRequire (l : PresenceLevel)
| PMaxAge (d : Duration)
| PKept.

Inductive param_is : string → param_kind → Prop :=
| param_require l : param_is ("hire_require_presence=" +:+ show_presence l) (PRequire l)
| param_max_age v n :
    parse_u64 v = Some n → param_is ("hire_max_age=" +:+ v) (PMaxAge (from_secs n))
| param_kept p :
    starts_with "hire_" p = false → is_unprefixed_policy_name p = false → param_is p PKept.

(** The strictest-wins meaning of a list of parameters. *)
Definition apply_kind (k : param_kind) (st : PresenceLevel * option Duration)
    : PresenceLevel * option Duration :=
  match k with
  | PRequire l => (presence_max st.1 l, st.2)
  | PMaxAge d => (st.1, tighten st.2 d)
  | PKept => st
  end.

Definition kept_of (params : list string) (ks : list param_kind) : list string :=
  concat (zip_with (λ p k, match k with PKept => [p] | _ => [] end) params ks).

Lemma starts_hire_require v :
  starts_with "hire_" ("hire_require_presence=" +:+ v) = true.
Proof. done. Qed.
Lemma starts_hire_age v : starts_with "hire_" ("hire_max_age=" +:+ v) = true.
Proof. done. Qed.

Lemma audience_step_Ok rp ma kept p st' :
  audience_step (rp, ma, kept) p = Ok st' ↔
  ∃ k, param_is p k
    ∧ st' = (apply_kind k (rp, ma), kept ++ match k with PKept => [p] | _ => [] end).
Proof.
  unfold audience_step. split.
  - destruct (strip_prefix "hire_require_presence=" p) as [v|] eqn:Hr.
    { apply strip_prefix_Some in Hr as ->.
      destruct (parse_presence v) as [l|] eqn:Hv; cbn; [|done].
      apply parse_presence_Ok in Hv as ->. intros [= <-].
      exists (PRequire l). split; [constructor|]. by rewrite app_nil_r. }
    destruct (strip_prefix "hire_max_age=" p) as [v|] eqn:Ha.
    { apply strip_prefix_Some in Ha as ->.
      destruct (parse_u64 v) as [n|] eqn:Hv; cbn; [|done]. intros [= <-].
      exists (PMaxAge (from_secs n)). split; [by constructor|]. by rewrite app_nil_r. }
    destruct (starts_with _ p) eqn:Hs; [done|].
    destruct (is_unprefixed_policy_name p) eqn:Hu; [done|].
    intros [= <-]. exists PKept. split; [by constructor|done].
  - intros (k & Hk & ->). destruct Hk as [l|v n Hv|p Hs Hu].
    + rewrite strip_prefix_app, parse_show_presence; cbn. by rewrite app_nil_r.
    + replace (strip_prefix "hire_require_presence=" ("hire_max_age=" +:+ v))
        with (@None string) by done.
      rewrite strip_prefix_app, Hv; cbn. by rewrite app_nil_r.
    + destruct (strip_prefix "hire_require_presence=" p) as [v|] eqn:Hr.
      { apply strip_prefix_Some in Hr as ->. by rewrite starts_hire_require in Hs. }
      destruct (strip_prefix "hire_max_age=" p) as [v|] eqn:Ha.
      { apply strip_prefix_Some in Ha as ->. by rewrite starts_hire_age in Hs. }
      by rewrite Hs, Hu.
Qed.

Lemma audience_loop_Ok params rp ma kept st' :
  audience_loop (rp, ma, kept) params = Ok st' ↔
  ∃ ks, Forall2 param_is params ks
    ∧ st' = (foldl (λ st k, apply_kind k st) (rp, ma) ks, kept ++ kept_of params ks).
Proof.
  revert rp ma kept; induction params as [|p ps IH]; intros rp ma kept; cbn [audience_loop].
  - split.
    + intros [= <-]. exists []. split; [constructor|]. cbn. by rewrite app_nil_r.
    + intros (ks & Hk & ->). inv Hk. cbn. by rewrite app_nil_r.
  - split.
    + destruct (audience_step _ p) as [st1|] eqn:Hs; [|done].
      apply audience_step_Ok in Hs as (k & Hk & ->).
      destruct (apply_kind k (rp, ma)) as [rp1 ma1] eqn:E.
      rewrite IH. intros (ks & Hks & ->). exists (k :: ks). split; [by constructor|].
      cbn. rewrite E. by rewrite <-app_assoc.
    + intros (ks & Hks & ->). inv Hks. rename select (param_is p _) into Hk.
      rename select (Forall2 _ ps _) into Hks.
      rewrite (proj2 (audience_step_Ok rp ma kept p _) (ex_intro _ _ (conj Hk eq_refl))).
      destruct (apply_kind y (rp, ma)) as [rp1 ma1] eqn:E. rewrite IH.
      eexists. split; [done|]. cbn. rewrite E. by rewrite <-app_assoc.
Qed.

(** [parse] succeeds exactly when every parameter has a meaning, and its
    result is the fold of those meanings. *)
Lemma parse_audience_Ok raw ext :
  parse_audience raw = Ok ext ↔
  ∃ ks, Forall2 param_is (audience_params raw) ks
    ∧ ext = {| audience := match kept_of (audience_params raw) ks with
                | [] => (audience_split raw).1
                | kept => (audience_split raw).1 +:+ "?" +:+ join "&" kept
                end;
               require_presence := (foldl (λ st k, apply_kind k st) (PresenceNone, None) ks).1;
               max_age := (foldl (λ st k, apply_kind k st) (PresenceNone, None) ks).2 |}.
Proof.
  unfold parse_audience, audience_params.
  destruct (audience_split raw) as [base query]; cbn [fst snd].
  set (params := match query with Some q => query_params q | None => [] end).
  split.
  - destruct (audience_loop _ params) as [st|] eqn:Hl; [|done].
    apply audience_loop_Ok in Hl as (ks & Hk & ->). cbn [app].
    destruct (foldl _ _ ks) as [rp ma] eqn:E.
    intros [= <-]. exists ks. rewrite E. split; [done|]. cbn.
    by destruct (kept_of params ks).
  - intros (ks & Hk & ->).
    rewrite (proj2 (audience_loop_Ok params _ _ _ _) (ex_intro _ ks (conj Hk eq_refl))).
    destruct (foldl _ _ ks) as [rp ma]; cbn. by destruct (kept_of params ks).
Qed.

Lemma fold_kinds_bounds ks st :
  let r := foldl (λ st k, apply_kind k st) st ks in
  presence_leb st.1 r.1 = true
  ∧ (∀ c, st.2 = Some c → ∃ a, r.2 = Some a ∧ a ≤ c)
  ∧ Forall (λ k, match k with
             | PRequire l => presence_leb l r.1 = true
             | PMaxAge d => ∃ a, r.2 = Some a ∧ a ≤ d
             | PKept => True end) ks.
Proof.
  revert st; induction ks as [|k ks IH]; intros st; cbn.
  - split_and!; [apply presence_leb_refl|eauto with lia|constructor].
  - destruct (IH (apply_kind k st)) as (H1 & H2 & H3). clear IH.
    assert (presence_leb st.1 (apply_kind k st).1 = true) as H0.
    { destruct k; cbn; try apply presence_leb_refl. by destruct st.1, l. }
    split_and!.
    + by eapply presence_leb_trans.
    + intros c Hc. destruct k as [l|d|]; cbn in H2; eauto.
      destruct (H2 _ eq_refl) as (a & Ha & Hle). exists a. split; [done|].
      rewrite Hc in Hle. lia.
    + constructor; [|done]. destruct k as [l|d|]; cbn in *; [| |done].
      * eapply presence_leb_trans; [|done]. by destruct st.1, l.
      * destruct (H2 _ eq_refl) as (a & Ha & Hle). exists a. split; [done|].
        destruct (st.2); lia.
Qed.

Lemma fold_kinds_attained ks st :
  let r := foldl (λ st k, apply_kind k st) st ks in
  (r.1 = st.1 ∨ PRequire r.1 ∈ ks)
  ∧ (r.2 = st.2 ∨ ∃ d, r.2 = Some d ∧ PMaxAge d ∈ ks).
Proof.
  revert st; induction ks as [|k ks IH]; intros st; cbn; [by auto|].
  destruct (IH (apply_kind k st)) as [H1 H2]. clear IH. split.
  - destruct H1 as [H1|H1]; [|right; by apply elem_of_cons; right].
    rewrite H1. destruct k as [l| |]; cbn; auto. unfold presence_max.
    destruct (presence_leb st.1 l); [right; by left|auto].
  - destruct H2 as [H2|(d & H2 & Hd)]; [|right; exists d; split; [done|by right]].
    rewrite H2. destruct k as [|d|]; cbn; auto. unfold tighten.
    destruct st.2 as [c|]; [|right; exists d; split; [done|by left]].
    destruct (Z.min_spec c d) as [[_ ->]|[_ ->]]; [by left|].
    right; exists d; split; [done|by left].
Qed.

Lemma param_is_require v k :
  param_is ("hire_require_presence=" +:+ v) k → ∃ l, k = PRequire l ∧ parse_presence v = Ok l.
Proof.
  remember ("hire_require_presence=" +:+ v) as p eqn:E. destruct 1 as [l|v' n Hn|p Hs _].
  - apply str_app_inj_l in E as <-. exists l. by rewrite parse_show_presence.
  - done.
  - by subst p.
Qed.

Lemma param_is_max_age v k :
  param_is ("hire_max_age=" +:+ v) k → ∃ n, k = PMaxAge (from_secs n) ∧ parse_u64 v = Some n.
Proof.
  remember ("hire_max_age=" +:+ v) as p eqn:E. destruct 1 as [l|v' n Hn|p Hs _].
  - done.
  - apply str_app_inj_l in E as <-. eauto.
  - by subst p.
Qed.

Lemma kept_of_kept ps ks p :
  Forall2 param_is ps ks → p ∈ kept_of ps ks → p ∈ ps ∧ param_is p PKept.
Proof.
  intros H. induction H as [|q k ps ks Hq _ IH]; [by intros ?%elem_of_nil|].
  cbn. intros [Hp|Hp]%elem_of_app.
  - destruct k; try by apply elem_of_nil in Hp.
    apply list_elem_of_singleton in Hp as ->. split; [by left|done].
  - destruct (IH Hp). split; [by right|done].
Qed.

Lemma kept_of_all ps : kept_of ps (replicate (length ps) PKept) = ps.
Proof. induction ps as [|p ps IH]; [done|]. cbn. by f_equal. Qed.

Lemma fold_all_kept n st :
  foldl (λ st k, apply_kind k st) st (replicate n PKept) = st.
Proof. by induction n. Qed.

Lemma audience_split_base raw : has_char "?"%char (audience_split raw).1 = false.
Proof.
  unfold audience_split. destruct (split_once _ raw) as [[b q]|] eqn:H.
  - by apply split_once_Some in H as [_ H].
  - by apply split_once_None in H.
Qed.

Lemma audience_params_clean raw p :
  p ∈ audience_params raw → has_char "&"%char p = false ∧ is_empty p = false.
Proof.
  unfold audience_params. destruct (audience_split raw).2 as [q|]; [|by intros ?%elem_of_nil].
  unfold query_params. intros [He Hp]%list_elem_of_filter. split; [|done].
  pose proof (split_char_pieces "&"%char q) as Hf. rewrite Forall_forall in Hf. auto.
Qed.

Lemma query_params_join l :
  Forall (λ p, has_char "&"%char p = false ∧ is_empty p = false) l → l ≠ [] →
  query_params (join "&" l) = l.
Proof.
  intros Hl Hne. unfold query_params. rewrite split_char_join; [|by eapply Forall_impl; naive_solver|done].
  clear Hne. induction Hl as [|p l [_ Hp] _ IH]; [done|].
  rewrite filter_cons_True by done. by rewrite IH.
Qed.

Lemma split_no_query base :
  has_char "?"%char base = false → audience_split base = (base, None).
Proof. intros H. unfold audience_split. by rewrite (proj2 (split_once_None _ _) H). Qed.

Lemma split_with_query base q :
  has_char "?"%char base = false → audience_split (base +:+ "?" +:+ q) = (base, Some q).
Proof.
  intros H. unfold audience_split. change ("?" +:+ q) with (String "?" q).
  by rewrite split_once_app.
Qed.

(** ** Properties *)

(** Strictest wins within one audience string.  When [parse] succeeds the
    level required is at least every level named and is itself named (or is
    the least level when none is), and the age bound is at most every bound
    named and is itself named (absent when none is). *)
Lemma audience_strictest_wins raw ext :
  parse_audience raw = Ok ext →
  (∀ v, "hire_require_presence=" +:+ v ∈ audience_params raw →
     ∃ l, parse_presence v = Ok l ∧ presence_leb l (require_presence ext) = true)
  ∧ (∀ v, "hire_max_age=" +:+ v ∈ audience_params raw →
     ∃ n a, parse_u64 v = Some n ∧ max_age ext = Some a ∧ a ≤ from_secs n)
  ∧ (require_presence ext = PresenceNone ∨
     "hire_require_presence=" +:+ show_presence (require_presence ext) ∈ audience_params raw)
  ∧ (max_age ext = None ∨ ∃ v n, max_age ext = Some (from_secs n) ∧
     parse_u64 v = Some n ∧ "hire_max_age=" +:+ v ∈ audience_params raw).
Proof.
  intros (ks & Hk & ->)%parse_audience_Ok; cbn [require_presence max_age].
  pose proof (fold_kinds_bounds ks (PresenceNone, None)) as (_ & _ & Hb).
  pose proof (fold_kinds_attained ks (PresenceNone, None)) as [Hp Ha].
  cbv zeta in *. cbn [fst snd] in *.
  set (r := foldl _ _ ks) in *. clearbody r.
  assert (Hin : ∀ p, p ∈ audience_params raw → ∃ k, k ∈ ks ∧ param_is p k).
  { intros p Hin. eapply list_elem_of_lookup in Hin as [i Hi].
    eapply Forall2_lookup_l in Hk as (k & Hki & ?); [|done].
    exists k. split; [by eapply list_elem_of_lookup_2|done]. }
  assert (Hout : ∀ k, k ∈ ks → ∃ p, p ∈ audience_params raw ∧ param_is p k).
  { intros k Hin'. eapply list_elem_of_lookup in Hin' as [i Hi].
    eapply Forall2_lookup_r in Hk as (p & Hpi & ?); [|done].
    exists p. split; [by eapply list_elem_of_lookup_2|done]. }
  rewrite Forall_forall in Hb. split_and!.
  - intros v (k & Hkin & Hkv)%Hin. specialize (Hb _ Hkin).
    apply param_is_require in Hkv as (l & -> & ?). eauto.
  - intros v (k & Hkin & Hkv)%Hin. specialize (Hb _ Hkin).
    apply param_is_max_age in Hkv as (n & -> & ?). destruct Hb as (a & ? & ?). eauto.
  - destruct Hp as [Hp|(p & Hpin & Hpk)%Hout]; [by left|right]. by inv Hpk.
  - destruct Ha as [Ha|(d & Hd & (p & Hpin & Hpk)%Hout)]; [by left|right].
    inv Hpk. by exists v, n.
Qed.

(** Every parameter list is understood, or some parameter of it is not. *)
Lemma params_understood (params : list string) :
  (∃ ks, Forall2 param_is params ks) ∨ ∃ p, p ∈ params ∧ ∀ k, ¬ param_is p k.
Proof.
  assert (Hdec : ∀ p, (∃ k, param_is p k) ∨ ∀ k, ¬ param_is p k).
  { intros p. destruct (audience_step (PresenceNone, None, []) p) as [st|] eqn:Hs.
    - apply audience_step_Ok in Hs as (k & Hk & _). left; eauto.
    - right. intros k Hk.
      by rewrite (proj2 (audience_step_Ok _ _ _ _ _) (ex_intro _ k (conj Hk eq_refl))) in Hs. }
  induction params as [|p ps IH]; [left; eexists; constructor|].
  destruct (Hdec p) as [[k Hk]|Hk]; [|right; exists p; split; [by left|done]].
  destruct IH as [[ks Hks]|(q & ? & ?)]; [left; exists (k :: ks); by constructor|].
  right; exists q; split; [by right|done].
Qed.

Lemma parse_audience_fails raw :
  is_ok (parse_audience raw) = false ↔ ∃ p, p ∈ audience_params raw ∧ ∀ k, ¬ param_is p k.
Proof.
  destruct (parse_audience raw) as [ext|e] eqn:Hp; cbn.
  - split; [done|]. intros (p & Hin & Hno).
    apply parse_audience_Ok in Hp as (ks & Hk & _).
    eapply list_elem_of_lookup in Hin as [i Hi].
    eapply Forall2_lookup_l in Hk as (k & _ & ?); [|done]. by destruct (Hno k).
  - split; [|done]. intros _. destruct (params_understood (audience_params raw)) as [[ks Hks]|?]; [|done].
    pose proof (proj2 (parse_audience_Ok raw _) (ex_intro _ ks (conj Hks eq_refl))). congruence.
Qed.

(** The parameters of a base and the kept parameters put back together. *)
Lemma kept_audience_params base kept :
  has_char "?" base = false →
  (∀ p, p ∈ kept → has_char "&"%char p = false ∧ is_empty p = false) →
  let aud := match kept with [] => base | p :: ps => base +:+ "?" +:+ join "&" (p :: ps) end in
  (audience_split aud).1 = base ∧ audience_params aud = kept.
Proof.
  intros Hbase Hkept. unfold audience_params. destruct kept as [|p ps] eqn:E; cbv zeta.
  - by rewrite split_no_query.
  - rewrite split_with_query by done. cbn [fst snd]. split; [done|].
    apply query_params_join; [|done]. apply Forall_forall. naive_solver.
Qed.

(** The [hire_] namespace is closed.  [parse] fails exactly when some
    parameter is neither one of the two implemented requirements with a valid
    value nor an ordinary parameter; on success the audience handed to the
    token carries no [hire_] parameter and no bare policy name, and parsing it
    again is the identity that requires nothing. *)
Lemma audience_namespace_closed raw :
  (is_ok (parse_audience raw) = false ↔
     ∃ p, p ∈ audience_params raw ∧ ∀ k, ¬ param_is p k)
  ∧ (∀ ext, parse_audience raw = Ok ext →
       (∀ p, p ∈ audience_params (audience ext) →
          starts_with "hire_" p = false ∧ is_unprefixed_policy_name p = false)
       ∧ parse_audience (audience ext) = Ok (mkAudience (audience ext) PresenceNone None)).
Proof.
  split; [apply parse_audience_fails|].
  intros ext (ks & Hk & ->)%parse_audience_Ok. cbn [audience].
  set (kept := kept_of _ ks). pose proof (audience_split_base raw) as Hbase.
  set (base := (audience_split raw).1) in *.
  assert (Hkept : ∀ p, p ∈ kept → param_is p PKept
                  ∧ has_char "&"%char p = false ∧ is_empty p = false).
  { intros p Hp. apply kept_of_kept in Hp as [Hin ?]; [|done].
    split; [done|by apply (audience_params_clean raw)]. }
  clearbody kept base. clear Hk.
  destruct (kept_audience_params base kept Hbase (λ p Hp, proj2 (Hkept p Hp))) as [Hs Hps].
  rewrite Hps. split.
  - intros p Hp. destruct (Hkept p Hp) as [Hpk _]. by inv Hpk.
  - apply parse_audience_Ok. exists (replicate (length kept) PKept).
    rewrite Hps, Hs, kept_of_all, fold_all_kept. split; [|done].
    apply Forall2_same_length_lookup_2; [by rewrite length_replicate|].
    intros i p k Hi [-> _]%lookup_replicate. apply Hkept. by eapply list_elem_of_lookup_2.
Qed.

(** C18: parsing an audience is exact.  It fails exactly when some parameter
    is neither one of the two implemented requirements with a valid value nor
    an ordinary parameter.  When it succeeds the strictest wins: the level is
    at least every level named and is itself named (or is the least level when
    none is), and the age bound is at most every bound named and is itself
    named (absent when none is); and the [hire_] namespace is closed: the
    audience handed to the token carries no [hire_] parameter and no bare
    policy name, and parses again to itself, requiring nothing. *)
Theorem audience_policy_exact raw :
  (is_ok (parse_audience raw) = false ↔
     ∃ p, p ∈ audience_params raw ∧ ∀ k, ¬ param_is p k)
  ∧ ∀ ext, parse_audience raw = Ok ext →
    (∀ v, "hire_require_presence=" +:+ v ∈ audience_params raw →
       ∃ l, parse_presence v = Ok l ∧ presence_leb l (require_presence ext) = true)
    ∧ (∀ v, "hire_max_age=" +:+ v ∈ audience_params raw →
       ∃ n a, parse_u64 v = Some n ∧ max_age ext = Some a ∧ a ≤ from_secs n)
    ∧ (require_presence ext = PresenceNone ∨
       "hire_require_presence=" +:+ show_presence (require_presence ext) ∈ audience_params raw)
    ∧ (max_age ext = None ∨ ∃ v n, max_age ext = Some (from_secs n) ∧
       parse_u64 v = Some n ∧ "hire_max_age=" +:+ v ∈ audience_params raw)
    ∧ (∀ p, p ∈ audience_params (audience ext) →
         starts_with "hire_" p = false ∧ is_unprefixed_policy_name p = false)
    ∧ parse_audience (audience ext) = Ok (mkAudience (audience ext) PresenceNone None).
Proof.
  destruct (audience_namespace_closed raw) as [Hf Hc]. split; [exact Hf|]. intros ext He.
  destruct (audience_strictest_wins _ _ He) as (H1 & H2 & H3 & H4), (Hc _ He) as [H5 H6].
  split_and!; assumption.
Qed.

(** Two age bounds and a level: the tighter bound, and an audience without them. *)
Lemma audience_policy_exact_witness :
  let raw := "https://a.example?hire_max_age=60&x=1&hire_max_age=30&hire_require_presence=session" in
  ∃ ext, parse_audience raw = Ok ext
  ∧ (max_age ext = None ∨ ∃ v n, max_age ext = Some (from_secs n) ∧ parse_u64 v = Some n ∧
     "hire_max_age=" +:+ v ∈ audience_params raw)
  ∧ parse_audience (audience ext) = Ok (mkAudience (audience ext) PresenceNone None).
Proof.
  intros raw. exists (mkAudience "https://a.example?x=1" PresenceSession (Some (from_secs 30))).
  assert (H : parse_audience raw
              = Ok (mkAudience "https://a.example?x=1" PresenceSession (Some (from_secs 30))))
    by reflexivity.
  destruct (proj2 (audience_policy_exact raw) _ H) as (_ & _ & _ & H4 & _ & H6).
  split_and!; assumption.
Defined.
