(* ===== verification/Hint.v ===== *)
(** * The [hint] tag on a JWT-SVID ([hire-core/src/hint.rs])

    [SvidHint], its [Display] and its [FromStr]. *)
From S2P Require Import Prelude RustStr RustNum Assurance.

Record SvidHint : Type := mkHint {
  source : string;
  identity_assurance : IdentityAssurance;
  presence : PresenceLevel;
  age : Z;
}.

Inductive HintParseError : Type :=
| UnknownKey (key : string)
| RepeatedKey (key : string)
| Missing (field : string)
| BadValue (key value : string).

(** [impl Display for SvidHint] *)
Definition show_hint (h : SvidHint) : string :=
  "source=" +:+ source h +:+ "&identity_assurance=" +:+ show_assurance (identity_assurance h)
  +:+ "&presence=" +:+ show_presence (presence h) +:+ "&age=" +:+ show_u64 (age h).

(** The four locals of [from_str]. *)
Record HintFields : Type := mkFields {
  f_source : option string;
  f_assurance : option IdentityAssurance;
  f_presence : option PresenceLevel;
  f_age : option Z;
}.

Definition no_fields : HintFields := mkFields None None None None.

(** [slot.replace(v).is_some()] is the repeated-key test. *)
Definition fill {A} (slot : option A) (v : A) (key : string)
    : result (option A) HintParseError :=
  match slot with Some _ => Err (RepeatedKey key) | None => Ok (Some v) end.

(** The body of the [for param in raw.split('&')] loop. *)
Definition hint_step (st : HintFields) (param : string) : result HintFields HintParseError :=
  let? (key, value) := ok_or (split_once "="%char param) (UnknownKey param) in
  let bad := BadValue key value in
  if String.eqb key "source" then
    let? s := fill (f_source st) value key in
    Ok (mkFields s (f_assurance st) (f_presence st) (f_age st))
  else if String.eqb key "identity_assurance" then
    let? a := map_err (λ _, bad) (parse_assurance value) in
    let? s := fill (f_assurance st) a key in
    Ok (mkFields (f_source st) s (f_presence st) (f_age st))
  else if String.eqb key "presence" then
    let? p := map_err (λ _, bad) (parse_presence value) in
    let? s := fill (f_presence st) p key in
    Ok (mkFields (f_source st) (f_assurance st) s (f_age st))
  else if String.eqb key "age" then
    let? n := ok_or (parse_u64 value) bad in
    let? s := fill (f_age st) n key in
    Ok (mkFields (f_source st) (f_assurance st) (f_presence st) s)
  else Err (UnknownKey key).

Fixpoint hint_loop (st : HintFields) (params : list string)
    : result HintFields HintParseError :=
  match params with
  | [] => Ok st
  | p :: ps => let? st' := hint_step st p in hint_loop st' ps
  end.

(** [raw.split('&').filter(|s| !s.is_empty())] *)
Definition hint_params (raw : string) : list string :=
  filter (λ s, is_empty s = false) (split_char "&"%char raw).

(** [impl FromStr for SvidHint] *)
Definition parse_hint (raw : string) : result SvidHint HintParseError :=
  let? st := hint_loop no_fields (hint_params raw) in
  let? s := ok_or (f_source st) (Missing "source") in
  let? a := ok_or (f_assurance st) (Missing "identity_assurance") in
  let? p := ok_or (f_presence st) (Missing "presence") in
  let? n := ok_or (f_age st) (Missing "age") in
  Ok (mkHint s a p n).

(** ** One parameter fills one empty field *)

Inductive fills : HintFields → string → HintFields → Prop :=
| fills_source v a p n :
    fills (mkFields None a p n) ("source=" +:+ v) (mkFields (Some v) a p n)
| fills_assurance s a p n :
    fills (mkFields s None p n) ("identity_assurance=" +:+ show_assurance a)
          (mkFields s (Some a) p n)
| fills_presence s a p n :
    fills (mkFields s a None n) ("presence=" +:+ show_presence p) (mkFields s a (Some p) n)
| fills_age s a p v n :
    parse_u64 v = Some n →
    fills (mkFields s a p None) ("age=" +:+ v) (mkFields s a p (Some n)).

Lemma split_param key v :
  has_char "="%char key = false →
  split_once "="%char (key +:+ "=" +:+ v) = Some (key, v).
Proof. intros. change ("=" +:+ v) with (String "=" v). by apply split_once_app. Qed.

Lemma hint_step_Ok st p st' : hint_step st p = Ok st' ↔ fills st p st'.
Proof.
  split.
  - unfold hint_step. destruct (split_once _ p) as [[k v]|] eqn:Hs; cbn [ok_or]; [|done].
    apply split_once_Some in Hs as [-> _].
    destruct st as [fs fa fp fn]; cbn [f_source f_assurance f_presence f_age].
    repeat case_streq; [..|done].
    + destruct fs; [done|]. intros [= <-]. apply (fills_source v).
    + destruct (parse_assurance v) as [a|] eqn:Hv; [|done].
      apply parse_assurance_Ok in Hv as ->. destruct fa; [done|]. intros [= <-].
      apply (fills_assurance _ a).
    + destruct (parse_presence v) as [q|] eqn:Hv; [|done].
      apply parse_presence_Ok in Hv as ->. destruct fp; [done|]. intros [= <-].
      apply (fills_presence _ _ q).
    + destruct (parse_u64 v) as [n|] eqn:Hv; [|done]. destruct fn; [done|]. intros [= <-].
      by apply (fills_age _ _ _ v).
  - destruct 1 as [v a q n|s a q n|s a q n|s a q v n Hv]; unfold hint_step.
    + change ("source=" +:+ v) with ("source" +:+ "=" +:+ v). by rewrite split_param.
    + change ("identity_assurance=" +:+ ?x) with ("identity_assurance" +:+ "=" +:+ x).
      rewrite split_param by done; cbn. by rewrite parse_show_assurance.
    + change ("presence=" +:+ ?x) with ("presence" +:+ "=" +:+ x).
      rewrite split_param by done; cbn. by rewrite parse_show_presence.
    + change ("age=" +:+ ?x) with ("age" +:+ "=" +:+ x).
      rewrite split_param by done; cbn. by rewrite Hv.
Qed.

Lemma hint_loop_cons st p ps st' :
  hint_loop st (p :: ps) = Ok st' ↔ ∃ st1, fills st p st1 ∧ hint_loop st1 ps = Ok st'.
Proof.
  cbn. destruct (hint_step st p) as [st1|] eqn:Hs.
  - apply hint_step_Ok in Hs. split; [by eauto|]. intros (st2 & H2 & ?).
    apply hint_step_Ok in Hs, H2. rewrite H2 in Hs. by simplify_eq.
  - split; [done|]. intros (st1 & H & _). apply hint_step_Ok in H. congruence.
Qed.

Lemma fills_swap st p q st1 st2 :
  fills st p st1 → fills st1 q st2 → ∃ st1', fills st q st1' ∧ fills st1' p st2.
Proof.
  destruct 1; intros H2; inv H2; eexists; (split; econstructor; done).
Qed.

(** Success and the fields it reaches do not depend on the order. *)
Lemma hint_loop_perm ps qs st st' :
  ps ≡ₚ qs → hint_loop st ps = Ok st' → hint_loop st qs = Ok st'.
Proof.
  intros Hp; revert st; induction Hp as [|p ps qs _ IH|p q ps|ps qs rs _ IH1 _ IH2];
    intros st H; [done|..|by auto].
  - apply hint_loop_cons in H as (st1 & ? & ?). apply hint_loop_cons; eauto.
  - apply hint_loop_cons in H as (st1 & H1 & (st2 & H2 & H3)%hint_loop_cons).
    destruct (fills_swap _ _ _ _ _ H1 H2) as (st1' & ? & ?).
    apply hint_loop_cons. exists st1'. split; [done|]. apply hint_loop_cons; eauto.
Qed.

(** What a field that went from empty to filled contributes. *)
Definition new_param {A} (old new : option A) (render : A → string) : list string :=
  match old, new with None, Some v => [render v] | _, _ => [] end.

Definition new_params (av : string) (st st' : HintFields) : list string :=
  new_param (f_source st) (f_source st') (λ v, "source=" +:+ v)
  ++ new_param (f_assurance st) (f_assurance st') (λ a, "identity_assurance=" +:+ show_assurance a)
  ++ new_param (f_presence st) (f_presence st') (λ p, "presence=" +:+ show_presence p)
  ++ new_param (f_age st) (f_age st') (λ _, "age=" +:+ av).

Definition keeps {A} (old new : option A) : Prop := ∀ x, old = Some x → new = Some x.

Definition extends (st st' : HintFields) : Prop :=
  keeps (f_source st) (f_source st') ∧ keeps (f_assurance st) (f_assurance st')
  ∧ keeps (f_presence st) (f_presence st') ∧ keeps (f_age st) (f_age st').

Lemma hint_loop_new st ps st' :
  hint_loop st ps = Ok st' →
  extends st st' ∧ ∃ av,
    (∀ n, f_age st = None → f_age st' = Some n → parse_u64 av = Some n)
    ∧ ps ≡ₚ new_params av st st'.
Proof.
  revert st; induction ps as [|p ps IH]; intros st.
  - intros [= <-]. split; [by split_and!; intros ??|]. exists EmptyString.
    split; [congruence|]. destruct st as [[] [] [] []]; done.
  - intros (st1 & Hf & ((E1 & E2 & E3 & E4) & av & Hav & Hps)%IH)%hint_loop_cons.
    unfold extends, new_params in *.
    destruct Hf as [v a q n|s a q n|s a q n|s a q v n Hv]; cbn in *.
    + pose proof (E1 _ eq_refl) as ->. split; [by split_and!|].
      exists av. split; [done|]. cbn in *. by rewrite Hps.
    + pose proof (E2 _ eq_refl) as ->. split; [by split_and!|].
      exists av. split; [done|]. cbn in *. rewrite Hps. by rewrite Permutation_middle.
    + pose proof (E3 _ eq_refl) as ->. split; [by split_and!|].
      exists av. split; [done|]. cbn in *. rewrite Hps. solve_Permutation.
    + pose proof (E4 _ eq_refl) as ->. split; [by split_and!|].
      exists v. split; [naive_solver|]. cbn in *. rewrite Hps. rewrite !app_nil_r.
      solve_Permutation.
Qed.

(** The parameters of a tag, with the age spelled [av]. *)
Definition tag_params (h : SvidHint) (av : string) : list string :=
  ["source=" +:+ source h; "identity_assurance=" +:+ show_assurance (identity_assurance h);
   "presence=" +:+ show_presence (presence h); "age=" +:+ av].

Lemma parse_hint_Ok raw h :
  parse_hint raw = Ok h ↔
  ∃ av, parse_u64 av = Some (age h) ∧ hint_params raw ≡ₚ tag_params h av.
Proof.
  unfold parse_hint. split.
  - destruct (hint_loop _ _) as [st|] eqn:Hl; [|done].
    apply hint_loop_new in Hl as (_ & av & Hav & Hp).
    destruct st as [[s|] [a|] [p|] [n|]]; cbn; try done.
    intros [= <-]. exists av. cbn in *. eauto.
  - intros (av & Hav & Hp).
    assert (hint_loop no_fields (tag_params h av) =
      Ok (mkFields (Some (source h)) (Some (identity_assurance h)) (Some (presence h))
            (Some (age h)))) as Hl.
    { unfold tag_params, no_fields. do 3 (apply hint_loop_cons; eexists; split; [constructor|]).
      apply hint_loop_cons; eexists; split; [by constructor|done]. }
    rewrite (hint_loop_perm _ _ _ _ (Permutation_sym Hp) Hl). by destruct h.
Qed.

(** ** Printing yields exactly those parameters *)

Lemma show_u64_no_amp n : (0 ≤ n)%Z → has_char "&"%char (show_u64 n) = false.
Proof. intros H. by eapply all_bytes_no_char; [apply show_u64_digits|]. Qed.

Lemma show_hint_join h : show_hint h = join "&" (tag_params h (show_u64 (age h))).
Proof. unfold show_hint, tag_params. cbn [join]. by rewrite !str_app_assoc. Qed.

Lemma hint_params_show h :
  (0 ≤ age h)%Z → has_char "&"%char (source h) = false →
  hint_params (show_hint h) = tag_params h (show_u64 (age h)).
Proof.
  intros Ha Hs. unfold hint_params. rewrite show_hint_join, split_char_join; [done| |done].
  unfold tag_params. repeat constructor; rewrite has_char_app.
  - by rewrite Hs.
  - by destruct (identity_assurance h).
  - by destruct (presence h).
  - by rewrite show_u64_no_amp.
Qed.


Lemma hint_display_parse h :
  (0 ≤ age h ≤ U64_MAX)%Z →
  (parse_hint (show_hint h) = Ok h ↔ has_char "&"%char (source h) = false).
Proof.
  intros Ha. rewrite parse_hint_Ok. split.
  - intros (av & _ & Hp).
    assert (Hin : "source=" +:+ source h ∈ hint_params (show_hint h))
      by (rewrite Hp; by left).
    apply list_elem_of_filter in Hin as [_ Hin].
    pose proof (split_char_pieces "&"%char (show_hint h)) as Hf.
    rewrite Forall_forall in Hf. specialize (Hf _ Hin). rewrite has_char_app in Hf. exact Hf.
  - intros Hs. exists (show_u64 (age h)). rewrite hint_params_show by (done || lia).
    split; [by apply parse_show_u64|done].
Qed.

(** ** Properties *)

(** C33: a tag is understood completely or refused, and what the daemon
    prints a caller reads back.  [from_str] accepts a string exactly when its
    non-empty [&]-separated parameters are, in some order, the four defined
    fields once each with values in their vocabularies — so unknown, repeated,
    missing and malformed fields are all refused, and the answer never depends
    on field order.  A printed tag with a 64-bit age parses to itself exactly
    when the source name has no ampersand: an equals sign or a colon does no
    harm. *)
Theorem hint_text_exact :
  (∀ raw h, parse_hint raw = Ok h ↔
     ∃ av, parse_u64 av = Some (age h) ∧ hint_params raw ≡ₚ tag_params h av)
  ∧ (∀ h, (0 ≤ age h ≤ U64_MAX)%Z →
       (parse_hint (show_hint h) = Ok h ↔ has_char "&"%char (source h) = false)).
Proof. split; [intros raw h; apply parse_hint_Ok|apply hint_display_parse]. Qed.

Lemma hint_text_exact_witness :
  parse_hint "source=did:key=x&identity_assurance=iaa1&presence=none&age=0" =
    Ok (mkHint "did:key=x" Iaa1 PresenceNone 0)
  ↔ has_char "&"%char "did:key=x" = false.
Proof.
  apply (proj2 hint_text_exact (mkHint "did:key=x" Iaa1 PresenceNone 0)).
  vm_compute. split; discriminate.
Defined.
