(* ===== verification/Json.v ===== *)
(** * JSON values

    The shape of [serde_json::Value], as far as the program builds and reads
    it, with the accessors it uses, and [hire-core/src/hvid.rs]: the [hire]
    extension object of a JWT-SVID. *)
From S2P Require Import Prelude RustStr Assurance.

(** [serde_json::Number]: a non-negative integer, a negative one, or a float
    (by its 64 bits, which nothing here inspects). *)
Inductive json_number : Type :=
| NPosInt (n : Z)
| NNegInt (n : Z)
| NFloat (bits : Z).

Inductive json : Type :=
| JNull
| JBool (b : bool)
| JNum (n : json_number)
| JStr (s : string)
| JArr (l : list json)
| JObj (fields : list (string * json)).

Definition json_get (key : string) (v : json) : option json :=
  match v with
  | JObj fields => find_map (λ '(k, x), if String.eqb k key then Some x else None) fields
  | _ => None
  end.

Definition as_str (v : json) : option string :=
  match v with JStr s => Some s | _ => None end.
Definition as_u64 (v : json) : option Z :=
  match v with JNum (NPosInt n) => Some n | _ => None end.
Definition as_array (v : json) : option (list json) :=
  match v with JArr l => Some l | _ => None end.
Definition as_object (v : json) : option (list (string * json)) :=
  match v with JObj o => Some o | _ => None end.

Definition get_str (key : string) (v : json) : option string :=
  let! x := json_get key v in as_str x.

(** A [serde_json::Map] is a [BTreeMap]: what is parsed from text, or turned
    into a [Value], has its keys in order and the last of equal ones. *)
Fixpoint map_insert (k : string) (v : json) (m : list (string * json)) : list (string * json) :=
  match m with
  | [] => [(k, v)]
  | (k', v') :: m =>
      match String.compare k k' with
      | Lt => (k, v) :: (k', v') :: m
      | Eq => (k, v) :: m
      | Gt => (k', v') :: map_insert k v m
      end
  end.
Fixpoint to_value (v : json) : json :=
  match v with
  | JArr l => JArr (map to_value l)
  | JObj fs =>
      JObj (fold_left (λ m '(k, x), map_insert k x m) (map (λ '(k, x), (k, to_value x)) fs) [])
  | v => v
  end.

Lemma to_value_strings l : to_value (JArr (JStr <$> l)) = JArr (JStr <$> l).
Proof. cbn. f_equal. induction l as [|s l IH]; [done|]. cbn. by rewrite IH. Qed.

(** [value[key]]: [Null] when absent. *)
Definition json_index (key : string) (v : json) : json :=
  match json_get key v with Some x => x | None => JNull end.

(** ** [hire-core/src/hvid.rs] *)

Record PresenceInfo : Type := mkPresenceInfo {
  present : bool;
  attested_by : string;
  pi_attested_at : Z;
  present_until : Z;
}.

Record HireClaims : Type := mkHireClaims {
  root_trust_domain : string;
  sources : list string;
  hc_assurance : IdentityAssurance;
  hc_presence : PresenceInfo;
  auth_methods : list string;
}.

(** The derived [Serialize]: field names as written, the level lowercased. *)
Definition presence_to_json (p : PresenceInfo) : json :=
  JObj [("present", JBool (present p));
        ("attested_by", JStr (attested_by p));
        ("attested_at", JNum (NPosInt (pi_attested_at p)));
        ("present_until", JNum (NPosInt (present_until p)))].

Definition claims_to_json (c : HireClaims) : json :=
  JObj [("root_trust_domain", JStr (root_trust_domain c));
        ("sources", JArr (JStr <$> sources c));
        ("identity_assurance", JStr (show_assurance (hc_assurance c)));
        ("presence", presence_to_json (hc_presence c));
        ("auth_methods", JArr (JStr <$> auth_methods c))].

(** [serde_json::from_slice] and [from_str], a parameter. *)
Class SerdeJson := json_from_slice : list byte → result json string.
