(* ===== verification/Jwt.v ===== *)
(** * Interface to the [jsonwebtoken], [p256] and [rand_core] crates

    What the signer, the trust bundle and the validator call, with the
    documented behaviour they rely on as named laws. *)
From S2P Require Import Prelude RustStr RustNum External Json.

(** [p256]: keys, the uncompressed SEC1 point, PKCS#8, raw signatures. *)
Class P256 := {
  SigningKey : Type;
  EncodingKey : Type;
  to_encoded_point : SigningKey → list byte;
  to_pkcs8_der : SigningKey → result (list byte) string;
  from_ec_der : list byte → EncodingKey;
  try_sign : SigningKey → list byte → result (list byte) string;
}.

Inductive Algorithm : Type := ES256 | OtherAlg.

Record Header : Type := mkHeader { alg : Algorithm; h_kid : option string }.

Record Validation : Type := mkValidation {
  v_alg : Algorithm;
  v_aud : list string;
  leeway : Z;
}.

(** [jsonwebtoken::jwk]: the parts of a JWK the program matches on. *)
Inductive EllipticCurve : Type := CurveP256 | CurveOther.
Inductive AlgorithmParameters : Type :=
| AlgEC (curve : EllipticCurve) (x y : string)
| AlgOther.
Record Jwk : Type := mkJwk { jwk_kid : option string; jwk_alg : AlgorithmParameters }.

Class JsonWebToken `{P256} := {
  DecodingKey : Type;
  (** A [NumericDate] in whole seconds, as the crate reads one *)
  numeric_date : json_number → option Z;
  (** [encode(&header, &claims, &key)] *)
  jwt_encode : Header → json → EncodingKey → result string string;
  (** [dangerous::insecure_decode] *)
  insecure_decode : string → option (Header * json);
  (** [decode(token, &key, &validation)], at a clock reading in seconds *)
  jwt_decode : string → DecodingKey → Validation → Z → option json;
  (** [serde_json::from_value::<JwkSet>] *)
  jwkset_from_value : json → option (list Jwk);
  (** [DecodingKey::from_jwk] *)
  from_jwk : Jwk → option DecodingKey;
}.

(** [JwkSet::find] *)
Definition jwk_find (kid : string) (ks : list Jwk) : option Jwk :=
  find_first (λ j, match jwk_kid j with Some k => String.eqb k kid | None => false end) ks.

(** The JWKS of one EC key, as RFC 7517 spells it. *)
Definition ec_jwks (kid x y : string) : json :=
  JObj [("keys", JArr [JObj [("kty", JStr "EC"); ("crv", JStr "P-256"); ("alg", JStr "ES256");
                             ("use", JStr "sig"); ("kid", JStr kid); ("x", JStr x); ("y", JStr y)]])].

Section Laws.
Context `{J : JsonWebToken}.

(** A one-key EC set parses to that key. *)
Definition jwkset_parses : Prop := ∀ kid x y,
  jwkset_from_value (ec_jwks kid x y) = Some [mkJwk (Some kid) (AlgEC CurveP256 x y)].

(** A non-negative integer is that many seconds. *)
Definition integral_dates : Prop := ∀ n, (0 ≤ n)%Z → numeric_date (NPosInt n) = Some n.

(** Decoding without verification reads back what was encoded, as a
    [Value]: the payload's text has the claims in the order of the struct, its
    parsed map in the order of the keys. *)
Definition insecure_decode_encode : Prop := ∀ h c k t,
  jwt_encode h c k = Ok t → insecure_decode t = Some (h, to_value c).

(** The audiences the [aud] claim names, when it is a string or a list of
    strings. *)
Definition aud_of (c : json) : option (list string) :=
  match json_get "aud" c with
  | Some (JStr a) => Some [a]
  | Some (JArr l) => mapM as_str l
  | _ => None
  end.

(** No audience claim, or one that names a wanted audience: the crate requires
    [exp] unless told otherwise, and compares an audience where there is one. *)
Definition aud_ok (c : json) (wanted : list string) : bool :=
  match aud_of c with
  | Some l => bool_decide (Exists (λ a, a ∈ wanted) l)
  | None => true
  end.

(** Unexpired at [now]: [exp >= now - leeway]. *)
Definition exp_ok (c : json) (v : Validation) (now : Z) : bool :=
  match json_get "exp" c with
  | Some (JNum n) => match numeric_date n with
                     | Some e => (now - leeway v <=? e)%Z
                     | None => false
                     end
  | _ => false
  end.

(** A token signed with the private half of a key verifies under the public
    half, if its algorithm, audience and expiry pass.  The crate panics on a
    clock before the epoch. *)
Definition decode_encode (pair : EncodingKey → DecodingKey → Prop) : Prop :=
  ∀ h c k dk v now t,
    jwt_encode h c k = Ok t → pair k dk → alg h = v_alg v →
    (∃ l, aud_of (to_value c) = Some l) → aud_ok (to_value c) (v_aud v) = true →
    (0 ≤ now)%Z → exp_ok (to_value c) v now = true →
    jwt_decode t dk v now = Some (to_value c).

(** What [decode] returns is the token's own payload, unexpired, and for one
    of the wanted audiences if it names any. *)
Definition decode_sound : Prop := ∀ t dk v now c,
  jwt_decode t dk v now = Some c →
  (∃ h, insecure_decode t = Some (h, c))
  ∧ aud_ok c (v_aud v) = true ∧ exp_ok c v now = true.
End Laws.
