(* ===== verification/Toy.v ===== *)
(** * A concrete key, token and encoding layer for the witnesses

    Executable instances of [Base64], [P256] and [JsonWebToken] that satisfy
    the laws the theorems assume, so that each of them can be applied at
    concrete inputs.  A token is the binary numeral of its (header, payload,
    public key) triple; nothing here is a model of the real formats. *)
From S2P Require Import Prelude RustStr RustNum External Json Jwt.

(** ** Serialisation of JSON values *)
Fixpoint json_tree (v : json) : gen_tree (bool + Z + string) :=
  match v with
  | JNull => GenNode 0 []
  | JBool b => GenLeaf (inl (inl b))
  | JNum (NPosInt n) => GenNode 1 [GenLeaf (inl (inr n))]
  | JNum (NNegInt n) => GenNode 2 [GenLeaf (inl (inr n))]
  | JNum (NFloat n) => GenNode 3 [GenLeaf (inl (inr n))]
  | JStr s => GenLeaf (inr s)
  | JArr l => GenNode 4 (map json_tree l)
  | JObj fs => GenNode 5 (map (λ '(k, x), GenNode 6 [GenLeaf (inr k); json_tree x]) fs)
  end.

Fixpoint tree_json (t : gen_tree (bool + Z + string)) : json :=
  match t with
  | GenLeaf (inl (inl b)) => JBool b
  | GenLeaf (inl (inr n)) => JNum (NPosInt n)
  | GenLeaf (inr s) => JStr s
  | GenNode 1 [GenLeaf (inl (inr n))] => JNum (NPosInt n)
  | GenNode 2 [GenLeaf (inl (inr n))] => JNum (NNegInt n)
  | GenNode 3 [GenLeaf (inl (inr n))] => JNum (NFloat n)
  | GenNode 4 l => JArr (map tree_json l)
  | GenNode 5 l => JObj (map (λ t, match t with
      | GenNode 6 [GenLeaf (inr k); x] => (k, tree_json x)
      | _ => (EmptyString, JNull) end) l)
  | _ => JNull
  end.

Fixpoint tree_json_tree (v : json) : tree_json (json_tree v) = v.
Proof.
  destruct v as [| |[| |]| |l|fs]; [reflexivity..| |]; cbn [json_tree tree_json]; f_equal.
  - induction l as [|x l IH]; [reflexivity|]. cbn [map]. rewrite tree_json_tree. f_equal. exact IH.
  - induction fs as [|[k x] l IH]; [reflexivity|]. cbn [map]. rewrite tree_json_tree. f_equal. exact IH.
Qed.

#[export] Instance json_eq_dec : EqDecision json.
Proof.
  refine (λ v w, cast_if (decide (json_tree v = json_tree w)));
    [by rewrite <-(tree_json_tree v), e, tree_json_tree|by intros ->].
Defined.

#[export] Instance json_countable : Countable json :=
  inj_countable' json_tree tree_json tree_json_tree.

(** ** Numerals *)
Fixpoint pos_string (p : positive) : string :=
  match p with
  | xH => EmptyString
  | xO p => String "0" (pos_string p)
  | xI p => String "1" (pos_string p)
  end.
Fixpoint string_pos (s : string) : positive :=
  match s with
  | EmptyString => xH
  | String c s => if Ascii.eqb c "0" then xO (string_pos s) else xI (string_pos s)
  end.
Lemma string_pos_string p : string_pos (pos_string p) = p.
Proof. induction p as [p IH|p IH|]; cbn; by rewrite ?IH. Qed.

(** ** The instances *)
#[export] Instance toy_base64 : Base64 := {|
  b64_std_nopad := of_bytes;
  b64url_encode := of_bytes;
  b64url_decode s := Some (as_bytes s);
|}.
Lemma toy_b64url : b64url_roundtrip toy_base64.
Proof. intros m. cbn. by rewrite as_bytes_of_bytes. Qed.

Definition toy_point (k : list byte) : list byte :=
  as_u8 4 :: pad32 k ++ pad32 (rev k).

#[export] Instance toy_p256 : P256 := {|
  SigningKey := list byte;
  EncodingKey := list byte;
  to_encoded_point := toy_point;
  to_pkcs8_der := Ok;
  from_ec_der k := k;
  try_sign k m := Ok (k ++ m);
|}.

(** The public coordinates of a key. *)
Definition toy_public (k : list byte) : string * string :=
  (of_bytes (pad32 k), of_bytes (pad32 (rev k))).

Definition token_of (t : option string * json * (string * string)) : string :=
  String "t" (pos_string (encode t)).
Definition of_token (s : string) : option (option string * json * (string * string)) :=
  match s with String "t" s => decode (string_pos s) | _ => None end.
Lemma of_token_of t : of_token (token_of t) = Some t.
Proof. unfold of_token, token_of. by rewrite string_pos_string, countable.decode_encode. Qed.

Definition toy_jwk_of (v : json) : Jwk :=
  mkJwk (get_str "kid" v)
    match get_str "kty" v, get_str "crv" v, get_str "x" v, get_str "y" v with
    | Some "EC", Some "P-256", Some x, Some y => AlgEC CurveP256 x y
    | Some "EC", Some _, Some x, Some y => AlgEC CurveOther x y
    | _, _, _, _ => AlgOther
    end.

Definition toy_exp_ok (c : json) (v : Validation) (now : Z) : bool :=
  match json_get "exp" c with
  | Some (JNum (NPosInt e)) => (now - leeway v <=? e)%Z
  | _ => false
  end.

#[export] Instance toy_jwt : @JsonWebToken toy_p256 := {|
  DecodingKey := string * string;
  numeric_date n := match n with NPosInt n => Some n | _ => None end;
  jwt_encode h c k :=
    match alg h with
    | ES256 => Ok (token_of (h_kid h, c, toy_public k))
    | OtherAlg => Err "unsupported"
    end;
  insecure_decode t :=
    let! (k, c, _) := of_token t in Some (mkHeader ES256 k, to_value c);
  jwt_decode t dk v now :=
    let! (_, c, pk) := of_token t in
    if decide (pk = dk) then
      match v_alg v with
      | ES256 => if aud_ok (to_value c) (v_aud v) && toy_exp_ok (to_value c) v now
                 then Some (to_value c) else None
      | OtherAlg => None
      end
    else None;
  jwkset_from_value v :=
    let! ks := json_get "keys" v in
    let! ks := as_array ks in
    Some (toy_jwk_of <$> ks);
  from_jwk j := match jwk_alg j with AlgEC CurveP256 x y => Some (x, y) | _ => None end;
|}.

Definition toy_pair (k : list byte) (dk : string * string) : Prop := dk = toy_public k.

(** ** The laws hold *)
Lemma toy_jwkset_parses : jwkset_parses.
Proof. done. Qed.

Lemma toy_integral_dates : integral_dates.
Proof. done. Qed.

Lemma toy_exp c v now : toy_exp_ok c v now = exp_ok c v now.
Proof. unfold toy_exp_ok, exp_ok. by destruct (json_get "exp" c) as [[| |[]| | |]|]. Qed.

Lemma toy_insecure_decode_encode : insecure_decode_encode.
Proof.
  intros [[] k] c key t; cbn; [|done]. intros [= <-]. by rewrite of_token_of.
Qed.

Lemma toy_decode_encode : Jwt.decode_encode toy_pair.
Proof.
  intros [[] k] c key dk v now t; cbn; [|done]. intros [= <-] -> <- _ Ha _ He.
  by rewrite of_token_of, decide_True, Ha, toy_exp, He by done.
Qed.

Lemma toy_decode_sound : decode_sound.
Proof.
  intros t dk v now c; cbn. destruct (of_token t) as [[[k c'] pk]|]; [|done].
  case_decide; [|done]. destruct (v_alg v); [|done].
  destruct (aud_ok (to_value c') (v_aud v)) eqn:Ha; [|done].
  destruct (toy_exp_ok (to_value c') v now) eqn:He; [|done]. rewrite toy_exp in He.
  intros [= <-]. split; [eauto|done].
Qed.
