(* ===== verification/Signer.v ===== *)
(** * The signing engine ([hire-core/src/signer.rs])

    Key setup, the published JWKS and its thumbprint, JWT-SVID issuance and
    the raw signature.  [sign_jwt_svid] takes its one reading of the clock
    and panics, as a value, on one before the epoch. *)
From S2P Require Import Prelude RustStr RustNum External Json Jwt SpiffeId Consumer Pseudonym.

Inductive SignerError : Type :=
| KeyGen (msg : string)
| Sign (msg : string)
| JwtError (msg : string)
| NotImplemented (msg : string).

(** The [#[error(...)]] texts. *)
Definition show_signer_error (e : SignerError) : string :=
  match e with
  | KeyGen m => "key generation failed: " +:+ m
  | Sign m => "signing failed: " +:+ m
  | JwtError m => "jwt error: " +:+ m
  | NotImplemented m => "not implemented: " +:+ m
  end.

Section Signer.
Context `{P : P256} {B : Base64} {S : Sha2}.

Record SvidSigner : Type := mkSigner {
  signing_key : SigningKey;
  public_key_sec1 : list byte;
  encoding_key : EncodingKey;
  pseudonym_ikm : list byte;
}.

(** [SvidSigner::from_signing_key]; [rng] is what [try_fill_bytes] of the
    32-byte pseudonym key answers. *)
Definition from_signing_key (sk : SigningKey) (rng : result (list byte) string)
    : result SvidSigner SignerError :=
  let? der := map_err KeyGen (to_pkcs8_der sk) in
  let encoding_key := from_ec_der der in
  let point := to_encoded_point sk in
  if negb (Nat.eqb (length point) 65) then
    Err (KeyGen "public key is not an uncompressed P-256 point")
  else
    let? ikm := map_err KeyGen rng in
    Ok (mkSigner sk point encoding_key ikm).

(** [&v[a..b]] *)
Definition slice (a b : nat) (l : list byte) : list byte := take (b - a) (drop a l).

Definition public_xy (s : SvidSigner) : string * string :=
  (b64url_encode (slice 1 33 (public_key_sec1 s)),
   b64url_encode (slice 33 65 (public_key_sec1 s))).

(** RFC 7638: the exact bytes hashed. *)
Definition quote : string := String "034"%char EmptyString.
Definition quoted (s : string) : string := quote +:+ s +:+ quote.
Definition thumbprint_input (x y : string) : string :=
  "{" +:+ quoted "crv" +:+ ":" +:+ quoted "P-256" +:+ "," +:+ quoted "kty" +:+ ":"
  +:+ quoted "EC" +:+ "," +:+ quoted "x" +:+ ":" +:+ quoted x +:+ ","
  +:+ quoted "y" +:+ ":" +:+ quoted y +:+ "}".
Definition jwk_thumbprint (x y : string) : string :=
  b64url_encode (sha256 (as_bytes (thumbprint_input x y))).

Definition kid (s : SvidSigner) : string :=
  let '(x, y) := public_xy s in jwk_thumbprint x y.

Definition jwks (s : SvidSigner) : json :=
  let '(x, y) := public_xy s in
  JObj [("keys", JArr [JObj
    [("kty", JStr "EC"); ("crv", JStr "P-256"); ("alg", JStr "ES256"); ("use", JStr "sig");
     ("kid", JStr (jwk_thumbprint x y)); ("x", JStr x); ("y", JStr y)]])].

Definition pseudonymous_id `{Hkdf} (s : SvidSigner) (root : SpiffeId)
    (consumer : ConsumerIdentity) : SpiffeId :=
  derive_pseudonymous_id (pseudonym_ikm s) root consumer.

(** The payload: the serialised [JwtClaims]. *)
Definition jwt_claims (spiffe_id : string) (audiences : list string) (hire_ext : json)
    (now : Z) : json :=
  JObj [("sub", JStr spiffe_id);
        ("aud", JArr (JStr <$> audiences));
        ("exp", JNum (NPosInt (now + 300)));
        ("iat", JNum (NPosInt now));
        ("spiffe_id", JStr spiffe_id);
        ("hire", hire_ext)].

(** [sign_jwt_svid], at its one reading of the clock. *)
Definition sign_jwt_svid `{!JsonWebToken} (s : SvidSigner) (spiffe_id : string)
    (audiences : list string) (hire_ext : json) (clock : SystemTime)
    : result string (Fault SignerError) :=
  let? since := ok_or (duration_since clock UNIX_EPOCH) (Panicked "system clock before epoch") in
  let claims := jwt_claims spiffe_id audiences hire_ext (as_secs since) in
  let header := mkHeader ES256 (Some (kid s)) in
  map_err (λ e, Failed (JwtError e)) (jwt_encode header claims (encoding_key s)).

Definition sign_x509_svid (s : SvidSigner) (_spiffe_id : string)
    : result (list byte) SignerError :=
  Err (NotImplemented "x509_svid").

Definition sign_raw (s : SvidSigner) (message : list byte) : result (list byte) SignerError :=
  map_err Sign (try_sign (signing_key s) message).

(** ** Lemmas *)

(** What key setup establishes. *)
Definition signer_wf (s : SvidSigner) : Prop :=
  length (public_key_sec1 s) = 65%nat
  ∧ ∃ der, to_pkcs8_der (signing_key s) = Ok der ∧ encoding_key s = from_ec_der der
      ∧ public_key_sec1 s = to_encoded_point (signing_key s).

Lemma from_signing_key_wf sk rng s : from_signing_key sk rng = Ok s → signer_wf s.
Proof.
  unfold from_signing_key. destruct (to_pkcs8_der sk) as [der|] eqn:Hd; cbn; [|done].
  destruct (Nat.eqb_spec (length (to_encoded_point sk)) 65) as [Hl|]; cbn; [|done].
  destruct rng; cbn; [|done]. intros [= <-]. split; [done|]. by exists der.
Qed.

Lemma sign_jwt_svid_Ok `{!JsonWebToken} s spiffe_id auds ext clock token :
  sign_jwt_svid s spiffe_id auds ext clock = Ok token ↔
  (0 ≤ clock)%Z
  ∧ jwt_encode (mkHeader ES256 (Some (kid s))) (jwt_claims spiffe_id auds ext (as_secs clock))
      (encoding_key s) = Ok token.
Proof.
  unfold sign_jwt_svid. destruct (duration_since clock UNIX_EPOCH) as [d|] eqn:Hd; cbn [ok_or].
  - apply duration_since_epoch in Hd as [H0 ->].
    destruct (jwt_encode _ _ _); cbn; [|by split; [|intros []]].
    split; [by intros [= ->]|by intros [_ [= ->]]].
  - split; [done|]. intros [H0 _].
    by rewrite (proj2 (duration_since_epoch clock clock)) in Hd.
Qed.

(** The one panic of the signer. *)
Lemma sign_jwt_svid_panics `{!JsonWebToken} s spiffe_id auds ext clock msg :
  sign_jwt_svid s spiffe_id auds ext clock = Err (Panicked msg) ↔
  (clock < 0)%Z ∧ msg = "system clock before epoch".
Proof.
  unfold sign_jwt_svid. destruct (duration_since clock UNIX_EPOCH) as [d|] eqn:Hd; cbn [ok_or].
  - apply duration_since_epoch in Hd as [H0 ->].
    destruct (jwt_encode _ _ _); cbn; (split; [done|intros []; lia]).
  - assert (clock < 0)%Z.
    { destruct (Z_lt_le_dec clock 0); [done|].
      by rewrite (proj2 (duration_since_epoch clock clock)) in Hd. }
    split; [by intros [= <-]|by intros [_ ->]].
Qed.

Lemma slice_length (a b : nat) l :
  (a ≤ b)%nat → (b ≤ length l)%nat → length (slice a b l) = (b - a)%nat.
Proof. intros. unfold slice. rewrite length_take, length_drop. lia. Qed.

Lemma jwks_ec s : jwks s = ec_jwks (kid s) (public_xy s).1 (public_xy s).2.
Proof. done. Qed.

(** The payload as it is read back. *)
Lemma jwt_claims_value spiffe_id auds ext now :
  to_value (jwt_claims spiffe_id auds ext now) =
    JObj [("aud", JArr (JStr <$> auds)); ("exp", JNum (NPosInt (now + 300)));
          ("hire", to_value ext); ("iat", JNum (NPosInt now));
          ("spiffe_id", JStr spiffe_id); ("sub", JStr spiffe_id)].
Proof. rewrite <-to_value_strings. reflexivity. Qed.

Lemma jwt_claims_aud_of spiffe_id auds ext now :
  aud_of (to_value (jwt_claims spiffe_id auds ext now)) = Some auds.
Proof.
  rewrite jwt_claims_value. unfold aud_of. cbn [json_get find_map String.eqb Ascii.eqb Bool.eqb].
  induction auds as [|a auds IH]; [done|]. cbn. cbn in IH. by rewrite IH.
Qed.

Lemma jwt_claims_aud spiffe_id auds ext now wanted :
  aud_ok (to_value (jwt_claims spiffe_id auds ext now)) wanted = true
  ↔ ∃ a, a ∈ auds ∧ a ∈ wanted.
Proof. unfold aud_ok. by rewrite jwt_claims_aud_of, bool_decide_eq_true, Exists_exists. Qed.

Lemma jwt_claims_exp `{!JsonWebToken} spiffe_id auds ext now v t :
  integral_dates → (0 ≤ now)%Z →
  exp_ok (to_value (jwt_claims spiffe_id auds ext now)) v t = (t - leeway v <=? now + 300)%Z.
Proof.
  intros Hd H0. rewrite jwt_claims_value. unfold exp_ok.
  cbn [json_get find_map String.eqb Ascii.eqb Bool.eqb]. by rewrite Hd by lia.
Qed.

Lemma jwt_claims_spiffe_id spiffe_id auds ext now :
  get_str "spiffe_id" (to_value (jwt_claims spiffe_id auds ext now)) = Some spiffe_id.
Proof. by rewrite jwt_claims_value. Qed.
End Signer.
