(* ===== verification/TrustBundle.v ===== *)
(** * Trust bundles ([hire-core/src/trust_bundle.rs])

    The verification material of a trust domain, key selection by [kid], and
    the store the daemon serves bundles from.  The store's lock is never a
    failure ([PoisonError::into_inner]), so its operations are pure functions
    of the map. *)
From S2P Require Import Prelude RustStr RustNum External Json Jwt SpiffeId Consumer Pseudonym Toy Signer.

Section Bundle.
Context `{J : JsonWebToken} {B : Base64} {S : Sha2}.

Record TrustBundle : Type := mkBundle {
  b_trust_domain : TrustDomain;
  x509_authorities : list (list byte);
  jwt_authorities : json;
}.

(** [TrustBundle::local] *)
Definition local_bundle (td : TrustDomain) (signer : SvidSigner) : TrustBundle :=
  mkBundle td [] (jwks signer).

Definition coordinate_ok (s : string) : bool :=
  match b64url_decode s with Some b => Nat.eqb (length b) 32 | None => false end.

(** [TrustBundle::jwt_decoding_key] *)
Definition jwt_decoding_key (b : TrustBundle) (kid : string) : option DecodingKey :=
  let! ks := jwkset_from_value (jwt_authorities b) in
  let! jwk := jwk_find kid ks in
  match jwk_alg jwk with
  | AlgEC CurveP256 x y =>
      if coordinate_ok x && coordinate_ok y then from_jwk jwk else None
  | _ => None
  end.

(** [TrustBundleStore]: the map under the lock. *)
Record TrustBundleStore : Type := mkStore { bundles : gmap string TrustBundle }.

Definition store_new : TrustBundleStore := mkStore ∅.

Definition upsert (b : TrustBundle) (s : TrustBundleStore) : TrustBundleStore :=
  mkStore (<[show_td (b_trust_domain b) := b]> (bundles s)).

Definition store_get (td : TrustDomain) (s : TrustBundleStore) : option TrustBundle :=
  bundles s !! show_td td.

Definition snapshot (s : TrustBundleStore) : list TrustBundle :=
  (map_to_list (bundles s)).*2.

(** Every bundle sits under its own trust domain's string form. *)
Definition store_wf (s : TrustBundleStore) : Prop :=
  ∀ k b, bundles s !! k = Some b → k = show_td (b_trust_domain b).

(** A store the operations can build. *)
Inductive store_reachable : TrustBundleStore → Prop :=
| reach_new : store_reachable store_new
| reach_upsert b s : store_reachable s → store_reachable (upsert b s).

Lemma store_reachable_wf s : store_reachable s → store_wf s.
Proof.
  induction 1 as [|b s _ IH]; intros k c; cbn; [by rewrite lookup_empty|].
  intros [[<- <-]|[_ Hl]]%lookup_insert_Some; [done|by apply IH].
Qed.

Lemma store_get_upsert b s td :
  store_get td (upsert b s) = if decide (td = b_trust_domain b) then Some b else store_get td s.
Proof.
  unfold store_get, upsert; cbn. destruct (decide (td = b_trust_domain b)) as [->|Hne].
  - by rewrite lookup_insert_eq.
  - rewrite lookup_insert_ne; [done|]. intros E%show_td_inj. congruence.
Qed.

Lemma snapshot_elem s b :
  store_reachable s → (b ∈ snapshot s ↔ store_get (b_trust_domain b) s = Some b).
Proof.
  intros Hs%store_reachable_wf. unfold snapshot, store_get. split.
  - intros ([k c] & -> & Hk%elem_of_map_to_list)%list_elem_of_fmap; cbn.
    by rewrite <-(Hs _ _ Hk).
  - intros Hg. apply list_elem_of_fmap. eexists (_, b). split; [done|].
    by apply elem_of_map_to_list.
Qed.

(** Coordinates of a well-formed signer are 32 bytes, so its own key is
    selectable. *)
Lemma local_coordinates_ok s :
  b64url_roundtrip B → signer_wf s →
  coordinate_ok (public_xy s).1 = true ∧ coordinate_ok (public_xy s).2 = true.
Proof.
  intros Hb [Hl _]. unfold coordinate_ok, public_xy; cbn [fst snd].
  by rewrite !Hb, !slice_length by lia.
Qed.

Lemma local_decoding_key td s k :
  jwkset_parses → b64url_roundtrip B → signer_wf s →
  jwt_decoding_key (local_bundle td s) k =
    if String.eqb (kid s) k
    then from_jwk (mkJwk (Some (kid s)) (AlgEC CurveP256 (public_xy s).1 (public_xy s).2))
    else None.
Proof.
  intros Hj Hb Hs. unfold jwt_decoding_key, local_bundle; cbn [jwt_authorities].
  rewrite jwks_ec, Hj. unfold jwk_find; cbn [find_first jwk_kid].
  case_streq; [|done]. cbn [jwk_alg].
  destruct (local_coordinates_ok s Hb Hs) as [-> ->]. done.
Qed.

(** ** Properties *)

(** The store is a map from trust domains to bundles: after an
    [upsert] the domain's lookup gives that bundle and every other domain's
    lookup is unchanged — no two domains share an entry, whatever their
    payloads — and a reachable store's snapshot lists exactly the bundles
    lookups find, each once per domain. *)
Theorem trust_bundle_store_is_a_map b s :
  store_reachable s →
  (∀ td, store_get td (upsert b s) =
     if decide (td = b_trust_domain b) then Some b else store_get td s)
  ∧ (∀ c, c ∈ snapshot s ↔ store_get (b_trust_domain c) s = Some c)
  ∧ NoDup (b_trust_domain <$> snapshot s).
Proof.
  intros Hr. split_and!; [intros; apply store_get_upsert|intros; by apply snapshot_elem|].
  pose proof (store_reachable_wf s Hr) as Hwf.
  apply (NoDup_fmap_1 show_td). unfold snapshot.
  assert (show_td <$> (b_trust_domain <$> (map_to_list (bundles s)).*2)
          = (map_to_list (bundles s)).*1) as ->; [|apply NoDup_fst_map_to_list].
  rewrite <-!list_fmap_compose. apply list_fmap_ext. intros i [k c] Hi; cbn.
  symmetry. apply Hwf. apply elem_of_map_to_list. by eapply list_elem_of_lookup_2.
Qed.

(** A local bundle publishes one key and selects by [kid] alone: the
    signer's own [kid] yields the verification key of exactly the signer's
    public point, every other [kid] is a miss rather than a fallback; and
    there is no X.509 authority. *)
Theorem local_bundle_selects_by_kid td s sk rng :
  jwkset_parses → b64url_roundtrip B → from_signing_key sk rng = Ok s →
  x509_authorities (local_bundle td s) = []
  ∧ jwt_decoding_key (local_bundle td s) (kid s) =
      from_jwk (mkJwk (Some (kid s)) (AlgEC CurveP256
        (b64url_encode (slice 1 33 (to_encoded_point sk)))
        (b64url_encode (slice 33 65 (to_encoded_point sk)))))
  ∧ ∀ k, k ≠ kid s → jwt_decoding_key (local_bundle td s) k = None.
Proof.
  intros Hj Hb Hs. pose proof (from_signing_key_wf _ _ _ Hs) as Hwf. split_and!; [done| |].
  - rewrite local_decoding_key, String.eqb_refl by done. unfold public_xy.
    unfold from_signing_key in Hs. by case_result.
  - intros k Hk. rewrite local_decoding_key by done.
    destruct (String.eqb_spec (kid s) k); congruence.
Qed.
End Bundle.

Definition toy_signer : SvidSigner :=
  mkSigner (P := toy_p256) (replicate 32 "007"%char) (toy_point (replicate 32 "007"%char))
    (replicate 32 "007"%char) (replicate 32 "001"%char).

Lemma trust_bundle_store_is_a_map_witness :
  let b := local_bundle (S := toy_sha2) SshLocal toy_signer in
  let c := local_bundle (S := toy_sha2) Tailscale toy_signer in
  let s := upsert b store_new in
  (∀ td, store_get td (upsert c s) =
     if decide (td = Tailscale) then Some c else store_get td s)
  ∧ (∀ d, d ∈ snapshot s ↔ store_get (b_trust_domain d) s = Some d)
  ∧ NoDup (b_trust_domain <$> snapshot s).
Proof.
  apply (trust_bundle_store_is_a_map (local_bundle (S := toy_sha2) Tailscale toy_signer)
    (upsert (local_bundle (S := toy_sha2) SshLocal toy_signer) store_new)).
  apply reach_upsert, reach_new.
Defined.

Lemma local_bundle_selects_by_kid_witness :
  let b := local_bundle (S := toy_sha2) SshLocal toy_signer in
  x509_authorities b = []
  ∧ jwt_decoding_key b (kid (S := toy_sha2) toy_signer) =
      Some (toy_public (replicate 32 "007"%char))
  ∧ ∀ k, k ≠ kid (S := toy_sha2) toy_signer → jwt_decoding_key b k = None.
Proof.
  destruct (local_bundle_selects_by_kid (S := toy_sha2) SshLocal toy_signer
    (replicate 32 "007"%char) (Ok (replicate 32 "001"%char))
    toy_jwkset_parses toy_b64url eq_refl) as (Hx & Hk & Hn).
  split; [exact Hx|split; [|exact Hn]]. rewrite Hk. reflexivity.
Defined.
