(* ===== verification/RwLock.v ===== *)
(** * [std::sync::RwLock], as [TrustBundleStore] uses it

    The lock word, the guards that exist and the poison flag.  Acquiring is a
    partial operation: [None] is a thread that has to wait.  A guard records
    the thread that holds it; dropping the write guard of a panicking thread
    poisons the lock, dropping a read guard never does. *)
From S2P Require Import Prelude.

(** [PoisonError<G>] and its [into_inner]. *)
Record PoisonError (G : Type) : Type := mkPoisonError { into_inner : G }.
Arguments mkPoisonError {G} _.
Arguments into_inner {G} _.

(** [Result::unwrap_or_else] *)
Definition unwrap_or_else {A E} (op : E → A) (r : result A E) : A :=
  match r with Ok a => a | Err e => op e end.

Inductive Guard : Type := ReadGuard (t : nat) | WriteGuard (t : nat).
#[export] Instance Guard_eq_dec : EqDecision Guard.
Proof. solve_decision. Defined.

Record RwLock (T : Type) : Type := mkRwLock {
  cell : T;
  readers : gset nat;
  writer : option nat;
  is_poisoned : bool;
}.
Arguments mkRwLock {T} _ _ _ _.
Arguments cell {T} _.
Arguments readers {T} _.
Arguments writer {T} _.
Arguments is_poisoned {T} _.

Section RwLock.
Context {T : Type}.
Implicit Types l : RwLock T.

Definition rwlock_new (x : T) : RwLock T := mkRwLock x ∅ None false.

(** [LockResult]: the guard, inside an error when the flag is set. *)
Definition lock_result (poisoned : bool) (g : Guard) : result Guard (PoisonError Guard) :=
  if poisoned then Err (mkPoisonError g) else Ok g.

(** [RwLock::read] and [RwLock::write], by thread [t]. *)
Definition read (t : nat) (l : RwLock T) : option (result Guard (PoisonError Guard) * RwLock T) :=
  match writer l with
  | Some _ => None
  | None => Some (lock_result (is_poisoned l) (ReadGuard t),
                  mkRwLock (cell l) ({[t]} ∪ readers l) None (is_poisoned l))
  end.
Definition write (t : nat) (l : RwLock T) : option (result Guard (PoisonError Guard) * RwLock T) :=
  match writer l with
  | Some _ => None
  | None => if bool_decide (readers l = ∅)
            then Some (lock_result (is_poisoned l) (WriteGuard t),
                       mkRwLock (cell l) ∅ (Some t) (is_poisoned l))
            else None
  end.

(** Dropping a guard, in a thread that is unwinding or not. *)
Definition drop_guard (panicking : bool) (g : Guard) (l : RwLock T) : RwLock T :=
  match g with
  | ReadGuard t => mkRwLock (cell l) (readers l ∖ {[t]}) (writer l) (is_poisoned l)
  | WriteGuard _ => mkRwLock (cell l) (readers l) None (is_poisoned l || panicking)
  end.

(** Writing through the write guard. *)
Definition set_cell (x : T) (l : RwLock T) : RwLock T :=
  mkRwLock x (readers l) (writer l) (is_poisoned l).

(** Shared or exclusive, never both. *)
Definition lock_ok (l : RwLock T) : Prop := ∀ t, writer l = Some t → readers l = ∅.

(** With [into_inner] on the error the poison flag decides nothing. *)
Lemma lock_result_into_inner poisoned g :
  unwrap_or_else into_inner (lock_result poisoned g) = g.
Proof. by destruct poisoned. Qed.

Lemma read_ok t l r l' : read t l = Some (r, l') → lock_ok l'.
Proof. unfold read. destruct (writer l); [done|]. by intros [= <- <-] ?. Qed.
Lemma write_ok t l r l' : write t l = Some (r, l') → lock_ok l'.
Proof.
  unfold write. destruct (writer l); [done|]. case_bool_decide; [|done]. by intros [= <- <-].
Qed.
Lemma drop_guard_ok b g l : lock_ok l → lock_ok (drop_guard b g l).
Proof.
  intros H u. destruct g as [t|t]; cbn; [|done]. intros Hu. rewrite (H _ Hu). set_solver.
Qed.
End RwLock.
