(* ===== verification/SharedStore.v ===== *)
(** * The bundle store shared by the handlers ([hire-core/src/trust_bundle.rs])

    [TrustBundleStore] behind its [RwLock], used by any number of threads at
    once.  A call is the steps the code makes: wait for the guard, work on the
    map under it, give it back; [snapshot] clones one bundle at a time.  The
    specification is a store whose operations happen at one instant between
    call and return. *)
From S2P Require Import Prelude RustStr External Json Jwt SpiffeId Toy Signer TrustBundle RwLock.
From stdpp Require Import relations.

(** ** The operations and what they mean one at a time *)

(** [Unwind] is a thread that takes the write guard and panics under it: no
    operation of the store does, the unit test of the poison flag does. *)
Inductive Op : Type :=
| Upsert (b : TrustBundle)
| Get (td : TrustDomain)
| Snapshot
| Unwind.

Inductive Reply : Type :=
| Stored
| Found (b : option TrustBundle)
| Listed (bs : list TrustBundle).

Definition wants_write (c : Op) : bool :=
  match c with Upsert _ | Unwind => true | Get _ | Snapshot => false end.

Definition sequential (c : Op) (s : TrustBundleStore) : option (Reply * TrustBundleStore) :=
  match c with
  | Upsert b => Some (Stored, upsert b s)
  | Get td => Some (Found (store_get td s), s)
  | Snapshot => Some (Listed (snapshot s), s)
  | Unwind => None
  end.

(** ** Threads *)

Inductive Thread : Type :=
| Idle
| Waiting (c : Op)                                       (* inside [read()] or [write()] *)
| Holding (g : Guard) (c : Op)                           (* guard taken, nothing done yet *)
| Cloning (g : Guard) (keys : list string) (acc : list TrustBundle)   (* [values().cloned()] *)
| Leaving (g : Guard) (r : Reply)                        (* the result is there, the guard still is *)
| Dead.

Record Process : Type := mkProcess { lock : RwLock TrustBundleStore; threads : list Thread }.

Inductive Event : Type :=
| Called (t : nat) (c : Op)
| Returned (t : nat) (r : Reply)
| Panicked (t : nat).

Inductive Action : Type := Invoke (t : nat) (c : Op) | Run (t : nat).

Definition writer_waits (p : Process) : bool :=
  existsb (λ th, match th with Waiting c => wants_write c | _ => false end) (threads p).

(** The lock's policy is not documented: with [prefer] a reader also waits for
    the writers that wait. *)
Definition acquire (prefer : bool) (t : nat) (c : Op) (p : Process)
    : option (result Guard (PoisonError Guard) * RwLock TrustBundleStore) :=
  if wants_write c then write t (lock p)
  else if prefer && writer_waits p then None
  else read t (lock p).

Definition goto (t : nat) (th : Thread) (l : RwLock TrustBundleStore) (p : Process) : Process :=
  mkProcess l (<[t := th]> (threads p)).

Definition keys_of (s : TrustBundleStore) : list string := (map_to_list (TrustBundle.bundles s)).*1.

(** What thread [t] does next, in the order of the code: the guard, out of
    the error when the lock is poisoned; the map; the guard again. *)
Definition run (prefer : bool) (t : nat) (p : Process) : option (option Event * Process) :=
  let l := lock p in
  match threads p !! t with
  | Some (Waiting c) =>
      let! (r, l) := acquire prefer t c p in
      Some (None, goto t (Holding (unwrap_or_else into_inner r) c) l p)
  | Some (Holding g (Upsert b)) =>
      Some (None, goto t (Leaving g Stored) (set_cell (upsert b (cell l)) l) p)
  | Some (Holding g (Get td)) =>
      Some (None, goto t (Leaving g (Found (store_get td (cell l)))) l p)
  | Some (Holding g Snapshot) =>
      Some (None, goto t (Cloning g (keys_of (cell l)) []) l p)
  | Some (Holding g Unwind) =>
      Some (Some (Panicked t), goto t Dead (drop_guard true g l) p)
  | Some (Cloning g (k :: ks) acc) =>
      Some (None, goto t (Cloning g ks (acc ++ option_list (TrustBundle.bundles (cell l) !! k))) l p)
  | Some (Cloning g [] acc) => Some (None, goto t (Leaving g (Listed acc)) l p)
  | Some (Leaving g r) => Some (Some (Returned t r), goto t Idle (drop_guard false g l) p)
  | Some Idle | Some Dead | None => None
  end.

Definition exec (prefer : bool) (a : Action) (p : Process) : option (option Event * Process) :=
  match a with
  | Invoke t c =>
      match threads p !! t with
      | Some Idle => Some (Some (Called t c), goto t (Waiting c) (lock p) p)
      | _ => None
      end
  | Run t => run prefer t p
  end.

(** A schedule, with the events it shows. *)
Fixpoint exec_all (prefer : bool) (acts : list Action) (p : Process) : option (list Event * Process) :=
  match acts with
  | [] => Some ([], p)
  | a :: acts =>
      let! (e, p) := exec prefer a p in
      let! (tr, p) := exec_all prefer acts p in
      Some (option_list e ++ tr, p)
  end.

(** [n] threads at rest over a fresh lock. *)
Definition spawned (s : TrustBundleStore) (n : nat) : Process :=
  mkProcess (rwlock_new s) (replicate n Idle).

(** ** The specification: every operation at one instant *)

Inductive Status : Type := AIdle | APending (c : Op) | ADone (r : Reply) | ADead.
Record Atomic : Type := mkAtomic { a_store : TrustBundleStore; a_threads : list Status }.

Inductive astep (a : Atomic) : option Event → Atomic → Prop :=
| a_call t c :
    a_threads a !! t = Some AIdle →
    astep a (Some (Called t c)) (mkAtomic (a_store a) (<[t := APending c]> (a_threads a)))
| a_apply t c r s :
    a_threads a !! t = Some (APending c) → sequential c (a_store a) = Some (r, s) →
    astep a None (mkAtomic s (<[t := ADone r]> (a_threads a)))
| a_return t r :
    a_threads a !! t = Some (ADone r) →
    astep a (Some (Returned t r)) (mkAtomic (a_store a) (<[t := AIdle]> (a_threads a)))
| a_panic t :
    a_threads a !! t = Some (APending Unwind) →
    astep a (Some (Panicked t)) (mkAtomic (a_store a) (<[t := ADead]> (a_threads a))).

Inductive atrace : Atomic → list Event → Atomic → Prop :=
| atrace_nil a : atrace a [] a
| atrace_cons a e a1 tr a2 :
    astep a e a1 → atrace a1 tr a2 → atrace a (option_list e ++ tr) a2.

Definition status_of (th : Thread) : Status :=
  match th with
  | Idle => AIdle
  | Waiting c | Holding _ c => APending c
  | Cloning _ _ _ => APending Snapshot
  | Leaving _ r => ADone r
  | Dead => ADead
  end.

(** The refinement mapping. *)
Definition atomic_of (p : Process) : Atomic :=
  mkAtomic (cell (lock p)) (status_of <$> threads p).

(** ** The invariant *)

Definition held (th : Thread) : option Guard :=
  match th with
  | Holding g _ | Cloning g _ _ | Leaving g _ => Some g
  | Idle | Waiting _ | Dead => None
  end.

Definition guard_for (c : Op) (t : nat) : Guard :=
  if wants_write c then WriteGuard t else ReadGuard t.

(** What a thread has found out so far is about the map as it is. *)
Definition thread_ok (s : TrustBundleStore) (t : nat) (th : Thread) : Prop :=
  match th with
  | Holding g c => g = guard_for c t
  | Cloning g ks acc => g = ReadGuard t
      ∧ ∃ seen, keys_of s = seen ++ ks ∧ acc = omap (λ k, TrustBundle.bundles s !! k) seen
  | Leaving g _ => g = ReadGuard t ∨ g = WriteGuard t
  | Idle | Waiting _ | Dead => True
  end.

(** The guards that exist are the ones the threads hold. *)
Record inv (p : Process) : Prop := {
  inv_lock : lock_ok (lock p);
  inv_read t : t ∈ readers (lock p) ↔ threads p !! t ≫= held = Some (ReadGuard t);
  inv_write t : writer (lock p) = Some t ↔ threads p !! t ≫= held = Some (WriteGuard t);
  inv_thread t th : threads p !! t = Some th → thread_ok (cell (lock p)) t th;
}.

Lemma spawned_inv s n : inv (spawned s n).
Proof.
  assert (H : ∀ t th, replicate n Idle !! t = Some th → th = Idle).
  { by intros t th [-> _]%lookup_replicate. }
  split; cbn; [done|..].
  - intros t. destruct (_ !! t) as [th|] eqn:E; [apply H in E as ->|]; cbn; set_solver.
  - intros t. destruct (_ !! t) as [th|] eqn:E; [apply H in E as ->|]; by cbn.
  - by intros t th ->%H.
Qed.

(** One thread moves and the lock changes for it alone. *)
Lemma inv_goto p t th th' l :
  inv p → threads p !! t = Some th → lock_ok l →
  (∀ u, u ≠ t → (u ∈ readers l ↔ u ∈ readers (lock p))
                ∧ (writer l = Some u ↔ writer (lock p) = Some u)) →
  (t ∈ readers l ↔ held th' = Some (ReadGuard t)) →
  (writer l = Some t ↔ held th' = Some (WriteGuard t)) →
  thread_ok (cell l) t th' →
  cell l = cell (lock p) ∨ readers (lock p) = ∅ →
  inv (goto t th' l p).
Proof.
  intros [Hl Hr Hw Ht] Hth Hok Hu Hrt Hwt Hth' Hc.
  pose proof (lookup_lt_Some _ _ _ Hth) as Hlt.
  split; cbn [goto lock threads]; [done|..].
  - intros u. destruct (decide (u = t)) as [->|Hne].
    + by rewrite list_lookup_insert_eq.
    + rewrite list_lookup_insert_ne by done. by rewrite (proj1 (Hu u Hne)).
  - intros u. destruct (decide (u = t)) as [->|Hne].
    + by rewrite list_lookup_insert_eq.
    + rewrite list_lookup_insert_ne by done. by rewrite (proj2 (Hu u Hne)).
  - intros u thu. destruct (decide (u = t)) as [->|Hne].
    + rewrite list_lookup_insert_eq by done. by intros [= <-].
    + rewrite list_lookup_insert_ne by done. intros E. pose proof (Ht u thu E) as Htu.
      destruct Hc as [->|Hc]; [done|]. destruct thu as [| | |g ks acc| |]; try done.
      destruct Htu as [-> _]. pose proof (proj2 (Hr u)) as Hx. rewrite E in Hx.
      specialize (Hx eq_refl). rewrite Hc in Hx. by apply elem_of_empty in Hx.
Qed.

Lemma held_reading p t th : inv p → threads p !! t = Some th → held th = Some (ReadGuard t) →
  t ∈ readers (lock p) ∧ writer (lock p) = None.
Proof.
  intros Hi Hth Hh. assert (Hin : t ∈ readers (lock p)) by (apply (inv_read p Hi); by rewrite Hth).
  split; [done|]. destruct (writer (lock p)) as [u|] eqn:Hw; [|done].
  pose proof (inv_lock p Hi u Hw) as E. rewrite E in Hin. by apply elem_of_empty in Hin.
Qed.

Lemma held_writing p t th : inv p → threads p !! t = Some th → held th = Some (WriteGuard t) →
  writer (lock p) = Some t ∧ readers (lock p) = ∅.
Proof.
  intros Hi Hth Hh. assert (Hw : writer (lock p) = Some t) by (apply (inv_write p Hi); by rewrite Hth).
  split; [done|]. by eapply inv_lock.
Qed.

(** Taking the guard. *)
Lemma acquire_inv prefer t c p r l :
  inv p → threads p !! t = Some (Waiting c) → acquire prefer t c p = Some (r, l) →
  inv (goto t (Holding (unwrap_or_else into_inner r) c) l p)
  ∧ unwrap_or_else into_inner r = guard_for c t ∧ cell l = cell (lock p).
Proof.
  intros Hi Hth. unfold acquire.
  assert (Hnr : t ∉ readers (lock p)) by (rewrite (inv_read p Hi), Hth; by cbn).
  destruct (wants_write c) eqn:Hc; [|destruct (prefer && writer_waits p); [done|]].
  - intros Ha. pose proof (write_ok _ _ _ _ Ha) as Hok. revert Ha. unfold write.
    destruct (writer (lock p)) eqn:Hw; [done|]. case_bool_decide as Hr; [|done]. intros [= <- <-].
    rewrite lock_result_into_inner. unfold guard_for. rewrite Hc. split; [|done].
    eapply inv_goto; [done..| | | | |by left]; cbn.
    + intros u Hne. rewrite Hr, Hw. split; [done|naive_solver].
    + set_solver.
    + naive_solver.
    + unfold guard_for. by rewrite Hc.
  - intros Ha. pose proof (read_ok _ _ _ _ Ha) as Hok. revert Ha. unfold read.
    destruct (writer (lock p)) eqn:Hw; [done|]. intros [= <- <-].
    rewrite lock_result_into_inner. unfold guard_for. rewrite Hc. split; [|done].
    eapply inv_goto; [done..| | | | |by left]; cbn.
    + intros u Hne. rewrite Hw. set_solver.
    + set_solver.
    + naive_solver.
    + unfold guard_for. by rewrite Hc.
Qed.

(** Working under the guard: the lock word stays. *)
Lemma stay_inv p t th th' s :
  inv p → threads p !! t = Some th → held th' = held th →
  thread_ok s t th' → s = cell (lock p) ∨ held th = Some (WriteGuard t) →
  inv (goto t th' (set_cell s (lock p)) p).
Proof.
  intros Hi Hth Hh Hok Hs. eapply inv_goto; [done..| | | | | |]; cbn [set_cell cell readers writer].
  - by apply inv_lock.
  - done.
  - rewrite Hh, (inv_read p Hi), Hth. done.
  - rewrite Hh, (inv_write p Hi), Hth. done.
  - done.
  - destruct Hs as [->|Hs]; [by left|]. right. by eapply held_writing.
Qed.

Lemma set_cell_id (l : RwLock TrustBundleStore) : set_cell (cell l) l = l.
Proof. by destruct l. Qed.

Lemma stay_inv_read p t th th' :
  inv p → threads p !! t = Some th → held th' = held th → thread_ok (cell (lock p)) t th' →
  inv (goto t th' (lock p) p).
Proof.
  intros Hi Hth Hh Hok. rewrite <-(set_cell_id (lock p)) at 1.
  eapply stay_inv; [done..|by left].
Qed.

(** Giving the guard back. *)
Lemma leave_inv p t th th' b g :
  inv p → threads p !! t = Some th → held th = Some g → g = ReadGuard t ∨ g = WriteGuard t →
  held th' = None → thread_ok (cell (lock p)) t th' →
  inv (goto t th' (drop_guard b g (lock p)) p) ∧ cell (drop_guard b g (lock p)) = cell (lock p).
Proof.
  intros Hi Hth Hg Hgt Hh Hok. split; [|by destruct g].
  eapply inv_goto; [done..| | | | | |]; rewrite ?Hh.
  - apply drop_guard_ok. by apply inv_lock.
  - destruct Hgt as [-> | ->]; intros u Hne; cbn; [set_solver|].
    destruct (held_writing p t th Hi Hth Hg) as [-> ->]. naive_solver.
  - destruct Hgt as [-> | ->]; cbn; [set_solver|].
    destruct (held_writing p t th Hi Hth Hg) as [_ ->]. set_solver.
  - destruct Hgt as [-> | ->]; cbn; [|done].
    destruct (held_reading p t th Hi Hth Hg) as [_ ->]. done.
  - by destruct g.
  - left. by destruct g.
Qed.

(** The clone is complete when no key is left. *)
Lemma clone_complete s : omap (λ k, TrustBundle.bundles s !! k) (keys_of s) = snapshot s.
Proof.
  unfold keys_of, snapshot.
  assert (H : ∀ l, (∀ kv, kv ∈ l → TrustBundle.bundles s !! kv.1 = Some kv.2) →
    omap (λ k, TrustBundle.bundles s !! k) l.*1 = l.*2).
  { induction l as [|[k v] l IH]; intros Hl; [done|].
    pose proof (Hl (k, v) ltac:(apply elem_of_cons; auto)) as E. cbn in E |- *.
    rewrite E. f_equal. apply IH.
    intros kv Hkv. apply Hl, elem_of_cons. auto. }
  apply H. intros [k v] Hkv. by apply elem_of_map_to_list in Hkv.
Qed.

(** ** The simulation *)

Lemma atomic_of_goto t th l p :
  atomic_of (goto t th l p) = mkAtomic (cell l) (<[t := status_of th]> (status_of <$> threads p)).
Proof. unfold atomic_of, goto; cbn. by rewrite list_fmap_insert. Qed.

(** A step the specification does not see. *)
Lemma atomic_of_stutter t th th' l p :
  threads p !! t = Some th → status_of th' = status_of th → cell l = cell (lock p) →
  atomic_of (goto t th' l p) = atomic_of p.
Proof.
  intros Hth Hs Hc. rewrite atomic_of_goto, Hs, Hc. unfold atomic_of. f_equal.
  apply list_insert_id. by rewrite list_lookup_fmap, Hth.
Qed.

Lemma atomic_lookup p t th : threads p !! t = Some th →
  a_threads (atomic_of p) !! t = Some (status_of th).
Proof. intros H. cbn. by rewrite list_lookup_fmap, H. Qed.

(** The instant of an operation. *)
Lemma atomic_of_apply t th c r s p :
  threads p !! t = Some th → status_of th = APending c →
  sequential c (cell (lock p)) = Some (r, s) →
  ∀ g, astep (atomic_of p) None (atomic_of (goto t (Leaving g r) (set_cell s (lock p)) p)).
Proof.
  intros Hth Hs Hc g. rewrite atomic_of_goto. eapply a_apply; [|exact Hc].
  by rewrite (atomic_lookup _ _ _ Hth), Hs.
Qed.

Lemma atomic_of_apply_read t th c r p :
  threads p !! t = Some th → status_of th = APending c →
  sequential c (cell (lock p)) = Some (r, cell (lock p)) →
  ∀ g, astep (atomic_of p) None (atomic_of (goto t (Leaving g r) (lock p) p)).
Proof.
  intros Hth Hs Hc g. pose proof (atomic_of_apply _ _ _ _ _ _ Hth Hs Hc g) as H.
  by rewrite set_cell_id in H.
Qed.

(** One step of the code is at most one step of the specification, with the
    same event. *)
Lemma exec_simulates prefer a p e p' :
  inv p → exec prefer a p = Some (e, p') →
  inv p' ∧ ((e = None ∧ atomic_of p' = atomic_of p) ∨ astep (atomic_of p) e (atomic_of p')).
Proof.
  intros Hi. destruct a as [t c|t]; cbn [exec].
  - destruct (threads p !! t) as [[]|] eqn:Hth; try done. intros [= <- <-]. split.
    + by eapply stay_inv_read.
    + right. rewrite atomic_of_goto. by apply (a_call (atomic_of p)), (atomic_lookup p t Idle).
  - unfold run. destruct (threads p !! t) as [[|c|g c|g [|k ks] acc|g r|]|] eqn:Hth; try done.
    + destruct (acquire prefer t c p) as [[r l]|] eqn:Ha; [|done]. intros [= <- <-].
      destruct (acquire_inv _ _ _ _ _ _ Hi Hth Ha) as (Hi' & _ & Hc). split; [done|left].
      split; [done|]. by eapply atomic_of_stutter.
    + assert (g = guard_for c t) as -> by apply (inv_thread p Hi t _ Hth).
      destruct c as [b|td| |]; intros [= <- <-].
      * split; [|right; by eapply atomic_of_apply]. eapply stay_inv; [done..|by right|by right].
      * split; [|right; by eapply atomic_of_apply_read]. eapply stay_inv_read; [done..|by left].
      * split.
        -- eapply stay_inv_read; [done..|]. split; [done|]. by exists [].
        -- left. split; [done|]. by eapply atomic_of_stutter.
      * destruct (leave_inv p t (Holding (guard_for Unwind t) Unwind) Dead true _ Hi Hth eq_refl
          ltac:(by right) eq_refl I) as [Hi' _]. split; [done|right].
        rewrite atomic_of_goto. cbn [cell]. by apply (a_panic (atomic_of p)), (atomic_lookup _ _ _ Hth).
    + pose proof (inv_thread p Hi t _ Hth) as (-> & seen & Hk & ->). rewrite app_nil_r in Hk.
      intros [= <- <-]. rewrite <-Hk, clone_complete. split.
      * eapply stay_inv_read; [done..|by left].
      * right. by eapply atomic_of_apply_read.
    + pose proof (inv_thread p Hi t _ Hth) as (-> & seen & Hk & ->). intros [= <- <-]. split.
      * eapply stay_inv_read; [done..|]. split; [done|]. exists (seen ++ [k]). rewrite <-app_assoc. split; [done|].
        by rewrite omap_app.
      * left. split; [done|]. by eapply atomic_of_stutter.
    + intros [= <- <-].
      destruct (leave_inv p t (Leaving g r) Idle false g Hi Hth eq_refl
        (inv_thread p Hi t _ Hth) eq_refl I) as [Hi' Hc]. split; [done|right].
      rewrite atomic_of_goto, Hc. by apply (a_return (atomic_of p)), (atomic_lookup _ _ _ Hth).
Qed.

Lemma exec_all_simulates prefer acts p tr p' :
  inv p → exec_all prefer acts p = Some (tr, p') →
  inv p' ∧ atrace (atomic_of p) tr (atomic_of p').
Proof.
  revert p tr; induction acts as [|a acts IH]; intros p tr Hi; cbn [exec_all].
  - intros [= <- <-]. split; [done|constructor].
  - destruct (exec prefer a p) as [[e p1]|] eqn:Ha; [|done].
    destruct (exec_all prefer acts p1) as [[tr1 p2]|] eqn:Hacts; [|done]. intros [= <- <-].
    destruct (exec_simulates _ _ _ _ _ Hi Ha) as [Hi1 Hs].
    destruct (IH p1 tr1 Hi1 Hacts) as [Hi2 Ht]. split; [done|].
    destruct Hs as [[-> <-]|Hs]; [done|]. by eapply atrace_cons.
Qed.

(** ** Progress *)

Definition at_rest (th : Thread) : bool := match th with Idle | Dead => true | _ => false end.

Lemma run_holder prefer t p th g :
  threads p !! t = Some th → held th = Some g → is_Some (run prefer t p).
Proof.
  unfold run. intros ->. destruct th as [| |? []|? [|] ?| |]; try done; by eexists.
Qed.

(** Someone who waits can be served when nobody holds a guard: a writer, or
    a reader when no writer waits. *)
Lemma run_waiter prefer p :
  inv p → (∀ t, threads p !! t ≫= held = None) → (∃ t c, threads p !! t = Some (Waiting c)) →
  ∃ t, is_Some (run prefer t p).
Proof.
  intros Hi Hn (t & c & Hth).
  assert (Hw : writer (lock p) = None).
  { destruct (writer (lock p)) as [u|] eqn:E; [|done]. apply (inv_write p Hi) in E.
    by rewrite Hn in E. }
  assert (Hr : readers (lock p) = ∅).
  { apply set_eq. intros u. rewrite (inv_read p Hi), Hn. set_solver. }
  assert (Hwrite : ∀ u d, threads p !! u = Some (Waiting d) → wants_write d = true →
    is_Some (run prefer u p)).
  { intros u d Hu Hd. unfold run, acquire, write. rewrite Hu, Hd, Hw, Hr. by eexists. }
  destruct (wants_write c) eqn:Hc; [exists t; by eapply Hwrite|].
  destruct (writer_waits p) eqn:Hww.
  - apply existsb_exists in Hww as (th & Hin & Hth'). destruct th as [|d| | | |]; try done.
    apply list_elem_of_In, list_elem_of_lookup in Hin as [u Hu]. exists u. by eapply Hwrite.
  - exists t. unfold run, acquire, read. rewrite Hth, Hc, Hww, andb_false_r, Hw. by eexists.
Qed.

(** No deadlock: as long as a call is under way some thread can move. *)
Lemma progress prefer p :
  inv p → (∃ t th, threads p !! t = Some th ∧ at_rest th = false) → ∃ t, is_Some (run prefer t p).
Proof.
  intros Hi (t & th & Hth & Hb).
  destruct (decide (Exists (λ th, held th ≠ None) (threads p))) as [He|He].
  - apply Exists_exists in He as (th' & Hin & Hh). apply list_elem_of_lookup in Hin as [u Hu].
    destruct (held th') as [g|] eqn:E; [|done]. exists u. by eapply run_holder.
  - assert (Hnone : ∀ u, threads p !! u ≫= held = None).
    { intros u. destruct (threads p !! u) as [thu|] eqn:Hu; [|done]. cbn.
      destruct (held thu) eqn:Eh; [|done]. destruct He. apply Exists_exists. exists thu.
      split; [by eapply list_elem_of_lookup_2|congruence]. }
    apply run_waiter; [done..|]. specialize (Hnone t). rewrite Hth in Hnone. cbn in Hnone.
    destruct th; try done. by exists t, c.
Qed.

(** ** Termination *)

(** Bundles there are or may yet be put in. *)
Definition stores (th : Thread) : nat :=
  match th with Waiting (Upsert _) | Holding _ (Upsert _) => 1 | _ => 0 end.
Definition room (p : Process) : nat :=
  size (TrustBundle.bundles (cell (lock p))) + sum_list_with stores (threads p).

(** The steps a call has left, when the map never exceeds [n] bundles. *)
Definition left_of (n : nat) (th : Thread) : nat :=
  match th with
  | Idle | Dead => 0
  | Waiting _ => n + 4
  | Holding _ _ => n + 3
  | Cloning _ ks _ => length ks + 2
  | Leaving _ _ => 1
  end.
Definition fuel_left (p : Process) : nat := sum_list_with (left_of (room p)) (threads p).

Lemma sum_list_with_insert {A} (f : A → nat) l i x y :
  l !! i = Some x → sum_list_with f (<[i := y]> l) + f x = sum_list_with f l + f y.
Proof.
  revert i; induction l as [|z l IH]; intros [|i] H; simpl in *; simplify_eq; [lia|].
  specialize (IH i H). fold (@insert nat A (list A) _ i y l) in *. lia.
Qed.

Lemma sum_list_with_mono {A} (f g : A → nat) l :
  (∀ x, f x ≤ g x) → sum_list_with f l ≤ sum_list_with g l.
Proof. intros H. induction l as [|x l IH]; cbn; [lia|]. specialize (H x). lia. Qed.

Lemma left_of_mono m n th : m ≤ n → left_of m th ≤ left_of n th.
Proof. destruct th; cbn; lia. Qed.

(** A step that gives up some of its thread's share lowers the total. *)
Lemma fuel_goto p t th th' l :
  threads p !! t = Some th →
  size (TrustBundle.bundles (cell l)) + stores th' ≤
    size (TrustBundle.bundles (cell (lock p))) + stores th →
  left_of (room p) th' < left_of (room p) th →
  fuel_left (goto t th' l p) < fuel_left p.
Proof.
  intros Hth Hs Hl. unfold fuel_left.
  assert (Hroom : room (goto t th' l p) ≤ room p).
  { unfold room, goto; cbn [lock threads].
    pose proof (sum_list_with_insert stores _ _ _ th' Hth). lia. }
  pose proof (sum_list_with_mono (left_of (room (goto t th' l p))) (left_of (room p))
    (threads (goto t th' l p)) (λ x, left_of_mono _ _ x Hroom)).
  pose proof (sum_list_with_insert (left_of (room p)) _ _ _ th' Hth). cbn [goto threads] in *. lia.
Qed.

Lemma run_fuel prefer t p e p' :
  inv p → run prefer t p = Some (e, p') → fuel_left p' < fuel_left p.
Proof.
  intros Hi. unfold run.
  destruct (threads p !! t) as [[|c|g c|g [|k ks] acc|g r|]|] eqn:Hth; try done.
  - destruct (acquire prefer t c p) as [[r l]|] eqn:Ha; [|done]. intros [= <- <-].
    destruct (acquire_inv _ _ _ _ _ _ Hi Hth Ha) as (_ & _ & Hc).
    eapply fuel_goto; [done|rewrite Hc; by destruct c|cbn; lia].
  - destruct c as [b|td| |]; intros [= <- <-]; (eapply fuel_goto; [done|..]); cbn [stores left_of];
      try lia.
    + unfold set_cell, upsert; cbn [cell TrustBundle.bundles]. rewrite map_size_insert. case_match; simpl; lia.
    + unfold keys_of. rewrite length_fmap, length_map_to_list. unfold room. lia.
    + by destruct g.
  - intros [= <- <-]. eapply fuel_goto; [done|..]; cbn; lia.
  - intros [= <- <-]. eapply fuel_goto; [done|..]; cbn; lia.
  - intros [= <- <-]. eapply fuel_goto; [done|..]; cbn; [|lia]. destruct g; cbn; lia.
Qed.

Lemma atomic_of_spawned s n : atomic_of (spawned s n) = mkAtomic s (replicate n AIdle).
Proof. unfold atomic_of, spawned; cbn. f_equal. by rewrite fmap_replicate. Qed.

Lemma runs_bounded prefer sched p tr p' :
  inv p → exec_all prefer (Run <$> sched) p = Some (tr, p') → length sched + fuel_left p' ≤ fuel_left p.
Proof.
  revert p tr; induction sched as [|t sched IH]; intros p tr Hi; cbn [fmap list_fmap exec_all].
  - intros [= _ <-]. cbn. lia.
  - destruct (exec prefer (Run t) p) as [[e p1]|] eqn:Ht; [|done].
    destruct (exec_all prefer (Run <$> sched) p1) as [[tr1 p2]|] eqn:Hs; [|done]. intros [= _ <-].
    destruct (exec_simulates _ _ _ _ _ Hi Ht) as [Hi1 _]. cbn [exec] in Ht.
    pose proof (run_fuel _ _ _ _ _ Hi Ht). specialize (IH _ _ Hi1 Hs). cbn. lia.
Qed.

(** A fair enough scheduler brings every call to its end. *)
Lemma completes prefer p :
  inv p → ∃ sched tr p', exec_all prefer (Run <$> sched) p = Some (tr, p')
    ∧ Forall (λ th, at_rest th = true) (threads p').
Proof.
  remember (fuel_left p) as n eqn:Hn. revert p Hn.
  induction (lt_wf n) as [n _ IH]; intros p -> Hi.
  destruct (decide (Forall (λ th, at_rest th = true) (threads p))) as [Hr|Hr].
  - by exists [], [], p.
  - apply not_Forall_Exists, Exists_exists in Hr as (th & Hin & Hb%not_true_iff_false); [|apply _].
    apply list_elem_of_lookup in Hin as [u Hu].
    destruct (progress prefer p Hi ltac:(eauto)) as [t [[e p1] Ht]].
    destruct (exec_simulates prefer (Run t) _ _ _ Hi Ht) as [Hi1 _].
    destruct (IH _ (run_fuel _ _ _ _ _ Hi Ht) p1 eq_refl Hi1) as (sched & tr & p' & Hs & Hrest).
    exists (t :: sched), (option_list e ++ tr), p'. split; [|done].
    cbn [fmap list_fmap exec_all]. cbn [exec]. by rewrite Ht, Hs.
Qed.

(** ** Properties *)

(** C40: the shared store is linearizable, and no call on it can block for
    ever or fail.  Whatever calls any number of threads make and however their
    steps interleave, with a lock that prefers writers or not, the calls and
    results seen are those of a store whose operations each happen at one
    instant between call and return, and the map left is that store's; a
    [snapshot] that clones bundle by bundle is one consistent map.  A thread
    that panics under the write guard poisons the lock and nothing else: the
    other calls still return.  In every state reached, as long as a call is
    under way some thread can move, the steps left are bounded, and a schedule
    ends with every call returned. *)
Theorem shared_store_linearizable prefer s n acts tr p :
  exec_all prefer acts (spawned s n) = Some (tr, p) →
  (∃ a, atrace (mkAtomic s (replicate n AIdle)) tr a
        ∧ a_store a = cell (lock p) ∧ a_threads a = status_of <$> threads p)
  ∧ ((∃ t th, threads p !! t = Some th ∧ at_rest th = false) → ∃ t, is_Some (run prefer t p))
  ∧ (∀ sched tr' p', exec_all prefer (Run <$> sched) p = Some (tr', p') → length sched ≤ fuel_left p)
  ∧ ∃ sched tr' p', exec_all prefer (Run <$> sched) p = Some (tr', p')
      ∧ Forall (λ th, at_rest th = true) (threads p').
Proof.
  intros H. destruct (exec_all_simulates _ _ _ _ _ (spawned_inv s n) H) as [Hi Ht].
  rewrite atomic_of_spawned in Ht. split_and!.
  - by exists (atomic_of p).
  - by apply progress.
  - intros sched tr' p' Hs. pose proof (runs_bounded _ _ _ _ _ Hi Hs). lia.
  - by apply completes.
Qed.

(** ** A run, for the witness: one thread panics under the guard while
    another waits to list and a third to store *)
Definition ssh_bundle : TrustBundle := local_bundle (S := toy_sha2) SshLocal toy_signer.
Definition tailscale_bundle : TrustBundle := local_bundle (S := toy_sha2) Tailscale toy_signer.
Definition busy_schedule : list Action :=
  [Invoke 0 Unwind; Invoke 1 Snapshot; Invoke 2 (Upsert tailscale_bundle);
   Run 0; Run 0; Run 1; Run 1; Run 1; Run 1; Run 1; Run 2; Run 2; Run 2;
   Invoke 1 (Get Tailscale); Run 1; Run 1].
Definition busy_events : list Event :=
  [Called 0 Unwind; Called 1 Snapshot; Called 2 (Upsert tailscale_bundle);
   Panicked 0; Returned 1 (Listed [ssh_bundle]); Returned 2 Stored; Called 1 (Get Tailscale)].

Lemma shared_store_linearizable_witness :
  let s := upsert ssh_bundle store_new in
  ∃ p, exec_all false busy_schedule (spawned s 3) = Some (busy_events, p)
    ∧ is_poisoned (lock p) = true
    ∧ (∃ a, atrace (mkAtomic s (replicate 3 AIdle)) busy_events a
            ∧ a_store a = cell (lock p) ∧ a_threads a = status_of <$> threads p)
    ∧ ∃ t, is_Some (run false t p).
Proof.
  intros s.
  assert (H : exec_all false busy_schedule (spawned s 3) = Some (busy_events,
    mkProcess (mkRwLock (upsert tailscale_bundle s) {[1%nat]} None true)
      [Dead; Leaving (ReadGuard 1) (Found (Some tailscale_bundle)); Idle])) by (vm_compute; reflexivity).
  eexists. split; [exact H|]. split; [reflexivity|].
  destruct (shared_store_linearizable false s 3 busy_schedule busy_events _ H) as (Ha & Hp & _).
  split; [exact Ha|]. apply Hp. exists 1%nat. eexists. split; reflexivity.
Defined.
