(* ===== verification/Claim.v ===== *)
(** * Candidates, evidence and claims ([hire-attestors/src/claim.rs],
    [hire-attestors/src/lib.rs])

    Discovery output, the evidence variants with their tiers and bindings, and
    [Claim::derive], the single place an assurance level comes from.  Field
    privacy is not modelled: the verifying constructors are in [Verify]. *)
From S2P Require Import Prelude RustStr Assurance SpiffeId.

(** ** [hire-attestors/src/lib.rs] *)

Record SignedAssertion : Type := mkAssertion { sa_bytes : list byte; sa_format : string }.

Inductive FreshnessResult : Type :=
| Fresh
| Stale (p : PresenceLevel)
| FUnavailable.

(** [Io] keeps the text of the [std::io::Error]. *)
Inductive AttestorError : Type :=
| Unavailable (msg : string)
| ChallengeFailed (msg : string)
| Io (msg : string).

(** The [#[error(...)]] texts. *)
Definition show_attestor_error (e : AttestorError) : string :=
  match e with
  | Unavailable m => "source unavailable: " +:+ m
  | ChallengeFailed m => "challenge failed: " +:+ m
  | Io m => "IO error: " +:+ m
  end.

(** ** Discovery *)

Inductive SelfAssertedDomain : Type :=
| SaTailscale
| SaSshLocal
| SaPgpLocal
| SaPersonalDid (did : string).

#[export] Instance SelfAssertedDomain_eq_dec : EqDecision SelfAssertedDomain.
Proof. solve_decision. Defined.

(** [impl From<SelfAssertedDomain> for TrustDomain] *)
Definition into_td (d : SelfAssertedDomain) : TrustDomain :=
  match d with
  | SaTailscale => Tailscale
  | SaSshLocal => SshLocal
  | SaPgpLocal => PgpLocal
  | SaPersonalDid did => PersonalDid did
  end.

(** Not convertible to [IdentityAssurance], in either direction. *)
Inductive AttainableAssurance : Type := AIaa1 | AIaa2 | AIaa3.

#[export] Instance AttainableAssurance_eq_dec : EqDecision AttainableAssurance.
Proof. solve_decision. Defined.

Definition attainable_rank (a : AttainableAssurance) : nat :=
  match a with AIaa1 => 0 | AIaa2 => 1 | AIaa3 => 2 end.

Inductive ProofCost : Type := Silent | Interactive.

#[export] Instance ProofCost_eq_dec : EqDecision ProofCost.
Proof. solve_decision. Defined.

Record Candidate : Type := mkCandidate {
  c_source : string;
  c_domain : SelfAssertedDomain;
  c_path : string;
  c_display_name : string;
  attainable : AttainableAssurance;
  proof_cost : ProofCost;
}.

#[export] Instance Candidate_eq_dec : EqDecision Candidate.
Proof. solve_decision. Defined.

(** [Candidate::new]: attains nothing and costs a prompt. *)
Definition candidate_new (source : string) (domain : SelfAssertedDomain)
    (path display_name : string) : Candidate :=
  mkCandidate source domain path display_name AIaa1 Interactive.

Definition with_attainable (a : AttainableAssurance) (c : Candidate) : Candidate :=
  mkCandidate (c_source c) (c_domain c) (c_path c) (c_display_name c) a (proof_cost c).

Definition with_proof_cost (p : ProofCost) (c : Candidate) : Candidate :=
  mkCandidate (c_source c) (c_domain c) (c_path c) (c_display_name c) (attainable c) p.

(** [Candidate::spiffe_id] *)
Definition candidate_spiffe_id (c : Candidate) : SpiffeId :=
  mkSpiffeId (into_td (c_domain c)) (c_path c).

(** ** Evidence *)

Record ChallengeSignature : Type := mkSignature {
  cs_assertion : SignedAssertion;
  cs_challenge : list byte;
  observed_at : SystemTime;
}.
Record VerifiedToken : Type := mkToken { issuer_domain : string; authenticated_at : SystemTime }.
Record HardwareTouch : Type := mkTouch { touched_at : SystemTime }.
Record PlatformIdentity : Type := mkPlatform { account : string; p_asked_at : SystemTime }.
Record DaemonIdentity : Type := mkDaemon { subject : string; d_asked_at : SystemTime }.

(** [PlatformIdentity::observe] and [DaemonIdentity::observe], at the clock
    reading they take. *)
Definition platform_observe (account : string) (now : SystemTime) : PlatformIdentity :=
  mkPlatform account now.
Definition daemon_observe (subject : string) (now : SystemTime) : DaemonIdentity :=
  mkDaemon subject now.

Inductive Evidence : Type :=
| Possession (s : ChallengeSignature)
| IdpVerified (t : VerifiedToken)
| HardwarePresence (h : HardwareTouch)
| PlatformAssertion (p : PlatformIdentity)
| DaemonAssertion (d : DaemonIdentity).

(** [Evidence::tier] *)
Definition tier (e : Evidence) : IdentityAssurance * PresenceLevel * SystemTime :=
  match e with
  | Possession s => (Iaa1, PresenceNone, observed_at s)
  | IdpVerified t => (Iaa2, PresenceSession, authenticated_at t)
  | HardwarePresence h => (Iaa1, PresenceHardware, touched_at h)
  | PlatformAssertion p => (Iaa1, PresenceNone, p_asked_at p)
  | DaemonAssertion d => (Iaa2, PresenceNone, d_asked_at d)
  end.

(** [Evidence::binds_to] *)
Definition binds_to (c : Candidate) (challenge : list byte) (e : Evidence) : bool :=
  match e with
  | Possession s => bool_decide (cs_challenge s = challenge)
  | PlatformAssertion p => String.eqb (account p) (c_path c)
  | DaemonAssertion d => String.eqb (subject d) (c_path c)
  | IdpVerified _ | HardwarePresence _ => true
  end.

(** ** [Claim] *)

Record Claim : Type := mkClaim {
  cl_source : string;
  cl_assurance : IdentityAssurance;
  cl_presence : PresenceLevel;
  cl_spiffe_id : SpiffeId;
  cl_display_name : string;
  attested_at : SystemTime;
}.

(** One turn of the fold: presence and its instant move together. *)
Definition fold_tier (acc : IdentityAssurance * PresenceLevel * SystemTime) (e : Evidence)
    : IdentityAssurance * PresenceLevel * SystemTime :=
  let '(assurance, presence, at_) := acc in
  let '(a, p, t) := tier e in
  let assurance := assurance_max assurance a in
  if presence_ltb presence p || (bool_decide (p = presence) && (at_ <? t)%Z)
  then (assurance, p, t) else (assurance, presence, at_).

Definition issuer_of (e : Evidence) : option TrustDomain :=
  match e with IdpVerified t => Some (OrgOidc (issuer_domain t)) | _ => None end.

(** [Claim::derive] *)
Definition derive (c : Candidate) (challenge : list byte) (evidence : list Evidence)
    : option Claim :=
  match List.filter (binds_to c challenge) evidence with
  | [] => None
  | first :: rest =>
      let '(assurance, presence, at_) := fold_left fold_tier rest (tier first) in
      let assurance :=
        if presence_leb PresenceHardware presence && assurance_leb Iaa2 assurance
        then Iaa3 else assurance in
      let td := match find_map issuer_of (first :: rest) with
                | Some td => td
                | None => into_td (c_domain c)
                end in
      Some (mkClaim (c_source c) assurance presence (mkSpiffeId td (c_path c))
                    (c_display_name c) at_)
  end.

(** [Claim::age_at] *)
Definition age_at (now : SystemTime) (cl : Claim) : option Duration :=
  duration_since now (attested_at cl).

(** ** The fold, as a specification

    [summary ts r]: [r] holds the largest assurance of [ts], the largest
    presence, and the newest instant among the items of that presence — each
    one attained by an item. *)
Definition summary (ts : list (IdentityAssurance * PresenceLevel * SystemTime))
    (r : IdentityAssurance * PresenceLevel * SystemTime) : Prop :=
  (∀ t, t ∈ ts → assurance_rank t.1.1 ≤ assurance_rank r.1.1
               ∧ presence_rank t.1.2 ≤ presence_rank r.1.2
               ∧ (t.1.2 = r.1.2 → (t.2 <= r.2)%Z))
  ∧ (∃ t, t ∈ ts ∧ t.1.1 = r.1.1)
  ∧ (∃ t, t ∈ ts ∧ t.1.2 = r.1.2 ∧ t.2 = r.2).

Lemma summary_unique ts r r' : summary ts r → summary ts r' → r = r'.
Proof.
  intros (Hb & (ta & Hta & Ea) & (tp & Htp & Ep & Et))
         (Hb' & (ta' & Hta' & Ea') & (tp' & Htp' & Ep' & Et')).
  destruct r as [[a p] t], r' as [[a' p'] t']; cbn in *.
  destruct (Hb' _ Hta) as [H1 _], (Hb _ Hta') as [H2 _].
  destruct (Hb' _ Htp) as (_ & H3 & H4), (Hb _ Htp') as (_ & H5 & H6).
  assert (a = a') as -> by (apply assurance_rank_inj; rewrite Ea in H1; rewrite Ea' in H2; lia).
  assert (p = p') as -> by (apply presence_rank_inj; rewrite Ep in H3; rewrite Ep' in H5; lia).
  f_equal. rewrite Et in H4. rewrite Et' in H6. specialize (H4 Ep). specialize (H6 Ep'). lia.
Qed.

Lemma summary_perm ts ts' r : ts ≡ₚ ts' → summary ts r → summary ts' r.
Proof.
  intros Hp (Hb & (ta & Hta & Ea) & (tp & Htp & E)). split_and!.
  - intros t Ht. apply Hb. by rewrite Hp.
  - exists ta. by rewrite <-Hp.
  - exists tp. by rewrite <-Hp.
Qed.

Lemma summary_single t : summary [t] t.
Proof.
  split_and!; [|exists t; set_solver..].
  intros t' ->%list_elem_of_singleton. lia.
Qed.

Lemma summary_snoc ts r e : summary ts r → summary (ts ++ [tier e]) (fold_tier r e).
Proof.
  intros (Hb & (ta & Hta & Ea) & (tp & Htp & Ep & Et)).
  destruct r as [[a p] t]; unfold fold_tier; destruct (tier e) as [[a' p'] t'] eqn:He.
  cbn [fst snd] in *.
  assert (Hbest : (presence_ltb p p' || (bool_decide (p' = p) && (t <? t')%Z)) = true
            ∧ (presence_rank p < presence_rank p' ∨ (p' = p ∧ (t < t')%Z))
          ∨ (presence_ltb p p' || (bool_decide (p' = p) && (t <? t')%Z)) = false
            ∧ presence_rank p' ≤ presence_rank p ∧ (p' = p → (t' <= t)%Z)).
  { unfold presence_ltb. destruct (Nat.ltb_spec (presence_rank p) (presence_rank p')).
    - left. eauto.
    - case_bool_decide; cbn; [|right; split_and!; [done|lia|done]].
      destruct (Z.ltb_spec t t'); [left; eauto|right; split_and!; [done|lia|done]]. }
  assert (Ha : ∃ u, u ∈ ts ++ [(a', p', t')] ∧ u.1.1 = assurance_max a a').
  { unfold assurance_max. destruct (assurance_leb a a');
      [exists (a', p', t')|exists ta]; set_solver. }
  assert (Hle : ∀ u, u ∈ ts ++ [(a', p', t')] → assurance_rank u.1.1 ≤ assurance_rank (assurance_max a a')).
  { intros u Hu. rewrite assurance_max_rank. apply elem_of_app in Hu as [Hu| ->%list_elem_of_singleton];
      [apply Hb in Hu as [? _]; lia|cbn; lia]. }
  destruct Hbest as [[-> Hlt]|[-> [Hle' Heq]]]; (split_and!; [|done|]); cbn [fst snd].
  - intros u Hu. split; [by apply Hle|]. apply elem_of_app in Hu as [Hu| ->%list_elem_of_singleton].
    + apply Hb in Hu as (_ & H1 & H2). destruct Hlt as [Hlt|[-> Hlt]]; [|split; [lia|intros; specialize (H2 H); lia]].
      split; [lia|]. intros E. rewrite E in H1. lia.
    + cbn. lia.
  - exists (a', p', t'). set_solver.
  - intros u Hu. split; [by apply Hle|]. apply elem_of_app in Hu as [Hu| ->%list_elem_of_singleton].
    + apply Hb in Hu as (_ & H1 & H2). auto.
    + cbn. auto.
  - exists tp. set_solver.
Qed.

Lemma fold_tiers_summary rest first :
  summary (tier <$> first :: rest) (fold_left fold_tier rest (tier first)).
Proof.
  induction rest as [|e rest IH] using rev_ind; [apply summary_single|].
  rewrite fold_left_app, app_comm_cons, fmap_app. by apply summary_snoc.
Qed.

(** ** Lemmas on [derive] *)

(** The evidence that survives the challenge filter. *)
Abbreviation bound c challenge ev := (List.filter (binds_to c challenge) ev).

Lemma elem_of_bound c ch ev e : e ∈ bound c ch ev ↔ e ∈ ev ∧ binds_to c ch e = true.
Proof. rewrite !list_elem_of_In. apply filter_In. Qed.

(** The domain a claim sits under. *)
Definition claim_domain (c : Candidate) (ev : list Evidence) : TrustDomain :=
  match find_map issuer_of ev with Some td => td | None => into_td (c_domain c) end.

(** SPEC-HIRE's rule over the fold. *)
Definition claim_assurance (a : IdentityAssurance) (p : PresenceLevel) : IdentityAssurance :=
  if presence_leb PresenceHardware p && assurance_leb Iaa2 a then Iaa3 else a.

Lemma derive_spec c ch ev cl :
  derive c ch ev = Some cl ↔
  ∃ a p t, summary (tier <$> bound c ch ev) (a, p, t)
    ∧ cl = mkClaim (c_source c) (claim_assurance a p) p
             (mkSpiffeId (claim_domain c (bound c ch ev)) (c_path c)) (c_display_name c) t.
Proof.
  unfold derive. destruct (bound c ch ev) as [|first rest].
  - split; [done|]. intros (a & p & t & (_ & (u & Hu & _) & _) & _). cbn in Hu. set_solver.
  - pose proof (fold_tiers_summary rest first) as Hs.
    destruct (fold_left fold_tier rest (tier first)) as [[a p] t]. split.
    + intros [= <-]. exists a, p, t. split; [done|]. reflexivity.
    + intros (a' & p' & t' & Hs' & ->).
      pose proof (summary_unique _ _ _ Hs Hs') as [= -> -> ->]. reflexivity.
Qed.

Lemma derive_None c ch ev :
  derive c ch ev = None ↔ ∀ e, e ∈ ev → binds_to c ch e = false.
Proof.
  unfold derive. destruct (bound c ch ev) as [|first rest] eqn:Hf.
  - split; [|done]. intros _ e He. destruct (binds_to c ch e) eqn:Hb; [|done].
    assert (e ∈ bound c ch ev) as H by (by apply elem_of_bound).
    rewrite Hf in H. by apply elem_of_nil in H.
  - destruct (fold_left fold_tier rest (tier first)) as [[a p] t]. split; [done|].
    intros H. assert (first ∈ bound c ch ev) as [Hin Hb]%elem_of_bound by (rewrite Hf; set_solver).
    rewrite H in Hb; done.
Qed.

Lemma bound_perm c ch ev ev' : ev ≡ₚ ev' → bound c ch ev ≡ₚ bound c ch ev'.
Proof.
  induction 1 as [|e l l' Hp IH|e e' l|l l' l'' _ IH1 _ IH2]; cbn.
  - done.
  - destruct (binds_to c ch e); by rewrite IH.
  - destruct (binds_to c ch e), (binds_to c ch e'); try done. constructor.
  - by rewrite IH1.
Qed.

Lemma find_map_issuer_None ev :
  find_map issuer_of ev = None ↔ ∀ t, IdpVerified t ∉ ev.
Proof.
  induction ev as [|e ev IH]; [split; [set_solver|done]|]. cbn.
  destruct e as [|t| | |]; cbn;
    try (rewrite IH; split; intros H t'; specialize (H t'); set_solver).
  split; [done|]. intros H. specialize (H t). set_solver.
Qed.

Lemma find_map_issuer_Some ev td :
  find_map issuer_of ev = Some td →
  ∃ t, IdpVerified t ∈ ev ∧ td = OrgOidc (issuer_domain t).
Proof.
  induction ev as [|e ev IH]; [done|]. cbn. destruct e as [|t| | |]; cbn;
    try (intros H%IH; destruct H as (t' & ? & ->); exists t'; set_solver).
  intros [= <-]. exists t. set_solver.
Qed.

Lemma tier_presence_hardware e :
  (tier e).1.2 = PresenceHardware ↔ ∃ h, e = HardwarePresence h.
Proof. destruct e; cbn; (split; [by intros ?; eauto|by intros [? [=]]]). Qed.

Lemma tier_assurance_le2 e : (tier e).1.1 = Iaa1 ∨ (tier e).1.1 = Iaa2.
Proof. destruct e; cbn; auto. Qed.

(** Bound hardware evidence decides the claim's presence. *)
Lemma summary_hardware c ch ev a p t :
  summary (tier <$> bound c ch ev) (a, p, t) →
  p = PresenceHardware ↔ ∃ h, HardwarePresence h ∈ ev.
Proof.
  intros (Hb & _ & (u & Hu & Ep & _)); cbn in *. split.
  - intros ->. apply list_elem_of_fmap in Hu as (e & -> & [He _]%elem_of_bound).
    apply tier_presence_hardware in Ep as [h ->]. eauto.
  - intros [h Hh]. specialize (Hb (tier (HardwarePresence h))). destruct Hb as (_ & H & _).
    { apply list_elem_of_fmap. eexists. split; [done|]. by apply elem_of_bound. }
    destruct p; cbn in H; try lia. done.
Qed.

Lemma summary_assurance c ch ev a p t :
  summary (tier <$> bound c ch ev) (a, p, t) →
  (a = Iaa1 ∧ ∀ e, e ∈ bound c ch ev → (tier e).1.1 = Iaa1)
  ∨ (a = Iaa2 ∧ ∃ e, e ∈ bound c ch ev ∧ (tier e).1.1 = Iaa2).
Proof.
  intros (Hb & (u & Hu & Ea) & _); cbn in *.
  apply list_elem_of_fmap in Hu as (e & -> & He).
  destruct (tier_assurance_le2 e) as [E|E]; rewrite E in Ea; subst a; [left|right; eauto].
  split; [done|]. intros e' He'.
  destruct (Hb (tier e')) as (H & _); [apply list_elem_of_fmap; eauto|].
  destruct (tier_assurance_le2 e') as [E'|E']; [done|]. rewrite E' in H. cbn in H. lia.
Qed.

(** ** Properties *)

(** C5: the levels of a claim are exactly what its bound evidence carries.
    The presence is the highest of any bound item and the instant is the
    newest among the items of that presence, both taken from one item; the
    assurance is [Iaa3] exactly when a touch and an identity-provider (or
    daemon) answer are both present, and [Iaa1] exactly when every bound item
    is and it is not raised; everything else is the candidate's. *)
Theorem derive_levels c ch ev cl :
  derive c ch ev = Some cl →
  (∃ e, e ∈ bound c ch ev ∧ (tier e).1.2 = cl_presence cl ∧ (tier e).2 = attested_at cl)
  ∧ (∀ e, e ∈ bound c ch ev →
       presence_rank (tier e).1.2 ≤ presence_rank (cl_presence cl)
       ∧ ((tier e).1.2 = cl_presence cl → (((tier e).2 <= attested_at cl)%Z)))
  ∧ (cl_assurance cl = Iaa3 ↔
       (∃ h, HardwarePresence h ∈ ev) ∧ ∃ e, e ∈ bound c ch ev ∧ (tier e).1.1 = Iaa2)
  ∧ (cl_assurance cl = Iaa1 ↔ ∀ e, e ∈ bound c ch ev → (tier e).1.1 = Iaa1)
  ∧ cl_source cl = c_source c ∧ cl_display_name cl = c_display_name c
  ∧ path (cl_spiffe_id cl) = c_path c.
Proof.
  intros (a & p & t & Hs & ->)%derive_spec; cbn.
  pose proof (summary_hardware _ _ _ _ _ _ Hs) as Hh.
  pose proof (summary_assurance _ _ _ _ _ _ Hs) as Ha.
  destruct Hs as (Hb & _ & (u & Hu & Ep & Et)); cbn in *. split_and!; try done.
  - apply list_elem_of_fmap in Hu as (e & -> & He). eauto.
  - intros e He. apply (Hb (tier e)). apply list_elem_of_fmap. eauto.
  - rewrite <-Hh. unfold claim_assurance.
    destruct Ha as [[-> Ha]|[-> Ha]]; destruct p; cbn; split; try done;
      intros [H (e & He & E)]; [..|done|done|done]; try done.
    all: rewrite Ha in E; done.
  - unfold claim_assurance. destruct Ha as [[-> Ha]|[-> (e & He & E)]].
    + rewrite andb_false_r. done.
    + destruct p; cbn; (split; [done|]); intros H; rewrite H in E; done.
Qed.

Definition a_candidate : Candidate :=
  candidate_new "tailscale" SaTailscale "user/alice" "alice".

Lemma derive_levels_witness :
  let ev := [HardwarePresence (mkTouch 5); DaemonAssertion (mkDaemon "user/alice" 9)] in
  let cl := mkClaim "tailscale" Iaa3 PresenceHardware (mkSpiffeId Tailscale "user/alice")
              "alice" 5 in
  cl_assurance cl = Iaa3 ↔
    (∃ h, HardwarePresence h ∈ ev) ∧ ∃ e, e ∈ bound a_candidate [] ev ∧ (tier e).1.1 = Iaa2.
Proof.
  apply (derive_levels a_candidate []
    [HardwarePresence (mkTouch 5); DaemonAssertion (mkDaemon "user/alice" 9)]
    (mkClaim "tailscale" Iaa3 PresenceHardware (mkSpiffeId Tailscale "user/alice") "alice" 5)).
  reflexivity.
Defined.

(** A claim exists exactly when some evidence answers this challenge for
    this candidate, and evidence that does not — a signature over another
    challenge, an account or daemon answer about another path — contributes
    nothing: deriving with it and without it is the same. *)
Lemma derive_needs_bound_evidence c ch ev :
  (derive c ch ev = None ↔ ∀ e, e ∈ ev →
     (∃ s, e = Possession s ∧ cs_challenge s ≠ ch)
     ∨ (∃ p, e = PlatformAssertion p ∧ account p ≠ c_path c)
     ∨ (∃ d, e = DaemonAssertion d ∧ subject d ≠ c_path c))
  ∧ derive c ch ev = derive c ch (bound c ch ev).
Proof.
  split.
  - rewrite derive_None. apply forall_proper; intros e. apply imp_iff_compat_l.
    destruct e as [s|t|h|p|d]; cbn.
    + rewrite bool_decide_eq_false. split; [eauto|].
      intros [(? & [= <-] & ?)|[(? & [=] & _)|(? & [=] & _)]]; done.
    + split; [done|]. intros [(? & [=] & _)|[(? & [=] & _)|(? & [=] & _)]].
    + split; [done|]. intros [(? & [=] & _)|[(? & [=] & _)|(? & [=] & _)]].
    + rewrite String.eqb_neq. split; [eauto|].
      intros [(? & [=] & _)|[(? & [= <-] & ?)|(? & [=] & _)]]; done.
    + rewrite String.eqb_neq. split; [eauto|].
      intros [(? & [=] & _)|[(? & [=] & _)|(? & [= <-] & ?)]]; done.
  - assert (bound c ch (bound c ch ev) = bound c ch ev) as E.
    { induction ev as [|e ev IH]; [done|]. cbn. destruct (binds_to c ch e) eqn:Hb; [|done].
      cbn. by rewrite Hb, IH. }
    unfold derive. by rewrite E.
Qed.

(** The order evidence arrives in never changes a claim's levels,
    instant, path, source or name; it can change the trust domain only when
    two verified tokens name different issuers. *)
Lemma derive_order_irrelevant c ch ev ev' cl :
  ev ≡ₚ ev' → derive c ch ev = Some cl →
  ∃ cl', derive c ch ev' = Some cl'
    ∧ (cl_assurance cl', cl_presence cl', attested_at cl', cl_source cl', cl_display_name cl')
      = (cl_assurance cl, cl_presence cl, attested_at cl, cl_source cl, cl_display_name cl)
    ∧ path (cl_spiffe_id cl') = path (cl_spiffe_id cl)
    ∧ ((∀ t t', IdpVerified t ∈ ev → IdpVerified t' ∈ ev → issuer_domain t = issuer_domain t') →
       cl' = cl).
Proof.
  intros Hp (a & p & t & Hs & ->)%derive_spec. pose proof (bound_perm c ch _ _ Hp) as Hb.
  eexists. split.
  { apply derive_spec. exists a, p, t. split; [|reflexivity].
    eapply summary_perm; [|exact Hs]. by rewrite Hb. }
  split_and!; [done..|]. intros Hu. cbn. do 2 f_equal. unfold claim_domain.
  destruct (find_map issuer_of (bound c ch ev)) as [td|] eqn:E1,
           (find_map issuer_of (bound c ch ev')) as [td'|] eqn:E2; try done.
  - apply find_map_issuer_Some in E1 as (t1 & [H1 _]%elem_of_bound & ->).
    apply find_map_issuer_Some in E2 as (t2 & H2 & ->).
    rewrite <-Hb in H2. apply elem_of_bound in H2 as [H2 _]. f_equal. auto.
  - apply find_map_issuer_Some in E1 as (t1 & H1 & ->). rewrite Hb in H1.
    by apply (proj1 (find_map_issuer_None _)) with (t := t1) in E2.
  - apply find_map_issuer_Some in E2 as (t1 & H1 & ->). rewrite <-Hb in H1.
    by apply (proj1 (find_map_issuer_None _)) with (t := t1) in E1.
Qed.

Lemma find_map_issuer_bound c ch ev :
  find_map issuer_of (bound c ch ev) = find_map issuer_of ev.
Proof.
  induction ev as [|e ev IH]; [done|]. cbn.
  destruct e as [s|t|h|p|d]; cbn; try done;
    case_match; cbn; by rewrite IH.
Qed.

(** An issuer-anchored domain comes from a verified token and nothing else. *)
Lemma derive_domain_from_token c ch ev cl :
  derive c ch ev = Some cl →
  (∀ d, trust_domain (cl_spiffe_id cl) = OrgOidc d ↔ find_map issuer_of ev = Some (OrgOidc d))
  ∧ ((∀ t, IdpVerified t ∉ ev) → trust_domain (cl_spiffe_id cl) = into_td (c_domain c))
  ∧ (∀ i, trust_domain (cl_spiffe_id cl) ≠ PivIssuer i)
  ∧ (∀ t ch', IdpVerified t ∈ ev → ∃ cl', derive c ch' ev = Some cl'
       ∧ trust_domain (cl_spiffe_id cl') = trust_domain (cl_spiffe_id cl)).
Proof.
  intros (a & p & t & Hs & ->)%derive_spec; cbn. unfold claim_domain.
  rewrite find_map_issuer_bound. split_and!.
  - intros d. destruct (find_map issuer_of ev) as [td|] eqn:E.
    + naive_solver.
    + split; [|done]. by destruct (c_domain c).
  - intros H. by apply find_map_issuer_None in H as ->.
  - intros i. destruct (find_map issuer_of ev) as [td|] eqn:E.
    + by apply find_map_issuer_Some in E as (? & _ & ->).
    + by destruct (c_domain c).
  - intros tok ch' Hin. destruct (derive c ch' ev) as [cl'|] eqn:Hd.
    + exists cl'. split; [done|]. apply derive_spec in Hd as (? & ? & ? & _ & ->); cbn.
      unfold claim_domain. by rewrite find_map_issuer_bound.
    + by pose proof (proj1 (derive_None _ _ _) Hd _ Hin).
Qed.

(** C21: a claim is a function of the evidence that answers for it, as a
    collection.  One exists exactly when some item answers this challenge for
    this candidate; an item that does not — a signature over another challenge,
    an account or daemon answer about another path — contributes nothing; and
    in whatever order the items arrive the levels, instant, path, source and
    name are the same, the trust domain too unless two tokens name different
    issuers.  An issuer-anchored domain comes from a verified token and from
    nothing else: the claim sits under [OrgOidc d] exactly when [d] is the
    issuer of the first token in the evidence, otherwise under the candidate's
    self-asserted domain, which is never issuer-anchored.  The challenge plays
    no part in that: a token obtained for another request anchors the claim
    just the same, because tokens carry no nonce to compare. *)
Theorem derive_is_over_bound_evidence c ch ev :
  (derive c ch ev = None ↔ ∀ e, e ∈ ev →
     (∃ s, e = Possession s ∧ cs_challenge s ≠ ch)
     ∨ (∃ p, e = PlatformAssertion p ∧ account p ≠ c_path c)
     ∨ (∃ d, e = DaemonAssertion d ∧ subject d ≠ c_path c))
  ∧ derive c ch ev = derive c ch (bound c ch ev)
  ∧ (∀ ev' cl, ev ≡ₚ ev' → derive c ch ev = Some cl →
      ∃ cl', derive c ch ev' = Some cl'
        ∧ (cl_assurance cl', cl_presence cl', attested_at cl', cl_source cl', cl_display_name cl')
          = (cl_assurance cl, cl_presence cl, attested_at cl, cl_source cl, cl_display_name cl)
        ∧ path (cl_spiffe_id cl') = path (cl_spiffe_id cl)
        ∧ ((∀ t t', IdpVerified t ∈ ev → IdpVerified t' ∈ ev → issuer_domain t = issuer_domain t') →
           cl' = cl))
  ∧ ∀ cl, derive c ch ev = Some cl →
      (∀ d, trust_domain (cl_spiffe_id cl) = OrgOidc d ↔ find_map issuer_of ev = Some (OrgOidc d))
      ∧ ((∀ t, IdpVerified t ∉ ev) → trust_domain (cl_spiffe_id cl) = into_td (c_domain c))
      ∧ (∀ i, trust_domain (cl_spiffe_id cl) ≠ PivIssuer i)
      ∧ (∀ t ch', IdpVerified t ∈ ev → ∃ cl', derive c ch' ev = Some cl'
           ∧ trust_domain (cl_spiffe_id cl') = trust_domain (cl_spiffe_id cl)).
Proof.
  destruct (derive_needs_bound_evidence c ch ev) as [H1 H2]. split_and!; [done..| |].
  - intros ev' cl. apply derive_order_irrelevant.
  - intros cl. apply derive_domain_from_token.
Qed.

(** The touch and the daemon's answer, the other way round; and a token's
    domain. *)
Lemma derive_is_over_bound_evidence_witness :
  (∃ cl', derive a_candidate []
    [HardwarePresence (mkTouch 5); DaemonAssertion (mkDaemon "user/alice" 9)] = Some cl'
    ∧ (cl_assurance cl', cl_presence cl', attested_at cl', cl_source cl', cl_display_name cl')
      = (Iaa3, PresenceHardware, 5%Z, "tailscale", "alice"))
  ∧ find_map issuer_of [IdpVerified (mkToken "example.com" 7)] = Some (OrgOidc "example.com").
Proof.
  split.
  2: { pose proof (derive_is_over_bound_evidence a_candidate []
         [IdpVerified (mkToken "example.com" 7)]) as (_ & _ & _ & H).
       destruct (H (mkClaim "tailscale" Iaa2 PresenceSession
         (mkSpiffeId (OrgOidc "example.com") "user/alice") "alice" 7) eq_refl) as [Hd _].
       exact (proj1 (Hd "example.com") eq_refl). }
  destruct (derive_is_over_bound_evidence a_candidate []
    [DaemonAssertion (mkDaemon "user/alice" 9); HardwarePresence (mkTouch 5)]) as (_ & _ & H & _).
  destruct (H [HardwarePresence (mkTouch 5); DaemonAssertion (mkDaemon "user/alice" 9)]
    (mkClaim "tailscale" Iaa3 PresenceHardware (mkSpiffeId Tailscale "user/alice") "alice" 5)
    (perm_swap _ _ _) eq_refl) as (cl' & Hd & E & _).
  exists cl'. split; assumption.
Defined.
