(* ===== verification/Machine.v ===== *)
(** * The machine the attestors ask

    The clock, the environment, the file system, the agent socket and child
    processes, as operations on an abstract world.  What a theorem relies on
    is a named law. *)
From S2P Require Import Prelude RustStr.

(** [Path::join], for a relative second half. *)
Definition path_join (base rel : string) : string :=
  if is_empty base then rel
  else if ends_with "/" base then base +:+ rel
  else base +:+ "/" +:+ rel.

(** [std::process::Output]. *)
Record Output : Type := mkOutput {
  o_success : bool;
  o_stdout : list byte;
  o_stderr : list byte;
}.

(** Where running a child can fail: [spawn], its missing stdin pipe, or
    waiting for it. *)
Inductive RunFailure : Type :=
| SpawnFailed (e : string)
| StdinNotPiped
| WaitFailed (e : string).

(** [target_os], the platforms the code tells apart. *)
Inductive Target : Type := Linux | MacOS | OtherUnix.
#[export] Instance Target_eq_dec : EqDecision Target.
Proof. solve_decision. Defined.
Class TargetOs := target_os : Target.

(** [&buf[..n]], in range or a panic. *)
Definition slice_to (n : Z) (buf : list byte) : option (list byte) :=
  if ((0 <=? n) && (n <=? Z.of_nat (length buf)))%Z then Some (take (Z.to_nat n) buf) else None.

Lemma slice_to_in n buf :
  (0 ≤ n ≤ Z.of_nat (length buf))%Z → slice_to n buf = Some (take (Z.to_nat n) buf).
Proof.
  intros H. unfold slice_to.
  by rewrite (proj2 (Z.leb_le 0 n)), (proj2 (Z.leb_le n _)) by lia.
Qed.

Class Machine (W : Type) := {
  (** [SystemTime::now()] *)
  now : ST W SystemTime;
  (** [std::env::var(name).ok()] *)
  env_var : string → ST W (option string);
  (** [std::env::var_os(name)]: the bytes, UTF-8 or not *)
  env_var_os : string → ST W (option string);
  (** [Path::exists] *)
  path_exists : string → ST W bool;
  (** [UnixStream]: [connect], [write_all], [read_exact] *)
  Stream : Type;
  stream_connect : string → ST W (result Stream string);
  write_all : Stream → list byte → ST W (result unit string);
  read_exact : Stream → Z → ST W (result (list byte) string);
  read_to_end : Stream → ST W (result (list byte) string);
  (** [std::fs::read_to_string(path).ok()] *)
  read_to_string : string → ST W (option string);
  (** [getuid], [sysconf(_SC_GETPW_R_SIZE_MAX)], [getpwuid_r(uid, buflen)]: the
      return code and the entry's [pw_name], and the text of an OS error *)
  getuid : ST W Z;
  sysconf_pwbuf : ST W Z;
  getpwuid_r : Z → Z → ST W (Z * option (list byte));
  os_error : Z → string;
  (** whether a task put on a blocking thread is lost, by its [JoinError] *)
  join_error : ST W (option string);
  (** [Command::new(program).args(args)], fed a stdin or none, run to its end *)
  run_command : string → list string → option (list byte) → ST W (result Output RunFailure);
}.

(** [tokio::task::spawn_blocking(f).await].  What a task that panics half way
    has done by then is in the world of its [JoinError]. *)
Definition spawn_blocking `{M : Machine W} {A} (f : ST W A) : ST W (result A string) :=
  let* lost := join_error in
  match lost with
  | Some e => ret (Err e)
  | None => let* a := f in ret (Ok a)
  end.

(** [read_exact] fills the buffer or fails. *)
Definition read_exact_len `(M : Machine W) : Prop :=
  ∀ s n w bs w', read_exact s n w = (Ok bs, w') → Z.of_nat (length bs) = n.

(** ** A scripted machine, for the witnesses

    The clock ticks once per reading, the agent answers from a prepared byte
    string and what is written to it and which commands ran are recorded. *)
Record Script : Type := mkScript {
  sc_clock : Z;
  sc_env : list (string * string);
  sc_files : list string;
  sc_replies : list byte;
  sc_written : list byte;
  sc_commands : list (list string);
  sc_answer : list string → option (list byte) → result Output RunFailure;
  sc_uid : Z;
  sc_texts : list (string * string);
}.

Definition lookup_env (name : string) (l : list (string * string)) : option string :=
  find_map (λ '(k, v), if String.eqb k name then Some v else None) l.

Definition set_clock (t : Z) (w : Script) : Script :=
  mkScript t (sc_env w) (sc_files w) (sc_replies w) (sc_written w) (sc_commands w) (sc_answer w)
    (sc_uid w) (sc_texts w).
Definition set_replies (r : list byte) (w : Script) : Script :=
  mkScript (sc_clock w) (sc_env w) (sc_files w) r (sc_written w) (sc_commands w) (sc_answer w)
    (sc_uid w) (sc_texts w).
Definition log_written (bs : list byte) (w : Script) : Script :=
  mkScript (sc_clock w) (sc_env w) (sc_files w) (sc_replies w) (sc_written w ++ bs)
    (sc_commands w) (sc_answer w) (sc_uid w) (sc_texts w).
Definition log_command (c : list string) (w : Script) : Script :=
  mkScript (sc_clock w) (sc_env w) (sc_files w) (sc_replies w) (sc_written w)
    (sc_commands w ++ [c]) (sc_answer w) (sc_uid w) (sc_texts w).

#[export] Instance script_machine : Machine Script := {|
  now := λ w, (sc_clock w, set_clock (sc_clock w + 1) w);
  env_var := λ name w, (lookup_env name (sc_env w), w);
  env_var_os := λ name w, (lookup_env name (sc_env w), w);
  path_exists := λ p w, (bool_decide (p ∈ sc_files w), w);
  Stream := unit;
  stream_connect := λ p w,
    (if bool_decide (p ∈ sc_files w) then Ok () else Err "connection refused", w);
  write_all := λ _ bs w, (Ok (), log_written bs w);
  read_exact := λ _ n w,
    if (Z.of_nat (length (sc_replies w)) <? n)%Z then (Err "early eof", w)
    else if (n <? 0)%Z then (Err "negative length", w)
    else (Ok (take (Z.to_nat n) (sc_replies w)),
          set_replies (drop (Z.to_nat n) (sc_replies w)) w);
  read_to_end := λ _ w, (Ok (sc_replies w), set_replies [] w);
  read_to_string := λ p w, (lookup_env p (sc_texts w), w);
  getuid := λ w, (sc_uid w, w);
  sysconf_pwbuf := λ w, ((-1)%Z, w);
  getpwuid_r := λ uid cap w,
    (if (cap <? 2048)%Z then (34%Z, None) else (0%Z, Some (as_bytes "alice")), w);
  os_error := λ _, "os error";
  join_error := λ w, (None, w);
  run_command := λ program args stdin w,
    (sc_answer w (program :: args) stdin, log_command (program :: args) w);
|}.

Lemma script_read_exact_len : read_exact_len script_machine.
Proof.
  intros s n w bs w'; cbn.
  destruct (Z.ltb_spec (Z.of_nat (length (sc_replies w))) n); [done|].
  destruct (Z.ltb_spec n 0); [done|]. intros [= <- _]. rewrite length_take. lia.
Qed.
