(* ===== verification/SshWire.v ===== *)
(** * The ssh-agent wire format ([hire-attestors/src/ssh.rs])

    The pure half of the agent client: length-prefixed strings, the SPIFFE
    path of a key blob, the key list of an identities answer and the sign
    request.  The socket half is in [Agent]. *)
From S2P Require Import Prelude RustStr RustNum External Claim.
Local Open Scope Z_scope.

Definition SSH_AGENT_FAILURE : Z := 5.
Definition SSH2_AGENTC_REQUEST_IDENTITIES : Z := 11.
Definition SSH2_AGENT_IDENTITIES_ANSWER : Z := 12.
Definition SSH2_AGENTC_SIGN_REQUEST : Z := 13.
Definition SSH2_AGENT_SIGN_RESPONSE : Z := 14.
Definition SSH_ED25519 : list byte := as_bytes "ssh-ed25519".
Definition MAX_AGENT_REPLY : Z := 256 * 1024.
Definition MAX_PREALLOC_KEYS : Z := 64.

Abbreviation len l := (Z.of_nat (length l)).

(** [read_string] *)
Definition read_string (buf : list byte) : option (list byte * list byte) :=
  match buf with
  | b0 :: b1 :: b2 :: b3 :: rest =>
      let n := u32_from_be b0 b1 b2 b3 in
      if len rest <? n then None
      else Some (take (Z.to_nat n) rest, drop (Z.to_nat n) rest)
  | _ => None
  end.

(** [push_string]: the length is cut to 32 bits ([as u32]). *)
Definition push_string (buf s : list byte) : list byte :=
  buf ++ u32_to_be (len s) ++ s.

Section Paths.
Context {B : Base64} {H : Sha2}.

(** [spiffe_path] *)
Definition ssh_spiffe_path (key_blob : list byte) : string :=
  "key/" +:+ b64_std_nopad (sha256 key_blob).
End Paths.

(** [ed25519_point_of] *)
Definition ed25519_point_of (key_blob : list byte) : option (list byte) :=
  let! (algorithm, rest) := read_string key_blob in
  let! (point, rest) := read_string rest in
  if bool_decide (algorithm = SSH_ED25519) && bool_decide (rest = []) then
    if Nat.eqb (length point) 32 then Some point else None
  else None.

(** The loop of [list_identities] over the bytes after the key count.  An
    entry takes at least eight bytes, so [length cur] turns are enough. *)
Fixpoint parse_keys (fuel : nat) (nkeys : Z) (cur : list byte)
    : list (list byte * string) :=
  match fuel with
  | O => []
  | S fuel =>
      if nkeys <=? 0 then []
      else match read_string cur with
      | None => []
      | Some (key_blob, rest) =>
          match read_string rest with
          | None => []
          | Some (comment, rest) =>
              (key_blob, from_utf8_lossy comment) :: parse_keys fuel (nkeys - 1) rest
          end
      end
  end.

(** The identities answer: type byte, count, entries. *)
Definition parse_identities (resp : list byte)
    : result (list (list byte * string)) AttestorError :=
  match resp with
  | [] => Err (Unavailable "unexpected response from SSH agent")
  | t :: cur =>
      if negb (u8_val t =? SSH2_AGENT_IDENTITIES_ANSWER) then
        Err (Unavailable "unexpected response from SSH agent")
      else match cur with
      | b0 :: b1 :: b2 :: b3 :: cur =>
          Ok (parse_keys (length cur) (u32_from_be b0 b1 b2 b3) cur)
      | _ => Ok []
      end
  end.

(** The payload of a sign request and the reading of its answer, both from
    [sign]. *)
Definition sign_payload (key_blob challenge : list byte) : list byte :=
  push_string (push_string [] key_blob) challenge ++ u32_to_be 0.

Definition parse_sign_response (subject : string) (resp : list byte)
    : result (list byte) AttestorError :=
  match resp with
  | t :: body =>
      if u8_val t =? SSH2_AGENT_SIGN_RESPONSE then
        match read_string body with
        | None => Err (ChallengeFailed "malformed SIGN_RESPONSE from ssh-agent")
        | Some (signature, []) => Ok signature
        | Some (_, _ :: _) => Err (ChallengeFailed "trailing bytes after ssh-agent signature")
        end
      else if u8_val t =? SSH_AGENT_FAILURE then
        Err (ChallengeFailed ("ssh-agent declined to sign for " +:+ subject))
      else Err (ChallengeFailed "unexpected response to ssh-agent sign request")
  | [] => Err (ChallengeFailed "unexpected response to ssh-agent sign request")
  end.

(** ** Lemmas *)

(** A string is its length word, at most [2^32 - 1], and that many bytes. *)
Lemma read_string_Some buf s rest :
  read_string buf = Some (s, rest) ↔ buf = push_string [] s ++ rest ∧ len s < 2 ^ 32.
Proof.
  unfold push_string. rewrite app_nil_l. split.
  - destruct buf as [|b0 [|b1 [|b2 [|b3 r]]]]; try done. unfold read_string.
    pose proof (u32_from_be_range b0 b1 b2 b3) as Hr.
    destruct (Z.ltb_spec (len r) (u32_from_be b0 b1 b2 b3)) as [|Hl]; [done|].
    intros [= <- <-].
    assert (len (take (Z.to_nat (u32_from_be b0 b1 b2 b3)) r) = u32_from_be b0 b1 b2 b3) as El
      by (rewrite length_take; lia).
    rewrite El, u32_to_from_be. split; [|lia]. cbn. by rewrite take_drop.
  - intros [-> Hl]. pose proof (u32_be_roundtrip (len s) ltac:(lia)) as Hw.
    unfold u32_to_be in *. cbn [app] in *. unfold read_string. rewrite Hw, length_app.
    rewrite (proj2 (Z.ltb_ge (Z.of_nat (length s + length rest)) (len s))) by lia.
    by rewrite Nat2Z.id, take_app_length, drop_app_length.
Qed.

Lemma push_string_length buf s : len (push_string buf s) = len buf + 4 + len s.
Proof. unfold push_string, u32_to_be. rewrite !length_app. cbn. lia. Qed.

Lemma read_push s rest : len s < 2 ^ 32 → read_string (push_string [] s ++ rest) = Some (s, rest).
Proof. intros H. by apply read_string_Some. Qed.

(** Fuel beyond the bytes at hand changes nothing. *)
Lemma parse_keys_fuel fuel fuel' n cur :
  (length cur ≤ fuel)%nat → (length cur ≤ fuel')%nat →
  parse_keys fuel n cur = parse_keys fuel' n cur.
Proof.
  revert fuel' n cur; induction fuel as [|fuel IH]; intros [|fuel'] n cur H H'; try done.
  - destruct cur; [|cbn in H; lia]. cbn. by destruct (n <=? 0).
  - destruct cur; [|cbn in H'; lia]. cbn. by destruct (n <=? 0).
  - cbn [parse_keys]. destruct (n <=? 0); [done|].
    destruct (read_string cur) as [[k r]|] eqn:E1; [|done].
    destruct (read_string r) as [[c r']|] eqn:E2; [|done]. f_equal.
    apply read_string_Some in E1 as [-> _], E2 as [-> _].
    rewrite !length_app in *. unfold push_string in *. cbn in *. apply IH; lia.
Qed.

(** What the agent writes for a key list. *)
Definition key_entry (k : list byte * list byte) : list byte :=
  push_string [] k.1 ++ push_string [] k.2.
Definition key_fits (k : list byte * list byte) : Prop := len k.1 < 2 ^ 32 ∧ len k.2 < 2 ^ 32.

Lemma parse_keys_entry fuel n k rest :
  (length (key_entry k ++ rest) ≤ fuel)%nat → 0 < n → key_fits k →
  parse_keys fuel n (key_entry k ++ rest) =
    (k.1, from_utf8_lossy k.2) :: parse_keys (length rest) (n - 1) rest.
Proof.
  intros Hf Hn [H1 H2]. destruct fuel as [|fuel].
  { rewrite length_app in Hf. unfold key_entry, push_string in Hf. rewrite length_app in Hf.
    cbn in Hf. lia. }
  cbn [parse_keys]. replace (n <=? 0) with false by lia. unfold key_entry.
  rewrite <-app_assoc, (read_push k.1 _ H1), (read_push k.2 _ H2). f_equal.
  apply parse_keys_fuel; [|done].
  rewrite length_app in Hf. unfold key_entry, push_string in Hf. rewrite length_app in Hf.
  cbn in Hf. lia.
Qed.

Lemma parse_keys_nonpos fuel n cur : n ≤ 0 → parse_keys fuel n cur = [].
Proof. intros H. destruct fuel; [done|]. cbn. by rewrite (proj2 (Z.leb_le n 0)). Qed.

Lemma parse_keys_encode ks n :
  Forall key_fits ks →
  parse_keys (length (concat (key_entry <$> ks))) n (concat (key_entry <$> ks)) =
    (λ k, (k.1, from_utf8_lossy k.2)) <$> take (Z.to_nat n) ks.
Proof.
  intros H; revert n; induction H as [|k ks Hk _ IH]; intros n.
  - cbn. by rewrite take_nil.
  - cbn [fmap list_fmap concat]. destruct (Z_le_gt_dec n 0).
    + rewrite parse_keys_nonpos by lia. by replace (Z.to_nat n) with O by lia.
    + rewrite parse_keys_entry by (done || lia).
      replace (Z.to_nat n) with (S (Z.to_nat (n - 1))) by lia. cbn. f_equal. apply IH.
Qed.

(** Entries come from disjoint parts of the reply. *)
Lemma parse_keys_bound fuel n cur :
  8 * len (parse_keys fuel n cur) ≤ len cur ∧ (0 ≤ n → len (parse_keys fuel n cur) ≤ n).
Proof.
  revert n cur; induction fuel as [|fuel IH]; intros n cur; cbn [parse_keys]; [cbn; lia|].
  destruct (Z.leb_spec n 0); [cbn; lia|].
  destruct (read_string cur) as [[k r]|] eqn:E1; [|cbn; lia].
  destruct (read_string r) as [[c r']|] eqn:E2; [|cbn; lia].
  apply read_string_Some in E1 as [-> _], E2 as [-> _].
  destruct (IH (n - 1) r') as [H1 H2]. rewrite !length_app, !Nat2Z.inj_add, !push_string_length.
  cbn [length]. lia.
Qed.

Lemma push_string_app buf s : push_string buf s = buf ++ push_string [] s.
Proof. done. Qed.

Lemma push_string_inj buf s t : push_string buf s = push_string buf t → s = t.
Proof.
  unfold push_string. intros E%app_inv_head. by apply (f_equal (drop 4)) in E.
Qed.

(** The blob of an ed25519 key, and nothing else, carries a point. *)
Lemma ed25519_point_of_Some blob p :
  ed25519_point_of blob = Some p ↔
  blob = push_string (push_string [] SSH_ED25519) p ∧ length p = 32%nat.
Proof.
  unfold ed25519_point_of. split.
  - destruct (read_string blob) as [[alg r]|] eqn:E1; [|done].
    destruct (read_string r) as [[pt r']|] eqn:E2; [|done].
    apply read_string_Some in E1 as [-> _], E2 as [-> _].
    do 2 (case_bool_decide; [subst|done]); cbn [andb].
    destruct (Nat.eqb_spec (length pt) 32); [|done]. intros [= <-].
    by rewrite push_string_app, app_nil_r.
  - intros [-> Hl]. rewrite push_string_app, (read_push SSH_ED25519) by done.
    rewrite <-(app_nil_r (push_string [] p)), read_push by lia.
    by rewrite !bool_decide_true, Hl by done.
Qed.

(** A sign answer is read exactly when it is the response byte and one
    string. *)
Lemma parse_sign_response_Ok subject resp sg :
  parse_sign_response subject resp = Ok sg ↔
  resp = as_u8 SSH2_AGENT_SIGN_RESPONSE :: push_string [] sg ∧ len sg < 2 ^ 32.
Proof.
  unfold parse_sign_response. split.
  - destruct resp as [|t body]; [done|].
    destruct (Z.eqb_spec (u8_val t) SSH2_AGENT_SIGN_RESPONSE) as [Ht|];
      [|by destruct (_ =? _)].
    destruct (read_string body) as [[s [|]]|] eqn:E; [|done..].
    intros [= <-]. apply read_string_Some in E as [-> Hl].
    by rewrite <-(as_u8_val t), Ht, app_nil_r.
  - intros [-> Hl]. cbn [u8_val]. rewrite <-(app_nil_r (push_string [] sg)), read_push by done.
    done.
Qed.

(** ** Properties *)

(** C29: an identities answer is read back exactly: for every key list whose
    entries fit the wire, parsing what the agent writes gives each blob and
    its comment (lossily decoded), in order; a count larger than the entries
    present gives the entries present, a smaller one that many.  Whatever the
    bytes, at most one key per eight bytes of reply and at most the announced
    number come out. *)
Theorem ssh_identities_answer ks n resp keys :
  Forall key_fits ks → 0 ≤ n < 2 ^ 32 →
  parse_identities (as_u8 SSH2_AGENT_IDENTITIES_ANSWER :: u32_to_be n ++ concat (key_entry <$> ks))
    = Ok ((λ k, (k.1, from_utf8_lossy k.2)) <$> take (Z.to_nat n) ks)
  ∧ (parse_identities resp = Ok keys → 8 * len keys ≤ len resp ∧ len keys < 2 ^ 32).
Proof.
  intros Hk Hn. split.
  - pose proof (u32_be_roundtrip n Hn) as Hw. unfold u32_to_be in *. unfold parse_identities.
    cbn [app]. rewrite Hw. cbn [negb]. by rewrite parse_keys_encode.
  - unfold parse_identities. destruct resp as [|t cur]; [done|].
    destruct (u8_val t =? SSH2_AGENT_IDENTITIES_ANSWER); [cbn [negb]|done].
    destruct cur as [|b0 [|b1 [|b2 [|b3 cur]]]];
      try (intros [= <-]; cbn; lia).
    intros [= <-]. pose proof (u32_from_be_range b0 b1 b2 b3) as Hr.
    destruct (parse_keys_bound (length cur) (u32_from_be b0 b1 b2 b3) cur). cbn [length]. lia.
Qed.

Lemma ssh_identities_answer_witness :
  let ks := [(as_bytes "blob1", as_bytes "alice@laptop"); (as_bytes "blob2", [as_u8 255])] in
  let resp := as_u8 12 :: u32_to_be 7 ++ concat (key_entry <$> ks) in
  let keys := [(as_bytes "blob1", "alice@laptop"); (as_bytes "blob2", of_bytes REPLACEMENT)] in
  parse_identities resp = Ok keys
  ∧ (parse_identities resp = Ok keys → 8 * len keys ≤ len resp ∧ len keys < 2 ^ 32).
Proof.
  apply (ssh_identities_answer
    [(as_bytes "blob1", as_bytes "alice@laptop"); (as_bytes "blob2", [as_u8 255])] 7
    (as_u8 12 :: u32_to_be 7 ++ concat (key_entry <$>
      [(as_bytes "blob1", as_bytes "alice@laptop"); (as_bytes "blob2", [as_u8 255])]))
    [(as_bytes "blob1", "alice@laptop"); (as_bytes "blob2", of_bytes REPLACEMENT)]).
  - repeat constructor.
  - lia.
Defined.

#[export] Hint Rewrite push_string_length : hire.
