(* ===== verification/DidKey.v ===== *)
(** * [did:key] identifiers ([hire-attestors/src/did_key.rs])

    The pure half: the base58 bignum decoder, the path a DID maps to and the
    configured list.  Discovery and proof are in [Agent], because the secret
    half lives in the ssh agent. *)
From S2P Require Import Prelude RustStr RustNum External Claim.
Local Open Scope Z_scope.

Definition BASE58BTC : list byte :=
  as_bytes "123456789ABCDEFGHJKLMNPQRSTUVWXYZabcdefghijkmnopqrstuvwxyz".
Definition ED25519_MULTICODEC : list byte := [as_u8 237; as_u8 1].
Definition ED25519_DID_LEN : nat := 34.

(** [iter().position(|&a| a == c)] *)
Fixpoint position (c : byte) (l : list byte) : option Z :=
  match l with
  | [] => None
  | a :: l => if Ascii.eqb a c then Some 0 else let! n := position c l in Some (n + 1)
  end.

(** The inner loop, over the buffer in [iter_mut().rev()] order: the last
    byte first.  Returns the carry out of the buffer and the new bytes. *)
Fixpoint mul_add (carry : Z) (rev_bytes : list byte) : Z * list byte :=
  match rev_bytes with
  | [] => (carry, [])
  | b :: rest =>
      let carry := carry + 58 * u8_val b in
      let '(out, rest) := mul_add (Z.shiftr carry 8) rest in
      (out, as_u8 carry :: rest)
  end.

(** The outer loop of [ed25519_point]. *)
Fixpoint base58_loop (decoded : list byte) (suffix : string) : option (list byte) :=
  match suffix with
  | EmptyString => Some decoded
  | String c suffix =>
      let! digit := position c BASE58BTC in
      let '(carry, bytes) := mul_add digit (rev decoded) in
      if negb (carry =? 0) then None else base58_loop (rev bytes) suffix
  end.

Definition ed25519_point (did : string) : option (list byte) :=
  let! suffix := strip_prefix "did:key:z" did in
  let! decoded := base58_loop (replicate ED25519_DID_LEN (as_u8 0)) suffix in
  if bool_decide (take 2 decoded = ED25519_MULTICODEC) then Some (drop 2 decoded) else None.

(** [parse_did_keys_from] *)
Definition parse_did_keys_from (raw : string) : list string :=
  List.filter (starts_with "did:key:") (split_whitespace raw).

Section Paths.
Context {H : Sha2}.
(** [did_id] and [spiffe_path] *)
Definition did_id (did : string) : string := hex (sha256 (as_bytes did)).
Definition did_spiffe_path (did : string) : string := "did/" +:+ did_id did.
End Paths.

(** ** The numeral a base58 string denotes *)
Fixpoint b58_value (acc : Z) (s : string) : option Z :=
  match s with
  | EmptyString => Some acc
  | String c s => let! d := position c BASE58BTC in b58_value (58 * acc + d) s
  end.

(** Little- and big-endian values of byte strings. *)
Fixpoint le_value (bs : list byte) : Z :=
  match bs with [] => 0 | b :: bs => u8_val b + 256 * le_value bs end.
Definition be_value (bs : list byte) : Z := le_value (rev bs).

(** ** Lemmas *)
Lemma le_value_range bs : 0 ≤ le_value bs < 256 ^ Z.of_nat (length bs).
Proof.
  induction bs as [|b bs IH]; [cbn; lia|]. cbn [le_value length].
  rewrite Nat2Z.inj_succ, Z.pow_succ_r by lia. pose proof (u8_val_range b). lia.
Qed.

Lemma le_value_inj bs cs : length bs = length cs → le_value bs = le_value cs → bs = cs.
Proof.
  revert cs; induction bs as [|b bs IH]; intros [|c cs] Hl; try done.
  cbn. intros H. pose proof (u8_val_range b). pose proof (u8_val_range c).
  f_equal; [apply u8_val_inj; lia|]. apply IH; [by injection Hl|lia].
Qed.

Lemma be_value_inj bs cs : length bs = length cs → be_value bs = be_value cs → bs = cs.
Proof.
  intros Hl H. assert (rev bs = rev cs) as E
    by (apply le_value_inj; [by rewrite !length_rev|exact H]).
  by rewrite <-(rev_involutive bs), E, rev_involutive.
Qed.

Lemma position_range c l d : position c l = Some d → 0 ≤ d < Z.of_nat (length l).
Proof.
  revert d; induction l as [|a l IH]; intros d; [done|]. cbn.
  destruct (Ascii.eqb a c); [intros [= <-]; lia|].
  destruct (position c l) as [n|]; [|done]. intros [= <-]. specialize (IH n eq_refl). lia.
Qed.

(** The inner loop is multiplication by 58 plus the incoming carry, exactly:
    the carry out is what the buffer cannot hold, and no [u32] overflows. *)
Lemma mul_add_value carry bs :
  let '(out, bs') := mul_add carry bs in
  le_value bs' + 256 ^ Z.of_nat (length bs) * out = carry + 58 * le_value bs
  ∧ length bs' = length bs.
Proof.
  revert carry; induction bs as [|b bs IH]; intros carry; [cbn; lia|].
  cbn [mul_add]. specialize (IH (Z.shiftr (carry + 58 * u8_val b) 8)).
  destruct (mul_add (Z.shiftr (carry + 58 * u8_val b) 8) bs) as [out bs'].
  destruct IH as [IH Hl]. cbn [le_value length]. split; [|by rewrite Hl].
  rewrite u8_val_as_u8, Nat2Z.inj_succ, Z.pow_succ_r by lia.
  rewrite Z.shiftr_div_pow2 in IH by lia. change (2 ^ 8) with 256 in IH.
  pose proof (Z.div_mod (carry + 58 * u8_val b) 256 ltac:(lia)). lia.
Qed.

Lemma mul_add_carry carry bs :
  0 ≤ carry < 256 → 0 ≤ (mul_add carry bs).1 < 256.
Proof.
  revert carry; induction bs as [|b bs IH]; intros carry Hc; [done|].
  cbn [mul_add]. destruct (mul_add _ bs) as [out bs'] eqn:E. cbn [fst].
  change out with ((out, bs').1). rewrite <-E. apply IH.
  pose proof (u8_val_range b). rewrite Z.shiftr_div_pow2 by lia. change (2 ^ 8) with 256.
  Z.div_mod_to_equations; lia.
Qed.

Lemma b58_value_ge acc s v : 0 ≤ acc → b58_value acc s = Some v → acc ≤ v.
Proof.
  revert acc; induction s as [|c s IH]; intros acc Ha; cbn [b58_value]; [intros [= <-]; lia|].
  destruct (position c BASE58BTC) as [d|] eqn:Hd; [|done].
  apply position_range in Hd. intros H. apply IH in H; lia.
Qed.

(** The outer loop is Horner's rule, refusing exactly the numerals that do
    not fit the buffer. *)
Lemma base58_loop_spec buf s out :
  base58_loop buf s = Some out ↔
  ∃ v, b58_value (be_value buf) s = Some v
    ∧ be_value out = v ∧ length out = length buf.
Proof.
  revert buf; induction s as [|c s IH]; intros buf; cbn [base58_loop b58_value].
  - split; [intros [= <-]; eauto|]. intros (v & [= <-] & Hv & Hl). f_equal.
    by symmetry; apply be_value_inj.
  - destruct (position c BASE58BTC) as [d|] eqn:Hd; [|split; [done|by intros (? & ? & _)]].
    pose proof (position_range _ _ _ Hd) as Hr. change (Z.of_nat (length BASE58BTC)) with 58 in Hr.
    pose proof (mul_add_value d (rev buf)) as Hv. pose proof (mul_add_carry d (rev buf) ltac:(lia)) as Hc.
    destruct (mul_add d (rev buf)) as [carry bytes]. cbn [fst] in Hc.
    fold (be_value buf) in Hv. destruct Hv as [Hv Hl]. rewrite length_rev in Hv, Hl.
    destruct (Z.eqb_spec carry 0) as [->|Hne]; cbn [negb].
    + rewrite IH. unfold be_value at 1. rewrite rev_involutive, length_rev, Hl.
      replace (58 * be_value buf + d) with (le_value bytes) by lia. done.
    + split; [done|]. intros (v & Hb & Hout & Hlen).
      pose proof (le_value_range (rev buf)) as H0. fold (be_value buf) in H0.
      apply b58_value_ge in Hb; [|lia].
      pose proof (le_value_range (rev out)) as Ho. fold (be_value out) in Ho.
      rewrite length_rev, Hlen in Ho. pose proof (le_value_range bytes).
      assert (0 < 256 ^ Z.of_nat (length buf)) by lia. nia.
Qed.

Lemma ed25519_point_length did p : ed25519_point did = Some p → length p = 32%nat.
Proof.
  unfold ed25519_point. destruct (strip_prefix _ did) as [s|]; [|done].
  destruct (base58_loop _ s) as [out|] eqn:E; [|done].
  apply base58_loop_spec in E as (v & _ & _ & Hl). case_bool_decide; [|done].
  intros [= <-]. rewrite length_drop, Hl. done.
Qed.

Lemma position_inj c c' l d : position c l = Some d → position c' l = Some d → c = c'.
Proof.
  revert d; induction l as [|a l IH]; intros d; [done|]. cbn [position].
  destruct (Ascii.eqb_spec a c) as [E1|], (Ascii.eqb_spec a c') as [E2|];
    [by rewrite <-E1, E2|..].
  - intros [= <-]. destruct (position c' l) as [k|] eqn:E; [|done]. intros [= H].
    apply position_range in E. lia.
  - destruct (position c l) as [k|] eqn:E; [|done]. intros [= <-] [= H].
    apply position_range in E. lia.
  - destruct (position c l) as [k|]; [|done]. intros [= <-].
    destruct (position c' l) as [k'|]; [|done]. intros [= H].
    apply (IH k); f_equal; lia.
Qed.

Abbreviation slen s := (Z.of_nat (String.length s)).

Lemma b58_value_bounds acc s v :
  0 ≤ acc → b58_value acc s = Some v → acc * 58 ^ slen s ≤ v < (acc + 1) * 58 ^ slen s.
Proof.
  revert acc; induction s as [|c s IH]; intros acc Ha; cbn [b58_value String.length].
  - intros [= <-]. change (Z.of_nat 0) with 0. lia.
  - destruct (position c BASE58BTC) as [d|] eqn:Hd; [|done]. apply position_range in Hd.
    change (Z.of_nat (length BASE58BTC)) with 58 in Hd.
    intros H. apply IH in H; [|lia]. rewrite Nat2Z.inj_succ, Z.pow_succ_r by lia.
    assert (0 < 58 ^ slen s) by lia. nia.
Qed.

Lemma b58_value_inj acc acc' s t v :
  String.length s = String.length t →
  b58_value acc s = Some v → b58_value acc' t = Some v → acc = acc' ∧ s = t.
Proof.
  revert acc acc' t; induction s as [|c s IH]; intros acc acc' [|c' t] Hl; try done;
    cbn [b58_value]; [intros [= ->] [= ->]; done|].
  destruct (position c BASE58BTC) as [d|] eqn:Hd; [|done].
  destruct (position c' BASE58BTC) as [e|] eqn:He; [|done]. intros H H'.
  destruct (IH _ _ t ltac:(by injection Hl) H H') as [E ->].
  pose proof (position_range _ _ _ Hd) as R. pose proof (position_range _ _ _ He) as R'.
  change (Z.of_nat (length BASE58BTC)) with 58 in *.
  assert (acc = acc') as -> by lia. assert (d = e) as -> by lia.
  split; [done|]. f_equal. by eapply position_inj.
Qed.

(** A base58 numeral without its leading zeros, which [1] is the digit of. *)
Fixpoint strip_ones (s : string) : string :=
  match s with
  | String c s' => if Ascii.eqb c "1" then strip_ones s' else s
  | EmptyString => EmptyString
  end.

Lemma b58_value_strip s : b58_value 0 (strip_ones s) = b58_value 0 s.
Proof.
  induction s as [|c s IH]; [done|]. cbn [strip_ones].
  destruct (Ascii.eqb_spec c "1") as [->|]; [|done]. by rewrite IH.
Qed.

(** The leading digit of a stripped numeral is not zero. *)
Lemma b58_strip_lower s v :
  b58_value 0 (strip_ones s) = Some v →
  strip_ones s = EmptyString ∨ 58 ^ (slen (strip_ones s) - 1) ≤ v.
Proof.
  induction s as [|c s IH]; [by left|]. cbn [strip_ones].
  destruct (Ascii.eqb_spec c "1") as [->|Hc]; [done|]. right. cbn [b58_value String.length] in *.
  destruct (position c BASE58BTC) as [d|] eqn:Hd; [|done].
  apply b58_value_bounds in H; [|apply position_range in Hd; lia].
  assert (0 < d).
  { pose proof (position_range _ _ _ Hd). destruct (Z.eq_dec d 0) as [->|]; [|lia].
    by apply (position_inj c "1"%char) in Hd. }
  rewrite Nat2Z.inj_succ. replace (Z.succ (slen s) - 1) with (slen s) by lia.
  assert (0 < 58 ^ slen s) by lia. nia.
Qed.

Lemma b58_strip_length s t v :
  b58_value 0 s = Some v → b58_value 0 t = Some v →
  slen (strip_ones s) ≤ slen (strip_ones t).
Proof.
  rewrite <-(b58_value_strip s), <-(b58_value_strip t). intros Hs Ht.
  apply b58_strip_lower in Hs as [->|Hs]; [cbn; lia|].
  apply b58_value_bounds in Ht; [|lia].
  assert (58 ^ (slen (strip_ones s) - 1) < 58 ^ slen (strip_ones t)) as H by lia.
  apply Z.pow_lt_mono_r_iff in H; lia.
Qed.

Lemma b58_value_same s t v :
  b58_value 0 s = Some v → b58_value 0 t = Some v → strip_ones s = strip_ones t.
Proof.
  intros Hs Ht. pose proof (b58_strip_length s t v Hs Ht). pose proof (b58_strip_length t s v Ht Hs).
  rewrite <-b58_value_strip in Hs, Ht.
  eapply (b58_value_inj 0 0); [lia|exact Hs|exact Ht].
Qed.

Lemma ed25519_point_iff did p :
  ed25519_point did = Some p ↔
  ∃ suffix, did = "did:key:z" +:+ suffix ∧ length p = 32%nat
    ∧ b58_value 0 suffix = Some (be_value (ED25519_MULTICODEC ++ p)).
Proof.
  split.
  - intros Hp. pose proof (ed25519_point_length _ _ Hp) as Hl. revert Hp. unfold ed25519_point.
    destruct (strip_prefix _ did) as [s|] eqn:Hs; [|done]. apply strip_prefix_Some in Hs as ->.
    destruct (base58_loop _ s) as [out|] eqn:E; [|done].
    apply base58_loop_spec in E as (v & Hv & <- & _). case_bool_decide as Hc; [|done].
    intros [= <-]. exists s. split_and!; [done..|]. by rewrite <-Hc, take_drop.
  - intros (s & -> & Hl & Hv). unfold ed25519_point. rewrite strip_prefix_app.
    assert (base58_loop (replicate ED25519_DID_LEN (as_u8 0)) s = Some (ED25519_MULTICODEC ++ p)) as ->.
    { apply base58_loop_spec. eexists. split; [exact Hv|]. split; [done|].
      rewrite length_app, Hl. done. }
    done.
Qed.

(** Two identifiers name one key exactly when they agree up to leading
    [1]s (base58's zero digit).  So the decoder does not check the length of
    the identifier: prefixing any number of [1]s to a valid one is accepted
    and names the same key, under another DID string. *)
Lemma did_key_ambiguous_up_to_ones s t p :
  ed25519_point ("did:key:z" +:+ s) = Some p →
  (ed25519_point ("did:key:z" +:+ t) = Some p ↔ strip_ones t = strip_ones s).
Proof.
  intros (s' & Es & Hl & Hs)%ed25519_point_iff. apply str_app_inj_l in Es as <-. split.
  - intros (t' & Et & _ & Ht)%ed25519_point_iff. apply str_app_inj_l in Et as <-.
    by eapply b58_value_same.
  - intros E. apply ed25519_point_iff. exists t. split_and!; [done..|].
    by rewrite <-b58_value_strip, E, b58_value_strip.
Qed.

(** ** Properties *)

(** C13: the fixed-width bignum decodes exactly the [did:key] identifiers it
    should, and the multicodec check cannot be dodged: a point comes out if
    and only if the identifier is [did:key:z] followed by a base58 numeral of
    the 34 bytes [0xed 0x01 point].  Overflow, a character outside the
    alphabet and every other prefix give [None].  The width does not fix the
    identifier's length, though: the identifiers of one key are exactly those
    that agree with any of them up to leading [1]s. *)
Theorem did_key_decodes_numeral did p :
  (ed25519_point did = Some p ↔
   ∃ suffix, did = "did:key:z" +:+ suffix ∧ length p = 32%nat
     ∧ b58_value 0 suffix = Some (be_value (ED25519_MULTICODEC ++ p)))
  ∧ (∀ s t, ed25519_point ("did:key:z" +:+ s) = Some p →
       (ed25519_point ("did:key:z" +:+ t) = Some p ↔ strip_ones t = strip_ones s)).
Proof. split; [apply ed25519_point_iff|]. intros s t. apply did_key_ambiguous_up_to_ones. Qed.

Definition sample_suffix : string := "6MkhaXgBZDvotDkL5257faiztiGiC2QtKLGpbnnEGta2doK".

Lemma did_key_ambiguous_up_to_ones_witness :
  ∃ p, ed25519_point ("did:key:z" +:+ sample_suffix) = Some p
  ∧ (ed25519_point ("did:key:z" +:+ "11" +:+ sample_suffix) = Some p
     ↔ strip_ones ("11" +:+ sample_suffix) = strip_ones sample_suffix).
Proof.
  destruct (ed25519_point ("did:key:z" +:+ sample_suffix)) as [p|] eqn:E;
    [|vm_compute in E; discriminate].
  exists p. split; [reflexivity|].
  exact (did_key_ambiguous_up_to_ones sample_suffix ("11" +:+ sample_suffix) p E).
Defined.
