(* ===== verification/GpgKeys.v ===== *)
(** * gpg's machine-readable output ([hire-attestors/src/gpg.rs],
    [claim.rs::names_key])

    The colon listing that decides which keys may be enrolled, and the status
    line that says which key signed; and how gpg is found and run. *)
From S2P Require Import Prelude RustStr Claim Machine.

(** [is_revoked] *)
Definition is_revoked (field : option string) : bool :=
  match field with Some f => String.eqb f "r" | None => false end.

Section Listing.
Context {U : Unicode}.

(** [make_candidate] *)
Definition make_candidate (fingerprint display_name : string) : Candidate :=
  with_proof_cost Interactive (with_attainable AIaa1
    (candidate_new "gpg" SaSshLocal ("gpg/" +:+ to_lowercase fingerprint) display_name)).

(** [flush_key]: what it pushes. *)
Definition flush_key (fingerprint uid : option string) (enrollable : bool) : list Candidate :=
  match enrollable, fingerprint, uid with
  | true, Some fp, Some uid => [make_candidate fp uid]
  | _, _, _ => []
  end.

(** The loop variables of [parse_gpg_colons]. *)
Record GpgState : Type := mkGpg {
  candidates : list Candidate;
  current_fp : option string;
  current_uid : option string;
  enrollable : bool;
  want_primary_fpr : bool;
}.

Definition sec_enrollable (fields : list string) : bool :=
  match fields !! 14%nat with Some f => negb (String.eqb f "#") | None => false end
  && negb (is_revoked (fields !! 1%nat)).

Definition gpg_step (st : GpgState) (line : string) : GpgState :=
  let fields := split_char ":" line in
  let first := default "" (head fields) in
  if String.eqb first "sec" then
    mkGpg (candidates st ++ flush_key (current_fp st) (current_uid st) (enrollable st))
      None None (sec_enrollable fields) true
  else if String.eqb first "fpr" && want_primary_fpr st then
    mkGpg (candidates st) (fields !! 9%nat) (current_uid st) (enrollable st) false
  else if String.eqb first "uid" && bool_decide (current_uid st = None)
          && negb (is_revoked (fields !! 1%nat)) then
    mkGpg (candidates st) (current_fp st) (fields !! 9%nat) (enrollable st) (want_primary_fpr st)
  else st.

Definition parse_gpg_colons (output : string) : list Candidate :=
  let st := fold_left gpg_step (lines output) (mkGpg [] None None false false) in
  candidates st ++ flush_key (current_fp st) (current_uid st) (enrollable st).
End Listing.

(** [claim.rs::names_key] *)
Definition names_key (status fingerprint : string) : bool :=
  existsb (λ l,
    match strip_prefix "[GNUPG:] VALIDSIG " l with
    | None => false
    | Some args =>
        let fields := split_whitespace args in
        let named o := match o with
                       | Some f => eq_ignore_ascii_case f fingerprint
                       | None => false
                       end in
        named (fields !! 0%nat) || named (fields !! 9%nat)
    end) (lines status).

(** ** Running gpg *)
Section Command.
Context `{M : Machine W}.

(** [which_gpg]: a fixed list, never [PATH]. *)
Definition GPG_PATHS : list string := ["/usr/bin/gpg"; "/usr/local/bin/gpg"; "/usr/bin/gpg2"].

Fixpoint first_existing (ps : list string) : ST W (option string) :=
  match ps with
  | [] => ret None
  | p :: ps => let* e := path_exists p in if e : bool then ret (Some p) else first_existing ps
  end.
Definition which_gpg : ST W (option string) := first_existing GPG_PATHS.

(** [gnupg_home] *)
Definition gnupg_home : ST W string :=
  let* g := env_var_os "GNUPGHOME" in
  match g with
  | Some home => ret home
  | None => let* h := env_var "HOME" in ret (path_join (default "/root" h) ".gnupg")
  end.

(** [GpgAttestor::is_available] *)
Definition gpg_is_available : ST W bool :=
  let* g := which_gpg in
  match g with
  | None => ret false
  | Some _ => let* home := gnupg_home in path_exists home
  end.

(** [run] *)
Definition gpg_run (gpg : string) (args : list string) (stdin : list byte)
    : ST W (result Output AttestorError) :=
  let* r := run_command gpg (["--batch"; "--no-tty"] ++ args) (Some stdin) in
  ret (map_err (λ e, match e with
    | SpawnFailed e => Unavailable ("gpg exec failed: " +:+ e)
    | StdinNotPiped => Unavailable "gpg stdin was not piped"
    | WaitFailed e => Unavailable ("gpg did not run: " +:+ e)
    end) r).

Lemma first_existing_elem ps w p w' : first_existing ps w = (Some p, w') → p ∈ ps.
Proof.
  revert w; induction ps as [|q ps IH]; intros w; [done|]. cbn. unfold bind.
  destruct (path_exists q w) as [[] w1]; [|intros H%IH; set_solver].
  intros [= <- _]. set_solver.
Qed.
End Command.

(** ** What the listing means

    The listing is read as blocks, each a [sec] record and the records up to
    the next one; a block enrols at most one key. *)
Definition record_type (line : string) : string := default "" (head (split_char ":" line)).
Definition field (n : nat) (line : string) : option string := split_char ":" line !! n.

Fixpoint block_body (ls : list string) : list string :=
  match ls with
  | [] => []
  | l :: ls => if String.eqb (record_type l) "sec" then [] else l :: block_body ls
  end.

Fixpoint blocks (ls : list string) : list (string * list string) :=
  match ls with
  | [] => []
  | l :: ls => if String.eqb (record_type l) "sec" then (l, block_body ls) :: blocks ls
               else blocks ls
  end.

(** The first fingerprint record names the key; the first live user id that
    has one gives the display name. *)
Definition block_fpr (body : list string) : option string :=
  let! l := find_first (λ l, String.eqb (record_type l) "fpr") body in field 9 l.
Definition live_uid (l : string) : option string :=
  if String.eqb (record_type l) "uid" && negb (is_revoked (field 1 l)) then field 9 l else None.
Definition block_uid (body : list string) : option string := find_map live_uid body.

(** ** What a block enrols, said of its records

    In terms of the records' fields alone; neither the parser's tests nor its
    state occur. *)
Definition held (sec : string) : Prop := ∃ s, field 14 sec = Some s ∧ s ≠ "#".
Definition revoked (l : string) : Prop := field 1 l = Some "r".

(** The first element that has the property. *)
Definition first_with {A} (P : A → Prop) (l : list A) (x : A) : Prop :=
  ∃ before after, l = before ++ x :: after ∧ P x ∧ Forall (λ y, ¬ P y) before.

Definition names_fingerprint (l : string) : Prop := record_type l = "fpr".
Definition names_live_user (l : string) : Prop :=
  record_type l = "uid" ∧ ¬ revoked l ∧ is_Some (field 9 l).

Section Blocks.
Context {U : Unicode}.

Definition block_candidates (b : string * list string) : list Candidate :=
  flush_key (block_fpr b.2) (block_uid b.2) (sec_enrollable (split_char ":" b.1)).

(** The candidate a block stands for: its secret half is held, it is not
    revoked, its first fingerprint record names it and its first live user id
    describes it. *)
Definition enrols (b : string * list string) (c : Candidate) : Prop :=
  held b.1 ∧ ¬ revoked b.1
  ∧ ∃ f fp u uid, first_with names_fingerprint b.2 f ∧ field 9 f = Some fp
      ∧ first_with names_live_user b.2 u ∧ field 9 u = Some uid
      ∧ c = mkCandidate "gpg" SaSshLocal ("gpg/" +:+ to_lowercase fp) uid AIaa1 Interactive.

(** ** Lemmas *)

Definition flush_state (st : GpgState) : list Candidate :=
  candidates st ++ flush_key (current_fp st) (current_uid st) (enrollable st).

Lemma gpg_step_sec st l :
  record_type l = "sec" →
  gpg_step st l = mkGpg (flush_state st) None None (sec_enrollable (split_char ":" l)) true.
Proof. intros H. unfold gpg_step. fold (record_type l). by rewrite H. Qed.

(** What the loop will make of the block it is in, from the records left. *)
Definition pending_fp (st : GpgState) (body : list string) : option string :=
  if want_primary_fpr st then block_fpr body else current_fp st.
Definition pending_uid (st : GpgState) (body : list string) : option string :=
  match current_uid st with Some u => Some u | None => block_uid body end.

Lemma gpg_step_body st l :
  record_type l ≠ "sec" →
  let st' := gpg_step st l in
  candidates st' = candidates st ∧ enrollable st' = enrollable st
  ∧ (want_primary_fpr st' = true →
       want_primary_fpr st = true ∧ current_fp st' = current_fp st)
  ∧ (∀ body, pending_fp st' body = pending_fp st (l :: body))
  ∧ (∀ body, pending_uid st' body = pending_uid st (l :: body)).
Proof.
  intros Hs. unfold gpg_step, pending_fp, pending_uid, block_fpr, block_uid.
  cbn [find_first find_map]. unfold live_uid. fold (record_type l).
  rewrite (proj2 (String.eqb_neq _ _) Hs).
  destruct (String.eqb_spec (record_type l) "fpr") as [Hf|Hf]; cbn [andb].
  { assert (String.eqb (record_type l) "uid" = false) as -> by (by rewrite Hf).
    destruct (want_primary_fpr st) eqn:Hw; cbn; rewrite ?Hw; by split_and!; auto. }
  destruct (String.eqb_spec (record_type l) "uid") as [Hu|Hu]; cbn [andb];
    [|by split_and!; auto].
  fold (field 1 l). destruct (current_uid st) eqn:Huid; cbn [bool_decide decide andb].
  - rewrite bool_decide_false by done. cbn. rewrite Huid. by split_and!; auto.
  - rewrite bool_decide_true by done. cbn [andb].
    destruct (is_revoked (field 1 l)); cbn; rewrite ?Huid; [by split_and!; auto|].
    split_and!; auto.
Qed.

Lemma gpg_loop ls st :
  (want_primary_fpr st = true → current_fp st = None) →
  flush_state (fold_left gpg_step ls st) =
    candidates st
    ++ flush_key (pending_fp st (block_body ls)) (pending_uid st (block_body ls)) (enrollable st)
    ++ concat (block_candidates <$> blocks ls).
Proof.
  revert st; induction ls as [|l ls IH]; intros st Hw.
  - cbn. rewrite app_nil_r. unfold flush_state. f_equal. unfold pending_fp, pending_uid. cbn.
    destruct (want_primary_fpr st); [rewrite Hw by done|]; by destruct (current_uid st).
  - cbn [fold_left block_body blocks].
    destruct (String.eqb_spec (record_type l) "sec") as [Hl|Hl].
    + rewrite gpg_step_sec, IH by done. cbn [candidates enrollable fmap list_fmap concat].
      unfold flush_state, pending_fp, pending_uid; cbn [want_primary_fpr current_uid current_fp].
      rewrite <-!app_assoc. f_equal. f_equal.
      change (block_fpr []) with (@None string). change (block_uid []) with (@None string).
      destruct (want_primary_fpr st); [rewrite Hw by done|]; by destruct (current_uid st).
    + destruct (gpg_step_body st l Hl) as (Hc & He & Hwf & Hp & Hu).
      rewrite IH by (intros H; apply Hwf in H as [H ->]; auto).
      by rewrite Hc, He, Hp, Hu.
Qed.

Lemma parse_gpg_colons_blocks output :
  parse_gpg_colons output = concat (block_candidates <$> blocks (lines output)).
Proof.
  unfold parse_gpg_colons. fold (flush_state (fold_left gpg_step (lines output)
    (mkGpg [] None None false false))).
  rewrite gpg_loop by done. unfold flush_key; cbn [enrollable]. done.
Qed.

Lemma find_first_first {A} (p : A → bool) (P : A → Prop) :
  (∀ x, p x = true ↔ P x) → ∀ l x, find_first p l = Some x ↔ first_with P l x.
Proof.
  intros Hp l x. rewrite find_first_Some. unfold first_with.
  do 2 (apply exist_proper; intro). rewrite Forall_forall.
  setoid_rewrite <-Hp. setoid_rewrite not_true_iff_false. naive_solver.
Qed.

Lemma first_with_cons {A} (P : A → Prop) x l y :
  ¬ P x → first_with P (x :: l) y ↔ first_with P l y.
Proof.
  intros Hx. split.
  - intros ([|z before] & after & [= -> ->] & Hy & Hb); [done|].
    exists before, after. inv Hb. done.
  - intros (before & after & -> & Hy & Hb). exists (x :: before), after.
    split_and!; [done..|by constructor].
Qed.

Lemma sec_enrollable_iff sec :
  sec_enrollable (split_char ":" sec) = true ↔ held sec ∧ ¬ revoked sec.
Proof.
  unfold sec_enrollable, held, revoked. fold (field 14 sec) (field 1 sec).
  rewrite andb_true_iff, negb_true_iff. apply Morphisms_Prop.and_iff_morphism.
  - destruct (field 14 sec) as [s|]; [|by split; [|intros (? & ? & _)]].
    rewrite negb_true_iff, String.eqb_neq. naive_solver.
  - unfold is_revoked. destruct (field 1 sec) as [s|]; [|done].
    rewrite String.eqb_neq. naive_solver.
Qed.

Lemma block_fpr_iff body fp :
  block_fpr body = Some fp ↔ ∃ f, first_with names_fingerprint body f ∧ field 9 f = Some fp.
Proof.
  unfold block_fpr, names_fingerprint.
  assert (∀ l, (String.eqb (record_type l) "fpr" = true ↔ record_type l = "fpr")) as Hp
    by (intros; apply String.eqb_eq).
  split.
  - destruct (find_first _ body) as [f|] eqn:E; [|done]. intros H. exists f.
    split; [by apply (find_first_first _ _ Hp)|exact H].
  - intros (f & H & Hf). by rewrite (proj2 (find_first_first _ _ Hp _ _) H).
Qed.

Lemma live_uid_iff l uid : live_uid l = Some uid ↔ names_live_user l ∧ field 9 l = Some uid.
Proof.
  unfold live_uid, names_live_user, revoked, is_revoked.
  destruct (String.eqb_spec (record_type l) "uid") as [Hu|Hu]; cbn [andb]; [|naive_solver].
  destruct (field 1 l) as [s|]; [destruct (String.eqb_spec s "r") as [->|]|]; cbn [negb];
    naive_solver.
Qed.

Lemma block_uid_iff body uid :
  block_uid body = Some uid ↔ ∃ u, first_with names_live_user body u ∧ field 9 u = Some uid.
Proof.
  unfold block_uid. induction body as [|l body IH]; cbn [find_map].
  { split; [done|]. intros (u & (before & after & E & _) & _). by destruct before. }
  destruct (live_uid l) as [v|] eqn:Hl.
  - apply live_uid_iff in Hl as [Hl Hv]. split.
    + intros [= <-]. exists l. split; [|done]. exists [], body. done.
    + intros (u & (before & after & E & _ & Hb) & Hu). destruct before as [|x before].
      * injection E as <- <-. congruence.
      * injection E as <- _. by inv Hb.
  - assert (¬ names_live_user l) as Hn.
    { intros Hn. destruct (proj2 (proj2 Hn)) as [v Hv].
      by rewrite (proj2 (live_uid_iff l v) (conj Hn Hv)) in Hl. }
    rewrite IH. apply exist_proper. intros u. by rewrite first_with_cons.
Qed.

Lemma block_candidates_enrols b :
  (length (block_candidates b) ≤ 1)%nat ∧ ∀ c, c ∈ block_candidates b ↔ enrols b c.
Proof.
  unfold block_candidates, enrols, flush_key. split.
  { repeat case_match; cbn; lia. }
  intros c. pose proof (sec_enrollable_iff b.1) as Hs.
  destruct (sec_enrollable (split_char ":" b.1)).
  2: { split; [set_solver|]. intros (Hh & Hr & _). by assert (false = true) by (by apply Hs). }
  destruct (proj1 Hs eq_refl) as [Hh Hr].
  pose proof (block_fpr_iff b.2) as Hf. pose proof (block_uid_iff b.2) as Hu.
  destruct (block_fpr b.2) as [fp|]; [destruct (block_uid b.2) as [uid|]|].
  - rewrite list_elem_of_singleton. split.
    + intros ->. split_and!; [done..|]. destruct (proj1 (Hf fp) eq_refl) as (f & ? & ?).
      destruct (proj1 (Hu uid) eq_refl) as (u & ? & ?). by exists f, fp, u, uid.
    + intros (_ & _ & f & fp' & u & uid' & H1 & H2 & H3 & H4 & ->).
      assert (Some fp = Some fp') as [= <-] by (apply Hf; eauto).
      by assert (Some uid = Some uid') as [= <-] by (apply Hu; eauto).
  - split; [set_solver|]. intros (_ & _ & f & fp' & u & uid' & H1 & H2 & H3 & H4 & ->).
    by assert (None = Some uid') by (apply Hu; eauto).
  - split; [set_solver|]. intros (_ & _ & f & fp' & u & uid' & H1 & H2 & H3 & H4 & ->).
    by assert (None = Some fp') by (apply Hf; eauto).
Qed.

Lemma names_key_true status fp :
  names_key status fp = true ↔
  ∃ args f, ("[GNUPG:] VALIDSIG " +:+ args) ∈ lines status
    ∧ (split_whitespace args !! 0%nat = Some f ∨ split_whitespace args !! 9%nat = Some f)
    ∧ to_ascii_lowercase f = to_ascii_lowercase fp.
Proof.
  unfold names_key. rewrite existsb_exists. split.
  - intros (l & Hl%list_elem_of_In & Hm).
    destruct (strip_prefix _ l) as [args|] eqn:E; [|done].
    apply strip_prefix_Some in E as ->. exists args.
    apply orb_true_iff in Hm as [Hm|Hm];
      case_match eqn:Hf; try done; apply String.eqb_eq in Hm; eauto 6.
  - intros (args & f & Hl & Hf & E). eexists. split; [by apply list_elem_of_In|].
    rewrite strip_prefix_app. apply orb_true_iff. unfold eq_ignore_ascii_case.
    destruct Hf as [-> | ->]; [left|right]; by apply String.eqb_eq.
Qed.

(** ** Properties *)

(** C28: the colon listing enrols block by block, in order: each [sec] record
    with the records up to the next — and nothing before the first one —
    contributes at most one candidate, and contributes it exactly when the
    secret half is held (field 15 present and not [#]: here or on a card) and
    the key is not revoked.  Its path is the block's first fingerprint record,
    its name the first user id that is not revoked, so no subkey fingerprint,
    no revoked user id and no record of a neighbouring key leaks into it; it
    costs a prompt, attains the lowest level and sits under [ssh.local]. *)
Theorem gpg_enrols_block_by_block output :
  ∃ enrolled, parse_gpg_colons output = concat enrolled
    ∧ Forall2 (λ b cs, (length cs ≤ 1)%nat ∧ ∀ c, c ∈ cs ↔ enrols b c)
        (blocks (lines output)) enrolled.
Proof.
  exists (block_candidates <$> blocks (lines output)).
  split; [apply parse_gpg_colons_blocks|]. apply Forall2_fmap_r, Forall_Forall2_diag, Forall_forall.
  intros b _. apply block_candidates_enrols.
Qed.
End Blocks.

Example gpg_listing :
  parse_gpg_colons (U := ascii_tables) (join (String "010" EmptyString)
    ["sec:u:255:22:AAAA:1:::u:::scESC:::+::ed25519:::0:"; "fpr:::::::::ABCD01:";
     "uid:r::::1::H::old <o@x>::::::::::0:"; "uid:u::::1::H::new <n@x>::::::::::0:";
     "ssb:u:255:18:BBBB:1::::::e:::+::cv25519::"; "fpr:::::::::FFFF02:";
     "sec:u:255:22:CCCC:1:::u:::scESC:::#::ed25519:::0:"; "fpr:::::::::EEEE03:";
     "uid:u::::1::H::stub <s@x>::::::::::0:"])
  = [make_candidate (U := ascii_tables) "ABCD01" "new <n@x>"].
Proof. vm_compute. reflexivity. Qed.
