(* ===== verification/GpgRun.v ===== *)
(** * Running gpg over pipes ([run] of [hire-attestors/src/gpg.rs])

    The child, the kernel's pipes and the two tasks of the parent, one that
    feeds the payload and one that collects both output streams, interleaved
    at the granularity of their system calls.  The child is any program that
    takes its input byte by byte and keeps its streams open until it exits.  [GpgKeys.gpg_run], which the attestor and
    the verifier are modelled with, treats the whole as one call; here is why
    it may. *)
From S2P Require Import Prelude RustStr RustNum External Claim Machine GpgKeys.
Local Open Scope nat_scope.

(** What a child in state [s] does next. *)
Inductive Act (St : Type) : Type :=
| Exit (success : bool)
| ReadByte (k : option byte → St)        (* [None] at the end of its input *)
| PutOut (b : byte) (s : St)
| PutErr (b : byte) (s : St)
| Work (s : St).
Arguments Exit {St} _.
Arguments ReadByte {St} _.
Arguments PutOut {St} _ _.
Arguments PutErr {St} _ _.
Arguments Work {St} _.

(** Programs, and starting one. *)
Class Programs (St : Type) := {
  next : St → Act St;
  spawn : string → list string → result St string;
}.

Section Run.
Context `{Pr : Programs St}.

(** The task that writes the payload and shuts the pipe down. *)
Inductive Feeder : Type := Feeding (rest : list byte) | Closed | Broken.

Record Run : Type := mkRun {
  child : St + bool;                       (* running, or its exit status *)
  feeder : Feeder;
  stdin_pipe : list byte;
  stdout_pipe : list byte;
  stderr_pipe : list byte;
  got_out : list byte;
  got_err : list byte;
}.

Inductive Action : Type := Feed (n : nat) | Child | DrainOut (n : nat) | DrainErr (n : nat).

(** One system call; [None] is a task or a child that has to wait.  A write
    moves as many of the bytes as it is given room for, at least one, a read
    at least one of those that are there; which is up to the kernel. *)
Definition feed (cap n : nat) (r : Run) : option Run :=
  match feeder r with
  | Feeding [] =>
      Some (mkRun (child r) Closed (stdin_pipe r) (stdout_pipe r) (stderr_pipe r) (got_out r) (got_err r))
  | Feeding rest =>
      match child r with
      | inr _ => (* [EPIPE] ends the task *)
          Some (mkRun (child r) Broken (stdin_pipe r) (stdout_pipe r) (stderr_pipe r) (got_out r) (got_err r))
      | inl _ =>
          match (cap - length (stdin_pipe r))%nat with
          | O => None
          | S room =>
              let k := S (Nat.min n room) in
              Some (mkRun (child r) (Feeding (drop k rest)) (stdin_pipe r ++ take k rest)
                      (stdout_pipe r) (stderr_pipe r) (got_out r) (got_err r))
          end
      end
  | Closed | Broken => None
  end.

Definition drain_out (n : nat) (r : Run) : option Run :=
  match stdout_pipe r with
  | [] => None
  | l => Some (mkRun (child r) (feeder r) (stdin_pipe r) (drop (S n) l) (stderr_pipe r)
                (got_out r ++ take (S n) l) (got_err r))
  end.
Definition drain_err (n : nat) (r : Run) : option Run :=
  match stderr_pipe r with
  | [] => None
  | l => Some (mkRun (child r) (feeder r) (stdin_pipe r) (stdout_pipe r) (drop (S n) l)
                (got_out r) (got_err r ++ take (S n) l))
  end.

Definition with_child (c : St + bool) (r : Run) : Run :=
  mkRun c (feeder r) (stdin_pipe r) (stdout_pipe r) (stderr_pipe r) (got_out r) (got_err r).

Definition child_step (cap : nat) (r : Run) : option Run :=
  match child r with
  | inr _ => None
  | inl s =>
      match next s with
      | Exit b => Some (with_child (inr b) r)
      | ReadByte k =>
          match stdin_pipe r, feeder r with
          | b :: l, f => Some (mkRun (inl (k (Some b))) f l (stdout_pipe r) (stderr_pipe r) (got_out r) (got_err r))
          | [], Feeding _ => None
          | [], _ => Some (with_child (inl (k None)) r)
          end
      | PutOut b s =>
          if (length (stdout_pipe r) <? cap)%nat
          then Some (mkRun (inl s) (feeder r) (stdin_pipe r) (stdout_pipe r ++ [b]) (stderr_pipe r)
                       (got_out r) (got_err r))
          else None
      | PutErr b s =>
          if (length (stderr_pipe r) <? cap)%nat
          then Some (mkRun (inl s) (feeder r) (stdin_pipe r) (stdout_pipe r) (stderr_pipe r ++ [b])
                       (got_out r) (got_err r))
          else None
      | Work s => Some (with_child (inl s) r)
      end
  end.

Definition exec (cap : nat) (a : Action) (r : Run) : option Run :=
  match a with
  | Feed n => feed cap n r
  | Child => child_step cap r
  | DrainOut n => drain_out n r
  | DrainErr n => drain_err n r
  end.

Fixpoint exec_all (cap : nat) (acts : list Action) (r : Run) : option Run :=
  match acts with [] => Some r | a :: acts => let! r := exec cap a r in exec_all cap acts r end.

Definition start (s : St) (payload : list byte) : Run :=
  mkRun (inl s) (Feeding payload) [] [] [] [] [].

(** [wait_with_output] returns when the child is gone and both streams are at
    their end; [writer.await] then waits for the feeder, whose outcome is
    dropped. *)
Definition output_of (r : Run) : option Output :=
  match child r, feeder r, stdout_pipe r, stderr_pipe r with
  | inr b, (Closed | Broken), [], [] => Some (mkOutput b (got_out r) (got_err r))
  | _, _, _, _ => None
  end.

(** [run], under a schedule; [None] is a schedule that ends too early or asks
    for a step that is not possible. *)
Definition run (cap : nat) (sched : list Action) (gpg : string) (args : list string)
    (stdin : list byte) : option (result Output AttestorError) :=
  match spawn gpg (["--batch"; "--no-tty"] ++ args) with
  | Err e => Some (Err (Unavailable ("gpg exec failed: " +:+ e)))
  | Ok s =>
      let! r := exec_all cap sched (start s stdin) in
      let! o := output_of r in Some (Ok o)
  end.

(** The order the code avoids: the whole payload first, then the output. *)
Definition exec_write_first (cap : nat) (a : Action) (r : Run) : option Run :=
  match a, feeder r with
  | (DrainOut _ | DrainErr _), Feeding _ => None
  | _, _ => exec cap a r
  end.
Fixpoint exec_all_write_first (cap : nat) (acts : list Action) (r : Run) : option Run :=
  match acts with
  | [] => Some r
  | a :: acts => let! r := exec_write_first cap a r in exec_all_write_first cap acts r
  end.

(** The child by itself on the whole input, with room for all it writes. *)
Fixpoint alone (fuel : nat) (s : St) (input out err : list byte) : option Output :=
  match fuel with
  | O => None
  | S fuel =>
      match next s with
      | Exit b => Some (mkOutput b out err)
      | ReadByte k =>
          match input with
          | [] => alone fuel (k None) [] out err
          | b :: input => alone fuel (k (Some b)) input out err
          end
      | PutOut b s => alone fuel s input (out ++ [b]) err
      | PutErr b s => alone fuel s input out (err ++ [b])
      | Work s => alone fuel s input out err
      end
  end.

(** ** What every state of a run has in common *)

Definition rest_of (f : Feeder) : list byte := match f with Feeding l => l | Closed | Broken => [] end.
Definition unread (r : Run) : list byte := stdin_pipe r ++ rest_of (feeder r).
Definition all_out (r : Run) : list byte := got_out r ++ stdout_pipe r.
Definition all_err (r : Run) : list byte := got_err r ++ stderr_pipe r.

(** The child is on its way to [o], with at most [n] steps to go. *)
Definition heads_for (n : nat) (o : Output) (r : Run) : Prop :=
  match child r with
  | inl s => alone n s (unread r) (all_out r) (all_err r) = Some o ∧ feeder r ≠ Broken
  | inr b => o = mkOutput b (all_out r) (all_err r)
  end.

(** Everything the tasks and the child have left to do. *)
Definition work_left (n : nat) (r : Run) : nat :=
  2 * n + match feeder r with Feeding l => length l + 1 | Closed | Broken => 0 end
  + length (stdout_pipe r) + length (stderr_pipe r).

Lemma start_heads n s payload o :
  alone n s payload [] [] = Some o → heads_for n o (start s payload).
Proof. by intros H. Qed.

Ltac unfold_run := unfold heads_for, work_left, unread, all_out, all_err, with_child in *;
  cbn [child feeder stdin_pipe stdout_pipe stderr_pipe got_out got_err rest_of] in *.

Lemma feed_heads cap k n o r r' : heads_for n o r → feed cap k r = Some r' →
  heads_for n o r' ∧ work_left n r' < work_left n r.
Proof.
  unfold feed. destruct r as [c f i po pe go ge]. unfold_run.
  destruct f as [[|b rest]| |]; [| |done..].
  - intros H [= <-]. unfold_run. split; [by destruct c; naive_solver|lia].
  - destruct c as [s|e].
    + destruct (cap - length i)%nat; [done|]. intros [H _] <-%(inj Some). unfold_run.
      rewrite <-app_assoc, take_drop. split; [done|].
      rewrite length_drop. cbn [length]. lia.
    + intros H [= <-]. unfold_run. cbn [length]. split; [done|lia].
Qed.

Lemma drain_heads k n o r r' : heads_for n o r → drain_out k r = Some r' ∨ drain_err k r = Some r' →
  heads_for n o r' ∧ work_left n r' < work_left n r.
Proof.
  unfold drain_out, drain_err. destruct r as [c f i po pe go ge]. unfold_run.
  intros H [Hd|Hd].
  - destruct po as [|b po]; [done|]. apply (inj Some) in Hd as <-. unfold_run.
    rewrite <-app_assoc, take_drop. split; [done|]. rewrite length_drop. cbn [length]. lia.
  - destruct pe as [|b pe]; [done|]. apply (inj Some) in Hd as <-. unfold_run.
    rewrite <-app_assoc, take_drop. split; [done|]. rewrite length_drop. cbn [length]. lia.
Qed.

Lemma child_heads cap n o r r' : heads_for n o r → child_step cap r = Some r' →
  ∃ m, heads_for m o r' ∧ work_left m r' < work_left n r.
Proof.
  unfold child_step. destruct r as [[s|] f i po pe go ge]; unfold_run; [|done].
  intros [H Hf]. destruct n as [|n]; [done|]. cbn [alone] in H. intros Hs. exists n.
  destruct (next s) as [b|k|b s'|b s'|s'].
  - injection Hs as <-. injection H as <-. unfold_run. split; [done|lia].
  - destruct i as [|b i]; [destruct f as [rest| |]; try done|]; injection Hs as <-; unfold_run;
      (split; [done|lia]).
  - destruct (_ <? cap)%nat; [|done]. injection Hs as <-. unfold_run.
    rewrite app_assoc, length_app. cbn [length]. split; [done|lia].
  - destruct (_ <? cap)%nat; [|done]. injection Hs as <-. unfold_run.
    rewrite app_assoc, length_app. cbn [length]. split; [done|lia].
  - injection Hs as <-. unfold_run. split; [done|lia].
Qed.

Lemma exec_heads cap a n o r r' : heads_for n o r → exec cap a r = Some r' →
  ∃ m, heads_for m o r' ∧ work_left m r' < work_left n r.
Proof.
  destruct a; cbn [exec]; intros H Hs.
  - exists n. by eapply feed_heads.
  - by eapply child_heads.
  - exists n. eapply drain_heads; [done|by left].
  - exists n. eapply drain_heads; [done|by right].
Qed.

Lemma exec_all_heads cap acts n o r r' : heads_for n o r → exec_all cap acts r = Some r' →
  ∃ m, heads_for m o r' ∧ length acts + work_left m r' ≤ work_left n r.
Proof.
  revert n r; induction acts as [|a acts IH]; intros n r H; cbn [exec_all].
  - intros [= <-]. by exists n.
  - destruct (exec cap a r) as [r1|] eqn:Ha; [|done]. intros Hs.
    destruct (exec_heads _ _ _ _ _ _ H Ha) as (m & H1 & Hm).
    destruct (IH _ _ H1 Hs) as (m' & H2 & Hm'). exists m'. split; [done|]. cbn [length]. lia.
Qed.

(** A finished run has the child's own output. *)
Lemma output_heads n o r o' : heads_for n o r → output_of r = Some o' → o' = o.
Proof.
  unfold output_of. destruct r as [[s|b] f i po pe go ge]; unfold_run; [done|].
  intros ->. destruct f, po, pe; try done; intros [= <-]; by rewrite !app_nil_r.
Qed.

(** A state that is not the end has a step, whatever the child is. *)
Lemma no_deadlock cap r : 1 ≤ cap → output_of r = None → ∃ a, is_Some (exec cap a r).
Proof.
  intros Hcap. destruct r as [c f i po pe go ge].
  destruct po as [|b po]; [|intros _; exists (DrainOut 0); by eexists].
  destruct pe as [|b pe]; [|intros _; exists (DrainErr 0); by eexists].
  unfold output_of. cbn [child feeder stdout_pipe stderr_pipe].
  destruct c as [s|b]; [|destruct f as [[|]| |]; [intros _; exists (Feed 0); by eexists..|done|done]].
  intros _. destruct (next s) as [b|k|b s'|b s'|s'] eqn:Hn;
    [exists Child|destruct i as [|b i]|exists Child|exists Child|exists Child];
    cbn [exec]; unfold child_step; cbn [child stdin_pipe stdout_pipe stderr_pipe feeder length];
    rewrite ?Hn; try (by eexists).
  - destruct f as [[|b rest]| |].
    + exists (Feed 0). by eexists.
    + exists (Feed 0). cbn. rewrite Nat.sub_0_r. destruct cap; [lia|]. by eexists.
    + exists Child. cbn. rewrite Hn. by eexists.
    + exists Child. cbn. rewrite Hn. by eexists.
  - exists Child. cbn. rewrite Hn. by eexists.
  - rewrite (proj2 (Nat.ltb_lt 0 cap)) by lia. by eexists.
  - rewrite (proj2 (Nat.ltb_lt 0 cap)) by lia. by eexists.
Qed.

Lemma exec_all_app cap acts1 acts2 r r1 :
  exec_all cap acts1 r = Some r1 → exec_all cap (acts1 ++ acts2) r = exec_all cap acts2 r1.
Proof.
  revert r; induction acts1 as [|a acts IH]; intros r; cbn; [by intros [= ->]|].
  destruct (exec cap a r); [|done]. apply IH.
Qed.

Lemma finishes cap n o r : 1 ≤ cap → heads_for n o r →
  ∃ acts r', exec_all cap acts r = Some r' ∧ output_of r' = Some o.
Proof.
  intros Hcap. remember (work_left n r) as k eqn:Hk. revert n r Hk.
  induction (lt_wf k) as [k _ IH]; intros n r -> H.
  destruct (output_of r) as [o'|] eqn:Ho.
  - exists [], r. split; [done|]. by rewrite Ho, (output_heads _ _ _ _ H Ho).
  - destruct (no_deadlock cap r Hcap Ho) as (a & r1 & Ha).
    destruct (exec_heads _ _ _ _ _ _ H Ha) as (m & H1 & Hm).
    destruct (IH _ Hm m r1 eq_refl H1) as (acts & r' & Hs & Ho'). exists (a :: acts), r'.
    cbn [exec_all]. by rewrite Ha.
Qed.
End Run.

(** ** A child that copies its input and says so on the other stream *)
Inductive Cat : Type := Reading | Echo (b : byte) | Report | Done.
Definition on_input (i : option byte) : Cat :=
  match i with Some b => Echo b | None => Report end.
#[local] Instance cat : Programs Cat := {|
  next s := match s with
    | Reading => ReadByte on_input
    | Echo b => PutOut b Reading
    | Report => PutErr "."%char Done
    | Done => Exit true
    end;
  spawn program _ := if String.eqb program "/usr/bin/gpg" then Ok Reading else Err "no such file";
|}.

(** Fed more than both pipes hold, it fills its output pipe and stops reading;
    with the payload first nobody reads that, and everything waits. *)
Definition stuck_schedule : list Action :=
  [Feed 1; Child; Child; Child; Child; Feed 1; Child; Feed 0].

Lemma write_first_stuck :
  ∃ r, exec_all_write_first 2 stuck_schedule (start Reading (as_bytes "abcdefgh")) = Some r
    ∧ output_of r = None ∧ ∀ a, exec_write_first 2 a r = None.
Proof. eexists. split; [vm_compute; reflexivity|]. split; [reflexivity|]. by intros [| | |]. Qed.

(** ** Properties *)

(** C39: running gpg cannot deadlock, and its result does not depend on how
    the two tasks, the child and the kernel interleave.  Whatever the child is
    and however many bytes each read and write moves, a run that is not over
    can go on.  When the child by itself would end with an output, every
    schedule is bounded, can be completed, and every completed one returns
    exactly that output, a pipe broken by a child that left its input unread
    included; so a machine on which [run_command] is the child by itself is
    what the rest of the development may take [run] for.  Writing the whole
    payload before reading does deadlock. *)
Theorem gpg_run_is_one_call `{Pr : Programs St} cap gpg args stdin s n o acts r :
  1 ≤ cap → spawn gpg (["--batch"; "--no-tty"] ++ args) = Ok s →
  alone n s stdin [] [] = Some o → exec_all cap acts (start s stdin) = Some r →
  (∀ (s' : St) stdin' acts' r', exec_all cap acts' (start s' stdin') = Some r' →
     output_of r' = None → ∃ a, is_Some (exec cap a r'))
  ∧ length acts ≤ 2 * n + length stdin + 1
  ∧ (∃ acts', run cap (acts ++ acts') gpg args stdin = Some (Ok o))
  ∧ (∀ sched x, run cap sched gpg args stdin = Some x → x = Ok o)
  ∧ (∀ `(M : Machine W) w w', run_command gpg (["--batch"; "--no-tty"] ++ args) (Some stdin) w = (Ok o, w') →
      ∀ sched x, run cap sched gpg args stdin = Some x → gpg_run gpg args stdin w = (x, w'))
  ∧ ∃ r', exec_all_write_first 2 stuck_schedule (start Reading (as_bytes "abcdefgh")) = Some r'
      ∧ output_of r' = None ∧ ∀ a, exec_write_first 2 a r' = None.
Proof.
  intros Hcap Hspawn Halone Hacts.
  assert (Hrun : ∀ sched x, run cap sched gpg args stdin = Some x → x = Ok o).
  { intros sched x. unfold run. rewrite Hspawn.
    destruct (exec_all cap sched _) as [r1|] eqn:Hs; [|done].
    destruct (output_of r1) as [o'|] eqn:Ho; [|done]. intros [= <-]. f_equal.
    destruct (exec_all_heads _ _ _ _ _ _ (start_heads _ _ _ _ Halone) Hs) as (m & Hm & _).
    by eapply output_heads. }
  destruct (exec_all_heads _ _ _ _ _ _ (start_heads _ _ _ _ Halone) Hacts) as (m & Hm & Hl).
  split_and!.
  - intros. by apply no_deadlock.
  - unfold work_left at 2 in Hl. cbn in Hl. lia.
  - destruct (finishes cap m o r Hcap Hm) as (acts' & r' & Hs & Ho). exists acts'.
    unfold run. by rewrite Hspawn, (exec_all_app _ _ _ _ _ Hacts), Hs, Ho.
  - done.
  - intros W M w w' Hc sched x Hx%Hrun. subst x. unfold gpg_run, bind, ret. by rewrite Hc.
  - apply write_first_stuck.
Qed.

(** The two tasks interleaved over pipes of two bytes: the output is the
    payload, whatever was written when. *)
Definition cat_schedule : list Action :=
  [Feed 5; Child; Child; Feed 0; Child; DrainOut 3; Child; Child; DrainOut 0; Child; Feed 0; Child; Child].

Lemma gpg_run_is_one_call_witness :
  (∃ acts', run 2 (cat_schedule ++ acts') "/usr/bin/gpg" ["-d"] (as_bytes "abc")
     = Some (Ok (mkOutput true (as_bytes "abc") (as_bytes "."))))
  ∧ (∀ sched x, run 2 sched "/usr/bin/gpg" ["-d"] (as_bytes "abc") = Some x →
       x = Ok (mkOutput true (as_bytes "abc") (as_bytes "."))).
Proof.
  edestruct (gpg_run_is_one_call 2 "/usr/bin/gpg" ["-d"] (as_bytes "abc") Reading 10
    (mkOutput true (as_bytes "abc") (as_bytes ".")) cat_schedule) as (_ & _ & H1 & H2 & _);
    [lia|reflexivity|vm_compute; reflexivity|vm_compute; reflexivity|].
  split; [exact H1|exact H2].
Defined.
