(* ===== verification/Verify.v ===== *)
(** * Verifying constructors of [ChallengeSignature]
    ([hire-attestors/src/claim.rs])

    The only ways possession evidence comes into being: an ssh-agent
    signature, a [did:key] signature in agent framing, and an OpenPGP signed
    message checked by the installed gpg. *)
From S2P Require Import Prelude RustStr RustNum External Claim Machine SshWire DidKey GpgKeys.

Definition malformed : AttestorError := ChallengeFailed "malformed ssh-agent blob".

Section Verify.
Context `{M : Machine W} {B : Base64} {H : Sha2} {Ed : Ed25519}.

Definition require (b : bool) (e : AttestorError) : result unit AttestorError :=
  if b then Ok () else Err e.

Definition fixed (n : nat) (bs : list byte) : result (list byte) AttestorError :=
  if Nat.eqb (length bs) n then Ok bs else Err malformed.

(** The checks of [verify_ssh_ed25519], up to the instant it is stamped. *)
Definition check_ssh_ed25519 (c : Candidate) (challenge key_blob signature : list byte)
    : result (list byte) AttestorError :=
  let? _ := require (String.eqb (ssh_spiffe_path key_blob) (c_path c))
    (ChallengeFailed "ssh-agent signed with a key the candidate does not name") in
  let? (algorithm, rest) := ok_or (read_string key_blob) malformed in
  let? (point, rest) := ok_or (read_string rest) malformed in
  let? _ := require (bool_decide (algorithm = SSH_ED25519) && bool_decide (rest = []))
    (ChallengeFailed ("unsupported ssh key type " +:+ from_utf8_lossy algorithm)) in
  let? point := fixed 32 point in
  let? _ := require (point_valid point)
    (ChallengeFailed "ssh-agent key is not a valid ed25519 point") in
  let? (sig_algorithm, rest) := ok_or (read_string signature) malformed in
  let? (sig_bytes, rest) := ok_or (read_string rest) malformed in
  let? _ := require (bool_decide (sig_algorithm = algorithm) && bool_decide (rest = []))
    malformed in
  let? sig_bytes := fixed 64 sig_bytes in
  let? _ := require (verify_strict point challenge sig_bytes)
    (ChallengeFailed "ssh-agent signature does not verify over the challenge") in
  Ok sig_bytes.

(** [verify_ssh_ed25519] *)
Definition verify_ssh_ed25519 (c : Candidate) (challenge key_blob signature : list byte)
    : ST W (result ChallengeSignature AttestorError) :=
  let*? sig_bytes := ret (check_ssh_ed25519 c challenge key_blob signature) in
  let* t := now in
  ret (Ok (mkSignature
    (mkAssertion sig_bytes "application/vnd.hire.ssh-ed25519-signature") challenge t)).

(** The checks of [verify_did_key_ed25519]. *)
Definition check_did_key_ed25519 (c : Candidate) (challenge : list byte) (did : string)
    (signature : list byte) : result (list byte) AttestorError :=
  let? _ := require (String.eqb (did_spiffe_path did) (c_path c))
    (ChallengeFailed "did:key signature is for a DID the candidate does not name") in
  let? point := ok_or (ed25519_point did)
    (ChallengeFailed (did +:+ " does not encode an ed25519 key")) in
  let? _ := require (point_valid point)
    (ChallengeFailed "did:key does not encode a valid ed25519 point") in
  let? (sig_algorithm, rest) := ok_or (read_string signature) malformed in
  let? (sig_bytes, rest) := ok_or (read_string rest) malformed in
  let? _ := require (bool_decide (sig_algorithm = SSH_ED25519) && bool_decide (rest = []))
    malformed in
  let? sig_bytes := fixed 64 sig_bytes in
  let? _ := require (verify_strict point challenge sig_bytes)
    (ChallengeFailed "did:key signature does not verify over the challenge") in
  Ok sig_bytes.

(** [verify_did_key_ed25519] *)
Definition verify_did_key_ed25519 (c : Candidate) (challenge : list byte) (did : string)
    (signature : list byte) : ST W (result ChallengeSignature AttestorError) :=
  let*? sig_bytes := ret (check_did_key_ed25519 c challenge did signature) in
  let* t := now in
  ret (Ok (mkSignature
    (mkAssertion sig_bytes "application/vnd.hire.did-key-ed25519-signature") challenge t)).

(** [verify_openpgp] *)
Definition verify_openpgp (c : Candidate) (challenge signed_message : list byte)
    : ST W (result ChallengeSignature AttestorError) :=
  let*? fingerprint := ret (ok_or (strip_prefix "gpg/" (c_path c))
    (ChallengeFailed "not a gpg candidate")) in
  let* gpg := which_gpg in
  let*? gpg := ret (ok_or gpg (Unavailable "gpg binary not found")) in
  let*? output := gpg_run gpg ["--status-fd"; "2"; "--decrypt"] signed_message in
  let status := from_utf8_lossy (o_stderr output) in
  if negb (o_success output) || negb (names_key status fingerprint) then
    ret (Err (ChallengeFailed ("gpg did not report a valid signature by " +:+ fingerprint)))
  else if negb (bool_decide (o_stdout output = challenge)) then
    ret (Err (ChallengeFailed "gpg signature covers data that is not this challenge"))
  else
    let* t := now in
    ret (Ok (mkSignature
      (mkAssertion signed_message "application/vnd.hire.openpgp-signed-message") challenge t)).

(** ** Lemmas *)

(** An agent signature blob: the algorithm and the bytes, framed. *)
Definition sig_blob (sig : list byte) : list byte :=
  push_string (push_string [] SSH_ED25519) sig.

Lemma require_Ok b e u : require b e = Ok u ↔ b = true.
Proof. destruct u, b; cbn; naive_solver. Qed.

Lemma fixed_Ok n bs bs' : fixed n bs = Ok bs' ↔ bs' = bs ∧ length bs = n.
Proof. unfold fixed. destruct (Nat.eqb_spec (length bs) n); naive_solver. Qed.

(** Reading a framed (algorithm, bytes) pair with nothing after it. *)
Lemma read_pair blob alg r b r' :
  read_string blob = Some (alg, r) → read_string r = Some (b, r') →
  alg = SSH_ED25519 → r' = [] → blob = sig_blob b.
Proof.
  intros [-> _]%read_string_Some [-> _]%read_string_Some -> ->.
  unfold sig_blob. by rewrite (push_string_app (push_string [] SSH_ED25519)), app_nil_r.
Qed.

Lemma read_sig_blob sig :
  (Z.of_nat (length sig) < 2 ^ 32)%Z →
  read_string (sig_blob sig) = Some (SSH_ED25519, push_string [] sig)
  ∧ read_string (push_string [] sig) = Some (sig, []).
Proof.
  intros Hl. unfold sig_blob. rewrite push_string_app. split; [by apply read_push|].
  rewrite <-(app_nil_r (push_string [] sig)). by apply read_push.
Qed.

Lemma check_ssh_iff c challenge blob sg bytes :
  check_ssh_ed25519 c challenge blob sg = Ok bytes ↔
  ∃ point, ssh_spiffe_path blob = c_path c ∧ ed25519_point_of blob = Some point
    ∧ point_valid point = true ∧ sg = sig_blob bytes ∧ length bytes = 64%nat
    ∧ verify_strict point challenge bytes = true.
Proof.
  unfold check_ssh_ed25519. split.
  - destruct (String.eqb_spec (ssh_spiffe_path blob) (c_path c)) as [Hp|]; cbn [require]; [|done].
    destruct (read_string blob) as [[alg r]|] eqn:E1; cbn [ok_or]; [|done].
    destruct (read_string r) as [[point r']|] eqn:E2; cbn [ok_or]; [|done].
    case_bool_decide as Ha; cbn [andb require]; [|done].
    case_bool_decide as Hr; cbn [andb require]; [|done].
    destruct (fixed 32 point) as [p|] eqn:Hf; [|done]. apply fixed_Ok in Hf as [-> Hl].
    destruct (point_valid point) eqn:Hv; cbn [require]; [|done].
    destruct (read_string sg) as [[alg' s]|] eqn:E3; cbn [ok_or]; [|done].
    destruct (read_string s) as [[sb s']|] eqn:E4; cbn [ok_or]; [|done].
    case_bool_decide as Ha'; cbn [andb require]; [|done].
    case_bool_decide as Hr'; cbn [andb require]; [|done].
    destruct (fixed 64 sb) as [b|] eqn:Hf'; [|done]. apply fixed_Ok in Hf' as [-> Hl'].
    destruct (verify_strict point challenge sb) eqn:Hs; cbn [require]; [|done].
    intros [= <-]. exists point. split_and!; try done.
    + apply ed25519_point_of_Some. split; [|done]. by eapply read_pair.
    + eapply read_pair; [done..| |done]. by rewrite Ha'.
  - intros (point & Hp & [-> Hl]%ed25519_point_of_Some & Hv & -> & Hl' & Hs).
    rewrite Hp, String.eqb_refl; cbn [require].
    destruct (read_sig_blob point ltac:(lia)) as [E1 E2].
    unfold sig_blob in E1. rewrite E1; cbn [ok_or]. rewrite E2; cbn [ok_or].
    rewrite !bool_decide_true by done; cbn [andb require].
    unfold fixed at 1. rewrite Hl; cbn [Nat.eqb]. rewrite Hv; cbn [require].
    destruct (read_sig_blob bytes ltac:(lia)) as [-> E4]. cbn [ok_or]. rewrite E4; cbn [ok_or].
    rewrite !bool_decide_true by done; cbn [andb require].
    unfold fixed. rewrite Hl'; cbn [Nat.eqb]. by rewrite Hs.
Qed.

Lemma check_did_iff c challenge did sg bytes :
  check_did_key_ed25519 c challenge did sg = Ok bytes ↔
  ∃ point, did_spiffe_path did = c_path c ∧ ed25519_point did = Some point
    ∧ point_valid point = true ∧ sg = sig_blob bytes ∧ length bytes = 64%nat
    ∧ verify_strict point challenge bytes = true.
Proof.
  unfold check_did_key_ed25519. split.
  - destruct (String.eqb_spec (did_spiffe_path did) (c_path c)) as [Hp|]; cbn [require]; [|done].
    destruct (ed25519_point did) as [point|] eqn:Hd; cbn [ok_or]; [|done].
    destruct (point_valid point) eqn:Hv; cbn [require]; [|done].
    destruct (read_string sg) as [[alg' s]|] eqn:E3; cbn [ok_or]; [|done].
    destruct (read_string s) as [[sb s']|] eqn:E4; cbn [ok_or]; [|done].
    case_bool_decide as Ha'; cbn [andb require]; [|done].
    case_bool_decide as Hr'; cbn [andb require]; [|done].
    destruct (fixed 64 sb) as [b|] eqn:Hf'; [|done]. apply fixed_Ok in Hf' as [-> Hl'].
    destruct (verify_strict point challenge sb) eqn:Hs; cbn [require]; [|done].
    intros [= <-]. exists point. split_and!; try done. by eapply read_pair.
  - intros (point & Hp & Hd & Hv & -> & Hl' & Hs).
    rewrite Hp, String.eqb_refl, Hd; cbn [require ok_or]. rewrite Hv; cbn [require].
    destruct (read_sig_blob bytes ltac:(lia)) as [-> E4]. cbn [ok_or]. rewrite E4; cbn [ok_or].
    rewrite !bool_decide_true by done; cbn [andb require].
    unfold fixed. rewrite Hl'; cbn [Nat.eqb]. by rewrite Hs.
Qed.

(** ** Properties *)

(** C7: ssh possession evidence exists exactly for a real signature: the
    constructor succeeds if and only if the key blob hashes to the path the
    candidate names, is an [ssh-ed25519] blob of one valid 32-byte point
    with nothing after it, and the signature blob is that algorithm and 64
    bytes that verify strictly, under that point, over this challenge.  What
    it stores is that challenge, those bytes and the clock at that moment,
    so the evidence binds to this request. *)
Theorem verify_ssh_exact c challenge blob sg w s :
  (verify_ssh_ed25519 c challenge blob sg w).1 = Ok s ↔
  ∃ point bytes, ssh_spiffe_path blob = c_path c
    ∧ blob = push_string (push_string [] SSH_ED25519) point ∧ length point = 32%nat
    ∧ point_valid point = true ∧ sg = sig_blob bytes ∧ length bytes = 64%nat
    ∧ verify_strict point challenge bytes = true
    ∧ s = mkSignature (mkAssertion bytes "application/vnd.hire.ssh-ed25519-signature")
            challenge (now w).1
    ∧ binds_to c challenge (Possession s) = true.
Proof.
  unfold verify_ssh_ed25519, bind, ret.
  destruct (check_ssh_ed25519 c challenge blob sg) as [b|] eqn:E.
  - apply check_ssh_iff in E as (pt & Hp & [Hb Hl]%ed25519_point_of_Some & Hv & Hs & Hl' & Hver).
    destruct (now w) as [t w1]; cbn [fst]. split.
    + intros [= <-]. exists pt, b. split_and!; try done. by apply bool_decide_eq_true.
    + intros (pt' & b' & _ & Hb' & _ & _ & Hs' & _ & _ & -> & _).
      rewrite Hs in Hs'. by apply push_string_inj in Hs' as ->.
  - split; [done|]. intros (pt & b & Hp & Hb & Hl & Hv & Hs & Hl' & Hver & _).
    assert (check_ssh_ed25519 c challenge blob sg = Ok b) as E'; [|congruence].
    apply check_ssh_iff. exists pt. split_and!; try done. by apply ed25519_point_of_Some.
Qed.

(** [did:key] possession evidence exists exactly for a signature by the
    key the identifier itself encodes: there is no key parameter to
    substitute, the DID must hash to the path the candidate names, and a
    signature over another challenge or by another key never yields it. *)
Theorem verify_did_key_exact c challenge did sg w s :
  (verify_did_key_ed25519 c challenge did sg w).1 = Ok s ↔
  ∃ point bytes, did_spiffe_path did = c_path c ∧ ed25519_point did = Some point
    ∧ point_valid point = true ∧ sg = sig_blob bytes ∧ length bytes = 64%nat
    ∧ verify_strict point challenge bytes = true
    ∧ s = mkSignature (mkAssertion bytes "application/vnd.hire.did-key-ed25519-signature")
            challenge (now w).1
    ∧ binds_to c challenge (Possession s) = true.
Proof.
  unfold verify_did_key_ed25519, bind, ret.
  destruct (check_did_key_ed25519 c challenge did sg) as [b|] eqn:E.
  - apply check_did_iff in E as (pt & Hp & Hd & Hv & Hs & Hl' & Hver).
    destruct (now w) as [t w1]; cbn [fst]. split.
    + intros [= <-]. exists pt, b. split_and!; try done. by apply bool_decide_eq_true.
    + intros (pt' & b' & _ & _ & _ & Hs' & _ & _ & -> & _).
      rewrite Hs in Hs'. by apply push_string_inj in Hs' as ->.
  - split; [done|]. intros (pt & b & Hp & Hd & Hv & Hs & Hl' & Hver & _).
    assert (check_did_key_ed25519 c challenge did sg = Ok b) as E'; [|congruence].
    apply check_did_iff. by exists pt.
Qed.

Lemma verify_openpgp_challenge c challenge msg w w' s :
  verify_openpgp c challenge msg w = (Ok s, w') → cs_challenge s = challenge.
Proof.
  unfold verify_openpgp. intros H1.
  apply bind_ok_inv in H1 as (fp & w1 & _ & H1). unfold bind at 1 in H1.
  destruct (which_gpg w1) as [g w2]. apply bind_ok_inv in H1 as (gpg & w3 & _ & H1).
  apply bind_ok_inv in H1 as (out & w4 & _ & H1).
  do 2 (case_match; try done). all: try done.
  unfold bind, ret in H1. destruct (now w4) as [t w5]. by injection H1 as <- _.
Qed.

(** C10: OpenPGP evidence is only ever made when one of the three fixed gpg
    binaries, run on exactly the signed message, exits successfully, prints
    a [VALIDSIG] line whose signing or primary fingerprint is the one in the
    candidate's path, and writes back data equal to this challenge. *)
Theorem verify_openpgp_sound c challenge msg w w' s :
  verify_openpgp c challenge msg w = (Ok s, w') →
  ∃ fp gpg out w1 w2 args f,
    c_path c = "gpg/" +:+ fp ∧ gpg ∈ GPG_PATHS
    ∧ run_command gpg ["--batch"; "--no-tty"; "--status-fd"; "2"; "--decrypt"] (Some msg) w1
        = (Ok out, w2)
    ∧ o_success out = true ∧ o_stdout out = challenge
    ∧ ("[GNUPG:] VALIDSIG " +:+ args) ∈ lines (from_utf8_lossy (o_stderr out))
    ∧ (split_whitespace args !! 0%nat = Some f ∨ split_whitespace args !! 9%nat = Some f)
    ∧ to_ascii_lowercase f = to_ascii_lowercase fp
    ∧ sa_bytes (cs_assertion s) = msg ∧ binds_to c challenge (Possession s) = true.
Proof.
  unfold verify_openpgp. destruct (strip_prefix "gpg/" (c_path c)) as [fp|] eqn:Hp; [|done].
  apply strip_prefix_Some in Hp. cbn [ok_or]. unfold bind at 1, ret at 1. unfold bind at 1.
  destruct (which_gpg w) as [[gpg|] w1] eqn:Hg; [|done].
  apply first_existing_elem in Hg. cbn [ok_or]. unfold bind at 1, ret at 1.
  unfold gpg_run, bind, ret. cbn [app].
  destruct (run_command gpg _ (Some msg) w1) as [[out|e] w2] eqn:Hr; cbn [map_err]; [|done].
  destruct (o_success out) eqn:Ho; cbn [negb orb]; [|done].
  destruct (names_key _ fp) eqn:Hn; cbn [negb]; [|done].
  case_bool_decide as Hc; cbn [negb]; [|done].
  destruct (now w2) as [t w3]. intros [= <- <-].
  apply names_key_true in Hn as (args & f & Hl & Hf & Hfp).
  exists fp, gpg, out, w1, w2, args, f. split_and!; try done. by apply bool_decide_eq_true.
Qed.
End Verify.

(** A gpg that reports one valid signature and echoes the signed data. *)
Definition good_gpg_answer (args : list string) (stdin : option (list byte))
    : result Output RunFailure :=
  Ok (mkOutput true (default [] stdin)
        (as_bytes "[GNUPG:] VALIDSIG 00FF 2026-01-01 0 0 4 0 22 10 00 ABCD")).

Definition gpg_script : Script :=
  mkScript 100 [] ["/usr/bin/gpg"] [] [] [] good_gpg_answer 1000 [].

#[local] Existing Instance ascii_tables.

Lemma verify_openpgp_sound_witness :
  let c := make_candidate "ABCD" "alice" in
  let s := mkSignature (mkAssertion (as_bytes "nonce")
             "application/vnd.hire.openpgp-signed-message") (as_bytes "nonce") 100 in
  ∃ fp gpg out w1 w2 args f,
    c_path c = "gpg/" +:+ fp ∧ gpg ∈ GPG_PATHS
    ∧ run_command gpg ["--batch"; "--no-tty"; "--status-fd"; "2"; "--decrypt"]
        (Some (as_bytes "nonce")) w1 = (Ok out, w2)
    ∧ o_success out = true ∧ o_stdout out = as_bytes "nonce"
    ∧ ("[GNUPG:] VALIDSIG " +:+ args) ∈ lines (from_utf8_lossy (o_stderr out))
    ∧ (split_whitespace args !! 0%nat = Some f ∨ split_whitespace args !! 9%nat = Some f)
    ∧ to_ascii_lowercase f = to_ascii_lowercase fp
    ∧ sa_bytes (cs_assertion s) = as_bytes "nonce" ∧ binds_to c (as_bytes "nonce") (Possession s) = true.
Proof.
  apply (verify_openpgp_sound (M := script_machine) (make_candidate "ABCD" "alice")
    (as_bytes "nonce") (as_bytes "nonce") gpg_script
    (mkScript 101 [] ["/usr/bin/gpg"] [] []
      [["/usr/bin/gpg"; "--batch"; "--no-tty"; "--status-fd"; "2"; "--decrypt"]] good_gpg_answer 1000 [])).
  vm_compute. reflexivity.
Defined.
