(* ===== verification/Agent.v ===== *)
(** * The ssh-agent client and the two attestors it backs
    ([hire-attestors/src/ssh.rs], [hire-attestors/src/did_key.rs])

    The socket half: connecting, the framed round trip, the key list and the
    sign request, then discovery and proof of agent keys and of [did:key]
    identifiers. *)
From S2P Require Import Prelude RustStr RustNum External Assurance Json Jwt Toy Claim Machine SshWire DidKey GpgKeys Verify.

Section Agent.
Context `{M : Machine W} {B : Base64} {H : Sha2} {Ed : Ed25519}.

(** [SshAgentAttestor::is_available] *)
Definition ssh_is_available : ST W bool :=
  let* p := env_var "SSH_AUTH_SOCK" in
  match p with Some p => path_exists p | None => ret false end.

(** [connect] *)
Definition connect : ST W (result Stream AttestorError) :=
  let* p := env_var "SSH_AUTH_SOCK" in
  let*? sock_path := ret (ok_or p (Unavailable "SSH_AUTH_SOCK not set")) in
  let* s := stream_connect sock_path in
  ret (map_err (λ e, Unavailable ("cannot connect to SSH agent: " +:+ e)) s).

Definition io {A} (m : ST W (result A string)) : ST W (result A AttestorError) :=
  let* r := m in ret (map_err Io r).

(** [agent_roundtrip].  The length word is [(1 + payload.len()) as u32].
    The last case of the [match] is the [read_exact] that does not fill its
    buffer, which the law [read_exact_len] excludes. *)
Definition agent_roundtrip (stream : Stream) (msg_type : Z) (payload : list byte)
    : ST W (result (list byte) AttestorError) :=
  let*? _ := io (write_all stream (u32_to_be (1 + len payload))) in
  let*? _ := io (write_all stream [as_u8 msg_type]) in
  let*? _ := io (write_all stream payload) in
  let*? len_buf := io (read_exact stream 4) in
  match len_buf with
  | [b0; b1; b2; b3] =>
      let resp_len := u32_from_be b0 b1 b2 b3 in
      if (MAX_AGENT_REPLY <? resp_len)%Z then
        ret (Err (Unavailable "ssh-agent reply too large"))
      else io (read_exact stream resp_len)
  | _ => ret (Err (Io "short read"))
  end.

(** [list_identities] *)
Definition list_identities (stream : Stream)
    : ST W (result (list (list byte * string)) AttestorError) :=
  let*? resp := agent_roundtrip stream SSH2_AGENTC_REQUEST_IDENTITIES [] in
  ret (parse_identities resp).

(** [sign] *)
Definition agent_sign (stream : Stream) (key_blob challenge : list byte) (subject : string)
    : ST W (result (list byte) AttestorError) :=
  let*? resp := agent_roundtrip stream SSH2_AGENTC_SIGN_REQUEST
                  (sign_payload key_blob challenge) in
  ret (parse_sign_response subject resp).

(** [impl Attestor for SshAgentAttestor] *)
Definition ssh_candidate (k : list byte * string) : Candidate :=
  with_proof_cost Interactive (with_attainable AIaa1
    (candidate_new "ssh-agent" SaSshLocal (ssh_spiffe_path k.1) k.2)).

Definition ssh_enumerate : ST W (result (list Candidate) AttestorError) :=
  let*? stream := connect in
  let*? keys := list_identities stream in
  ret (Ok (ssh_candidate <$> keys)).

Definition ssh_prove (c : Candidate) (challenge : list byte)
    : ST W (result (list Evidence) AttestorError) :=
  let*? stream := connect in
  let*? keys := list_identities stream in
  let*? key_blob := ret (ok_or
    (find_first (λ blob, String.eqb (ssh_spiffe_path blob) (c_path c)) keys.*1)
    (ChallengeFailed ("ssh-agent no longer holds " +:+ c_path c))) in
  let*? (algorithm, _) := ret (ok_or (read_string key_blob)
    (ChallengeFailed "malformed key blob from ssh-agent")) in
  if negb (bool_decide (algorithm = SSH_ED25519)) then
    ret (Err (ChallengeFailed ("ssh-agent key " +:+ c_path c +:+ " is "
      +:+ from_utf8_lossy algorithm +:+ "; hire proves ssh-ed25519 keys only")))
  else
    let*? signature := agent_sign stream key_blob challenge (c_path c) in
    let*? s := verify_ssh_ed25519 c challenge key_blob signature in
    ret (Ok [Possession s]).

(** [DidKeyAttestor::is_available] and [parse_did_keys] *)
Definition did_is_available : ST W bool :=
  let* v := env_var "HIRE_DID_KEYS" in
  ret (match v with
       | Some v => existsb (starts_with "did:key:") (split_whitespace v)
       | None => false
       end).

Definition parse_did_keys : ST W (list string) :=
  let* raw := env_var "HIRE_DID_KEYS" in ret (parse_did_keys_from (default "" raw)).

(** [impl Attestor for DidKeyAttestor] *)
Definition did_candidate (did : string) : Candidate :=
  with_proof_cost Interactive (with_attainable AIaa1
    (candidate_new "did:key" SaSshLocal (did_spiffe_path did) did)).

Definition did_enumerate : ST W (result (list Candidate) AttestorError) :=
  let* dids := parse_did_keys in ret (Ok (did_candidate <$> dids)).

Definition did_prove (c : Candidate) (challenge : list byte)
    : ST W (result (list Evidence) AttestorError) :=
  let* dids := parse_did_keys in
  let*? did := ret (ok_or
    (find_first (λ did, String.eqb (did_spiffe_path did) (c_path c)) dids)
    (ChallengeFailed ("HIRE_DID_KEYS no longer names " +:+ c_path c))) in
  let*? point := ret (ok_or (ed25519_point did)
    (ChallengeFailed (did +:+ " does not name an ed25519 key"))) in
  let*? stream := connect in
  let*? keys := list_identities stream in
  let*? key_blob := ret (ok_or
    (find_first (λ blob, bool_decide (ed25519_point_of blob = Some point)) keys.*1)
    (ChallengeFailed ("no local agent holds the key " +:+ did +:+ " names"))) in
  let*? signature := agent_sign stream key_blob challenge (c_path c) in
  let*? s := verify_did_key_ed25519 c challenge did signature in
  ret (Ok [Possession s]).

(** ** Lemmas *)
Lemma io_ok {A} (m : ST W (result A string)) w a w' :
  io m w = (Ok a, w') ↔ m w = (Ok a, w').
Proof.
  unfold io, bind, ret. destruct (m w) as [[x|e] w1]; cbn; [|done].
  split; intros [= <- <-]; done.
Qed.

Lemma agent_roundtrip_bound stream t payload w resp w' :
  read_exact_len M → agent_roundtrip stream t payload w = (Ok resp, w') →
  (len resp <= MAX_AGENT_REPLY)%Z.
Proof.
  intros Hl H1. unfold agent_roundtrip in H1.
  do 3 (apply bind_ok_inv in H1 as (? & ? & _ & H1)).
  apply bind_ok_inv in H1 as (lb & w4 & _ & H1).
  destruct lb as [|b0 [|b1 [|b2 [|b3 [|]]]]]; try done.
  destruct (Z.ltb_spec MAX_AGENT_REPLY (u32_from_be b0 b1 b2 b3)); [done|].
  apply io_ok, Hl in H1. lia.
Qed.

Lemma derive_possession c challenge s :
  cs_challenge s = challenge →
  derive c challenge [Possession s] =
    Some (mkClaim (c_source c) Iaa1 PresenceNone (candidate_spiffe_id c) (c_display_name c)
            (observed_at s)).
Proof. intros <-. unfold derive. cbn. by rewrite bool_decide_true. Qed.

Lemma verify_ssh_inv c challenge blob sg w s w' :
  verify_ssh_ed25519 c challenge blob sg w = (Ok s, w') →
  ∃ bytes, check_ssh_ed25519 c challenge blob sg = Ok bytes
    ∧ (s, w') = (mkSignature (mkAssertion bytes "application/vnd.hire.ssh-ed25519-signature")
                   challenge (now w).1, (now w).2).
Proof.
  unfold verify_ssh_ed25519, bind, ret.
  destruct (check_ssh_ed25519 c challenge blob sg) as [b|] eqn:E; [|done].
  destruct (now w) as [t w1]. cbn [fst snd]. intros [= <- <-]. eauto.
Qed.

Lemma verify_did_inv c challenge did sg w s w' :
  verify_did_key_ed25519 c challenge did sg w = (Ok s, w') →
  ∃ bytes, check_did_key_ed25519 c challenge did sg = Ok bytes
    ∧ (s, w') = (mkSignature (mkAssertion bytes "application/vnd.hire.did-key-ed25519-signature")
                   challenge (now w).1, (now w).2).
Proof.
  unfold verify_did_key_ed25519, bind, ret.
  destruct (check_did_key_ed25519 c challenge did sg) as [b|] eqn:E; [|done].
  destruct (now w) as [t w1]. cbn [fst snd]. intros [= <- <-]. eauto.
Qed.

(** The one way through [ssh_prove] and [did_prove]. *)
Lemma ssh_prove_inv c challenge w ev w' :
  ssh_prove c challenge w = (Ok ev, w') →
  ∃ s, ev = [Possession s] ∧ cs_challenge s = challenge
    ∧ ∃ blob sg, check_ssh_ed25519 c challenge blob sg = Ok (sa_bytes (cs_assertion s)).
Proof.
  intros H1. unfold ssh_prove in H1.
  apply bind_ok_inv in H1 as (stream & w1 & _ & H1).
  apply bind_ok_inv in H1 as (keys & w2 & _ & H1).
  apply bind_ok_inv in H1 as (blob & w3 & [_ ->]%ok_or_inv & H1).
  apply bind_ok_inv in H1 as ([alg r] & w4 & [_ ->]%ok_or_inv & H1).
  destruct (negb _); [done|].
  apply bind_ok_inv in H1 as (sg & w5 & _ & H1).
  apply bind_ok_inv in H1 as (s & w6 & Hv & [= <- <-]).
  apply verify_ssh_inv in Hv as (bytes & Hc & [= -> ->]).
  eexists. split_and!; [done..|]. by exists blob, sg.
Qed.

Lemma did_prove_inv c challenge w ev w' :
  did_prove c challenge w = (Ok ev, w') →
  ∃ s, ev = [Possession s] ∧ cs_challenge s = challenge
    ∧ ∃ did sg, did ∈ parse_did_keys_from (default "" (env_var "HIRE_DID_KEYS" w).1)
        ∧ check_did_key_ed25519 c challenge did sg = Ok (sa_bytes (cs_assertion s)).
Proof.
  intros H1. unfold did_prove, parse_did_keys, bind at 1 2 in H1.
  destruct (env_var "HIRE_DID_KEYS" w) as [raw w0]. cbn [ret fst] in *.
  apply bind_ok_inv in H1 as (did & w1 & [Hd ->]%ok_or_inv & H1).
  apply bind_ok_inv in H1 as (point & w2 & _ & H1).
  apply bind_ok_inv in H1 as (stream & w3 & _ & H1).
  apply bind_ok_inv in H1 as (keys & w4 & _ & H1).
  apply bind_ok_inv in H1 as (blob & w5 & _ & H1).
  apply bind_ok_inv in H1 as (sg & w6 & _ & H1).
  apply bind_ok_inv in H1 as (s & w7 & Hv & [= <- <-]).
  apply verify_did_inv in Hv as (bytes & Hc & [= -> ->]).
  apply find_first_elem in Hd as [Hd _].
  eexists. split_and!; [done..|]. by exists did, sg.
Qed.

(** A successful ssh proof is one signature by the key the path carries. *)
Lemma ssh_prove_sound c challenge w ev w' :
  ssh_prove c challenge w = (Ok ev, w') →
  ∃ s point bytes, ev = [Possession s] ∧ cs_challenge s = challenge
    ∧ sa_bytes (cs_assertion s) = bytes ∧ length bytes = 64%nat ∧ point_valid point = true
    ∧ c_path c = ssh_spiffe_path (push_string (push_string [] SSH_ED25519) point)
    ∧ verify_strict point challenge bytes = true
    ∧ derive c challenge ev = Some (mkClaim (c_source c) Iaa1 PresenceNone
        (candidate_spiffe_id c) (c_display_name c) (observed_at s)).
Proof.
  intros (s & -> & Hs & blob & sg & Hc)%ssh_prove_inv.
  apply check_ssh_iff in Hc as (point & Hp & [-> _]%ed25519_point_of_Some & Hv & _ & Hl & Hver).
  exists s, point, (sa_bytes (cs_assertion s)). split_and!; try done. by apply derive_possession.
Qed.

(** A successful [did:key] proof verifies under the point a configured DID
    encodes, and an identifier that encodes none is not asked about. *)
Lemma did_prove_sound c challenge w :
  let dids := parse_did_keys_from (default "" (env_var "HIRE_DID_KEYS" w).1) in
  (∀ ev w', did_prove c challenge w = (Ok ev, w') →
     ∃ did s point bytes, did ∈ dids ∧ did_spiffe_path did = c_path c
       ∧ ed25519_point did = Some point ∧ ev = [Possession s]
       ∧ cs_challenge s = challenge ∧ sa_bytes (cs_assertion s) = bytes
       ∧ verify_strict point challenge bytes = true
       ∧ derive c challenge ev = Some (mkClaim (c_source c) Iaa1 PresenceNone
           (candidate_spiffe_id c) (c_display_name c) (observed_at s)))
  ∧ (∀ did, find_first (λ d, String.eqb (did_spiffe_path d) (c_path c)) dids = Some did →
       ed25519_point did = None →
       did_prove c challenge w =
         (Err (ChallengeFailed (did +:+ " does not name an ed25519 key")),
          (env_var "HIRE_DID_KEYS" w).2)).
Proof.
  intros dids. split.
  - intros ev w' (s & -> & Hs & did & sg & Hd & Hc)%did_prove_inv.
    apply check_did_iff in Hc as (pt & Hpath & Hpt & _ & _ & _ & Hver).
    exists did, s, pt, (sa_bytes (cs_assertion s)). split_and!; try done. by apply derive_possession.
  - intros did Hd Hp. unfold did_prove, parse_did_keys, bind at 1 2.
    destruct (env_var "HIRE_DID_KEYS" w) as [raw w0] eqn:He. cbn [ret fst snd] in *.
    fold dids. rewrite Hd. cbn [ok_or]. rewrite (bind_ok _ _ _ did w0) by done.
    rewrite Hp. done.
Qed.
(** ** Properties *)

(** The agent is asked to sign only with an ed25519 key the candidate
    names.  When no listed key has the candidate's fingerprint, or the first
    that has it is of another type, proving fails with the world as the
    listing left it: no sign request is written, so a confirm-flagged key
    raises no dialog for a proof that would be discarded.  Otherwise a valid
    answer to one sign request does produce the evidence. *)
Theorem ssh_prove_asks_only_usable_keys c challenge w stream w1 keys w2 :
  connect w = (Ok stream, w1) → list_identities stream w1 = (Ok keys, w2) →
  let named := find_first (λ b, String.eqb (ssh_spiffe_path b) (c_path c)) keys.*1 in
  (∀ r, named = None ∨ (∃ blob, named = Some blob
          ∧ ∀ alg rest, read_string blob = Some (alg, rest) → alg ≠ SSH_ED25519) →
        ssh_prove c challenge w = r → ∃ e, r = (Err (ChallengeFailed e), w2))
  ∧ (∀ blob point bytes w3, named = Some blob → ed25519_point_of blob = Some point →
       point_valid point = true → length bytes = 64%nat →
       verify_strict point challenge bytes = true →
       agent_roundtrip stream SSH2_AGENTC_SIGN_REQUEST (sign_payload blob challenge) w2
         = (Ok (as_u8 SSH2_AGENT_SIGN_RESPONSE :: push_string [] (sig_blob bytes)), w3) →
       ssh_prove c challenge w =
         (Ok [Possession (mkSignature
            (mkAssertion bytes "application/vnd.hire.ssh-ed25519-signature")
            challenge (now w3).1)], (now w3).2)).
Proof.
  intros Hc Hk named. split.
  - intros r Hn <-. unfold ssh_prove.
    rewrite (bind_ok _ _ _ _ _ Hc), (bind_ok _ _ _ _ _ Hk). fold named.
    destruct Hn as [->|(blob & -> & Ha)]; [by eexists|].
    cbn [ok_or]. rewrite (bind_ok _ _ _ blob w2) by done.
    destruct (read_string blob) as [[alg rest]|] eqn:E; [|by eexists].
    cbn [ok_or]. rewrite (bind_ok _ _ _ (alg, rest) w2) by done.
    rewrite bool_decide_false by (by eapply Ha). by eexists.
  - intros blob point bytes w3 Hn Hp Hv Hl Hs Hr. unfold ssh_prove.
    rewrite (bind_ok _ _ _ _ _ Hc), (bind_ok _ _ _ _ _ Hk). fold named. rewrite Hn.
    rewrite (bind_ok _ _ _ blob w2) by done.
    pose proof Hp as [Hb Hpl]%ed25519_point_of_Some.
    assert (read_string blob = Some (SSH_ED25519, push_string [] point)) as Hrs.
    { rewrite Hb. apply read_sig_blob. lia. }
    rewrite Hrs. rewrite (bind_ok _ _ _ (SSH_ED25519, push_string [] point) w2) by done.
    rewrite bool_decide_true by done. cbn [negb].
    rewrite (bind_ok _ _ _ (sig_blob bytes) w3).
    2: { unfold agent_sign. rewrite (bind_ok _ _ _ _ _ Hr). unfold ret. f_equal.
         apply parse_sign_response_Ok. split; [done|]. unfold sig_blob.
         rewrite !push_string_length, Hl. vm_compute. done. }
    assert (check_ssh_ed25519 c challenge blob (sig_blob bytes) = Ok bytes) as Hck.
    { apply check_ssh_iff. exists point. split_and!; try done.
      apply find_first_elem in Hn as [_ Hn]. by apply String.eqb_eq in Hn. }
    unfold verify_ssh_ed25519. rewrite Hck. unfold bind, ret.
    by destruct (now w3) as [t w4].
Qed.

(** C11: an agent proof is worth what it says and no more.  If proving an
    ssh candidate succeeds, the evidence is one signature, by the ed25519 key
    whose fingerprint the candidate's path carries, valid over this very
    challenge.  A [did:key] proof is by the key the configured identifier
    encodes, whatever key the agent chose to sign with: some DID of
    [HIRE_DID_KEYS] hashes to the candidate's path and the evidence verifies
    under that DID's own point.  The claim derived from either is [Iaa1] with
    no presence, under [ssh.local] when the candidate is one the attestor
    enumerated.  An identifier that encodes no ed25519 key fails before the
    agent is contacted. *)
Theorem agent_proofs_sound c challenge w :
  let dids := parse_did_keys_from (default "" (env_var "HIRE_DID_KEYS" w).1) in
  (∀ ev w', ssh_prove c challenge w = (Ok ev, w') →
     ∃ s point bytes, ev = [Possession s] ∧ cs_challenge s = challenge
       ∧ sa_bytes (cs_assertion s) = bytes ∧ length bytes = 64%nat ∧ point_valid point = true
       ∧ c_path c = ssh_spiffe_path (push_string (push_string [] SSH_ED25519) point)
       ∧ verify_strict point challenge bytes = true
       ∧ derive c challenge ev = Some (mkClaim (c_source c) Iaa1 PresenceNone
           (candidate_spiffe_id c) (c_display_name c) (observed_at s)))
  ∧ (∀ ev w', did_prove c challenge w = (Ok ev, w') →
       ∃ did s point bytes, did ∈ dids ∧ did_spiffe_path did = c_path c
         ∧ ed25519_point did = Some point ∧ ev = [Possession s]
         ∧ cs_challenge s = challenge ∧ sa_bytes (cs_assertion s) = bytes
         ∧ verify_strict point challenge bytes = true
         ∧ derive c challenge ev = Some (mkClaim (c_source c) Iaa1 PresenceNone
             (candidate_spiffe_id c) (c_display_name c) (observed_at s)))
  ∧ (∀ did, find_first (λ d, String.eqb (did_spiffe_path d) (c_path c)) dids = Some did →
       ed25519_point did = None →
       did_prove c challenge w =
         (Err (ChallengeFailed (did +:+ " does not name an ed25519 key")),
          (env_var "HIRE_DID_KEYS" w).2)).
Proof.
  intros dids. split; [intros ev w'; apply ssh_prove_sound|apply did_prove_sound].
Qed.
End Agent.

(** ** A scripted agent holding one ed25519 key *)
Definition demo_point : list byte := replicate 32 "042"%char.
Definition demo_blob : list byte := push_string (push_string [] SSH_ED25519) demo_point.
Definition demo_challenge : list byte := as_bytes "nonce-1".
Definition demo_signature : list byte := toy_sign demo_point demo_challenge.
Definition frame (body : list byte) : list byte := u32_to_be (len body) ++ body.
Definition demo_agent : Script :=
  mkScript 1000 [("SSH_AUTH_SOCK", "/run/agent")] ["/run/agent"]
    (frame (as_u8 12 :: u32_to_be 1 ++ key_entry (demo_blob, as_bytes "laptop"))
     ++ frame (as_u8 14 :: push_string [] (sig_blob demo_signature)))
    [] [] (λ _ _, Err StdinNotPiped) 1000 [].
Definition demo_ssh : Candidate := ssh_candidate (B := toy_base64) (H := toy_sha2) (demo_blob, "laptop").

Abbreviation demo_run :=
  (ssh_prove (M := script_machine) (B := toy_base64) (H := toy_sha2) (Ed := toy_ed25519)
    demo_ssh demo_challenge demo_agent).
Definition demo_evidence : list Evidence :=
  match demo_run.1 with Ok ev => ev | Err _ => [] end.

Lemma agent_proofs_sound_witness :
  demo_run = (Ok demo_evidence, demo_run.2) ∧
  ∃ s point bytes, demo_evidence = [Possession s] ∧ cs_challenge s = demo_challenge
    ∧ sa_bytes (cs_assertion s) = bytes ∧ length bytes = 64%nat
    ∧ point_valid (Ed25519 := toy_ed25519) point = true
    ∧ c_path demo_ssh = ssh_spiffe_path (B := toy_base64) (H := toy_sha2)
        (push_string (push_string [] SSH_ED25519) point)
    ∧ verify_strict (Ed25519 := toy_ed25519) point demo_challenge bytes = true
    ∧ derive demo_ssh demo_challenge demo_evidence =
        Some (mkClaim (c_source demo_ssh) Iaa1 PresenceNone
          (candidate_spiffe_id demo_ssh) (c_display_name demo_ssh) (observed_at s)).
Proof.
  assert (demo_run = (Ok demo_evidence, demo_run.2)) as E by (vm_compute; reflexivity).
  split; [exact E|].
  exact (proj1 (agent_proofs_sound (M := script_machine) (B := toy_base64) (H := toy_sha2)
    (Ed := toy_ed25519) demo_ssh demo_challenge demo_agent) demo_evidence demo_run.2 E).
Defined.

(** The world once the agent has listed its keys, and once it has answered. *)
Definition demo_listed : Script :=
  (list_identities (M := script_machine) () demo_agent).2.
Definition demo_signed : Script :=
  (agent_roundtrip (M := script_machine) () 13 (sign_payload demo_blob demo_challenge) demo_listed).2.

Lemma ssh_prove_asks_only_usable_keys_witness :
  let c := demo_ssh in
  demo_run = (Ok [Possession (mkSignature
    (mkAssertion demo_signature "application/vnd.hire.ssh-ed25519-signature")
    demo_challenge (now demo_signed).1)], (now demo_signed).2).
Proof.
  assert (connect (M := script_machine) demo_agent = (Ok tt, demo_agent)) as Hc
    by (vm_compute; reflexivity).
  assert (list_identities (M := script_machine) tt demo_agent =
    (Ok [(demo_blob, "laptop")], demo_listed)) as Hl by (vm_compute; reflexivity).
  destruct (ssh_prove_asks_only_usable_keys (M := script_machine) (B := toy_base64)
    (H := toy_sha2) (Ed := toy_ed25519) demo_ssh demo_challenge demo_agent tt demo_agent
    [(demo_blob, "laptop")] demo_listed Hc Hl) as [_ Hok].
  apply (Hok demo_blob demo_point demo_signature demo_signed);
    vm_compute; reflexivity.
Defined.

(** What went over the wire: one identities request, one sign request. *)
Example demo_wire :
  sc_written demo_run.2 = frame [as_u8 11] ++ frame (as_u8 13 :: sign_payload demo_blob demo_challenge).
Proof. vm_compute. reflexivity. Qed.
