(* ===== verification/Tailscale.v ===== *)
(** * The Tailscale attestor ([hire-attestors/src/tailscale.rs])

    One HTTP request over the LocalAPI socket, the chunked-body decoder, the
    identity the status names, and discovery and proof. *)
From S2P Require Import Prelude RustStr RustNum Assurance SpiffeId Json Claim Machine.
Local Open Scope Z_scope.

Definition CR : ascii := "013"%char.
Definition LF : ascii := "010"%char.
Definition crlf : string := String CR (String LF EmptyString).
Definition CRLF : list byte := [CR; LF].

(** [windows(pat.len()).position(|w| w == pat)] *)
Fixpoint starts_with_bytes (pat l : list byte) : bool :=
  match pat, l with
  | [], _ => true
  | p :: pat, b :: l => Ascii.eqb p b && starts_with_bytes pat l
  | _ :: _, [] => false
  end.
Fixpoint find_bytes (pat l : list byte) : option nat :=
  if starts_with_bytes pat l then Some O
  else match l with [] => None | _ :: l => let! n := find_bytes pat l in Some (S n) end.

(** [header_says_chunked] *)
Definition header_says_chunked (headers : list byte) : bool :=
  existsb (λ l, starts_with "transfer-encoding:" (to_ascii_lowercase l)
                && contains "chunked" (to_ascii_lowercase l))
    (lines (from_utf8_lossy headers)).

(** The length a chunk header announces: the part before any [;], trimmed, in
    hexadecimal. *)
Definition chunk_hex (line : list byte) : string :=
  trim (default "" (head (split_char ";" (from_utf8_lossy line)))).
Definition chunk_len (line : list byte) : option Z := from_str_radix 16 USIZE_MAX (chunk_hex line).

Section Dechunk.
Context {U : Unicode}.

(** [dechunk].  Every turn but the last consumes at least the two bytes of a
    line end, so [length body] turns are enough; [None] is fuel running out. *)
Fixpoint dechunk_loop (fuel : nat) (out body : list byte)
    : option (result (list byte) AttestorError) :=
  match fuel with
  | O => None
  | S fuel =>
      match find_bytes CRLF body with
      | None => Some (Err (Unavailable "chunked body: no chunk header"))
      | Some eol =>
          let line := take eol body in
          match chunk_len line with
          | None => Some (Err (Unavailable ("chunked body: bad length " +:+ debug_str (chunk_hex line))))
          | Some n =>
              let body := drop (eol + 2) body in
              if n =? 0 then Some (Ok out)
              else if Z.of_nat (length body) <? n then
                Some (Err (Unavailable "chunked body: truncated chunk"))
              else
                let out := out ++ take (Z.to_nat n) body in
                let body := drop (Z.to_nat n) body in
                let body := if starts_with_bytes CRLF body then drop 2 body else body in
                dechunk_loop fuel out body
          end
      end
  end.

Definition dechunk (body : list byte) : result (list byte) AttestorError :=
  default (Err (Unavailable "unreachable")) (dechunk_loop (S (length body)) [] body).
End Dechunk.

(** [identity_of] *)
Definition identity_of (status : json) : result (string * string) AttestorError :=
  let self_node := json_index "Self" status in
  let? user_id := ok_or (as_u64 (json_index "UserID" self_node))
    (Unavailable "missing Self.UserID") in
  let user := json_index (show_u64 user_id) (json_index "User" status) in
  let? login_name := ok_or (as_str (json_index "LoginName" user))
    (Unavailable ("no User entry for " +:+ show_u64 user_id)) in
  let node_name :=
    match as_str (json_index "DNSName" self_node) with
    | Some d => trim_end_matches "." d
    | None => default "unknown" (as_str (json_index "HostName" self_node))
    end in
  let display := default login_name (as_str (json_index "DisplayName" user)) in
  Ok ("user/" +:+ login_name +:+ "/node/" +:+ node_name, display).

Section Tailscale.
Context `{M : Machine W} {J : SerdeJson} {U : Unicode}.

(** [TailscaleAttestor::socket_path]. *)
Definition TAILSCALED_SOCK : string := "/var/run/tailscale/tailscaled.sock".

Definition status_request : string :=
  "GET /localapi/v0/status HTTP/1.1" +:+ crlf +:+ "Host: local-tailscaled.sock" +:+ crlf
  +:+ "Connection: close" +:+ crlf +:+ crlf.

(** [fetch_status]'s reading of the response. *)
Definition read_response (response : list byte) : result json AttestorError :=
  let? i := ok_or (find_bytes (CRLF ++ CRLF) response) (Unavailable "no HTTP body") in
  let body_start := (i + 4)%nat in
  let? body := (if header_says_chunked (take body_start response)
                then dechunk (drop body_start response)
                else Ok (drop body_start response)) in
  map_err Unavailable (json_from_slice body).

Definition fetch_status (socket_path : string) : ST W (result json AttestorError) :=
  let* s := stream_connect socket_path in
  let*? stream := ret (map_err Unavailable s) in
  let* r := write_all stream (as_bytes status_request) in
  let*? _ := ret (map_err Io r) in
  let* r := read_to_end stream in
  let*? response := ret (map_err Io r) in
  ret (read_response response).

Definition tailscale_candidate (path display : string) : Candidate :=
  with_proof_cost Silent (with_attainable AIaa2
    (candidate_new "tailscale" SaTailscale path display)).

Definition tailscale_enumerate (socket_path : string)
    : ST W (result (list Candidate) AttestorError) :=
  let* available := path_exists socket_path in
  if negb available then ret (Ok [])
  else
    let*? status := fetch_status socket_path in
    let*? (path, display) := ret (identity_of status) in
    ret (Ok [tailscale_candidate path display]).

Definition tailscale_prove (socket_path : string) (c : Candidate) (challenge : list byte)
    : ST W (result (list Evidence) AttestorError) :=
  let*? status := fetch_status socket_path in
  let*? (path, _) := ret (identity_of status) in
  if negb (String.eqb path (c_path c)) then
    ret (Err (ChallengeFailed ("tailscaled no longer reports " +:+ c_path c)))
  else
    let* t := now in
    ret (Ok [DaemonAssertion (daemon_observe path t)]).
End Tailscale.

(** ** What a chunked body means

    Relations on the bytes alone, in which neither the decoder nor the
    functions it reads a header with occur. *)

(** A header line is what precedes the first line end. *)
Definition header_line (line body rest : list byte) : Prop :=
  body = line ++ CRLF ++ rest
  ∧ ∀ before after, body = before ++ CRLF ++ after → (length line ≤ length before)%nat.

(** What is left of a header line after its length. *)
Definition extension (ext : string) : Prop := ext = "" ∨ ∃ e, ext = String ";" e.

(** The line announces [n]: before any [;], and between runs of white space,
    a hexadecimal numeral worth [n], after at most one plus sign. *)
Definition announces (line : list byte) (n : Z) : Prop :=
  ∃ blank1 sign digits blank2 ext,
    from_utf8_lossy line = (blank1 +:+ (sign +:+ digits) +:+ blank2) +:+ ext
    ∧ Blank blank1 ∧ Blank blank2 ∧ has_char ";" (blank1 +:+ (sign +:+ digits) +:+ blank2) = false
    ∧ extension ext ∧ (sign = "" ∨ sign = "+") ∧ hex_numeral digits n ∧ n ≤ USIZE_MAX.

(** The bodies the code accepts: a header line, the bytes it announces, a
    line end if there is one, and so on up to a zero length, after which
    anything may follow. *)
Inductive Chunked : list byte → list byte → Prop :=
| chunked_last line body rest :
    header_line line body rest → announces line 0 → Chunked body []
| chunked_crlf line body data rest out :
    header_line line body (data ++ CRLF ++ rest) →
    announces line (Z.of_nat (length data)) → data ≠ [] →
    Chunked rest out → Chunked body (data ++ out)
| chunked_bare line body data rest out :
    header_line line body (data ++ rest) → (∀ r, rest ≠ CRLF ++ r) →
    announces line (Z.of_nat (length data)) → data ≠ [] →
    Chunked rest out → Chunked body (data ++ out).

(** The bodies the source's comment describes: hex length, optional
    [;extension], CRLF, data, CRLF, up to a zero length. *)
Definition plain_header (line : list byte) (n : Z) : Prop :=
  ∃ digits ext, line = as_bytes digits ++ ext ∧ hex_numeral digits n
    ∧ (ext = [] ∨ ∃ e, ext = ";"%char :: e).

Inductive WellChunked : list byte → list byte → Prop :=
| well_last line body rest :
    header_line line body rest → plain_header line 0 → WellChunked body []
| well_chunk line body data rest out :
    header_line line body (data ++ CRLF ++ rest) →
    plain_header line (Z.of_nat (length data)) → data ≠ [] →
    WellChunked rest out → WellChunked body (data ++ out).

(** ** Lemmas *)
Lemma starts_with_bytes_app p l : starts_with_bytes p (p ++ l) = true.
Proof. induction p as [|b p IH]; [done|]. cbn. by rewrite Ascii.eqb_refl. Qed.

Lemma starts_with_bytes_true p l : starts_with_bytes p l = true → l = p ++ drop (length p) l.
Proof.
  revert l; induction p as [|b p IH]; intros [|c l]; cbn; try done.
  intros [->%Ascii.eqb_eq H]%andb_true_iff. f_equal. by apply IH.
Qed.

Lemma find_bytes_Some pat l n :
  find_bytes pat l = Some n → l = take n l ++ pat ++ drop (n + length pat) l ∧ (n ≤ length l)%nat.
Proof.
  revert n; induction l as [|b l IH]; intros n; cbn [find_bytes];
    destruct (starts_with_bytes pat _) eqn:E; try done.
  - intros [= <-]. apply starts_with_bytes_true in E. cbn in *. split; [done|lia].
  - intros [= <-]. apply starts_with_bytes_true in E. cbn in *. split; [done|lia].
  - destruct (find_bytes pat l) as [k|]; [|done]. intros [= <-].
    destruct (IH k eq_refl) as [Hl Hk]. cbn. split; [by f_equal|lia].
Qed.

(** The position found is that of the first occurrence. *)
Lemma find_bytes_first pat l a b :
  l = a ++ pat ++ b → ∃ n, find_bytes pat l = Some n ∧ (n ≤ length a)%nat.
Proof.
  revert l; induction a as [|x a IH]; intros l ->; cbn [app].
  - exists O. split; [|cbn; lia].
    destruct (pat ++ b) eqn:E; cbn [find_bytes]; rewrite <-E, starts_with_bytes_app; done.
  - cbn [find_bytes]. destruct (starts_with_bytes pat _); [exists O; split; [done|lia]|].
    destruct (IH _ eq_refl) as (n & -> & Hn). exists (S n). split; [done|cbn; lia].
Qed.

Lemma header_line_iff line body rest :
  header_line line body rest ↔ body = line ++ CRLF ++ rest ∧ find_bytes CRLF body = Some (length line).
Proof.
  split; intros [Hb H]; (split; [exact Hb|]).
  - destruct (find_bytes_first _ _ _ _ Hb) as (n & Hn & Hle). rewrite Hn. f_equal.
    apply find_bytes_Some in Hn as [Hn Hl]. apply H in Hn. rewrite length_take in Hn. lia.
  - intros before after E. destruct (find_bytes_first _ _ _ _ E) as (n & Hn & Hle).
    rewrite H in Hn. injection Hn as <-. done.
Qed.

Lemma header_line_found body eol :
  find_bytes CRLF body = Some eol →
  header_line (take eol body) body (drop (eol + 2) body).
Proof.
  intros H. apply header_line_iff. destruct (find_bytes_Some _ _ _ H) as [Hb Hl]. split; [done|].
  rewrite H, length_take. f_equal. lia.
Qed.

(** The source's reading of a header line finds what it announces. *)
Lemma head_split_char c s a ext :
  s = a +:+ ext → has_char c a = false → (ext = "" ∨ ∃ e, ext = String c e) →
  head (split_char c s) = Some a.
Proof.
  intros -> Ha [->|[e ->]]; [rewrite str_app_nil_r, split_char_no by done|rewrite split_char_app by done]; done.
Qed.

Lemma split_char_head c s :
  ∃ a ext, head (split_char c s) = Some a ∧ s = a +:+ ext ∧ has_char c a = false
    ∧ (ext = "" ∨ ∃ e, ext = String c e).
Proof.
  destruct (split_once c s) as [[a e]|] eqn:H.
  - apply split_once_Some in H as [-> Ha]. exists a, (String c e).
    rewrite split_char_app by done. split_and!; [done..|by eauto].
  - apply split_once_None in H. exists s, "". rewrite split_char_no, str_app_nil_r by done. by auto.
Qed.

Lemma chunk_len_announces line n : chunk_len line = Some n ↔ announces line n.
Proof.
  unfold chunk_len, chunk_hex, announces. rewrite from_str_radix_hex by (vm_compute; done). split.
  - intros (sign & digits & E & Hs & Hd & Hn).
    destruct (split_char_head ";" (from_utf8_lossy line)) as (a & ext & Ha & El & Hc & He).
    rewrite Ha in E. change (trim a = sign +:+ digits) in E. destruct (trim_split a) as (b1 & b2 & H1 & H2 & Ea).
    exists b1, sign, digits, b2, ext. rewrite E in Ea. rewrite <-Ea. done.
  - intros (b1 & sign & digits & b2 & ext & El & H1 & H2 & Hc & He & Hs & Hd & Hn).
    exists sign, digits. split; [|done]. rewrite (head_split_char _ _ _ _ El Hc He).
    destruct Hd as [Hne Hv]. pose proof (hex_value_graphic _ _ _ Hv) as [Hg _].
    apply trim_graphic; [done..| |]; destruct Hs as [->| ->]; rewrite ?str_app_cons, ?str_app_nil; done.
Qed.

Lemma plain_header_announces line n : plain_header line n → n ≤ USIZE_MAX → announces line n.
Proof.
  intros (digits & ext & -> & Hd & He) Hn. pose proof (hex_value_graphic _ _ _ (proj2 Hd)) as [Hg Hc].
  exists "", "", digits, "", (from_utf8_lossy ext). rewrite !str_app_nil, str_app_nil_r.
  split_and!; [by apply from_utf8_lossy_ascii_app|by constructor..|done| |by left|done|done].
  destruct He as [->|[e ->]]; [by left|right]. exists (from_utf8_lossy e).
  exact (from_utf8_lossy_ascii_app ";" e eq_refl).
Qed.

Lemma announces_nonneg line n : announces line n → 0 ≤ n.
Proof. intros H%chunk_len_announces. unfold chunk_len in H. by apply from_str_radix_nonneg in H. Qed.

(** The bytes left after a chunk: its data and one line end, if any. *)
Definition skip_crlf (l : list byte) : list byte :=
  if starts_with_bytes CRLF l then drop 2 l else l.

Lemma skip_crlf_length l : (length (skip_crlf l) ≤ length l)%nat.
Proof. unfold skip_crlf. destruct (starts_with_bytes CRLF l); [rewrite length_drop|]; lia. Qed.

(** One turn of the decoder, by the header line it reads. *)
Section Decoding.
Context {U : Unicode}.

Lemma dechunk_turn fuel out body eol n :
  find_bytes CRLF body = Some eol → chunk_len (take eol body) = Some n →
  let rest := drop (eol + 2) body in
  dechunk_loop (S fuel) out body =
    if n =? 0 then Some (Ok out)
    else if Z.of_nat (length rest) <? n then
      Some (Err (Unavailable "chunked body: truncated chunk"))
    else dechunk_loop fuel (out ++ take (Z.to_nat n) rest) (skip_crlf (drop (Z.to_nat n) rest)).
Proof. intros Hf Hc. cbn [dechunk_loop]. by rewrite Hf, Hc. Qed.

Lemma dechunk_total fuel out body :
  (length body < fuel)%nat → ∃ r, dechunk_loop fuel out body = Some r.
Proof.
  revert out body; induction fuel as [|fuel IH]; intros out body Hf; [lia|].
  destruct (find_bytes CRLF body) as [eol|] eqn:He; [|cbn [dechunk_loop]; rewrite He; eauto].
  destruct (chunk_len (take eol body)) as [n|] eqn:Hc;
    [|cbn [dechunk_loop]; rewrite He, Hc; eauto].
  rewrite (dechunk_turn _ _ _ _ _ He Hc); cbv zeta.
  destruct (n =? 0); [eauto|]. destruct (_ <? n); [eauto|]. apply IH.
  apply find_bytes_Some in He as [Hb Hl]. pose proof (f_equal length Hb) as Hlen.
  rewrite !length_app, length_drop in Hlen. cbn in Hlen.
  pose proof (skip_crlf_length (drop (Z.to_nat n) (drop (eol + 2) body))).
  rewrite !length_drop in *. lia.
Qed.

Lemma dechunk_loop_sound fuel out body res :
  dechunk_loop fuel out body = Some (Ok res) → ∃ o, res = out ++ o ∧ Chunked body o.
Proof.
  revert out body; induction fuel as [|fuel IH]; intros out body; [done|].
  destruct (find_bytes CRLF body) as [eol|] eqn:He; [|cbn [dechunk_loop]; by rewrite He].
  destruct (chunk_len (take eol body)) as [n|] eqn:Hc;
    [|cbn [dechunk_loop]; by rewrite He, Hc].
  rewrite (dechunk_turn _ _ _ _ _ He Hc); cbv zeta.
  pose proof (header_line_found _ _ He) as Hh. set (rest := drop (eol + 2) body) in *.
  apply chunk_len_announces in Hc. pose proof (announces_nonneg _ _ Hc).
  destruct (Z.eqb_spec n 0) as [->|Hn].
  - intros [= <-]. exists []. rewrite app_nil_r. split; [done|]. by eapply chunked_last.
  - destruct (Z.ltb_spec (Z.of_nat (length rest)) n); [done|]. intros (o & -> & Ho)%IH.
    exists (take (Z.to_nat n) rest ++ o). rewrite app_assoc. split; [done|].
    assert (Hlen : Z.of_nat (length (take (Z.to_nat n) rest)) = n) by (rewrite length_take; lia).
    assert (take (Z.to_nat n) rest ≠ []) by (intros E; rewrite E in Hlen; cbn in Hlen; lia).
    unfold skip_crlf in Ho. destruct (starts_with_bytes CRLF (drop (Z.to_nat n) rest)) eqn:Es.
    + eapply (chunked_crlf (take eol body)); [|by rewrite Hlen|done|exact Ho].
      apply starts_with_bytes_true in Es. change (length CRLF) with 2%nat in Es.
      rewrite <-Es, take_drop. exact Hh.
    + eapply (chunked_bare (take eol body)); [|intros r E|by rewrite Hlen|done|exact Ho].
      * by rewrite take_drop.
      * by rewrite E, starts_with_bytes_app in Es.
Qed.

Lemma dechunk_loop_complete body o :
  Chunked body o → ∀ fuel out, (length body < fuel)%nat →
  dechunk_loop fuel out body = Some (Ok (out ++ o)).
Proof.
  induction 1 as [line body rest [Hb Hf]%header_line_iff Hc%chunk_len_announces
                 |line body data rest o [Hb Hf]%header_line_iff Hc%chunk_len_announces Hd _ IH
                 |line body data rest o [Hb Hf]%header_line_iff Hs Hc%chunk_len_announces Hd _ IH];
    intros fuel out Hfuel; (destruct fuel as [|fuel]; [lia|]);
    (assert (take (length line) body = line) as Ht by (subst body; apply take_app_length));
    (rewrite (dechunk_turn _ _ _ _ _ Hf ltac:(rewrite Ht; exact Hc)); cbv zeta).
  - change (0 =? 0) with true. cbv iota. by rewrite app_nil_r.
  - assert (drop (length line + 2) body = data ++ CRLF ++ rest) as ->
      by (rewrite Hb, <-drop_drop, drop_app_length; done).
    destruct (Z.eqb_spec (Z.of_nat (length data)) 0) as [E|_]; [by destruct data|].
    rewrite (proj2 (Z.ltb_ge _ _)) by (rewrite length_app; lia).
    rewrite Nat2Z.id, take_app_length, drop_app_length. unfold skip_crlf.
    rewrite starts_with_bytes_app. change (drop 2 (CRLF ++ rest)) with rest.
    rewrite IH, app_assoc; [done|]. subst body. rewrite !length_app in Hfuel.
    change (length CRLF) with 2%nat in Hfuel. lia.
  - assert (drop (length line + 2) body = data ++ rest) as ->
      by (rewrite Hb, <-drop_drop, drop_app_length; done).
    destruct (Z.eqb_spec (Z.of_nat (length data)) 0) as [E|_]; [by destruct data|].
    rewrite (proj2 (Z.ltb_ge _ _)) by (rewrite length_app; lia).
    rewrite Nat2Z.id, take_app_length, drop_app_length.
    assert (skip_crlf rest = rest) as ->.
    { unfold skip_crlf. destruct (starts_with_bytes CRLF rest) eqn:E; [|done].
      apply starts_with_bytes_true in E. by apply Hs in E. }
    rewrite IH, app_assoc; [done|]. subst body. rewrite !length_app in Hfuel.
    change (length CRLF) with 2%nat in Hfuel. lia.
Qed.

Lemma dechunk_loop_err fuel out body e :
  dechunk_loop fuel out body = Some (Err e) → ∃ why, e = Unavailable why.
Proof.
  revert out body; induction fuel as [|fuel IH]; intros out body; [done|]. cbn [dechunk_loop].
  destruct (find_bytes CRLF body); [|intros [= <-]; eauto].
  destruct (chunk_len _); [|intros [= <-]; eauto].
  destruct (_ =? 0); [done|]. destruct (_ <? _); [intros [= <-]; eauto|]. apply IH.
Qed.

Lemma dechunk_err body e : dechunk body = Err e → ∃ why, e = Unavailable why.
Proof.
  unfold dechunk. destruct (dechunk_loop _ _ _) as [r|] eqn:E; cbn; [|intros [= <-]; eauto].
  intros ->. by apply dechunk_loop_err in E.
Qed.

Lemma dechunk_fuel body : ∃ r, dechunk_loop (S (length body)) [] body = Some r.
Proof. apply dechunk_total. lia. Qed.

(** Every body the comment describes is one the code accepts, and so has one
    meaning. *)
Lemma well_chunked body out :
  Z.of_nat (length body) ≤ USIZE_MAX → WellChunked body out → Chunked body out.
Proof.
  intros Hl H. induction H as [line body rest Hh Hp|line body data rest out Hh Hp Hd _ IH].
  - eapply chunked_last; [exact Hh|]. by apply plain_header_announces.
  - assert (length body = length line + 2 + length data + 2 + length rest)%nat as E
      by (rewrite (proj1 Hh), !length_app; cbn; lia).
    eapply chunked_crlf; [exact Hh| |done|].
    + apply plain_header_announces; [done|lia].
    + apply IH. lia.
Qed.

(** The converse fails: data with no line end after it. *)
Definition bare_body : list byte :=
  as_bytes ("1" +:+ crlf +:+ "!0" +:+ crlf).

Lemma plain_header_one n : plain_header ["1"%char] n → n = 1.
Proof.
  intros ([|d digits] & ext & E & [Hne Hv] & _); [done|].
  change (as_bytes (String d digits)) with (d :: as_bytes digits) in E.
  injection E as <- E. destruct digits; [|done]. vm_compute in Hv. by injection Hv.
Qed.

Lemma bare_body_not_well out : ¬ WellChunked bare_body out.
Proof.
  intros H. inversion H as [line body rest Hh Hp|line body data rest o Hh Hp Hd Hr]; subst;
    apply header_line_iff in Hh as [Hb Hf]; injection Hf as Hf;
    destruct line as [|c []]; try done; injection Hb as <- Hb; apply plain_header_one in Hp; [done|].
  destruct data as [|x [|y data]]; [done|done|cbn in Hp; lia].
Qed.
End Decoding.

Section Lemmas.
Context `{M : Machine W} {J : SerdeJson} {U : Unicode}.

Lemma tailscale_prove_inv sock c challenge w ev w' :
  tailscale_prove sock c challenge w = (Ok ev, w') →
  ∃ status w1 display, fetch_status sock w = (Ok status, w1)
    ∧ identity_of status = Ok (c_path c, display)
    ∧ ev = [DaemonAssertion (mkDaemon (c_path c) (now w1).1)] ∧ w' = (now w1).2.
Proof.
  unfold tailscale_prove. intros H.
  apply bind_ok_inv in H as (status & w1 & Hf & H).
  apply bind_ok_inv in H as ([p d] & w2 & Hi & H).
  unfold ret in Hi. injection Hi as Hi <-.
  destruct (String.eqb_spec p (c_path c)) as [->|]; cbn [negb] in H; [|done].
  unfold bind in H. destruct (now w1) as [t w3] eqn:Hn. injection H as <- <-.
  exists status, w1, d. rewrite Hn. done.
Qed.
End Lemmas.

(** ** Properties *)

(** C26: the chunked-body decoder is exact and total: with as many turns as
    the body has bytes it always reaches an answer, and it returns [out]
    exactly when the body is a sequence of non-empty chunks whose announced
    hexadecimal lengths are their own and whose data concatenates to [out],
    ended by a zero-length chunk; every other body, with a truncated chunk, an
    unreadable length or no line end after a header, is an error.  Every body
    of the form the source's comment gives — hex length, optional extension,
    CRLF, data, CRLF — is decoded to its data.  The code accepts more than
    that form: the line end after the data may be missing, and the length may
    carry a plus sign or white space. *)
Theorem dechunk_exact `{U : Unicode} body :
  (∀ out, dechunk body = Ok out ↔ Chunked body out)
  ∧ ((∀ out, ¬ Chunked body out) → ∃ why, dechunk body = Err (Unavailable why))
  ∧ (Z.of_nat (length body) ≤ USIZE_MAX → ∀ out, WellChunked body out → dechunk body = Ok out)
  ∧ (dechunk bare_body = Ok (as_bytes "!") ∧ ∀ out, ¬ WellChunked bare_body out)
  ∧ (∃ r, dechunk_loop (S (length body)) [] body = Some r).
Proof.
  assert (∀ b out, dechunk b = Ok out ↔ Chunked b out) as Hiff.
  { intros b out. unfold dechunk. split.
    - destruct (dechunk_fuel b) as [r Hr]. rewrite Hr. cbn. intros ->.
      apply dechunk_loop_sound in Hr as (o & E & H). cbn in E. by subst.
    - intros H. by rewrite (dechunk_loop_complete _ _ H) by lia. }
  split_and!; [apply Hiff| | |done|apply bare_body_not_well|apply dechunk_fuel].
  - intros H. destruct (dechunk body) as [out|e] eqn:E; [by apply Hiff, H in E|].
    destruct (dechunk_err _ _ E) as [why ->]. by exists why.
  - intros Hl out H. by apply Hiff, well_chunked.
Qed.

Example dechunk_ex :
  dechunk (U := ascii_tables) (as_bytes ("5;ext=1" +:+ crlf +:+ "hello" +:+ crlf +:+ "1" +:+ crlf +:+ "!0" +:+ crlf))
  = Ok (as_bytes "hello!").
Proof. vm_compute. reflexivity. Qed.

(** A body as tailscaled sends it is of the form, and is decoded. *)
Definition sent_body : list byte :=
  as_bytes ("5;ext=1" +:+ crlf +:+ "hello" +:+ crlf +:+ "A" +:+ crlf +:+ "0123456789" +:+ crlf
            +:+ "0" +:+ crlf +:+ crlf).

Lemma dechunk_exact_witness :
  WellChunked sent_body (as_bytes "hello" ++ as_bytes "0123456789" ++ [])
  ∧ dechunk (U := ascii_tables) sent_body = Ok (as_bytes "hello0123456789").
Proof.
  assert (WellChunked sent_body (as_bytes "hello" ++ as_bytes "0123456789" ++ [])) as H.
  { eapply (well_chunk (as_bytes "5;ext=1")); [by apply header_line_iff| |done|].
    { exists "5", (as_bytes ";ext=1"). split_and!; [done..|by right; eexists]. }
    eapply (well_chunk (as_bytes "A")); [by apply header_line_iff| |done|].
    { exists "A", []. by split_and!; [..|left]. }
    eapply (well_last (as_bytes "0")); [by apply header_line_iff|].
    exists "0", []. by split_and!; [..|left]. }
  split; [exact H|].
  destruct (dechunk_exact (U := ascii_tables) sent_body) as (_ & _ & Hw & _).
  exact (Hw ltac:(vm_compute; discriminate) _ H).
Defined.

(** C27: Tailscale evidence is an answer given now.  Proving succeeds only
    when the daemon, asked again, names the same path the candidate carries —
    a node logged in as somebody else in between is refused — and the claim
    derived from it is [Iaa2] with no presence, dated by the clock after that
    answer, under whatever challenge.  Discovery yields at most one candidate,
    silent and under [tailscale]. *)
Theorem tailscale_proof_is_a_fresh_answer `{M : Machine W} {J : SerdeJson} {U : Unicode} sock c challenge w ev w' :
  tailscale_prove sock c challenge w = (Ok ev, w') →
  (∃ status w1 display, fetch_status sock w = (Ok status, w1)
     ∧ identity_of status = Ok (c_path c, display)
     ∧ derive c challenge ev = Some (mkClaim (c_source c) Iaa2 PresenceNone
         (candidate_spiffe_id c) (c_display_name c) (now w1).1))
  ∧ (∀ c' challenge', c_path c' ≠ c_path c → derive c' challenge' ev = None)
  ∧ (∀ w0 cs w0', tailscale_enumerate sock w0 = (Ok cs, w0') →
       cs = [] ∨ ∃ path display, cs = [tailscale_candidate path display]).
Proof.
  intros (status & w1 & d & Hf & Hi & -> & _)%tailscale_prove_inv. split_and!.
  - exists status, w1, d. split_and!; [done..|]. unfold derive; cbn. by rewrite String.eqb_refl.
  - intros c' ch' Hne. unfold derive; cbn. destruct (String.eqb_spec (c_path c) (c_path c')); [congruence|done].
  - intros w0 cs w0'. unfold tailscale_enumerate, bind at 1.
    destruct (path_exists sock w0) as [[] w2]; cbn [negb]; [|intros [= <- <-]; by left].
    intros H. apply bind_ok_inv in H as (st & w3 & _ & H).
    apply bind_ok_inv in H as ([p dd] & w4 & _ & H). injection H as <- <-. right. eauto.
Qed.

Definition demo_status : json :=
  JObj [("Self", JObj [("UserID", JNum (NPosInt 42)); ("DNSName", JStr "box.tail.net.")]);
        ("User", JObj [("42", JObj [("LoginName", JStr "alice@example.com");
                                    ("DisplayName", JStr "Alice")])])].
Definition status_serde : SerdeJson := λ _, Ok demo_status.
Definition demo_tailscaled : Script :=
  mkScript 77 [] [TAILSCALED_SOCK] (as_bytes ("HTTP/1.1 200 OK" +:+ crlf +:+ crlf +:+ "{}")) [] []
    (λ _ _, Err StdinNotPiped) 1000 [].
Definition demo_node : Candidate :=
  tailscale_candidate "user/alice@example.com/node/box.tail.net" "Alice".

#[local] Existing Instance ascii_tables.

Lemma tailscale_proof_is_a_fresh_answer_witness :
  let ev := [DaemonAssertion (mkDaemon (c_path demo_node) 77)] in
  (∃ status w1 display,
     fetch_status (J := status_serde) TAILSCALED_SOCK demo_tailscaled = (Ok status, w1)
     ∧ identity_of status = Ok (c_path demo_node, display)
     ∧ derive demo_node [] ev = Some (mkClaim "tailscale" Iaa2 PresenceNone
         (candidate_spiffe_id demo_node) "Alice" (now w1).1))
  ∧ (∀ c' challenge', c_path c' ≠ c_path demo_node → derive c' challenge' ev = None)
  ∧ (∀ w0 cs w0', tailscale_enumerate (J := status_serde) TAILSCALED_SOCK w0 = (Ok cs, w0') →
       cs = [] ∨ ∃ path display, cs = [tailscale_candidate path display]).
Proof.
  apply (tailscale_proof_is_a_fresh_answer (J := status_serde) TAILSCALED_SOCK demo_node []
    demo_tailscaled [DaemonAssertion (mkDaemon (c_path demo_node) 77)]
    (tailscale_prove (J := status_serde) TAILSCALED_SOCK demo_node [] demo_tailscaled).2).
  vm_compute. reflexivity.
Defined.
