(* ===== verification/Unix.v ===== *)
(** * The Unix account attestor ([hire-attestors/src/unix.rs])

    The passwd lookup with its growing buffer, discovery from what was read
    at construction, and proof by asking the kernel again. *)
From S2P Require Import Prelude RustStr RustNum Assurance SpiffeId Claim Machine.
Local Open Scope Z_scope.

Definition MAX_PASSWD_BUF : Z := Z.shiftl 1 20.

(** The Linux values of the [libc] constants. *)
Definition ERANGE : Z := 34.
Definition ENOENT : Z := 2.
Definition ESRCH : Z := 3.

Section Unix.
Context `{M : Machine W}.

(** [UnixAttestor] *)
Record UnixAttestor : Type := mkUnix { uid : Z; display_name : string }.

(** [spiffe_path] *)
Definition unix_spiffe_path (uid : Z) : string := "unix/" +:+ show_u64 uid.

(** The loop of [username_for]; [None] is fuel running out. *)
Fixpoint username_loop (fuel : nat) (uid cap : Z)
    : ST W (option (result (option string) AttestorError)) :=
  match fuel with
  | O => ret None
  | S fuel =>
      let* (rc, found) := getpwuid_r uid cap in
      if rc =? ERANGE then
        let cap := Z.min (cap * 2) USIZE_MAX in
        if MAX_PASSWD_BUF <? cap then
          ret (Some (Err (Unavailable "passwd entry larger than 1 MiB")))
        else username_loop fuel uid cap
      else if (rc =? ENOENT) || (rc =? ESRCH) then ret (Some (Ok None))
      else if negb (rc =? 0) then ret (Some (Err (Io (os_error rc))))
      else match found with
           | None => ret (Some (Ok None))
           | Some name => ret (Some (Ok (Some (from_utf8_lossy name))))
           end
  end.

(** The buffer at least doubles, from at least one byte to at most 1 MiB. *)
Definition PASSWD_FUEL : nat := 21.

(** [username_for] *)
Definition username_for (uid : Z) : ST W (option (result (option string) AttestorError)) :=
  let* suggested := sysconf_pwbuf in
  let cap := if 0 <? suggested then suggested else 1024 in
  username_loop PASSWD_FUEL uid cap.

(** [UnixAttestor::new] *)
Definition unix_new : ST W UnixAttestor :=
  let* uid := getuid in
  let* name := username_for uid in
  ret (mkUnix uid
    match name with
    | Some (Ok (Some name)) => name
    | _ => "uid " +:+ show_u64 uid
    end).

Definition unix_candidate (a : UnixAttestor) : Candidate :=
  with_proof_cost Silent (with_attainable AIaa1
    (candidate_new "unix" SaSshLocal (unix_spiffe_path (uid a)) (display_name a))).

(** [impl Attestor for UnixAttestor] *)
Definition unix_enumerate (a : UnixAttestor) : ST W (result (list Candidate) AttestorError) :=
  ret (Ok [unix_candidate a]).

Definition unix_prove (a : UnixAttestor) (c : Candidate) (challenge : list byte)
    : ST W (result (list Evidence) AttestorError) :=
  let* uid := getuid in
  if negb (String.eqb (c_path c) (unix_spiffe_path uid)) then
    ret (Err (ChallengeFailed "candidate does not name the current account"))
  else
    let* t := now in
    ret (Ok [PlatformAssertion (platform_observe (c_path c) t)]).

(** ** Lemmas *)

(** Whatever the buffer starts at, the loop answers before the fuel is out:
    [fuel] doublings of [cap] exceed the bound. *)
Lemma username_loop_total fuel uid cap w :
  0 < cap ≤ USIZE_MAX → (0 < fuel)%nat → MAX_PASSWD_BUF < cap * 2 ^ Z.of_nat fuel →
  ∃ r, (username_loop fuel uid cap w).1 = Some r.
Proof.
  revert cap w; induction fuel as [|fuel IH]; intros cap w Hc Hpos Hf; [lia|].
  cbn [username_loop]. unfold bind. destruct (getpwuid_r uid cap w) as [[rc found] w1].
  destruct (rc =? ERANGE).
  - destruct (Z.ltb_spec MAX_PASSWD_BUF (Z.min (cap * 2) USIZE_MAX)) as [|Hle]; [by eexists|].
    assert (USIZE_MAX = 18446744073709551615 ∧ MAX_PASSWD_BUF = 1048576) as [Hu Hm] by done.
    rewrite Nat2Z.inj_succ, Z.pow_succ_r in Hf by lia.
    apply IH; [lia| |replace (Z.min (cap * 2) USIZE_MAX) with (cap * 2) by lia; lia].
    destruct fuel; [|lia]. change (2 ^ Z.of_nat 0) with 1 in Hf. lia.
  - destruct ((rc =? ENOENT) || (rc =? ESRCH)); [by eexists|].
    destruct (negb (rc =? 0)); [by eexists|]. destruct found; by eexists.
Qed.

Lemma unix_prove_inv a c challenge w ev w' :
  unix_prove a c challenge w = (Ok ev, w') →
  c_path c = unix_spiffe_path (getuid w).1
  ∧ ev = [PlatformAssertion (mkPlatform (c_path c) (now (getuid w).2).1)].
Proof.
  unfold unix_prove, bind, ret. destruct (getuid w) as [u w1]; cbn [fst snd].
  destruct (String.eqb_spec (c_path c) (unix_spiffe_path u)) as [E|E]; cbn [negb]; [|done].
  destruct (now w1) as [t w2]. intros [= <- <-]. done.
Qed.

(** ** Properties *)

(** The passwd lookup always ends: whatever the C library suggests as
    a buffer size and whatever it keeps answering — [ERANGE] for ever
    included — at most 21 calls give a name, no name, or an error, and the
    account attestor is always constructed, for the uid the kernel named. *)
Lemma username_lookup_terminates uid w :
  (sysconf_pwbuf w).1 ≤ USIZE_MAX →
  (∃ r, (username_for uid w).1 = Some r)
  ∧ Unix.uid (unix_new w).1 = (getuid w).1.
Proof.
  intros Hs. split.
  - unfold username_for, bind. destruct (sysconf_pwbuf w) as [sug w1]; cbn [fst] in Hs.
    assert (USIZE_MAX = 18446744073709551615 ∧ MAX_PASSWD_BUF = 1048576
            ∧ 2 ^ Z.of_nat PASSWD_FUEL = 2097152) as (Hu & Hm & Hp) by done.
    destruct (Z.ltb_spec 0 sug);
      (apply username_loop_total; [lia|unfold PASSWD_FUEL; lia|lia]).
  - unfold unix_new, bind, ret. destruct (getuid w) as [u w1].
    by destruct (username_for u w1) as [n w2].
Qed.

(** A Unix proof is about the account the process runs under when it
    is asked: it succeeds exactly when the candidate's path is that uid's,
    never for another account's candidate however obtained, and the evidence
    supports no other candidate; what it earns is [Iaa1] with no presence. *)
Lemma unix_proof_names_current_account a c challenge w :
  0 ≤ (getuid w).1 ≤ U64_MAX →
  (∀ n, 0 ≤ n ≤ U64_MAX → c_path c = unix_spiffe_path n →
     (is_ok (unix_prove a c challenge w).1 = true ↔ n = (getuid w).1))
  ∧ (∀ ev w', unix_prove a c challenge w = (Ok ev, w') →
       derive c challenge ev = Some (mkClaim (c_source c) Iaa1 PresenceNone
         (candidate_spiffe_id c) (c_display_name c) (now (getuid w).2).1)
       ∧ ∀ c' challenge', c_path c' ≠ c_path c → derive c' challenge' ev = None).
Proof.
  intros Hu. split.
  - intros n Hn Hp. unfold unix_prove, bind, ret.
    destruct (getuid w) as [u w1]; cbn [fst snd] in *.
    destruct (String.eqb_spec (c_path c) (unix_spiffe_path u)) as [E|E]; cbn [negb].
    + destruct (now w1) as [t w2]. split; [|done]. intros _. rewrite Hp in E.
      apply str_app_inj_l in E. by apply show_u64_inj.
    + split; [done|]. intros ->. congruence.
  - intros ev w' [E ->]%unix_prove_inv. split.
    + unfold derive; cbn. by rewrite String.eqb_refl.
    + intros c' ch' Hne. unfold derive; cbn.
      destruct (String.eqb_spec (c_path c) (c_path c')); [congruence|done].
Qed.
(** C31: the account attestor always exists and speaks only for the account
    the process runs under.  The passwd lookup ends whatever the C library
    suggests as a buffer size and whatever it keeps answering — [ERANGE] for
    ever included: at most 21 calls give a name, no name or an error, and the
    attestor is constructed for the uid the kernel named.  Asked to prove, it
    succeeds exactly when the candidate's path is the uid it runs under now,
    never for another account's candidate however obtained; the evidence
    supports no other candidate and earns [Iaa1] with no presence. *)
Theorem unix_account_exact uid a c challenge w :
  (sysconf_pwbuf w).1 ≤ USIZE_MAX → 0 ≤ (getuid w).1 ≤ U64_MAX →
  (∃ r, (username_for uid w).1 = Some r)
  ∧ Unix.uid (unix_new w).1 = (getuid w).1
  ∧ (∀ n, 0 ≤ n ≤ U64_MAX → c_path c = unix_spiffe_path n →
     (is_ok (unix_prove a c challenge w).1 = true ↔ n = (getuid w).1))
  ∧ (∀ ev w', unix_prove a c challenge w = (Ok ev, w') →
       derive c challenge ev = Some (mkClaim (c_source c) Iaa1 PresenceNone
         (candidate_spiffe_id c) (c_display_name c) (now (getuid w).2).1)
       ∧ ∀ c' challenge', c_path c' ≠ c_path c → derive c' challenge' ev = None).
Proof.
  intros [H1 H2]%(username_lookup_terminates uid w)
    [H3 H4]%(unix_proof_names_current_account a c challenge w).
  split_and!; assumption.
Qed.
End Unix.

Definition demo_box : Script :=
  mkScript 50 [] [] [] [] [] (λ _ _, Err StdinNotPiped) 1000 [].

Example demo_name : (unix_new demo_box).1 = mkUnix 1000 "alice".
Proof. vm_compute. reflexivity. Qed.

Lemma unix_account_exact_witness :
  let a := mkUnix 1000 "alice" in
  uid (unix_new demo_box).1 = 1000
  ∧ (is_ok (unix_prove a (unix_candidate a) [] demo_box).1 = true ↔ 1000 = 1000)
  ∧ (∀ ev w', unix_prove a (unix_candidate a) [] demo_box = (Ok ev, w') →
       derive (unix_candidate a) [] ev = Some (mkClaim "unix" Iaa1 PresenceNone
         (candidate_spiffe_id (unix_candidate a)) "alice" (now (getuid demo_box).2).1)
       ∧ ∀ c' challenge', c_path c' ≠ c_path (unix_candidate a) → derive c' challenge' ev = None).
Proof.
  assert (H1 : (sysconf_pwbuf demo_box).1 ≤ USIZE_MAX) by (vm_compute; discriminate).
  assert (H2 : 0 ≤ (getuid demo_box).1 ≤ U64_MAX) by (vm_compute; split; discriminate).
  assert (H3 : 0 ≤ 1000 ≤ U64_MAX) by (vm_compute; split; discriminate).
  destruct (unix_account_exact 1000 (mkUnix 1000 "alice") (unix_candidate (mkUnix 1000 "alice")) []
    demo_box H1 H2) as (_ & Hu & Hn & He).
  split; [exact Hu|]. split; [exact (Hn 1000 H3 eq_refl)|exact He].
Defined.
