(* ===== verification/Oidc.v ===== *)
(** * The cached-token attestor ([hire-attestors/src/oidc.rs])

    Reading identity candidates out of local token caches, unverified, and
    the freshness check.  It proves nothing: it keeps the trait's default
    [prove]. *)
From S2P Require Import Prelude RustStr RustNum External Assurance SpiffeId Json Claim Machine Toy.

(** [Value::as_object] then [values()]. *)
Definition json_values (v : json) : option (list json) :=
  let! o := as_object v in Some o.*2.

Section Oidc.
Context `{M : Machine W} {B : Base64} {J : SerdeJson}.

(** [parse_jwt_payload] *)
Definition parse_jwt_payload (token : string) : option json :=
  match splitn 3 "." token with
  | [_; payload; _] =>
      let! decoded := b64url_decode payload in
      res_ok (json_from_slice decoded)
  | _ => None
  end.

(** [now_unix], of a clock reading. *)
Definition now_unix (t : SystemTime) : Z :=
  match duration_since t UNIX_EPOCH with Some d => as_secs d | None => 0 end.

Definition token_exp (raw_token : string) : option Z :=
  let! p := parse_jwt_payload raw_token in let! v := json_get "exp" p in as_u64 v.

(** [token_is_unexpired]: the clock is read only when there is an expiry. *)
Definition token_is_unexpired (raw_token : string) : ST W bool :=
  match token_exp raw_token with
  | Some exp => let* t := now in ret (now_unix t <? exp)%Z
  | None => ret false
  end.

(** [candidate_from_jwt] *)
Definition candidate_from_jwt (raw_token : string) : option Candidate :=
  let! payload := parse_jwt_payload raw_token in
  let! sub := json_get "sub" payload in
  let! sub := as_str sub in
  let named := match json_get "email" payload with
               | Some v => Some v
               | None => json_get "preferred_username" payload
               end in
  let display := default sub (let! v := named in as_str v) in
  Some (with_proof_cost Silent (with_attainable AIaa2
    (candidate_new "oidc-cached" SaSshLocal ("user/" +:+ sub +:+ "/via/oidc-cached") display))).

Definition pair_of_token (token : string) : option (Candidate * string) :=
  let! c := candidate_from_jwt token in Some (c, token).

(** [collect_azure_tokens]: what it pushes. *)
Definition collect_azure_tokens (v : json) : list (Candidate * string) :=
  let tokens key entries :=
    omap (λ entry, let! t := json_get key entry in let! t := as_str t in pair_of_token t) entries in
  match (let! t := json_get "IdToken" v in json_values t) with
  | Some entries => tokens "secret" entries
  | None => match as_array v with
            | Some arr => tokens "idToken" arr
            | None => []
            end
  end.

Definition read_json (path : string) : ST W (option json) :=
  let* text := read_to_string path in
  ret (let! t := text in res_ok (json_from_slice (as_bytes t))).

(** [scan_token_caches] *)
Definition scan_token_caches : ST W (list (Candidate * string)) :=
  let* home := env_var "HOME" in
  match home with
  | None => ret []
  | Some home =>
      let* adc := read_json (home +:+ "/.config/gcloud/application_default_credentials.json") in
      let gcloud :=
        match (let! v := adc in let! t := json_get "id_token" v in
               let! t := as_str t in pair_of_token t) with
        | Some p => [p]
        | None => []
        end in
      let* msal := read_json (home +:+ "/.azure/msal_token_cache.json") in
      let* legacy := read_json (home +:+ "/.azure/accessTokens.json") in
      let azure o := match o with Some v => collect_azure_tokens v | None => [] end in
      ret (gcloud ++ azure msal ++ azure legacy)
  end.

(** [scan_token_caches_off_reactor] *)
Definition scan_token_caches_off_reactor : ST W (result (list (Candidate * string)) AttestorError) :=
  let* r := spawn_blocking scan_token_caches in
  ret (map_err (λ e, Unavailable ("token cache scan failed: " +:+ e)) r).

(** [impl Attestor for OidcCachedAttestor] *)
Definition oidc_enumerate : ST W (result (list Candidate) AttestorError) :=
  let*? pairs := scan_token_caches_off_reactor in ret (Ok pairs.*1).

Definition oidc_freshness (c : Candidate) : ST W (result FreshnessResult AttestorError) :=
  let*? pairs := scan_token_caches_off_reactor in
  match find_first (λ p, String.eqb (c_path p.1) (c_path c)) pairs with
  | None => ret (Ok FUnavailable)
  | Some (_, raw) =>
      let* fresh := token_is_unexpired raw in
      ret (Ok (if fresh : bool then Fresh else Stale PresenceNone))
  end.

(** ** Lemmas *)

(** What every pair the scan returns satisfies. *)
Definition from_token (p : Candidate * string) : Prop := candidate_from_jwt p.2 = Some p.1.

Lemma pair_of_token_from t p : pair_of_token t = Some p → from_token p.
Proof.
  unfold pair_of_token, from_token.
  destruct (candidate_from_jwt t) eqn:E; [|done]. by intros [= <-].
Qed.

Lemma collect_azure_from v : Forall from_token (collect_azure_tokens v).
Proof.
  unfold collect_azure_tokens.
  assert (H : ∀ key l, Forall from_token (omap (λ entry, let! t := json_get key entry in
            let! t := as_str t in pair_of_token t) l)).
  { intros key l. apply Forall_forall. intros p (e & _ & He)%list_elem_of_omap.
    destruct (json_get key e) as [x|]; [|done]. destruct (as_str x) as [t|]; [|done].
    by apply pair_of_token_from in He. }
  destruct (match json_get "IdToken" v with Some x => json_values x | None => None end); [apply H|].
  destruct (as_array v); [apply H|constructor].
Qed.

Lemma scan_from w : Forall from_token (scan_token_caches w).1.
Proof.
  unfold scan_token_caches, bind, ret. destruct (env_var "HOME" w) as [[home|] w1]; [|constructor].
  destruct (read_json _ w1) as [adc w2]. destruct (read_json _ w2) as [msal w3].
  destruct (read_json _ w3) as [legacy w4]. cbn [fst].
  rewrite !Forall_app. split_and!.
  - destruct adc as [v|]; [|constructor]. destruct (json_get "id_token" v) as [x|]; [|constructor].
    destruct (as_str x) as [t|]; [|constructor]. destruct (pair_of_token t) eqn:E; [|constructor].
    constructor; [by apply pair_of_token_from in E|constructor].
  - destruct msal; [apply collect_azure_from|constructor].
  - destruct legacy; [apply collect_azure_from|constructor].
Qed.

(** The candidate a token stands for, by its [sub] and a display name. *)
Definition oidc_candidate (sub display : string) : Candidate :=
  mkCandidate "oidc-cached" SaSshLocal ("user/" +:+ sub +:+ "/via/oidc-cached") display AIaa2 Silent.

Lemma candidate_from_jwt_shape t c :
  candidate_from_jwt t = Some c →
  ∃ payload sub display, parse_jwt_payload t = Some payload ∧ get_str "sub" payload = Some sub
    ∧ c = oidc_candidate sub display.
Proof.
  unfold candidate_from_jwt, get_str.
  destruct (parse_jwt_payload t) as [payload|]; [|done].
  destruct (json_get "sub" payload) as [x|] eqn:Hx; [|done].
  destruct (as_str x) as [sub|] eqn:Hs; [|done]. intros [= <-].
  exists payload, sub. eexists. rewrite Hx. split_and!; done.
Qed.

(** ** Where the tokens are *)

Inductive azure_token (v : json) (t : string) : Prop :=
| msal_entry o k e :   (* [msal_token_cache.json] *)
    json_get "IdToken" v = Some (JObj o) → (k, e) ∈ o → get_str "secret" e = Some t →
    azure_token v t
| legacy_entry arr e : (* [accessTokens.json] *)
    v = JArr arr → e ∈ arr → get_str "idToken" e = Some t → azure_token v t.

(** A raw token of one of the three files, as they were read. *)
Inductive cached_token (adc msal legacy : option json) (t : string) : Prop :=
| in_gcloud v : adc = Some v → get_str "id_token" v = Some t → cached_token adc msal legacy t
| in_azure v : msal = Some v ∨ legacy = Some v → azure_token v t → cached_token adc msal legacy t.

Lemma elem_of_pair_of_token p t : pair_of_token t = Some p ↔ p.2 = t ∧ from_token p.
Proof.
  unfold pair_of_token, from_token. destruct p as [c t']; cbn.
  destruct (candidate_from_jwt t) as [c'|] eqn:E; naive_solver.
Qed.

Lemma elem_of_tokens key (l : list json) p :
  p ∈ omap (λ entry, let! t := json_get key entry in let! t := as_str t in pair_of_token t) l
  ↔ ∃ e, e ∈ l ∧ get_str key e = Some p.2 ∧ from_token p.
Proof.
  rewrite list_elem_of_omap. apply exist_proper; intros e. apply and_iff_compat_l.
  unfold get_str. destruct (json_get key e) as [x|]; [|naive_solver].
  destruct (as_str x) as [t|]; [|naive_solver].
  rewrite elem_of_pair_of_token. split; [by intros [<- ?]|by intros [[= <-] ?]].
Qed.

Lemma elem_of_collect_azure v p :
  p ∈ collect_azure_tokens v ↔ azure_token v p.2 ∧ from_token p.
Proof.
  unfold collect_azure_tokens.
  destruct (let! t := json_get "IdToken" v in json_values t) as [entries|] eqn:E.
  - destruct (json_get "IdToken" v) as [x|] eqn:Ex; [|done]. destruct x as [| | | | |o]; try done.
    injection E as <-. rewrite elem_of_tokens. split.
    + intros (e & [[k e'] [-> He]]%list_elem_of_fmap & Hg & Hf). split; [by eapply msal_entry|done].
    + intros [[o' k e He Hin Hg|arr e -> _ _] Hf]; [|done]. rewrite Ex in He. injection He as ->.
      exists e. split_and!; [|done..]. apply list_elem_of_fmap. by exists (k, e).
  - assert (Hno : ∀ o, json_get "IdToken" v ≠ Some (JObj o)).
    { intros o Ho. by rewrite Ho in E. }
    destruct v as [| | | |arr|]; cbn [as_array];
      [split; [by intros ?%not_elem_of_nil|]; intros [[o k e Ho|arr' e Hv] _]; [by destruct (Hno o)|done]..| |].
    + rewrite elem_of_tokens. split.
      * intros (e & He & Hg & Hf). split; [by eapply legacy_entry|done].
      * intros [[o k e Ho|arr' e [= <-] He Hg] Hf]; [by destruct (Hno o)|]. by exists e.
    + split; [by intros ?%not_elem_of_nil|].
      intros [[o k e Ho|arr' e Hv] _]; [by destruct (Hno o)|done].
Qed.

Lemma elem_of_gcloud adc p :
  p ∈ (match (let! v := adc in let! t := json_get "id_token" v in
              let! t := as_str t in pair_of_token t) with Some p => [p] | None => [] end)
  ↔ ∃ v, adc = Some v ∧ get_str "id_token" v = Some p.2 ∧ from_token p.
Proof.
  assert (Hn : ∀ P : json → Prop, (∀ v, adc = Some v → ¬ P v) →
    p ∈ ([] : list (Candidate * string)) ↔ ∃ v, adc = Some v ∧ P v).
  { intros P H. split; [by intros ?%not_elem_of_nil|]. intros (v & Hv & Hp). by destruct (H v). }
  destruct adc as [v|]; [|by apply Hn]. unfold get_str.
  destruct (json_get "id_token" v) as [x|] eqn:Ex;
    [|apply Hn; intros ? [= <-]; rewrite Ex; by intros [? _]].
  destruct (as_str x) as [t|] eqn:Es;
    [|apply Hn; intros ? [= <-]; rewrite Ex, Es; by intros [? _]].
  destruct (pair_of_token t) as [q|] eqn:Eq.
  - rewrite list_elem_of_singleton. apply elem_of_pair_of_token in Eq as Eq'. split.
    + intros ->. exists v. rewrite Ex, Es. destruct Eq' as [-> ?]. done.
    + intros (v' & [= <-] & H & Hp). rewrite Ex, Es in H. injection H as H.
      assert (pair_of_token t = Some p) as H' by (by apply elem_of_pair_of_token).
      congruence.
  - apply Hn. intros ? [= <-]. rewrite Ex, Es. intros [[= H] Hp].
    assert (pair_of_token t = Some p) by (by apply elem_of_pair_of_token). congruence.
Qed.

(** The scan on the blocking thread. *)
Lemma off_reactor_runs v v1 pairs v2 :
  join_error v = (None, v1) → scan_token_caches v1 = (pairs, v2) →
  scan_token_caches_off_reactor v = (Ok pairs, v2).
Proof.
  intros Hj Hs. unfold scan_token_caches_off_reactor, spawn_blocking, bind, ret. by rewrite Hj, Hs.
Qed.

Lemma off_reactor_Err v e :
  (scan_token_caches_off_reactor v).1 = Err e ↔
  ∃ lost, (join_error v).1 = Some lost ∧ e = Unavailable ("token cache scan failed: " +:+ lost).
Proof.
  unfold scan_token_caches_off_reactor, spawn_blocking, bind, ret.
  destruct (join_error v) as [[lost|] v1]; cbn [fst map_err].
  - split; [intros [= <-]; eauto|by intros (? & [= <-] & ->)].
  - destruct (scan_token_caches v1). cbn. naive_solver.
Qed.
Lemma oidc_enumerate_Err v e :
  (oidc_enumerate v).1 = Err e ↔ (scan_token_caches_off_reactor v).1 = Err e.
Proof.
  unfold oidc_enumerate, bind, ret. destruct (scan_token_caches_off_reactor v) as [[|e'] v1]; cbn; [done|].
  split; congruence.
Qed.
Lemma oidc_freshness_Err c v e :
  (oidc_freshness c v).1 = Err e ↔ (scan_token_caches_off_reactor v).1 = Err e.
Proof.
  unfold oidc_freshness, bind, ret. destruct (scan_token_caches_off_reactor v) as [[pairs|e'] v1]; cbn;
    [|split; congruence].
  destruct (find_first _ pairs) as [[c' raw]|]; [|done].
  by destruct (token_is_unexpired raw v1) as [[] ?].
Qed.

Section Cache.
Context (home : string) (w0 w w1 w2 w3 w4 : W) (adc msal legacy : option json).
Hypothesis Hjoin : join_error w0 = (None, w).
Hypothesis Hhome : env_var "HOME" w = (Some home, w1).
Hypothesis Hadc : read_json (home +:+ "/.config/gcloud/application_default_credentials.json") w1 = (adc, w2).
Hypothesis Hmsal : read_json (home +:+ "/.azure/msal_token_cache.json") w2 = (msal, w3).
Hypothesis Hlegacy : read_json (home +:+ "/.azure/accessTokens.json") w3 = (legacy, w4).

Lemma scan_exact :
  ∃ pairs, scan_token_caches w = (pairs, w4)
    ∧ ∀ p, p ∈ pairs ↔ cached_token adc msal legacy p.2 ∧ from_token p.
Proof.
  eexists. split.
  { unfold scan_token_caches, bind, ret. rewrite Hhome, Hadc, Hmsal, Hlegacy. reflexivity. }
  assert (Haz : ∀ o p, p ∈ (match o with Some v => collect_azure_tokens v | None => [] end)
                ↔ ∃ v, o = Some v ∧ azure_token v p.2 ∧ from_token p).
  { intros [v|] p; [rewrite elem_of_collect_azure; naive_solver|].
    rewrite elem_of_nil. naive_solver. }
  intros p. rewrite !elem_of_app, !Haz.
  rewrite elem_of_gcloud. split.
  - intros [(v & ? & ? & ?)|[(v & ? & ? & ?)|(v & ? & ? & ?)]]; (split; [|done]);
      [by eapply in_gcloud|eapply in_azure; eauto..].
  - intros [[v ? ?|v [?|?] ?] ?]; eauto 8.
Qed.

(** C22: the cached-token attestor shows exactly what the caches hold.  Its
    candidates are those of the well-formed tokens among the [id_token] of the
    gcloud file, the [secret]s of an MSAL cache and the [idToken]s of a legacy
    one, and every one of them is a [Silent] candidate under ssh.local, never
    under an issuer the unverified token names.  Freshness is [Unavailable] exactly when no cached token has the candidate's path, it is
    [Fresh] only if one has an [exp] later than the clock after the scan, and
    otherwise [Stale] with no presence.  Without [HOME] no file is read.  Either
    fails exactly when the blocking task is lost, and then as an unavailable
    source. *)
Theorem oidc_shows_the_caches :
  (∃ cs, oidc_enumerate w0 = (Ok cs, w4)
     ∧ (∀ c, c ∈ cs ↔ ∃ t, cached_token adc msal legacy t ∧ candidate_from_jwt t = Some c)
     ∧ ∀ c, c ∈ cs → c_domain c = SaSshLocal ∧ proof_cost c = Silent ∧ c_source c = "oidc-cached")
  ∧ (∀ c, let live t := cached_token adc msal legacy t
                        ∧ ∃ c', candidate_from_jwt t = Some c' ∧ c_path c' = c_path c in
       ((oidc_freshness c w0).1 = Ok FUnavailable ∧ ∀ t, ¬ live t)
       ∨ ∃ t, live t ∧
          (((oidc_freshness c w0).1 = Ok Fresh
             ∧ ∃ exp, token_exp t = Some exp ∧ now_unix (now w4).1 < exp)
           ∨ ((oidc_freshness c w0).1 = Ok (Stale PresenceNone)
             ∧ ∀ exp, token_exp t = Some exp → exp ≤ now_unix (now w4).1))%Z)
  ∧ (∀ v v1 v2, join_error v = (None, v1) → env_var "HOME" v1 = (None, v2) →
      oidc_enumerate v = (Ok [], v2) ∧ ∀ c, oidc_freshness c v = (Ok FUnavailable, v2))
  ∧ (∀ v e, (oidc_enumerate v).1 = Err e ↔
       ∃ lost, (join_error v).1 = Some lost ∧ e = Unavailable ("token cache scan failed: " +:+ lost))
  ∧ ∀ c v e, (oidc_freshness c v).1 = Err e ↔ (oidc_enumerate v).1 = Err e.
Proof.
  destruct scan_exact as (pairs & Hs & Hin). split_and!.
  - exists pairs.*1. unfold oidc_enumerate.
    rewrite (bind_ok _ _ _ _ _ (off_reactor_runs _ _ _ _ Hjoin Hs)). split_and!; [done|..].
    + intros c. rewrite list_elem_of_fmap. split.
      * intros (p & -> & [Ht Hf]%Hin). eauto.
      * intros (t & Ht & Hf). exists (c, t). split; [done|]. by apply Hin.
    + intros c (p & -> & [_ Hf]%Hin)%list_elem_of_fmap.
      by apply candidate_from_jwt_shape in Hf as (? & ? & ? & _ & _ & ->).
  - intros c live. unfold oidc_freshness.
    rewrite (bind_ok _ _ _ _ _ (off_reactor_runs _ _ _ _ Hjoin Hs)). unfold bind, ret.
    destruct (find_first _ pairs) as [[c' t]|] eqn:Hf.
    + apply find_first_elem in Hf as [[Ht Hc]%Hin Hp%String.eqb_eq]. cbn in Ht, Hc, Hp.
      right. exists t. split; [split; [done|by exists c']|].
      unfold token_is_unexpired. destruct (token_exp t) as [exp|]; [|by right; split].
      unfold bind, ret. destruct (now w4) as [clock w5]; cbn.
      destruct (Z.ltb_spec (now_unix clock) exp); [left|right]; (split; [done|]); [by exists exp|].
      by intros ? [= <-].
    + left. split; [done|]. intros t (Ht & c' & Hc & Hp).
      pose proof (proj1 (find_first_None _ _) Hf (c', t)) as Hn. cbn in Hn.
      rewrite Hp, String.eqb_refl in Hn. discriminate Hn. by apply Hin.
  - intros v v1 v2 Hj Hv.
    assert (Hn : scan_token_caches v1 = ([], v2)) by (unfold scan_token_caches, bind; by rewrite Hv).
    pose proof (off_reactor_runs _ _ _ _ Hj Hn) as Hr. unfold oidc_enumerate, oidc_freshness.
    split; [|intros c]; by rewrite (bind_ok _ _ _ _ _ Hr).
  - intros v e. rewrite oidc_enumerate_Err, off_reactor_Err. done.
  - intros c v e. by rewrite oidc_freshness_Err, oidc_enumerate_Err.
Qed.
End Cache.

End Oidc.

(** ** A home with one gcloud token, for the witness *)
#[local] Instance one_token_json : SerdeJson := λ bs,
  if String.eqb (of_bytes bs) "adc" then Ok (JObj [("id_token", JStr "head.payload.sig")])
  else if String.eqb (of_bytes bs) "payload"
  then Ok (JObj [("sub", JStr "alice"); ("exp", JNum (NPosInt 100))])
  else Err "expected value".
Definition gcloud_home : Script :=
  mkScript 50 [("HOME", "/home/alice")] [] [] [] [] (λ _ _, Err StdinNotPiped) 1000
    [("/home/alice/.config/gcloud/application_default_credentials.json", "adc")].

Lemma oidc_shows_the_caches_witness :
  ∃ cs, oidc_enumerate gcloud_home = (Ok cs, gcloud_home)
    ∧ oidc_candidate "alice" "alice" ∈ cs.
Proof.
  assert (H0 : join_error gcloud_home = (None, gcloud_home)) by reflexivity.
  assert (H1 : env_var "HOME" gcloud_home = (Some "/home/alice", gcloud_home)) by reflexivity.
  assert (H2 : read_json ("/home/alice" +:+ "/.config/gcloud/application_default_credentials.json")
    gcloud_home = (Some (JObj [("id_token", JStr "head.payload.sig")]), gcloud_home)) by reflexivity.
  assert (H3 : read_json ("/home/alice" +:+ "/.azure/msal_token_cache.json") gcloud_home
    = (None, gcloud_home)) by reflexivity.
  assert (H4 : read_json ("/home/alice" +:+ "/.azure/accessTokens.json") gcloud_home
    = (None, gcloud_home)) by reflexivity.
  destruct (oidc_shows_the_caches _ _ _ _ _ _ _ _ _ _ H0
    H1 H2 H3 H4) as ((cs & He & Hc & _) & _).
  exists cs. split; [exact He|]. apply Hc. exists "head.payload.sig". split; [|reflexivity].
  eapply in_gcloud; reflexivity.
Defined.
