(* ===== verification/Gpg.v ===== *)
(** * The GPG attestor ([hire-attestors/src/gpg.rs])

    Discovery from the secret-key listing and proof by an inline signature
    that the installed gpg verifies again. *)
From S2P Require Import Prelude RustStr RustNum External Assurance SpiffeId Claim Machine GpgKeys Verify.

Section Gpg.
Context `{M : Machine W} {U : Unicode}.

Definition LIST_ARGS : list string :=
  ["--batch"; "--no-tty"; "--list-secret-keys"; "--with-colons"; "--fingerprint"].

Definition exec_failed (e : RunFailure) : AttestorError :=
  match e with
  | SpawnFailed e | WaitFailed e => Unavailable ("gpg exec failed: " +:+ e)
  | StdinNotPiped => Unavailable "gpg exec failed: stdin"
  end.

(** [enumerate] *)
Definition gpg_enumerate : ST W (result (list Candidate) AttestorError) :=
  let* gpg := which_gpg in
  let*? gpg := ret (ok_or gpg (Unavailable "gpg binary not found")) in
  let* r := run_command gpg LIST_ARGS None in
  let*? output := ret (map_err exec_failed r) in
  if negb (o_success output) then ret (Ok [])
  else ret (Ok (parse_gpg_colons (from_utf8_lossy (o_stdout output)))).

(** [prove] *)
Definition gpg_prove (c : Candidate) (challenge : list byte)
    : ST W (result (list Evidence) AttestorError) :=
  let* gpg := which_gpg in
  let*? gpg := ret (ok_or gpg (Unavailable "gpg binary not found")) in
  let*? cs := gpg_enumerate in
  let*? fingerprint := ret (ok_or
    (let! k := find_first (λ k, String.eqb (c_path k) (c_path c)) cs in
     strip_prefix "gpg/" (c_path k))
    (ChallengeFailed ("gpg does not hold an enrollable key for " +:+ c_path c))) in
  let*? signed := gpg_run gpg ["--local-user"; fingerprint; "--sign"; "--output"; "-"] challenge in
  if negb (o_success signed) then
    ret (Err (ChallengeFailed ("gpg-agent did not sign for " +:+ c_path c)))
  else
    let*? s := verify_openpgp c challenge (o_stdout signed) in
    ret (Ok [Possession s]).

(** ** Lemmas *)
Lemma gpg_enumerate_inv w cs w' :
  gpg_enumerate w = (Ok cs, w') → cs = [] ∨ ∃ output, cs = parse_gpg_colons output.
Proof.
  unfold gpg_enumerate. unfold bind at 1. destruct (which_gpg w) as [[gpg|] w1]; [|done].
  intros H. apply bind_ok_inv in H as (g & w2 & _ & H). unfold bind at 1 in H.
  destruct (run_command g LIST_ARGS None w2) as [r w3].
  apply bind_ok_inv in H as (out & w4 & _ & H).
  destruct (negb (o_success out)); injection H as <- _; eauto.
Qed.

Lemma gpg_prove_inv c challenge w ev w' :
  gpg_prove c challenge w = (Ok ev, w') →
  ∃ s, ev = [Possession s] ∧ cs_challenge s = challenge.
Proof.
  unfold gpg_prove. unfold bind at 1. destruct (which_gpg w) as [g w1]. intros H1.
  apply bind_ok_inv in H1 as (gpg & w2 & _ & H1).
  apply bind_ok_inv in H1 as (cs & w3 & _ & H1).
  apply bind_ok_inv in H1 as (fp & w4 & _ & H1).
  apply bind_ok_inv in H1 as (signed & w5 & _ & H1).
  destruct (negb (o_success signed)); [done|].
  apply bind_ok_inv in H1 as (s & w6 & Hv & [= <- <-]). exists s. split; [done|].
  by eapply verify_openpgp_challenge.
Qed.
End Gpg.
