(* ===== verification/Devices.v ===== *)
(** * The feature-gated sources ([hire-attestors/src/fido2.rs], [goa.rs],
    [piv.rs])

    Hardware authenticators, GNOME Online Accounts and PIV cards.  Each is
    compiled in by a cargo feature; the features are a parameter, so what is
    proved holds in every build.  None of the three implements [prove]. *)
From S2P Require Import Prelude RustStr RustNum External Claim Machine.

(** The cargo features of the crate, on Linux. *)
Class Features := mkFeatures { fido2 : bool; goa : bool; pkcs11 : bool }.

(** [ctap_hid_fido2::HidParam], and the fields of [HidInfo] that are read. *)
Inductive HidParam : Type :=
| HidPath (p : string)
| VidPid (vid pid : Z).
Record HidInfo : Type := mkHid { product_string : string; param : HidParam }.

(** [ctap_hid_fido2::get_fidokey_devices]. *)
Class Hid (W : Type) := get_fidokey_devices : ST W (list HidInfo).

(** [{:04x}] of a [u16]. *)
Definition hex_u16 (n : Z) : string := hex [as_u8 (n / 256); as_u8 n].

Section Devices.
Context `{M : Machine W} {H : Sha2} {Ft : Features} {Hd : Hid W} {U : Unicode}.

(** [device_path_hash] *)
Definition device_path_hash (path : string) : string := hex (take 8 (sha256 (as_bytes path))).

(** [Fido2Attestor::is_available] *)
Definition fido2_is_available : ST W bool :=
  if fido2 then
    let* devices := get_fidokey_devices in ret (match devices with [] => false | _ :: _ => true end)
  else ret false.

(** The closure of [enumerate]. *)
Definition path_key (dev : HidInfo) : string :=
  match param dev with
  | HidPath p => p
  | VidPid vid pid => hex_u16 vid +:+ ":" +:+ hex_u16 pid
  end.

Definition fido2_candidate (dev : HidInfo) : Candidate :=
  let product := if is_empty (product_string dev) then "Unknown" else product_string dev in
  with_proof_cost Interactive (with_attainable AIaa3
    (candidate_new "fido2" SaSshLocal ("fido2/" +:+ device_path_hash (path_key dev))
       ("FIDO2 " +:+ product))).

(** [enumerate] *)
Definition fido2_enumerate : ST W (result (list Candidate) AttestorError) :=
  if fido2 then
    let* r := spawn_blocking get_fidokey_devices in
    let*? devices := ret (map_err (λ e, Unavailable ("fido2 task error: " +:+ e)) r) in
    ret (Ok (fido2_candidate <$> devices))
  else ret (Ok []).

(** [GoaAttestor::is_available]: the second variable is read only when the
    first is absent. *)
Definition goa_is_available : ST W bool :=
  if goa then
    let* session := env_var "GNOME_DESKTOP_SESSION_ID" in
    match session with
    | Some _ => ret true
    | None =>
        let* desktop := env_var "XDG_CURRENT_DESKTOP" in
        ret (match desktop with
             | Some d => contains "GNOME" (to_uppercase d)
             | None => false
             end)
    end
  else ret false.

(** [PivAttestor::is_available], with and without the feature. *)
Definition piv_is_available : ST W bool := if pkcs11 then ret false else ret false.

(** [enumerate] of [GoaAttestor] and [PivAttestor]: not implemented. *)
Definition goa_enumerate : ST W (result (list Candidate) AttestorError) := ret (Ok []).
Definition piv_enumerate : ST W (result (list Candidate) AttestorError) := ret (Ok []).

(** ** Lemmas *)
Lemma fido2_enumerate_inv w cs w' :
  fido2_enumerate w = (Ok cs, w') → ∃ devices, cs = fido2_candidate <$> devices.
Proof.
  unfold fido2_enumerate. destruct fido2; [|intros [= <- _]; by exists []].
  unfold spawn_blocking, bind, ret. destruct (join_error w) as [[e|] w1]; [done|].
  destruct (get_fidokey_devices w1) as [ds w2]. intros [= <- _]. by eexists.
Qed.
End Devices.
