(* ===== verification/Attestor.v ===== *)
(** * The attestor interface and the registry
    ([hire-attestors/src/lib.rs], [registry.rs])

    [Attestor] is the plugin trait as a record of operations over a world;
    each source is an instance, and [probe_sources] assembles those that are
    available, in order. *)
From S2P Require Import Prelude RustStr RustNum External Assurance SpiffeId Json Claim Machine SshWire DidKey GpgKeys Verify Agent Tailscale Unix Oidc Gpg Devices.

(** [trait Attestor] *)
Record Attestor (W : Type) : Type := mkAttestor {
  at_name : string;
  at_enumerate : ST W (result (list Candidate) AttestorError);
  at_prove : Candidate → list byte → ST W (result (list Evidence) AttestorError);
  at_freshness : Candidate → ST W (result FreshnessResult AttestorError);
}.
Arguments mkAttestor {W} at_name at_enumerate at_prove at_freshness.
Arguments at_name {W} a.
Arguments at_enumerate {W} a.
Arguments at_prove {W} a c challenge.
Arguments at_freshness {W} a c.

(** The trait's default [prove] and [freshness]. *)
Definition default_prove {W} (name : string) (c : Candidate) (challenge : list byte)
    : ST W (result (list Evidence) AttestorError) :=
  ret (Err (ChallengeFailed (name +:+ " cannot produce evidence"))).
Definition default_freshness {W} (c : Candidate) : ST W (result FreshnessResult AttestorError) :=
  ret (Ok FUnavailable).

Section Registry.
Context `{M : Machine W} {B : Base64} {H : Sha2} {Ed : Ed25519} {J : SerdeJson}
  {Ft : Features} {Hd : Hid W} {U : Unicode}.

Definition tailscale_attestor : Attestor W :=
  mkAttestor "tailscale" (tailscale_enumerate TAILSCALED_SOCK) (tailscale_prove TAILSCALED_SOCK)
    default_freshness.
Definition ssh_attestor : Attestor W :=
  mkAttestor "ssh-agent" ssh_enumerate ssh_prove default_freshness.
Definition oidc_attestor : Attestor W :=
  mkAttestor "oidc-cached" oidc_enumerate (default_prove "oidc-cached") oidc_freshness.
Definition did_attestor : Attestor W :=
  mkAttestor "did:key" did_enumerate did_prove default_freshness.
Definition gpg_attestor : Attestor W :=
  mkAttestor "gpg" gpg_enumerate gpg_prove default_freshness.

Definition fido2_attestor : Attestor W :=
  mkAttestor "fido2" fido2_enumerate (default_prove "fido2") default_freshness.
Definition goa_attestor : Attestor W :=
  mkAttestor "gnome-online-accounts" goa_enumerate (default_prove "gnome-online-accounts")
    default_freshness.
Definition piv_attestor : Attestor W :=
  mkAttestor "piv" piv_enumerate (default_prove "piv") default_freshness.

Definition unix_attestor (a : UnixAttestor) : Attestor W :=
  mkAttestor "unix" (unix_enumerate a) (unix_prove a) default_freshness.

Definition push_if (available : ST W bool) (a : Attestor W) : ST W (list (Attestor W)) :=
  let* b := available in ret (if b : bool then [a] else []).

(** [probe_sources] *)
Definition probe_sources : ST W (list (Attestor W)) :=
  let* ts := push_if (path_exists TAILSCALED_SOCK) tailscale_attestor in
  let* ssh := push_if ssh_is_available ssh_attestor in
  let* did := push_if did_is_available did_attestor in
  let* gpg := push_if gpg_is_available gpg_attestor in
  let* fido2 := push_if fido2_is_available fido2_attestor in
  let* goa := push_if goa_is_available goa_attestor in
  let* piv := push_if piv_is_available piv_attestor in
  let* account := unix_new in
  ret (ts ++ ssh ++ [oidc_attestor] ++ did ++ gpg ++ fido2 ++ goa ++ piv
       ++ [unix_attestor account]).
End Registry.

(** ** Lemmas *)
Section Lemmas.
Context `{M : Machine W} {B : Base64} {H : Sha2} {Ed : Ed25519} {J : SerdeJson}
  {Ft : Features} {Hd : Hid W} {U : Unicode}.

(** Every source, in probe order. *)
Definition all_sources (account : UnixAttestor) : list (Attestor W) :=
  [tailscale_attestor; ssh_attestor; oidc_attestor; did_attestor; gpg_attestor;
   fido2_attestor; goa_attestor; piv_attestor; unix_attestor account].

Lemma push_if_sublist b (a : Attestor W) w : (push_if b a w).1 `sublist_of` [a].
Proof. unfold push_if, bind, ret. destruct (b w) as [[] w']; repeat constructor. Qed.

(** The registry keeps the documented order whatever is available: what was
    probed is a sublist of the nine in probe order, the cached-token source
    and the account are always there and the account is last. *)
Lemma probe_sources_shape w : ∃ probed account,
  (probe_sources w).1 = probed ++ [unix_attestor account]
  ∧ probed ++ [unix_attestor account] `sublist_of` all_sources account
  ∧ oidc_attestor ∈ probed.
Proof.
  unfold probe_sources. do 8 unfold bind at 1.
  repeat match goal with
  | |- context [push_if ?b ?a ?v] =>
      let p := fresh "p" in let v' := fresh "v" in let Hp := fresh "Hp" in
      pose proof (push_if_sublist b a v) as Hp; destruct (push_if b a v) as [p v']; cbn [fst] in Hp
  end.
  destruct (unix_new _) as [account v']. exists (p ++ p0 ++ [oidc_attestor] ++ p1 ++ p2 ++ p3 ++ p4 ++ p5), account.
  cbn [ret fst]. split_and!; [by rewrite <-!app_assoc|rewrite <-!app_assoc|rewrite !elem_of_app, list_elem_of_singleton; tauto].
  change (all_sources account) with ([tailscale_attestor] ++ [ssh_attestor] ++ [oidc_attestor]
    ++ [did_attestor] ++ [gpg_attestor] ++ [fido2_attestor] ++ [goa_attestor] ++ [piv_attestor]
    ++ [unix_attestor account]).
  do 8 (apply sublist_app; [done|]). done.
Qed.
End Lemmas.
