(* ===== verification/Conduct.v ===== *)
(** * What the daemon may rely on in an attestor
    ([hire-attestors/src/lib.rs], [registry.rs])

    [WellBehaved] is the promise the registry's attestors make to the Workload
    API: under which names and domains they offer candidates, what their
    proofs can be worth, and that a proof answers what it was asked about.
    Every source discharges it; the handlers' theorems are proved against it. *)
From S2P Require Import Prelude RustStr RustNum External Assurance SpiffeId Json Claim Machine SshWire DidKey GpgKeys Verify Agent Tailscale Unix Oidc Gpg Devices Attestor.

(** The most a proof of each source is worth. *)
Definition ceiling (source : string) : IdentityAssurance :=
  if String.eqb source "tailscale" then Iaa2 else Iaa1.

(** The sources that implement [prove] and those that never ask anybody. *)
Definition PROVERS : list string := ["tailscale"; "ssh-agent"; "did:key"; "gpg"; "unix"].
Definition PROMPTLESS : list string := ["tailscale"; "oidc-cached"; "unix"].

Definition home_domain (source : string) : SelfAssertedDomain :=
  if String.eqb source "tailscale" then SaTailscale else SaSshLocal.

(** A candidate as a source named [source] may offer it. *)
Record offered (source : string) (c : Candidate) : Prop := {
  of_source : c_source c = source;
  of_domain : c_domain c = home_domain source;
  of_silent : proof_cost c = Silent → source ∈ PROMPTLESS;
  of_attainable : (assurance_rank (ceiling source) ≤ attainable_rank (attainable c))%nat;
}.

(** One proof: a single item that answers this challenge for this candidate,
    worth the source's ceiling, with no presence, naming no issuer. *)
Record proof_of (source : string) (c : Candidate) (challenge : list byte)
    (ev : list Evidence) : Prop := {
  pf_prover : source ∈ PROVERS;
  pf_item : ∃ e, ev = [e] ∧ binds_to c challenge e = true
    ∧ (tier e).1 = (ceiling source, PresenceNone) ∧ issuer_of e = None;
}.

Class WellBehaved {W} (a : Attestor W) : Prop := {
  wb_enumerate : ∀ w cs w', at_enumerate a w = (Ok cs, w') → Forall (offered (at_name a)) cs;
  wb_prove : ∀ c challenge w ev w', at_prove a c challenge w = (Ok ev, w') →
    proof_of (at_name a) c challenge ev;
}.

(** ** The client's side: what a claim from a well-behaved source is *)
Lemma derive_proof source c challenge ev cl :
  proof_of source c challenge ev → derive c challenge ev = Some cl →
  ∃ t, cl = mkClaim (c_source c) (ceiling source) PresenceNone (candidate_spiffe_id c)
              (c_display_name c) t.
Proof.
  intros [_ (e & -> & Hb & Ht & Hi)]. unfold derive. cbn [List.filter]. rewrite Hb.
  destruct (tier e) as [[a p] t] eqn:He. cbn [fst] in Ht. injection Ht as -> ->.
  cbn [fold_left find_map]. rewrite Hi. intros [= <-].
  exists t. reflexivity.
Qed.

Lemma derive_proof_total source c challenge ev :
  proof_of source c challenge ev → is_Some (derive c challenge ev).
Proof.
  intros [_ (e & -> & Hb & _)]. unfold derive. cbn [List.filter]. rewrite Hb.
  destruct (fold_left _ _ _) as [[a p] t]. by eexists.
Qed.

(** ** The sources' side *)
Section Sources.
Context `{M : Machine W} {B : Base64} {H : Sha2} {Ed : Ed25519} {J : SerdeJson}
  {Ft : Features} {Hd : Hid W} {U : Unicode}.

(** A possession proof over the challenge. *)
Lemma possession_proof source c challenge s :
  source ∈ PROVERS → ceiling source = Iaa1 → cs_challenge s = challenge →
  proof_of source c challenge [Possession s].
Proof.
  intros Hs Hc <-. split; [done|]. eexists. split_and!; [done| |by cbn; rewrite Hc|done].
  by apply bool_decide_eq_true.
Qed.

(** A source that keeps the trait's default [prove]. *)
Lemma default_proof name c challenge w ev w' :
  default_prove (W := W) name c challenge w = (Ok ev, w') → proof_of name c challenge ev.
Proof. done. Qed.

Ltac offer := constructor; cbn; [done|done|try done; intros; set_solver|cbn; lia].

#[export] Instance tailscale_well_behaved : WellBehaved tailscale_attestor.
Proof.
  split; cbn.
  - intros w cs w' H1. unfold tailscale_enumerate, bind at 1 in H1.
    destruct (path_exists TAILSCALED_SOCK w) as [[] w1]; cbn [negb] in H1;
      [|injection H1 as <- _; constructor].
    apply bind_ok_inv in H1 as (st & w2 & _ & H1).
    apply bind_ok_inv in H1 as ([p d] & w3 & _ & [= <- _]).
    constructor; [|constructor]. offer.
  - intros c challenge w ev w' (status & w1 & d & _ & _ & -> & _)%tailscale_prove_inv.
    split; [set_solver|]. eexists. split_and!; [done| |done..]. by apply String.eqb_eq.
Qed.

#[export] Instance ssh_well_behaved : WellBehaved ssh_attestor.
Proof.
  split; cbn.
  - intros w cs w' H1. apply bind_ok_inv in H1 as (st & w2 & _ & H1).
    apply bind_ok_inv in H1 as (ks & w3 & _ & [= <- _]).
    apply Forall_fmap, Forall_forall. intros k _. offer.
  - intros c challenge w ev w' (s & -> & Hs & _)%ssh_prove_inv. apply possession_proof; [set_solver|done..].
Qed.

#[export] Instance oidc_well_behaved : WellBehaved oidc_attestor.
Proof.
  split; cbn; [|by intros; eapply default_proof].
  intros w cs w' H1. apply bind_ok_inv in H1 as (ps & w1 & H1 & [= <- _]).
  revert H1. unfold scan_token_caches_off_reactor, spawn_blocking, bind, ret.
  destruct (join_error w) as [[e|] w2]; [done|]. pose proof (scan_from w2) as Hs.
  destruct (scan_token_caches w2) as [ps' w3]. intros [= -> _]. cbn [fst] in Hs. apply Forall_fmap. eapply Forall_impl; [exact Hs|].
  intros [c t] (payload & sub & display & _ & _ & E)%candidate_from_jwt_shape. cbn in *. subst c. offer.
Qed.

#[export] Instance did_well_behaved : WellBehaved did_attestor.
Proof.
  split; cbn.
  - intros w cs w' H1. unfold did_enumerate, bind in H1.
    destruct (parse_did_keys w) as [ds w1]. injection H1 as <- _.
    apply Forall_fmap, Forall_forall. intros k _. offer.
  - intros c challenge w ev w' (s & -> & Hs & _)%did_prove_inv. apply possession_proof; [set_solver|done..].
Qed.

#[export] Instance gpg_well_behaved : WellBehaved gpg_attestor.
Proof.
  split; cbn.
  - intros w cs w' [->|[output ->]]%gpg_enumerate_inv; [constructor|].
    rewrite parse_gpg_colons_blocks. apply Forall_concat, Forall_fmap, Forall_forall.
    intros b _. cbn. unfold block_candidates, flush_key.
    do 3 (case_match; [|constructor]). apply Forall_singleton. offer.
  - intros c challenge w ev w' (s & -> & Hs)%gpg_prove_inv. apply possession_proof; [set_solver|done..].
Qed.

#[export] Instance fido2_well_behaved : WellBehaved fido2_attestor.
Proof.
  split; cbn; [|by intros; eapply default_proof].
  intros w cs w' [ds ->]%fido2_enumerate_inv. apply Forall_fmap, Forall_forall. intros d _. offer.
Qed.

#[export] Instance goa_well_behaved : WellBehaved (W := W) goa_attestor.
Proof. split; cbn; [|by intros; eapply default_proof]. by intros w cs w' [= <- _]. Qed.

#[export] Instance piv_well_behaved : WellBehaved (W := W) piv_attestor.
Proof. split; cbn; [|by intros; eapply default_proof]. by intros w cs w' [= <- _]. Qed.

#[export] Instance unix_well_behaved a : WellBehaved (unix_attestor a).
Proof.
  split; cbn.
  - intros w cs w' [= <- _]. constructor; [|constructor]. offer.
  - intros c challenge w ev w' [E ->]%unix_prove_inv.
    split; [set_solver|]. eexists. split_and!; [done| |done..]. by apply String.eqb_eq.
Qed.

(** What start-up registers keeps the promise, in every build. *)
Lemma all_sources_well_behaved account : Forall (WellBehaved (W := W)) (all_sources account).
Proof. unfold all_sources. repeat (apply Forall_cons; split; [apply _|]). constructor. Qed.

Lemma probed_well_behaved w : Forall (WellBehaved (W := W)) (probe_sources w).1.
Proof.
  destruct (probe_sources_shape w) as (probed & account & -> & Hsub & _).
  eapply Forall_sublist; [exact Hsub|apply all_sources_well_behaved].
Qed.
End Sources.
