(* ===== verification/ConsumerAttest.v ===== *)
(** * Consumer attestation ([hire-grpc/src/consumer_attest.rs])

    Naming the peer of an accepted connection by the hash of its executable,
    whose path is found per platform, and the stream that carries the answer. *)
From S2P Require Import Prelude RustStr RustNum External Consumer Machine.
Local Open Scope Z_scope.

(** [UCred]. *)
Record UCred : Type := mkCred { cred_uid : Z; cred_pid : option Z }.

Inductive AttestError : Type :=
| WrongUid (peer expected : Z)
| PeerCred (e : string)
| NoPeerPid
| NoExePath
| Unreadable
| NotSupported.

(** [PeerIdentity] *)
Record PeerIdentity : Type := mkPeer { peer_get : option ConsumerIdentity }.

(** The file operations the hash needs. *)
Class Files (W : Type) := {
  File : Type;
  read_link : string → ST W (option string);
  file_open : string → ST W (option File);
  (** [Read::read] into a buffer of the given size *)
  file_read : File → Z → ST W (option (list byte));
  (** [proc_pidpath] of macOS, given a buffer size: what it returns, and the
      buffer afterwards *)
  proc_pidpath : Z → Z → ST W (Z * list byte);
  (** [UnixStream::peer_cred] *)
  Socket : Type;
  peer_cred : Socket → ST W (result UCred string);
}.

(** [PROC_PIDPATHINFO_MAXSIZE], four times [MAXPATHLEN]. *)
Definition PROC_PIDPATHINFO_MAXSIZE : Z := 4096.

(** The first NUL, or the end. *)
Definition up_to_nul (written : list byte) : list byte :=
  match list_find (λ b, b = "000"%char) written with
  | Some (n, _) => take n written
  | None => written
  end.

Section Attest.
Context `{M : Machine W} {F : Files W} {S : Sha2} {T : TargetOs}.

(** [exe_path_for_pid], on each platform; [None] is a slice out of range. *)
Definition exe_path_for_pid (pid : Z) : ST W (option (result string AttestError)) :=
  match target_os with
  | Linux =>
      let* p := read_link ("/proc/" +:+ show_u64 pid +:+ "/exe") in
      ret (Some (ok_or p NoExePath))
  | MacOS =>
      let* (n, buf) := proc_pidpath pid PROC_PIDPATHINFO_MAXSIZE in
      if n <=? 0 then ret (Some (Err NoExePath))
      else match slice_to n buf with
           | None => ret None
           | Some written =>
               ret (Some (match up_to_nul written with
                          | [] => Err NoExePath
                          | path => Ok (of_bytes path)
                          end))
           end
  | OtherUnix => ret (Some (Err NotSupported))
  end.

(** The read loop of [hash_file].  [hashed] is what [update] has been given;
    [finalize] is the digest of all of it.  A file has no bound, so the fuel
    is the caller's; [None] is fuel running out. *)
Fixpoint hash_loop (fuel : nat) (f : File) (hashed : list byte)
    : ST W (option (result (list byte) AttestError)) :=
  match fuel with
  | O => ret None
  | Datatypes.S fuel =>
      let* r := file_read f (64 * 1024) in
      match r with
      | None => ret (Some (Err Unreadable))
      | Some [] => ret (Some (Ok (sha256 hashed)))
      | Some bs => hash_loop fuel f (hashed ++ bs)
      end
  end.

(** [hash_file] *)
Definition hash_file (fuel : nat) (path : string)
    : ST W (option (result (list byte) AttestError)) :=
  let* f := file_open path in
  match f with
  | None => ret (Some (Err Unreadable))
  | Some f => hash_loop fuel f []
  end.

(** [attest_peer]; [None] is fuel running out or that panic. *)
Definition attest_peer (fuel : nat) (cred : UCred)
    : ST W (option (result ConsumerIdentity AttestError)) :=
  let* my_uid := getuid in
  if negb (cred_uid cred =? my_uid) then
    ret (Some (Err (WrongUid (cred_uid cred) my_uid)))
  else match cred_pid cred with
  | None => ret (Some (Err NoPeerPid))
  | Some pid =>
      let* p := exe_path_for_pid pid in
      match p with
      | None => ret None
      | Some (Err e) => ret (Some (Err e))
      | Some (Ok path) =>
          let* h := hash_file fuel path in
          ret (match h with
               | None => None
               | Some h => Some (let? h := h in Ok (BinarySha256 h))
               end)
      end
  end.

(** [AttestedStream], its [accept] and [connect_info]. *)
Record AttestedStream : Type := mkAttested { inner : Socket; peer : PeerIdentity }.

Definition accept (fuel : nat) (inner : Socket) : ST W (option AttestedStream) :=
  let* cred := peer_cred inner in
  match cred with
  | Err _ => ret (Some (mkAttested inner (mkPeer None)))
  | Ok cred =>
      let* a := attest_peer fuel cred in
      ret (match a with
           | None => None
           | Some (Ok id) => Some (mkAttested inner (mkPeer (Some id)))
           | Some (Err _) => Some (mkAttested inner (mkPeer None))
           end)
  end.

Definition connect_info (s : AttestedStream) : PeerIdentity := peer s.

(** [AsyncRead] and [AsyncWrite] of a stream: a read is given the room left
    in its buffer, a write answers how much was taken. *)
Inductive Poll (A : Type) : Type := Ready (r : result A string) | Pending.
Record AsyncIo (S : Type) : Type := mkAsyncIo {
  poll_read : S → Z → ST W (Poll (list byte));
  poll_write : S → list byte → ST W (Poll Z);
  poll_flush : S → ST W (Poll unit);
  poll_shutdown : S → ST W (Poll unit);
  poll_write_vectored : S → list (list byte) → ST W (Poll Z);
  is_write_vectored : S → bool;
}.

(** The polls of an [AttestedStream] are its socket's, the vectored pair
    included; none of them can reach [peer]. *)
Definition attested_io (io : AsyncIo Socket) : AsyncIo AttestedStream := {|
  poll_read s room := poll_read _ io (inner s) room;
  poll_write s buf := poll_write _ io (inner s) buf;
  poll_flush s := poll_flush _ io (inner s);
  poll_shutdown s := poll_shutdown _ io (inner s);
  poll_write_vectored s bufs := poll_write_vectored _ io (inner s) bufs;
  is_write_vectored s := is_write_vectored _ io (inner s);
|}.

(** ** Lemmas *)

(** [reads w f chunks w']: reading [f] to its end from [w] delivers these
    pieces. *)
Inductive reads (f : File) : W → list (list byte) → W → Prop :=
| reads_end w w' : file_read f (64 * 1024) w = (Some [], w') → reads f w [] w'
| reads_more w w1 w' bs rest :
    file_read f (64 * 1024) w = (Some bs, w1) → bs ≠ [] →
    reads f w1 rest w' → reads f w (bs :: rest) w'.

Lemma hash_loop_reads f w chunks w' :
  reads f w chunks w' → ∀ fuel hashed, (length chunks < fuel)%nat →
  hash_loop fuel f hashed w = (Some (Ok (sha256 (hashed ++ concat chunks))), w').
Proof.
  induction 1 as [w w' Hr|w w1 w' bs rest Hr Hne _ IH]; intros fuel hashed Hf;
    (destruct fuel as [|fuel]; [lia|]); cbn [hash_loop]; unfold bind; rewrite Hr.
  - by rewrite app_nil_r.
  - destruct bs as [|b bs]; [done|]. rewrite IH by (cbn in Hf; lia).
    cbn [concat]. by rewrite app_assoc.
Qed.

Lemma hash_loop_Ok fuel f hashed w h w' :
  hash_loop fuel f hashed w = (Some (Ok h), w') →
  ∃ chunks, reads f w chunks w' ∧ h = sha256 (hashed ++ concat chunks).
Proof.
  revert hashed w; induction fuel as [|fuel IH]; intros hashed w; cbn [hash_loop]; [done|].
  unfold bind. destruct (file_read f (64 * 1024) w) as [[[|b bs]|] w1] eqn:Hr; [| |done].
  - intros [= <- <-]. exists []. rewrite app_nil_r. split; [by constructor|done].
  - intros (chunks & Hc & ->)%IH. exists ((b :: bs) :: chunks). split.
    + by eapply reads_more.
    + cbn [concat]. by rewrite app_assoc.
Qed.

(** A bytes prefix without a NUL, then the end or a NUL. *)
Lemma up_to_nul_spec l :
  "000"%char ∉ up_to_nul l ∧ ∃ rest, l = up_to_nul l ++ rest ∧ (rest = [] ∨ head rest = Some "000"%char).
Proof.
  unfold up_to_nul. destruct (list_find _ l) as [[n x]|] eqn:E.
  - apply list_find_Some in E as (Hn & -> & Hbefore). split.
    + intros [i [Hi Hlt]%lookup_take_Some]%list_elem_of_lookup. by eapply Hbefore.
    + exists (drop n l). split; [by rewrite take_drop|]. right. by rewrite head_lookup, lookup_drop, Nat.add_0_r.
  - apply list_find_None in E. split; [|exists []; split; [by rewrite app_nil_r|by left]].
    intros Hin. rewrite Forall_forall in E. by eapply E.
Qed.

(** One way to an identity. *)
Lemma attest_peer_inv fuel cred w c w' :
  attest_peer fuel cred w = (Some (Ok c), w') →
  cred_uid cred = (getuid w).1
  ∧ ∃ pid path f w1 w2 chunks, cred_pid cred = Some pid
      ∧ exe_path_for_pid pid (getuid w).2 = (Some (Ok path), w1)
      ∧ file_open path w1 = (Some f, w2) ∧ reads f w2 chunks w'
      ∧ c = BinarySha256 (sha256 (concat chunks)).
Proof.
  unfold attest_peer, hash_file, bind, ret.
  destruct (getuid w) as [uid w0]; cbn [fst snd].
  destruct (Z.eqb_spec (cred_uid cred) uid) as [Hu|]; cbn [negb]; [|done].
  destruct (cred_pid cred) as [pid|]; [|done].
  destruct (exe_path_for_pid pid w0) as [[[path|e]|] w1] eqn:Hl; [|done..].
  destruct (file_open path w1) as [[f|] w2] eqn:Ho; [|done].
  destruct (hash_loop fuel f [] w2) as [[[h|]|] w3] eqn:Hh; [|done..].
  intros [= <- <-]. apply hash_loop_Ok in Hh as (chunks & Hr & ->). split; [done|].
  exists pid, path, f, w1, w2, chunks. done.
Qed.

(** A connection's identity comes from one attestation of its socket. *)
Lemma accept_inv fuel sock w st w' c :
  accept fuel sock w = (Some st, w') → peer_get (connect_info st) = Some c →
  ∃ cred w1, peer_cred sock w = (Ok cred, w1) ∧ attest_peer fuel cred w1 = (Some (Ok c), w').
Proof.
  unfold accept, bind, ret. destruct (peer_cred sock w) as [[cred|] w1]; [|by intros [= <- <-]].
  destruct (attest_peer fuel cred w1) as [[[id|e]|] w2] eqn:Ha; [| |done]; intros [= <- <-] Hc; [|done].
  cbn in Hc. injection Hc as <-. by exists cred, w1.
Qed.

(** ** Properties *)

(** The path of the peer's executable, per platform. *)
Lemma exe_path_in_bounds pid w :
  (target_os = MacOS →
   let '((n, buf), w1) := proc_pidpath pid PROC_PIDPATHINFO_MAXSIZE w in
   n ≤ Z.of_nat (length buf) →
   (exe_path_for_pid pid w = (Some (Err NoExePath), w1)
      ∧ (n ≤ 0 ∨ head buf = Some "000"%char))
   ∨ ∃ path rest, exe_path_for_pid pid w = (Some (Ok (of_bytes path)), w1)
      ∧ path ≠ [] ∧ "000"%char ∉ path ∧ take (Z.to_nat n) buf = path ++ rest
      ∧ (rest = [] ∨ head rest = Some "000"%char))
  ∧ (target_os = Linux → exe_path_for_pid pid w =
       (Some (ok_or (read_link ("/proc/" +:+ show_u64 pid +:+ "/exe") w).1 NoExePath),
        (read_link ("/proc/" +:+ show_u64 pid +:+ "/exe") w).2))
  ∧ (target_os = OtherUnix → exe_path_for_pid pid w = (Some (Err NotSupported), w)).
Proof.
  unfold exe_path_for_pid, bind, ret. split_and!; intros ->; [| |done].
  - destruct (proc_pidpath pid PROC_PIDPATHINFO_MAXSIZE w) as [[n buf] w1]. intros Hn.
    destruct (Z.leb_spec n 0) as [|Hpos]; [left; split; [done|by left]|].
    rewrite slice_to_in by lia. destruct (up_to_nul_spec (take (Z.to_nat n) buf)) as (Hnul & rest & E & Hr).
    destruct (up_to_nul _) as [|b path] eqn:Hu.
    + left. split; [done|]. right. destruct buf as [|x buf]; [cbn in Hn; lia|].
      destruct (Z.to_nat n) eqn:En; [lia|]. cbn in E. destruct Hr as [->|Hr]; [done|].
      rewrite <-E in Hr. exact Hr.
    + right. by exists (b :: path), rest.
  - by destruct (read_link _ w).
Qed.

(** What is hashed on Linux is what bears the link's text as its name. *)
Lemma attest_peer_linux fuel cred pid link w w1 :
  target_os = Linux → cred_uid cred = (getuid w).1 → cred_pid cred = Some pid →
  read_link ("/proc/" +:+ show_u64 pid +:+ "/exe") (getuid w).2 = (Some link, w1) →
  (∀ w2, file_open link w1 = (None, w2) → attest_peer fuel cred w = (Some (Err Unreadable), w2))
  ∧ (∀ f w2 chunks w', file_open link w1 = (Some f, w2) → reads f w2 chunks w' →
       (length chunks < fuel)%nat →
       attest_peer fuel cred w = (Some (Ok (BinarySha256 (sha256 (concat chunks)))), w')).
Proof.
  intros Ht Hu Hp Hl. unfold attest_peer, exe_path_for_pid, hash_file, bind, ret. rewrite Ht.
  destruct (getuid w) as [uid w0]; cbn [fst snd] in *.
  rewrite (proj2 (Z.eqb_eq _ _) Hu); cbn [negb]. rewrite Hp, Hl; cbn [ok_or]. split.
  - by intros w2 ->.
  - intros f w2 chunks w' -> Hr Hf. by rewrite (hash_loop_reads _ _ _ _ Hr) by done.
Qed.

(** C30: a peer is named by the file at the path the system gives for it.  A
    connection is given an identity exactly when the kernel reports the
    daemon's own uid and a pid whose executable's path is found, opens and
    reads to its end, and the identity is the SHA-256 of the whole file,
    however the reads split it; a peer of another uid is refused before any
    of its files is touched.  On every platform the path is text that is
    opened by name afterwards.  On Linux it is the text of the magic link
    [/proc/<pid>/exe]: what is hashed is whatever bears that name when it is
    opened, which need not be the running inode, and a link whose text names
    nothing, as one marked deleted, gives no identity.  On macOS the path is
    found without stepping outside a buffer: whatever [proc_pidpath] answers,
    if its count stays within the 4096 bytes it was given, as documented, the
    slice is in range, and the path taken is non-empty, holds no NUL and is
    all that was written before the first one, whether or not the count
    includes the terminator.  Elsewhere nothing is looked up. *)
Theorem attest_peer_exact fuel cred w :
  (∀ c w', attest_peer fuel cred w = (Some (Ok c), w') →
     cred_uid cred = (getuid w).1
     ∧ ∃ pid path f w1 w2 chunks, cred_pid cred = Some pid
         ∧ exe_path_for_pid pid (getuid w).2 = (Some (Ok path), w1)
         ∧ file_open path w1 = (Some f, w2) ∧ reads f w2 chunks w'
         ∧ c = BinarySha256 (sha256 (concat chunks)))
  ∧ (∀ pid path f w1 w2 chunks w', cred_uid cred = (getuid w).1 → cred_pid cred = Some pid →
       exe_path_for_pid pid (getuid w).2 = (Some (Ok path), w1) →
       file_open path w1 = (Some f, w2) → reads f w2 chunks w' → (length chunks < fuel)%nat →
       attest_peer fuel cred w = (Some (Ok (BinarySha256 (sha256 (concat chunks)))), w'))
  ∧ (cred_uid cred ≠ (getuid w).1 →
       attest_peer fuel cred w =
         (Some (Err (WrongUid (cred_uid cred) (getuid w).1)), (getuid w).2))
  ∧ (∀ pid v, target_os = MacOS →
   let '((n, buf), v1) := proc_pidpath pid PROC_PIDPATHINFO_MAXSIZE v in
   n ≤ Z.of_nat (length buf) →
   (exe_path_for_pid pid v = (Some (Err NoExePath), v1)
      ∧ (n ≤ 0 ∨ head buf = Some "000"%char))
   ∨ ∃ path rest, exe_path_for_pid pid v = (Some (Ok (of_bytes path)), v1)
      ∧ path ≠ [] ∧ "000"%char ∉ path ∧ take (Z.to_nat n) buf = path ++ rest
      ∧ (rest = [] ∨ head rest = Some "000"%char))
  ∧ (∀ pid v, target_os = Linux → exe_path_for_pid pid v =
       (Some (ok_or (read_link ("/proc/" +:+ show_u64 pid +:+ "/exe") v).1 NoExePath),
        (read_link ("/proc/" +:+ show_u64 pid +:+ "/exe") v).2))
  ∧ (∀ pid link w1, target_os = Linux → cred_uid cred = (getuid w).1 → cred_pid cred = Some pid →
       read_link ("/proc/" +:+ show_u64 pid +:+ "/exe") (getuid w).2 = (Some link, w1) →
       (∀ w2, file_open link w1 = (None, w2) →
          attest_peer fuel cred w = (Some (Err Unreadable), w2))
       ∧ (∀ f w2 chunks w', file_open link w1 = (Some f, w2) → reads f w2 chunks w' →
            (length chunks < fuel)%nat →
            attest_peer fuel cred w = (Some (Ok (BinarySha256 (sha256 (concat chunks)))), w')))
  ∧ (∀ pid v, target_os = OtherUnix → exe_path_for_pid pid v = (Some (Err NotSupported), v)).
Proof.
  split; [intros c w'; apply attest_peer_inv|].
  split; [|split; [|split_and!; try (intros pid v; apply exe_path_in_bounds);
    intros pid link w1; apply attest_peer_linux]];
    unfold attest_peer, hash_file, bind, ret; destruct (getuid w) as [uid w0]; cbn [fst snd].
  - intros pid path f w1 w2 chunks w' Hu Hp Hl Ho Hr Hf.
    rewrite (proj2 (Z.eqb_eq _ _) Hu); cbn [negb]. rewrite Hp, Hl, Ho.
    by rewrite (hash_loop_reads _ _ _ _ Hr) by done.
  - intros Hu. by rewrite (proj2 (Z.eqb_neq _ _) Hu).
Qed.
End Attest.

(** A machine on which [proc_pidpath] counts the terminator. *)
Definition mac_files : Files Script := {|
  File := unit;
  read_link := λ _ w, (None, w);
  file_open := λ _ w, (None, w);
  file_read := λ _ _ w, (None, w);
  proc_pidpath := λ _ _ w, ((6, as_bytes "/bin/" ++ replicate 11 "000"%char), w);
  Socket := unit;
  peer_cred := λ _ w, (Err "none", w);
|}.

Definition a_mac : Script := mkScript 0 [] [] [] [] [] (λ _ _, Err StdinNotPiped) 501 [].

Lemma attest_peer_exact_witness :
  ∃ path, exe_path_for_pid (F := mac_files) (T := MacOS) 7 a_mac = (Some (Ok (of_bytes path)), a_mac)
    ∧ path ≠ [] ∧ "000"%char ∉ path.
Proof.
  destruct (attest_peer_exact (F := mac_files) (T := MacOS) (S := toy_sha2) 0 (mkCred 0 None) a_mac)
    as (_ & _ & _ & Hmac & _).
  destruct (Hmac 7 a_mac eq_refl ltac:(vm_compute; discriminate)) as [[H _]|(path & rest & H & Hne & Hnul & _)].
  - discriminate H.
  - exists path. split; [exact H|]. split; [exact Hne|exact Hnul].
Defined.

(** A machine whose files have the texts [sc_texts] and whose links read
    [sc_env]; [sc_replies] is what the open file has left. *)
Definition linux_files : Files Script := {|
  File := unit;
  read_link := λ p w, (lookup_env p (sc_env w), w);
  file_open := λ p w, match lookup_env p (sc_texts w) with
                      | Some t => (Some (), set_replies (as_bytes t) w)
                      | None => (None, w)
                      end;
  file_read := λ _ n w, (Some (take (Z.to_nat n) (sc_replies w)),
                         set_replies (drop (Z.to_nat n) (sc_replies w)) w);
  proc_pidpath := λ _ _ w, ((0, []), w);
  Socket := unit;
  peer_cred := λ _ w, (Ok (mkCred 501 (Some 7)), w);
|}.

(** Process 7 runs [/usr/bin/tool].  Once an upgrade has replaced the file,
    the kernel's link says so in its text, which names nothing: the peer is
    refused.  A file of just that name is hashed in the executable's place. *)
Definition after_upgrade (files : list (string * string)) : Script :=
  mkScript 0 [("/proc/7/exe", "/usr/bin/tool (deleted)")] [] [] [] [] (λ _ _, Err StdinNotPiped) 501
    files.

Example replaced_executable_is_refused :
  (attest_peer (F := linux_files) (T := Linux) (S := toy_sha2) 9 (mkCred 501 (Some 7))
     (after_upgrade [("/usr/bin/tool", "new")])).1 = Some (Err Unreadable).
Proof. vm_compute. reflexivity. Qed.

Example namesake_is_hashed :
  (attest_peer (F := linux_files) (T := Linux) (S := toy_sha2) 9 (mkCred 501 (Some 7))
     (after_upgrade [("/usr/bin/tool (deleted)", "other")])).1
  = Some (Ok (BinarySha256 (sha256 (Sha2 := toy_sha2) (as_bytes "other")))).
Proof. vm_compute. reflexivity. Qed.
