(* ===== verification/Socket.v ===== *)
(** * Where the socket is ([hire-grpc/src/socket.rs])

    One path per user, derived the same way by the daemon and its clients, on
    Linux and the BSDs and on macOS. *)
From S2P Require Import Prelude RustStr RustNum Machine.
Local Open Scope Z_scope.

(** [confstr(_CS_DARWIN_USER_TEMP_DIR)] into a buffer of the given size: what
    it returns, and the buffer afterwards. *)
Class Darwin (W : Type) := confstr_user_temp : Z → ST W (Z * list byte).

Definition PATH_MAX : Z := 1024.

(** [socket_under] *)
Definition socket_under (runtime_dir : option string) (uid : Z) : string :=
  match runtime_dir with
  | Some dir => path_join (path_join dir "hire") "workload.sock"
  | None => path_join ("/tmp/hire-" +:+ show_u64 uid) "workload.sock"
  end.

Section Socket.
Context `{M : Machine W} {Da : Darwin W} {T : TargetOs}.

(** [runtime_dir].  On macOS the count includes the trailing NUL and is 0 on
    failure; the slice is in range whenever it is taken, which the theorem
    below states.  Elsewhere an empty value counts as absent. *)
Definition runtime_dir : ST W (option string) :=
  match target_os with
  | MacOS =>
      let* (written, buf) := confstr_user_temp PATH_MAX in
      if (written =? 0) || (Z.of_nat (length buf) <? written) then ret None
      else ret (Some (of_bytes (take (Z.to_nat (written - 1)) buf)))
  | Linux | OtherUnix =>
      let* dir := env_var_os "XDG_RUNTIME_DIR" in
      ret (match dir with Some d => if is_empty d then None else Some d | None => None end)
  end.

(** [workload_socket_path] *)
Definition workload_socket_path : ST W string :=
  let* uid := getuid in
  let* dir := runtime_dir in
  ret (socket_under dir uid).

(** ** Lemmas *)
Lemma socket_under_some dir uid :
  dir ≠ "" →
  socket_under (Some dir) uid = dir +:+ (if ends_with "/" dir then "" else "/") +:+ "hire/workload.sock".
Proof.
  intros Hd. cbn [socket_under]. unfold path_join at 2. rewrite is_empty_false by done.
  destruct (ends_with "/" dir).
  - unfold path_join. rewrite is_empty_false by (by destruct dir).
    rewrite ends_with_char_app by done. by rewrite !str_app_assoc.
  - unfold path_join. rewrite is_empty_false by (by destruct dir).
    rewrite !ends_with_char_app by done. by rewrite !str_app_assoc.
Qed.

Lemma socket_under_none uid :
  0 ≤ uid → socket_under None uid = "/tmp/hire-" +:+ show_u64 uid +:+ "/workload.sock".
Proof.
  intros Hu. cbn [socket_under]. unfold path_join. rewrite is_empty_false by done.
  destruct (dec_digits_head 19 uid EmptyString Hu) as (d & s & _ & E).
  rewrite ends_with_char_app by (unfold show_u64; by rewrite E).
  destruct (ends_with "/" (show_u64 uid)) eqn:Hs; [|by rewrite !str_app_assoc].
  apply ends_with_true in Hs as [r Hr]. pose proof (show_u64_digits uid Hu) as Hd.
  rewrite Hr, all_bytes_app in Hd. by apply andb_true_iff in Hd as [_ Hd].
Qed.

(** ** Properties *)

(** C32: the socket path stays in bounds and is the user's own.  On macOS the
    slice of [confstr]'s buffer is in range whatever it returns, and the
    directory is dropped when it did not fit.  Without a runtime directory the
    path is [/tmp/hire-<uid>/workload.sock]: at most 34 bytes, within the 107
    a Linux socket address holds and the 103 of macOS, and different for every
    user.  Under a runtime directory it adds at most 19 bytes to it, with one
    separator, and is absolute exactly when that directory is — an empty
    variable counts as absent, a relative one does not. *)
Theorem socket_path_in_bounds w :
  0 ≤ (getuid w).1 < 2 ^ 32 →
  let uid := (getuid w).1 in
  let dir := (runtime_dir (getuid w).2).1 in
  let path := (workload_socket_path w).1 in
  (∀ written buf w', target_os = MacOS →
     confstr_user_temp PATH_MAX (getuid w).2 = ((written, buf), w') → 0 ≤ written →
     (dir = None ∧ (written = 0 ∨ Z.of_nat (length buf) < written))
     ∨ ∃ d, slice_to (written - 1) buf = Some d ∧ dir = Some (of_bytes d))
  ∧ (dir = None → path = "/tmp/hire-" +:+ show_u64 uid +:+ "/workload.sock"
       ∧ (String.length path ≤ 34)%nat
       ∧ ∀ uid', 0 ≤ uid' < 2 ^ 32 → socket_under None uid' = path → uid' = uid)
  ∧ (∀ d, dir = Some d → d ≠ "" →
       path = d +:+ (if ends_with "/" d then "" else "/") +:+ "hire/workload.sock"
       ∧ (String.length path ≤ String.length d + 19)%nat
       ∧ starts_with "/" path = starts_with "/" d)
  ∧ (target_os ≠ MacOS → dir ≠ Some "").
Proof.
  intros Hu uid dir path. assert (path = socket_under dir uid) as Hpath.
  { unfold path, dir, uid, workload_socket_path, bind, ret. destruct (getuid w) as [u w1]; cbn [fst snd].
    by destruct (runtime_dir w1). }
  rewrite Hpath. split_and!.
  - intros written buf w' Ht Hc Hw. unfold dir, runtime_dir. rewrite Ht. unfold bind, ret. rewrite Hc.
    destruct (Z.eqb_spec written 0), (Z.ltb_spec (Z.of_nat (length buf)) written); cbn; [left; auto..|].
    right. eexists. split; [by apply slice_to_in; lia|done].
  - intros ->. rewrite socket_under_none by lia. split_and!; [done| |].
    + rewrite !str_length_app. pose proof (dec_digits_length 20 uid EmptyString 9 ltac:(lia)) as H.
      unfold show_u64. cbn [String.length] in *. lia.
    + intros uid' Hu'. rewrite socket_under_none by lia. intros E%str_app_inj_l.
      apply str_app_inj_r in E. apply show_u64_inj in E; [done|unfold U64_MAX; lia..].
  - intros d -> Hd. rewrite socket_under_some by done. split_and!; [done| |].
    + rewrite !str_length_app. destruct (ends_with "/" d); cbn [String.length]; lia.
    + by apply starts_with_char_app.
  - intros Ht. unfold dir, runtime_dir. destruct target_os; [|done|]; unfold bind, ret;
      destruct (env_var_os _ _) as [[x|] w1]; cbn; try done; by destruct x.
Qed.
End Socket.

(** A macOS user with a temp directory, whose count includes the NUL. *)
Definition mac_box : Script :=
  mkScript 0 [] [] [] [] [] (λ _ _, Err StdinNotPiped) 501 [].
Definition mac_temp : Darwin Script :=
  λ _ w, ((10, as_bytes "/var/f/T/" ++ replicate 8 "000"%char), w).

Lemma socket_path_in_bounds_witness :
  let path := (workload_socket_path (Da := mac_temp) (T := MacOS) mac_box).1 in
  path = "/var/f/T/" +:+ (if ends_with "/" "/var/f/T/" then "" else "/") +:+ "hire/workload.sock"
  ∧ (String.length path ≤ String.length "/var/f/T/" + 19)%nat
  ∧ starts_with "/" path = starts_with "/" "/var/f/T/".
Proof.
  assert (0 ≤ (getuid mac_box).1 < 2 ^ 32) as Hu by (vm_compute; split; [discriminate|reflexivity]).
  destruct (socket_path_in_bounds (Da := mac_temp) (T := MacOS) mac_box Hu) as (_ & _ & H & _).
  apply H; [vm_compute; reflexivity|discriminate].
Defined.
