(* ===== verification/Service.v ===== *)
(** * The Workload API handlers ([hire-grpc/src/service.rs])

    Issuance with its gates, discovery across attestors, the whole
    [FetchJWTSVID] handler and what [hired] builds before it serves;
    [ValidateJWTSVID] and the bundle streams are in [Validate].  The
    daemon's effects — the clock, the random challenge, every attestor call —
    go through the world in the order the code makes them. *)
From S2P Require Import Prelude RustStr RustNum External Assurance SpiffeId Consumer Pseudonym Audience Hint Json Jwt Signer TrustBundle Claim Machine ConsumerAttest Devices Attestor.
Local Open Scope Z_scope.

(** [tonic::Status]: the codes the handlers use, and the message. *)
Inductive Code : Type := Unauthenticated | InvalidArgument | NotFound | Internal | Unimplemented.
Record Status : Type := mkStatus { code : Code; message : string }.

(** ** [claims_struct]: JSON to [google.protobuf.Struct]

    [as_f64] and [to_string] of [serde_json::Number] are parameters. *)
Class Numbers := {
  number_as_f64 : json_number → option Z;
  number_to_string : json_number → string;
}.

Inductive pb_value : Type :=
| PNull
| PNumber (bits : Z)
| PString (s : string)
| PBool (b : bool)
| PStruct (fields : list (string * pb_value))
| PList (values : list pb_value).

Section Struct.
Context {N : Numbers}.

Fixpoint json_to_protobuf (v : json) : pb_value :=
  match v with
  | JNull => PNull
  | JBool b => PBool b
  | JNum n => match number_as_f64 n with
              | Some f => PNumber f
              | None => PString (number_to_string n)
              end
  | JStr s => PString s
  | JArr items => PList (map json_to_protobuf items)
  | JObj fields => PStruct (map (λ '(name, v), (name, json_to_protobuf v)) fields)
  end.

(** [struct_from_map] and [claims_struct] *)
Definition struct_from_map (fields : list (string * json)) : list (string * pb_value) :=
  (λ '(name, v), (name, json_to_protobuf v)) <$> fields.
Definition claims_struct (payload : json) : option (list (string * pb_value)) :=
  let! fields := as_object payload in Some (struct_from_map fields).
End Struct.

(** ** Gates *)
Definition PRESENCE_TTL : Duration := from_secs 300.

(** [within_max_age] *)
Definition within_max_age (age max_age : option Duration) : bool :=
  match max_age with
  | Some max_age => match age with Some age => age <? max_age | None => false end
  | None => true
  end.

(** [{:?}] of [PresenceLevel]. *)
Definition debug_presence (p : PresenceLevel) : string :=
  match p with
  | PresenceNone => "None" | PresenceSession => "Session"
  | PresenceSoftware => "Software" | PresenceHardware => "Hardware"
  end.

(** The request and response messages. *)
Record JwtsvidRequest : Type := mkJwtsvidRequest { rq_audience : list string; rq_spiffe_id : string }.
Record Jwtsvid : Type := mkJwtsvid { sv_spiffe_id : string; svid : string; hint : string }.
Record ValidateRequest : Type := mkValidateRequest { vr_audience : string; vr_svid : string }.
Record ValidateResponse : Type := mkValidateResponse {
  vp_spiffe_id : string;
  vp_claims : option (list (string * pb_value));
}.

(** [OsRng::try_fill_bytes] of 32 bytes. *)
Class OsRng (W : Type) := try_fill_bytes : ST W (result (list byte) string).

Section Service.
Context `{M : Machine W} {R : OsRng W} {P : P256} {J : @JsonWebToken P} {B : Base64} {S : Sha2} {K : Hkdf}
  {N : Numbers}.

Record WorkloadApiService : Type := mkService {
  signer : SvidSigner;
  bundles : TrustBundleStore;
  attestors : list (Attestor W);
}.

(** [SystemTime::now()] as whole seconds, which the JWT crate measures by. *)
Definition now_secs : ST W Z := let* t := now in ret (as_secs t).

(** The presence left after decay. *)
Definition decayed_presence (cl : Claim) (age : option Duration) : PresenceLevel :=
  match age with
  | Some age => if age <? PRESENCE_TTL then cl_presence cl else PresenceNone
  | None => PresenceNone
  end.

(** The instant published, in whole seconds: 0 before the epoch. *)
Definition published_at (cl : Claim) : Z :=
  as_secs (default 0 (duration_since (attested_at cl) UNIX_EPOCH)).

Definition hire_claims (cl : Claim) (presence : PresenceLevel) : HireClaims :=
  mkHireClaims (show_td (trust_domain (cl_spiffe_id cl))) [cl_source cl] (cl_assurance cl)
    (mkPresenceInfo (negb (bool_decide (presence = PresenceNone))) (cl_source cl)
       (published_at cl) (u64_saturating_add (published_at cl) (as_secs PRESENCE_TTL)))
    [cl_source cl].

Definition issue_hint (cl : Claim) (presence : PresenceLevel) (age : option Duration) : string :=
  show_hint (mkHint (cl_source cl) (cl_assurance cl) presence
    (match age with Some a => as_secs a | None => U64_MAX end)).

(** [WorkloadApiService::issue]; the signer reads the clock again. *)
Definition issue (s : WorkloadApiService) (cl : Claim) (consumer : ConsumerIdentity)
    (audiences : list string) (require_presence : PresenceLevel) (max_age : option Duration)
    (now : SystemTime) : ST W (result Jwtsvid (Fault Status)) :=
  let age := age_at now cl in
  if negb (within_max_age age max_age) then
    ret (Err (Failed (mkStatus Unauthenticated
      "presence observation is older than the requested hire_max_age")))
  else
    let presence := decayed_presence cl age in
    if presence_ltb presence require_presence then
      ret (Err (Failed (mkStatus Unauthenticated
        ("required presence level not satisfied (need " +:+ debug_presence require_presence
         +:+ ", have " +:+ debug_presence presence +:+ ")"))))
    else
      let hire_ext := claims_to_json (hire_claims cl presence) in
      let spiffe_id := uri (pseudonymous_id (signer s) (cl_spiffe_id cl) consumer) in
      let* clock := Machine.now in
      let*? token := ret (map_err (map_fault (λ e, mkStatus Internal (show_signer_error e)))
                            (sign_jwt_svid (signer s) spiffe_id audiences hire_ext clock)) in
      ret (Ok (mkJwtsvid spiffe_id token (issue_hint cl presence age))).

(** [enumerate_all]: a source that fails is skipped. *)
Fixpoint enumerate_all (atts : list (Attestor W)) : ST W (list (Attestor W * Candidate)) :=
  match atts with
  | [] => ret []
  | a :: atts =>
      let* r := at_enumerate a in
      let* rest := enumerate_all atts in
      ret (match r with Ok cs => (a,.) <$> cs | Err _ => [] end ++ rest)
  end.

(** [new_challenge] *)
Definition new_challenge : ST W (result (list byte) Status) :=
  let* r := try_fill_bytes in
  ret (map_err (λ _, mkStatus Internal "challenge generation failed") r).

(** [Vec::sort_by_key(|c| Reverse(c.assurance()))]: stable, highest first. *)
Fixpoint insert_desc (cl : Claim) (l : list Claim) : list Claim :=
  match l with
  | [] => [cl]
  | x :: l => if assurance_leb (cl_assurance x) (cl_assurance cl)
              then cl :: x :: l else x :: insert_desc cl l
  end.
Fixpoint sort_desc (l : list Claim) : list Claim :=
  match l with [] => [] | x :: l => insert_desc x (sort_desc l) end.

(** [retain(|c| seen.insert(c.spiffe_id().uri()))] *)
Fixpoint retain_unseen (seen : gset string) (l : list Claim) : list Claim :=
  match l with
  | [] => []
  | cl :: l =>
      let u := uri (cl_spiffe_id cl) in
      if bool_decide (u ∈ seen) then retain_unseen seen l
      else cl :: retain_unseen ({[u]} ∪ seen) l
  end.

(** The loop over candidates when no identity is named. *)
Fixpoint prove_silent (challenge : list byte) (found : list (Attestor W * Candidate))
    : ST W (list Claim) :=
  match found with
  | [] => ret []
  | (a, c) :: found =>
      if negb (bool_decide (proof_cost c = Silent)) then prove_silent challenge found
      else
        let* r := at_prove a c challenge in
        let* rest := prove_silent challenge found in
        ret (match r with
             | Ok ev => match derive c challenge ev with Some cl => [cl] | None => [] end
             | Err _ => []
             end ++ rest)
  end.

Definition deny : Status := mkStatus NotFound "no such identity could be proven".

(** The branch for a named identity: one proof of one candidate. *)
Definition prove_named (challenge : list byte) (want : SpiffeId)
    (found : list (Attestor W * Candidate)) : ST W (result (list Claim) Status) :=
  match find_first (λ p, String.eqb (c_path p.2) (path want)) found with
  | None => ret (Err deny)
  | Some (a, c) =>
      let*? ev := (let* r := at_prove a c challenge in ret (map_err (λ _, deny) r)) in
      match derive c challenge ev with
      | None => ret (Err deny)
      | Some cl => if bool_decide (cl_spiffe_id cl = want) then ret (Ok [cl]) else ret (Err deny)
      end
  end.

Definition prove_claims (challenge : list byte) (requested : option SpiffeId)
    (found : list (Attestor W * Candidate)) : ST W (result (list Claim) Status) :=
  match requested with
  | Some want => prove_named challenge want found
  | None => let* proven := prove_silent challenge found in
            ret (Ok (retain_unseen ∅ (sort_desc proven)))
  end.

(** The issuing loop: every claim is tried, the first refusal is kept, a panic
    ends it. *)
Fixpoint issue_all (s : WorkloadApiService) (claims : list Claim) (consumer : ConsumerIdentity)
    (audiences : list string) (require_presence : PresenceLevel) (max_age : option Duration)
    (now : SystemTime) : ST W (result (list Jwtsvid * option Status) (Fault Status)) :=
  match claims with
  | [] => ret (Ok ([], None))
  | cl :: claims =>
      let*? r := unwinding (issue s cl consumer audiences require_presence max_age now) in
      let*? (svids, refusal) :=
        issue_all s claims consumer audiences require_presence max_age now in
      ret (Ok match r with
              | Ok sv => (sv :: svids, refusal)
              | Err st => (svids, Some st)
              end)
  end.

(** The policy folded over every audience. *)
Definition strictest_presence (exts : list AudienceExtensions) : PresenceLevel :=
  fold_left (λ acc e, presence_max acc (require_presence e)) exts PresenceNone.
Definition tightest_age (exts : list AudienceExtensions) : option Duration :=
  match omap max_age exts with
  | [] => None
  | a :: l => Some (fold_left Z.min l a)
  end.

(** [FetchJWTSVID].  [peer] is the [PeerIdentity] extension of the request,
    absent on a transport that does not attest. *)
Definition fetch_jwtsvid (s : WorkloadApiService) (peer : option PeerIdentity)
    (req : JwtsvidRequest) : ST W (result (list Jwtsvid) (Fault Status)) :=
  match (let! p := peer in peer_get p) with
  | None => ret (Err (Failed (mkStatus Unauthenticated "consumer could not be attested")))
  | Some consumer =>
      match rq_audience req with
      | [] => ret (Err (Failed (mkStatus InvalidArgument "audience must not be empty")))
      | _ :: _ =>
          let*? exts := ret (map_err
            (λ e, Failed (mkStatus InvalidArgument (show_audience_error e)))
            (collect_results parse_audience (rq_audience req))) in
          let*? requested := ret (
            if is_empty (rq_spiffe_id req) then Ok None
            else map_err (λ e, Failed (mkStatus InvalidArgument (show_spiffe_error e)))
                   (let? id := parse_spiffe_id (rq_spiffe_id req) in Ok (Some id))) in
          let*? challenge := failing new_challenge in
          let* found := enumerate_all (attestors s) in
          let*? claims := failing (prove_claims challenge requested found) in
          let* t := now in
          let*? (svids, refusal) :=
            issue_all s claims consumer (audience <$> exts) (strictest_presence exts)
              (tightest_age exts) t in
          match svids with
          | [] => ret (Err (Failed (default
                    (mkStatus Unauthenticated "no identity claims available") refusal)))
          | _ :: _ => ret (Ok svids)
          end
      end
  end.

(** What [hired/src/main.rs] builds before it serves: one bundle, for
    [ssh.local], and the probed sources. *)
Definition hired_service (sg : SvidSigner) (sources : list (Attestor W)) : WorkloadApiService :=
  mkService sg (upsert (local_bundle SshLocal sg) store_new) sources.

Definition hired_startup `{Ed : Ed25519} {Js : SerdeJson} {Ft : Features} {Hd : Hid W} {U : Unicode} (sk : SigningKey)
    (rng : result (list byte) string) : ST W (result WorkloadApiService SignerError) :=
  let*? sg := ret (from_signing_key sk rng) in
  let* sources := probe_sources in
  ret (Ok (hired_service sg sources)).
End Service.
