(* ===== verification/Validate.v ===== *)
(** * Validation and the bundle streams ([hire-grpc/src/service.rs])

    [ValidateJWTSVID], which reads nothing but published bundles, and the
    handlers that publish them. *)
From S2P Require Import Prelude RustStr RustNum External Assurance SpiffeId Consumer Pseudonym Audience Hint Json Jwt Signer TrustBundle Claim Machine ConsumerAttest Attestor Service.
Local Open Scope Z_scope.

(** [bundle_key] *)
Definition bundle_key (td : TrustDomain) : string := "spiffe://" +:+ show_td td.

(** [serde_json::to_vec], a parameter. *)
Class SerdeOut := json_to_vec : json → option (list byte).

Section Validate.
Context `{M : Machine W} {R : OsRng W} {P : P256} {J : @JsonWebToken P} {B : Base64} {S : Sha2} {K : Hkdf}
  {N : Numbers} {Out : SerdeOut}.

(** [payload.get("spiffe_id").and_then(as_str).ok_or(..)?.parse()] *)
Definition claimed_id (payload : json) : option SpiffeId :=
  let! s := get_str "spiffe_id" payload in res_ok (parse_spiffe_id s).

Definition reject : Status := mkStatus InvalidArgument "JWT validation failed".

(** [ValidateJWTSVID]; [decode] reads the clock once. *)
Definition validate_jwtsvid (s : WorkloadApiService (W := W)) (req : ValidateRequest)
    : ST W (result ValidateResponse Status) :=
  if is_empty (vr_svid req) then
    ret (Err (mkStatus InvalidArgument "svid must not be empty"))
  else if is_empty (vr_audience req) then
    ret (Err (mkStatus InvalidArgument "audience must not be empty"))
  else
    let*? (header, claims) := ret (ok_or (insecure_decode (vr_svid req)) reject) in
    let*? kid := ret (ok_or (h_kid header) reject) in
    let*? claimed := ret (ok_or (claimed_id claims) reject) in
    let*? bundle := ret (ok_or (store_get (trust_domain claimed) (bundles s)) reject) in
    let*? key := ret (ok_or (jwt_decoding_key bundle kid) reject) in
    let validation := mkValidation ES256 [vr_audience req] 0 in
    let* t := now_secs in
    let*? payload := ret (ok_or (jwt_decode (vr_svid req) key validation t) reject) in
    let*? id := ret (ok_or (claimed_id payload) reject) in
    if negb (bool_decide (trust_domain id = trust_domain claimed)) then ret (Err reject)
    else ret (Ok (mkValidateResponse (uri id) (claims_struct payload))).

(** [FetchX509SVID], [FetchWITSVID], [FetchWITBundles] *)
Definition fetch_x509svid {A} : result A Status :=
  Err (mkStatus Unimplemented "X.509-SVID issuance not yet implemented").
Definition fetch_witsvid {A} : result A Status :=
  Err (mkStatus Unimplemented "FetchWITSVID not yet implemented").
Definition fetch_wit_bundles {A} : result A Status :=
  Err (mkStatus Unimplemented "FetchWITBundles not yet implemented").

(** [FetchX509Bundles] *)
Definition fetch_x509_bundles (s : WorkloadApiService (W := W)) : gmap string (list byte) :=
  list_to_map ((λ b, (bundle_key (b_trust_domain b), concat (x509_authorities b))) <$>
    List.filter (λ b, negb (bool_decide (x509_authorities b = []))) (snapshot (bundles s))).

(** [FetchJWTBundles] *)
Fixpoint jwt_bundles (l : list TrustBundle) (acc : gmap string (list byte))
    : result (gmap string (list byte)) Status :=
  match l with
  | [] => Ok acc
  | b :: l =>
      let? jwks := ok_or (json_to_vec (jwt_authorities b))
        (mkStatus Internal "trust bundle is not serialisable") in
      jwt_bundles l (<[bundle_key (b_trust_domain b) := jwks]> acc)
  end.
Definition fetch_jwt_bundles (s : WorkloadApiService (W := W))
    : result (gmap string (list byte)) Status :=
  jwt_bundles (snapshot (bundles s)) ∅.
End Validate.
