(* ===== verification/ServiceSpec.v ===== *)
(** * What [FetchJWTSVID] guarantees

    Lemmas on discovery, proof, ordering and issuance, and the properties of
    the handler in [Service]. *)
From Stdlib Require Import Sorted.
From stdpp Require Import sorting.
From S2P Require Import Prelude RustStr RustNum External Assurance SpiffeId Consumer Pseudonym Audience Hint Json Jwt Signer TrustBundle Claim Machine ConsumerAttest Toy Unix Attestor Service.
Local Open Scope Z_scope.

(** ** Ordering *)
Section Order.
Definition at_least (x y : Claim) : Prop := assurance_leb (cl_assurance y) (cl_assurance x) = true.

Lemma assurance_leb_trans a b c :
  assurance_leb a b = true → assurance_leb b c = true → assurance_leb a c = true.
Proof. by destruct a, b, c. Qed.
Lemma assurance_leb_false a b : assurance_leb a b = false → assurance_leb b a = true.
Proof. by destruct a, b. Qed.

Lemma insert_desc_perm x l : insert_desc x l ≡ₚ x :: l.
Proof.
  induction l as [|y l IH]; [done|]. cbn. case_match; [done|]. rewrite IH. constructor.
Qed.
Lemma sort_desc_perm l : sort_desc l ≡ₚ l.
Proof. induction l as [|x l IH]; [done|]. cbn. by rewrite insert_desc_perm, IH. Qed.

Lemma insert_desc_sorted x l :
  StronglySorted at_least l → StronglySorted at_least (insert_desc x l).
Proof.
  induction 1 as [|y l Hs IH Hy]; cbn; [repeat constructor|].
  destruct (assurance_leb (cl_assurance y) (cl_assurance x)) eqn:E.
  - constructor; [by constructor|]. constructor; [exact E|].
    eapply Forall_impl; [exact Hy|]. intros z Hz. unfold at_least in *.
    by eapply assurance_leb_trans.
  - constructor; [exact IH|]. rewrite insert_desc_perm. constructor; [|done].
    by apply assurance_leb_false.
Qed.
Lemma sort_desc_sorted l : StronglySorted at_least (sort_desc l).
Proof. induction l; cbn; [constructor|by apply insert_desc_sorted]. Qed.

(** Stability: the claims of one level keep their order. *)
Definition level (a : IdentityAssurance) (cl : Claim) : bool := bool_decide (cl_assurance cl = a).

Lemma insert_desc_level a x l :
  List.filter (level a) (insert_desc x l) = List.filter (level a) (x :: l).
Proof.
  induction l as [|y l IH]; [done|]. cbn [insert_desc].
  destruct (assurance_leb (cl_assurance y) (cl_assurance x)) eqn:E; [done|].
  cbn [List.filter] in *. rewrite IH. unfold level.
  repeat case_bool_decide; try done.
  exfalso. destruct (cl_assurance x), (cl_assurance y); simplify_eq/=.
Qed.
Lemma sort_desc_level a l : List.filter (level a) (sort_desc l) = List.filter (level a) l.
Proof.
  induction l as [|x l IH]; [done|]. cbn [sort_desc]. rewrite insert_desc_level. cbn.
  by rewrite IH.
Qed.

Lemma retain_elem seen l cl : cl ∈ retain_unseen seen l → cl ∈ l ∧ uri (cl_spiffe_id cl) ∉ seen.
Proof.
  revert seen; induction l as [|x l IH]; intros seen; cbn; [by intros ?%elem_of_nil|].
  case_bool_decide; [intros []%IH; set_solver|].
  intros [->|[]%IH]%elem_of_cons; set_solver.
Qed.

Lemma retain_sublist seen l : retain_unseen seen l `sublist_of` l.
Proof.
  revert seen; induction l as [|x l IH]; intros seen; cbn; [done|].
  case_bool_decide; by constructor.
Qed.

Lemma retain_nodup seen l : NoDup ((λ cl, uri (cl_spiffe_id cl)) <$> retain_unseen seen l).
Proof.
  revert seen; induction l as [|x l IH]; intros seen; cbn; [constructor|].
  case_bool_decide; [done|]. cbn. constructor; [|done].
  intros (cl & E & Hcl)%list_elem_of_fmap. apply retain_elem in Hcl as [_ Hn].
  apply Hn, elem_of_union_l, elem_of_singleton. by rewrite E.
Qed.

(** The survivor of an identity is its first claim. *)
Lemma retain_first seen l cl :
  cl ∈ l → uri (cl_spiffe_id cl) ∉ seen →
  ∃ l1 x l2, l = l1 ++ x :: l2 ∧ x ∈ retain_unseen seen l
    ∧ uri (cl_spiffe_id x) = uri (cl_spiffe_id cl) ∧ (cl = x ∨ cl ∈ l2)
    ∧ ∀ y, y ∈ l1 → uri (cl_spiffe_id y) ≠ uri (cl_spiffe_id cl).
Proof.
  revert seen; induction l as [|y l IH]; intros seen Hin Hs; [by apply elem_of_nil in Hin|].
  cbn [retain_unseen].
  destruct (decide (uri (cl_spiffe_id y) = uri (cl_spiffe_id cl))) as [E|E].
  - exists [], y, l. rewrite bool_decide_false by (by rewrite E).
    split_and!; [done|apply elem_of_cons; auto|done| |].
    + apply elem_of_cons in Hin as [->|]; auto.
    + intros ? ?%elem_of_nil. done.
  - apply elem_of_cons in Hin as [->|Hin]; [done|].
    case_bool_decide; [destruct (IH seen Hin Hs) as (l1 & x & l2 & -> & Hx & Eu & Hc & Hn)
                      |destruct (IH ({[uri (cl_spiffe_id y)]} ∪ seen) Hin
                         ltac:(intros [Hu%elem_of_singleton|Hu]%elem_of_union; congruence))
                         as (l1 & x & l2 & -> & Hx & Eu & Hc & Hn)];
      exists (y :: l1), x, l2; (split_and!; [done|first [done|apply elem_of_cons; auto]|done|done|]);
      intros z [->|]%elem_of_cons; auto.
Qed.
End Order.

Lemma sublist_sorted {A} (R : relation A) l1 l2 :
  l1 `sublist_of` l2 → StronglySorted R l2 → StronglySorted R l1.
Proof.
  induction 1 as [|x l1 l2 Hs IH|x l1 l2 _ IH]; intros H; [constructor| |].
  - apply StronglySorted_inv in H as [H Hx]. constructor; [auto|].
    rewrite Forall_forall in Hx |- *. intros y Hy. apply Hx.
    eapply elem_of_submseteq; [exact Hy|by apply sublist_submseteq].
  - apply StronglySorted_inv in H as [H _]. auto.
Qed.

Lemma sublist_filter_bool {A} (f : A → bool) l1 l2 :
  l1 `sublist_of` l2 → List.filter f l1 `sublist_of` List.filter f l2.
Proof.
  induction 1 as [|x l1 l2 _ IH|x l1 l2 _ IH]; cbn; [done|..]; destruct (f x); try done;
    by constructor.
Qed.

(** ** The audience folds *)
Lemma strictest_presence_leb exts p :
  presence_leb (strictest_presence exts) p = true ↔
  ∀ e, e ∈ exts → presence_leb (require_presence e) p = true.
Proof.
  unfold strictest_presence.
  assert (H : ∀ acc, presence_leb (fold_left (λ acc e, presence_max acc (require_presence e)) exts acc) p
      = true ↔ presence_leb acc p = true ∧ ∀ e, e ∈ exts → presence_leb (require_presence e) p = true).
  { induction exts as [|e exts IH]; intros acc; cbn.
    - split; [|by intros []]. intros. split; [done|]. by intros ? ?%elem_of_nil.
    - rewrite IH, presence_max_lub, andb_true_iff. split.
      + intros [[] Hx]. split; [done|]. intros e' [->|]%elem_of_cons; auto.
      + intros [? Hx]. split_and!; [done|apply Hx; set_solver|]. intros. apply Hx. set_solver. }
  rewrite H. split; [by intros []|]. intros. split; [by destruct p|done].
Qed.

Lemma fold_min_lt l a x : x < fold_left Z.min l a ↔ x < a ∧ ∀ b, b ∈ l → x < b.
Proof.
  revert a; induction l as [|b l IH]; intros a; cbn.
  - split; [|by intros []]. intros. split; [done|]. by intros ? ?%elem_of_nil.
  - rewrite IH. split.
    + intros [H1 H2]. split; [lia|]. intros c [->|]%elem_of_cons; [lia|auto].
    + intros [H1 H2]. split; [|intros; apply H2; set_solver].
      specialize (H2 b ltac:(set_solver)). lia.
Qed.

Lemma within_tightest exts age :
  within_max_age age (tightest_age exts) = true ↔
  ∀ e m, e ∈ exts → max_age e = Some m → ∃ a, age = Some a ∧ a < m.
Proof.
  unfold tightest_age. assert (Hm : ∀ m, m ∈ omap max_age exts ↔ ∃ e, e ∈ exts ∧ max_age e = Some m)
    by (intros; apply list_elem_of_omap).
  destruct (omap max_age exts) as [|m0 ms]; cbn.
  - split; [|done]. intros _ e m He Hem.
    pose proof (proj2 (Hm m) ltac:(eauto)) as Hn. by apply elem_of_nil in Hn.
  - destruct age as [a|].
    + rewrite Z.ltb_lt, fold_min_lt. split.
      * intros [H1 H2] e m He Hem. exists a. split; [done|].
        pose proof (proj2 (Hm m) ltac:(eauto)) as Hn. apply elem_of_cons in Hn as [->|]; auto.
      * intros H. split.
        -- destruct (proj1 (Hm m0) ltac:(set_solver)) as (e & He & Hem).
           destruct (H _ _ He Hem) as (? & [= <-] & ?). done.
        -- intros b Hb. destruct (proj1 (Hm b) ltac:(set_solver)) as (e & He & Hem).
           destruct (H _ _ He Hem) as (? & [= <-] & ?). done.
    + split; [done|]. intros H.
      destruct (proj1 (Hm m0) ltac:(set_solver)) as (e & He & Hem).
      by destruct (H _ _ He Hem) as (? & ? & ?).
Qed.

(** ** The handler, piece by piece *)
Section Handler.
Context `{M : Machine W} {R : OsRng W} {P : P256} {J : @JsonWebToken P} {B : Base64} {S : Sha2} {K : Hkdf}
  {N : Numbers}.

(** [a] enumerated [c] in its turn, the loop having started at [w]. *)
Definition enumerated_by (atts : list (Attestor W)) (w : W) (a : Attestor W) (c : Candidate) : Prop :=
  ∃ pre post cs w', atts = pre ++ a :: post
    ∧ at_enumerate a (enumerate_all pre w).2 = (Ok cs, w') ∧ c ∈ cs.

(** Where the world is when the candidate after [pre] is proved: nothing was
    proved before a named identity, and every silent candidate of [pre] was
    when none is named. *)
Definition proof_world (challenge : list byte) (requested : option SpiffeId)
    (pre : list (Attestor W * Candidate)) (w : W) : W :=
  match requested with Some _ => w | None => (prove_silent challenge pre w).2 end.

(** [cl] was derived from the evidence [a] gave for [c] in its turn, the
    proofs having started at [w]. *)
Definition proven_by (challenge : list byte) (requested : option SpiffeId)
    (found : list (Attestor W * Candidate)) (w : W) (a : Attestor W) (c : Candidate)
    (cl : Claim) : Prop :=
  ∃ pre post ev w', found = pre ++ (a, c) :: post
    ∧ at_prove a c challenge (proof_world challenge requested pre w) = (Ok ev, w')
    ∧ derive c challenge ev = Some cl.

Lemma enumerate_all_elem (atts : list (Attestor W)) w a c :
  (a, c) ∈ (enumerate_all atts w).1 → enumerated_by atts w a c.
Proof.
  revert w; induction atts as [|b atts IH]; intros w; cbn [enumerate_all].
  - by intros ?%elem_of_nil.
  - unfold bind, ret. destruct (at_enumerate b w) as [r w1] eqn:Hb.
    specialize (IH w1). destruct (enumerate_all atts w1) as [rest w2]. cbn [fst] in *.
    intros [Hr|Hr]%elem_of_app.
    + destruct r as [cs|]; [|by apply elem_of_nil in Hr].
      apply list_elem_of_fmap in Hr as (c' & [= -> ->] & Hc). by exists [], atts, cs, w1.
    + destruct (IH Hr) as (pre & post & cs & w' & -> & He & Hc).
      exists (b :: pre), post, cs, w'. split_and!; [done| |done].
      cbn [enumerate_all]. unfold bind, ret. rewrite Hb.
      by destruct (enumerate_all pre w1).
Qed.

Lemma prove_silent_elem challenge (found : list (Attestor W * Candidate)) w cl :
  cl ∈ (prove_silent challenge found w).1 →
  ∃ a c, proof_cost c = Silent ∧ proven_by challenge None found w a c cl.
Proof.
  revert w; induction found as [|[a c] found IH]; intros w; cbn [prove_silent].
  - by intros ?%elem_of_nil.
  - case_bool_decide as Hs; cbn [negb].
    + unfold bind, ret. destruct (at_prove a c challenge w) as [r w1] eqn:Hp.
      specialize (IH w1). destruct (prove_silent challenge found w1) as [rest w2].
      cbn [fst] in *. intros [Hr|Hr]%elem_of_app.
      * destruct r as [ev|]; [|by apply elem_of_nil in Hr].
        destruct (derive c challenge ev) as [cl'|] eqn:Hd; [|by apply elem_of_nil in Hr].
        apply list_elem_of_singleton in Hr as ->. exists a, c. split; [done|].
        by exists [], found, ev, w1.
      * destruct (IH Hr) as (a' & c' & Hc & pre & post & ev & w' & -> & Hpr & Hd).
        exists a', c'. split; [done|]. exists ((a, c) :: pre), post, ev, w'.
        split_and!; [done| |done]. cbn [proof_world prove_silent] in *.
        rewrite bool_decide_true by done. unfold bind, ret; cbn [negb]. rewrite Hp.
        by destruct (prove_silent challenge pre w1).
    + intros (a' & c' & Hc & pre & post & ev & w' & -> & Hpr & Hd)%IH.
      exists a', c'. split; [done|]. exists ((a, c) :: pre), post, ev, w'.
      split_and!; [done| |done]. cbn [proof_world prove_silent] in *.
      by rewrite bool_decide_false by done.
Qed.

(** The branch for a named identity: at most one proof, of the first
    candidate with that path, and one claim or the one refusal. *)
Lemma prove_named_cases challenge want (found : list (Attestor W * Candidate)) w :
  match find_first (λ p, String.eqb (c_path p.2) (path want)) found with
  | None => prove_named challenge want found w = (Err deny, w)
  | Some (a, c) =>
      let '(r, w') := at_prove a c challenge w in
      prove_named challenge want found w = (Err deny, w')
      ∨ ∃ ev cl, r = Ok ev ∧ derive c challenge ev = Some cl ∧ cl_spiffe_id cl = want
          ∧ prove_named challenge want found w = (Ok [cl], w')
  end.
Proof.
  unfold prove_named. destruct (find_first _ found) as [[a c]|]; [|done].
  unfold bind, ret. destruct (at_prove a c challenge w) as [[ev|e] w']; cbn [map_err]; [|by left].
  destruct (derive c challenge ev) as [cl|] eqn:Hd; [|by left].
  case_bool_decide; [|by left]. right. eauto 6.
Qed.

Lemma find_first_split {A} (f : A → bool) l x :
  find_first f l = Some x → ∃ pre post, l = pre ++ x :: post.
Proof. intros [H _]%find_first_elem. by apply list_elem_of_split. Qed.

Lemma prove_claims_elem challenge requested (found : list (Attestor W * Candidate)) w claims w' cl :
  prove_claims challenge requested found w = (Ok claims, w') → cl ∈ claims →
  ∃ a c, proven_by challenge requested found w a c cl
    ∧ (requested = None → proof_cost c = Silent)
    ∧ (∀ want, requested = Some want → cl_spiffe_id cl = want).
Proof.
  destruct requested as [want|]; cbn [prove_claims].
  - intros H Hcl. pose proof (prove_named_cases challenge want found w) as Hn.
    destruct (find_first _ found) as [[a c]|] eqn:Hf; [|congruence].
    apply find_first_split in Hf as (pre & post & ->).
    destruct (at_prove a c challenge w) as [r w1] eqn:Hp.
    destruct Hn as [Hn|(ev & cl' & -> & Hd & Hw & Hn)]; [congruence|].
    rewrite Hn in H. injection H as <- <-. apply list_elem_of_singleton in Hcl as ->.
    exists a, c. split_and!; [by exists pre, post, ev, w1|done|by intros ? [= <-]].
  - unfold bind, ret. pose proof (prove_silent_elem challenge found w) as Hs.
    destruct (prove_silent challenge found w) as [proven w1]. intros [= <- <-] Hcl.
    apply retain_elem in Hcl as [Hcl _]. rewrite sort_desc_perm in Hcl.
    destruct (Hs cl Hcl) as (a & c & Hc & Hp). by exists a, c.
Qed.

(** A claim measured at [t] meets one audience's policy. *)
Definition meets (t : SystemTime) (cl : Claim) (e : AudienceExtensions) : Prop :=
  presence_leb (require_presence e) (decayed_presence cl (age_at t cl)) = true
  ∧ (∀ m, max_age e = Some m → ∃ a, age_at t cl = Some a ∧ a < m)
  ∧ (require_presence e ≠ PresenceNone → ∃ a, age_at t cl = Some a ∧ a < 300 * NANOS).

(** The two gates of [issue], folded over the audiences, are each audience's
    policy. *)
Lemma gates_meet exts t cl e :
  within_max_age (age_at t cl) (tightest_age exts) = true →
  presence_ltb (decayed_presence cl (age_at t cl)) (strictest_presence exts) = false →
  e ∈ exts → meets t cl e.
Proof.
  rewrite presence_ltb_nle, negb_false_iff. rewrite within_tightest, strictest_presence_leb.
  intros Hage Hpres He. split_and!; [by apply Hpres|intros m; by apply Hage|]. intros Hreq.
  specialize (Hpres e He). unfold decayed_presence in Hpres.
  change PRESENCE_TTL with (300 * NANOS) in Hpres.
  destruct (age_at t cl) as [a|]; [|by destruct (require_presence e)].
  destruct (Z.ltb_spec a (300 * NANOS)); [eauto|by destruct (require_presence e)].
Qed.

(** And nothing more than that. *)
Lemma gates_exact exts t cl :
  within_max_age (age_at t cl) (tightest_age exts)
    && negb (presence_ltb (decayed_presence cl (age_at t cl)) (strictest_presence exts)) = true
  ↔ Forall (meets t cl) exts.
Proof.
  rewrite andb_true_iff, negb_true_iff, Forall_forall. split.
  - intros [Ha Hp] e. by apply gates_meet.
  - intros H. rewrite presence_ltb_nle, negb_false_iff, within_tightest, strictest_presence_leb.
    split; [intros e m He; by apply (H e He)|intros e He; by apply (H e He)].
Qed.

#[export] Instance worthy_dec exts t cl : Decision (Forall (meets t cl) exts).
Proof.
  destruct (within_max_age (age_at t cl) (tightest_age exts)
    && negb (presence_ltb (decayed_presence cl (age_at t cl)) (strictest_presence exts))) eqn:E;
    [left|right]; rewrite <-gates_exact; congruence.
Defined.

(** What one SVID issued in the world [wt] is. *)
Record issued (s : WorkloadApiService (W := W)) (consumer : ConsumerIdentity)
    (exts : list AudienceExtensions) (now : SystemTime) (wt : W) (cl : Claim) (sv : Jwtsvid) : Prop := {
  issued_meets : ∀ e, e ∈ exts → meets now cl e;
  issued_subject : sv_spiffe_id sv = uri (pseudonymous_id (signer s) (cl_spiffe_id cl) consumer);
  issued_token : sign_jwt_svid (signer s) (sv_spiffe_id sv) (audience <$> exts)
    (claims_to_json (hire_claims cl (decayed_presence cl (age_at now cl))))
    (Machine.now wt).1 = Ok (svid sv);
  issued_hint : hint sv = issue_hint cl (decayed_presence cl (age_at now cl)) (age_at now cl);
}.

Lemma issue_Ok s cl consumer exts now w sv w' :
  issue s cl consumer (audience <$> exts) (strictest_presence exts) (tightest_age exts) now w
    = (Ok sv, w') → issued s consumer exts now w cl sv.
Proof.
  unfold issue. destruct (within_max_age _ _) eqn:Ha; cbn [negb]; [|done].
  destruct (presence_ltb _ _) eqn:Hp; [done|].
  unfold bind, ret. destruct (Machine.now w) as [t w1] eqn:Hn.
  destruct (sign_jwt_svid _ _ _ _ _) as [token|e] eqn:Hs; cbn [map_err]; [|done]. intros [= <- <-].
  constructor; cbn; [intros e; by apply gates_meet|done| |done]. by rewrite Hn.
Qed.

(** A claim that meets every policy is refused only by the signer's key, and
    one that does not by its gate. *)
Lemma issue_Failed s cl consumer exts now w st w' :
  (∀ k c, ∃ t, jwt_encode (mkHeader ES256 k) c (encoding_key (signer s)) = Ok t) →
  issue s cl consumer (audience <$> exts) (strictest_presence exts) (tightest_age exts) now w
    = (Err (Failed st), w') → ¬ Forall (meets now cl) exts ∧ code st = Unauthenticated.
Proof.
  intros Henc. rewrite <-gates_exact. unfold issue.
  destruct (within_max_age _ _); cbn [negb andb]; [|by intros [= <- _]].
  destruct (presence_ltb _ _); cbn [negb]; [by intros [= <- _]|].
  unfold bind, ret. destruct (Machine.now w) as [t w1]. unfold sign_jwt_svid.
  destruct (duration_since t UNIX_EPOCH) as [d|]; cbn; [|done].
  match goal with |- context [jwt_encode (mkHeader ES256 ?k) ?c _] => destruct (Henc k c) as [tok ->] end. done.
Qed.

(** The only panic is the signer's, on a clock before the epoch. *)
Lemma issue_panics s cl consumer exts now w msg w' :
  issue s cl consumer (audience <$> exts) (strictest_presence exts) (tightest_age exts) now w
    = (Err (Panicked msg), w') →
  msg = "system clock before epoch" ∧ (∀ e, e ∈ exts → meets now cl e) ∧ (Machine.now w).1 < 0.
Proof.
  unfold issue. destruct (within_max_age _ _) eqn:Ha; cbn [negb]; [|done].
  destruct (presence_ltb _ _) eqn:Hp; [done|]. unfold bind, ret. destruct (Machine.now w) as [t w1].
  destruct (sign_jwt_svid _ _ _ _ _) as [token|[e|m]] eqn:Hs; cbn; [done..|].
  apply sign_jwt_svid_panics in Hs as [Hc ->]. intros [= <- _].
  split_and!; [done| |done]. intros e. by apply gates_meet.
Qed.

(** [cl] has its turn among [claims] in the world [wt]. *)
Definition has_turn (s : WorkloadApiService (W := W)) (consumer : ConsumerIdentity)
    (exts : list AudienceExtensions) (now : SystemTime) (claims : list Claim) (w : W)
    (cl : Claim) (wt : W) : Prop :=
  ∃ pre post, claims = pre ++ cl :: post
    ∧ wt = (issue_all s pre consumer (audience <$> exts) (strictest_presence exts)
              (tightest_age exts) now w).2.

Lemma has_turn_here s consumer exts now claims w cl :
  has_turn s consumer exts now (cl :: claims) w cl w.
Proof. by exists [], claims. Qed.

Lemma has_turn_next s consumer exts now claims w w1 x r cl wt :
  unwinding (issue s x consumer (audience <$> exts) (strictest_presence exts)
    (tightest_age exts) now) w = (Ok r, w1) →
  has_turn s consumer exts now claims w1 cl wt → has_turn s consumer exts now (x :: claims) w cl wt.
Proof.
  intros Hx (pre & post & -> & ->). exists (x :: pre), post. split; [done|].
  cbn [issue_all]. rewrite (bind_ok _ _ _ _ _ Hx). unfold bind, ret.
  by destruct (issue_all s pre _ _ _ _ _ w1) as [[[]|] ?].
Qed.

Lemma issue_all_panics s claims consumer exts now w e w' :
  issue_all s claims consumer (audience <$> exts) (strictest_presence exts)
    (tightest_age exts) now w = (Err e, w') →
  e = Panicked "system clock before epoch"
  ∧ ∃ cl wt, has_turn s consumer exts now claims w cl wt
      ∧ (∀ e, e ∈ exts → meets now cl e) ∧ (Machine.now wt).1 < 0.
Proof.
  revert w; induction claims as [|cl claims IH]; intros w; cbn [issue_all]; [done|].
  destruct (unwinding (issue s cl consumer (audience <$> exts) (strictest_presence exts)
    (tightest_age exts) now) w) as [[r|e'] w1] eqn:Hi.
  - rewrite (bind_ok _ _ _ _ _ Hi). unfold bind, ret.
    destruct (issue_all _ claims _ _ _ _ _ w1) as [[[svids ref]|e'] w2] eqn:Hr; [done|].
    intros [= -> ->]. destruct (IH _ Hr) as (-> & cl' & wt & Ht & Hc). split; [done|].
    exists cl', wt. split; [by eapply has_turn_next|done].
  - rewrite (bind_err _ _ _ _ _ Hi). intros [= -> ->]. unfold unwinding in Hi.
    destruct (issue _ cl _ _ _ _ _ w) as [[sv|[st|m]] w1] eqn:Hi'; [done..|]. injection Hi as <- <-.
    apply issue_panics in Hi' as [-> Hm]. split; [done|]. exists cl, w.
    split; [apply has_turn_here|done].
Qed.

Lemma issue_all_elem s claims consumer exts now w svids ref w' sv :
  issue_all s claims consumer (audience <$> exts) (strictest_presence exts)
    (tightest_age exts) now w = (Ok (svids, ref), w') → sv ∈ svids →
  ∃ cl wt, has_turn s consumer exts now claims w cl wt ∧ issued s consumer exts now wt cl sv.
Proof.
  revert w svids ref; induction claims as [|cl claims IH]; intros w svids ref; cbn [issue_all].
  - intros [= <- <- _] Hin. by apply elem_of_nil in Hin.
  - intros (r & w1 & Hi & H)%bind_ok_inv. apply bind_ok_inv in H as ([svids' ref'] & w2 & Hrest & H).
    injection H as Hs <-.
    assert (Hlater : sv ∈ svids' → ∃ cl0 wt, has_turn s consumer exts now (cl :: claims) w cl0 wt
      ∧ issued s consumer exts now wt cl0 sv).
    { intros Hin. destruct (IH _ _ _ Hrest Hin) as (cl' & wt & ? & ?). exists cl', wt.
      split; [by eapply has_turn_next|done]. }
    unfold unwinding in Hi.
    destruct (issue _ cl _ _ _ _ _ w) as [[sv'|[st|m]] w1'] eqn:Hi'; [..|done];
      injection Hi as <- <-; injection Hs as <- _; [|auto].
    intros [->|Hin]%elem_of_cons; [|auto].
    exists cl, w. split; [apply has_turn_here|]. by eapply issue_Ok.
Qed.

(** Nothing that deserves an SVID goes without: the loop yields one for each
    claim that meets every policy, in order, and a refusal when there is none. *)
Lemma issue_all_complete s claims consumer exts now w svids ref w' :
  (∀ k c, ∃ t, jwt_encode (mkHeader ES256 k) c (encoding_key (signer s)) = Ok t) →
  issue_all s claims consumer (audience <$> exts) (strictest_presence exts)
    (tightest_age exts) now w = (Ok (svids, ref), w') →
  Forall2 (λ cl sv, ∃ wt, has_turn s consumer exts now claims w cl wt
             ∧ issued s consumer exts now wt cl sv)
    (filter (λ cl, Forall (meets now cl) exts) claims) svids
  ∧ ∀ st, ref = Some st → code st = Unauthenticated.
Proof.
  intros Henc. revert w svids ref; induction claims as [|cl claims IH]; intros w svids ref;
    cbn [issue_all]; [by intros [= <- <- _]|].
  intros (x & w1 & Hi & H)%bind_ok_inv. apply bind_ok_inv in H as ([svids' ref'] & w2 & Hrest & H).
  injection H as Hs <-. destruct (IH _ _ _ Hrest) as [Hf Hst].
  assert (Hf' : Forall2 (λ cl' sv, ∃ wt, has_turn s consumer exts now (cl :: claims) w cl' wt
             ∧ issued s consumer exts now wt cl' sv)
    (filter (λ cl, Forall (meets now cl) exts) claims) svids').
  { eapply Forall2_impl; [exact Hf|]. intros a b (wt & Ht & Hb). exists wt.
    split; [by eapply has_turn_next|exact Hb]. }
  unfold unwinding in Hi. destruct (issue _ cl _ _ _ _ _ w) as [[sv'|[st|m]] w1'] eqn:Hi';
    [..|done]; injection Hi as <- <-; injection Hs as <- <-.
  - pose proof (issue_Ok _ _ _ _ _ _ _ _ Hi') as Hiss.
    rewrite filter_cons_True by (apply Forall_forall, Hiss).
    split; [|done]. constructor; [|done]. exists w. split; [apply has_turn_here|done].
  - apply issue_Failed in Hi' as [Hno Hc]; [|done].
    rewrite filter_cons_False by done. split; [done|]. by intros ? [= <-].
Qed.

(** The selector as the handler parses it. *)
Definition parse_requested (raw : string) : result (option SpiffeId) SpiffeIdError :=
  if is_empty raw then Ok None else let? id := parse_spiffe_id raw in Ok (Some id).

(** A handler that went all the way: what each stage gave. *)
Record answered (s : WorkloadApiService (W := W)) (peer : option PeerIdentity)
    (req : JwtsvidRequest) (w : W) : Type := {
  an_consumer : ConsumerIdentity;
  an_exts : list AudienceExtensions;
  an_requested : option SpiffeId;
  an_challenge : list byte;
  an_world : W;
  an_found : list (Attestor W * Candidate);
  an_proving : W;
  an_attested : (let! p := peer in peer_get p) = Some an_consumer;
  an_parsed : Forall2 (λ a e, parse_audience a = Ok e) (rq_audience req) an_exts;
  an_selector : parse_requested (rq_spiffe_id req) = Ok an_requested;
  an_drawn : new_challenge w = (Ok an_challenge, an_world);
  an_enumerated : enumerate_all (attestors s) an_world = (an_found, an_proving);
}.

#[global] Arguments an_consumer {_ _ _ _} _.
#[global] Arguments an_exts {_ _ _ _} _.
#[global] Arguments an_requested {_ _ _ _} _.
#[global] Arguments an_challenge {_ _ _ _} _.
#[global] Arguments an_world {_ _ _ _} _.
#[global] Arguments an_found {_ _ _ _} _.
#[global] Arguments an_proving {_ _ _ _} _.
#[global] Arguments an_selector {_ _ _ _} _.
#[global] Arguments an_parsed {_ _ _ _} _.
#[global] Arguments an_attested {_ _ _ _} _.

(** The proofs of the request, the instant every claim of the answer is
    measured against, and the world once the clock was read for it. *)
Definition an_proofs {s peer req w} (r : answered s peer req w) : result (list Claim) Status * W :=
  prove_claims (an_challenge r) (an_requested r) (an_found r) (an_proving r).
Definition an_now {s peer req w} (r : answered s peer req w) : SystemTime := (now (an_proofs r).2).1.
Definition an_issuing {s peer req w} (r : answered s peer req w) : W := (now (an_proofs r).2).2.

(** The claim behind an SVID: enumerated and proved in this request. *)
Definition claim_proven {s peer req w} (r : answered s peer req w) (c : Candidate) (cl : Claim) : Prop :=
  ∃ a, enumerated_by (attestors s) (an_world r) a c
    ∧ proven_by (an_challenge r) (an_requested r) (an_found r)
        (an_proving r) a c cl.

(** [cl] was proven in this request and had its turn to be signed for in [wt]. *)
Definition signed_in {s peer req w} (r : answered s peer req w) (cl : Claim) (wt : W) : Prop :=
  ∃ claims, (an_proofs r).1 = Ok claims
    ∧ has_turn s (an_consumer r) (an_exts r) (an_now r) claims (an_issuing r) cl wt.

Lemma signed_proven {s peer req w} (r : answered s peer req w) cl wt :
  signed_in r cl wt →
  ∃ c, claim_proven r c cl ∧ (an_requested r = None → proof_cost c = Silent)
    ∧ (∀ want, an_requested r = Some want → cl_spiffe_id cl = want).
Proof.
  intros (claims & Hcl & pre & post & -> & _). unfold an_proofs in Hcl.
  destruct (prove_claims _ _ _ _) as [res w3] eqn:Hp. cbn [fst] in Hcl. subst res.
  destruct (prove_claims_elem _ _ _ _ _ _ cl Hp ltac:(apply elem_of_app; right; by left))
    as (a & c & Hpr & Hs & Hw).
  exists c. split; [|done]. exists a. split; [|done].
  destruct Hpr as (pre' & post' & ? & ? & E & _). apply enumerate_all_elem.
  rewrite (an_enumerated _ _ _ _ r), E. apply elem_of_app; right; by left.
Qed.

(** A handler that returned no refusal of its own reached the issuing loop. *)
Lemma fetch_stages s peer req w res w' :
  fetch_jwtsvid s peer req w = (res, w') →
  (∃ st, res = Err (Failed st))
  ∨ ∃ (r : answered s peer req w) claims out, (an_proofs r).1 = Ok claims
      ∧ issue_all s claims (an_consumer r) (audience <$> an_exts r) (strictest_presence (an_exts r))
          (tightest_age (an_exts r)) (an_now r) (an_issuing r) = (out, w')
      ∧ match out with Ok (svids, _) => res = Ok svids ∧ svids ≠ [] | Err e => res = Err e end.
Proof.
  unfold fetch_jwtsvid. destruct (match peer with Some p => peer_get p | None => None end)
    as [consumer|] eqn:Hp; [|intros [= <- _]; eauto].
  destruct (rq_audience req) as [|a0 auds] eqn:Hauds; [intros [= <- _]; eauto|].
  unfold bind at 1, ret at 1.
  destruct (collect_results _ _) as [exts|] eqn:Hx; cbn [map_err]; [|intros [= <- _]; eauto].
  apply collect_results_Ok in Hx. rewrite <-Hauds in Hx. unfold bind at 1, ret at 1.
  destruct (parse_requested (rq_spiffe_id req)) as [rq|e] eqn:Hrq; unfold parse_requested in Hrq.
  2: { destruct (is_empty (rq_spiffe_id req)); [done|]. destruct (parse_spiffe_id _); [done|].
       intros [= <- _]; eauto. }
  assert ((if is_empty (rq_spiffe_id req) then Ok None
     else map_err (λ e, Failed (mkStatus InvalidArgument (show_spiffe_error e)))
            (let? id := parse_spiffe_id (rq_spiffe_id req) in Ok (Some id))) = Ok rq) as ->.
  { destruct (is_empty _); [congruence|]. destruct (parse_spiffe_id _); cbn; congruence. }
  unfold bind at 1, failing at 1.
  destruct (new_challenge w) as [[ch|] w1] eqn:Hc; cbn [map_err]; [|intros [= <- _]; eauto].
  unfold bind at 1. destruct (enumerate_all _ w1) as [found w2] eqn:Hen.
  unfold bind at 1, failing at 1.
  pose (r := Build_answered _ _ _ _ consumer exts rq ch w1 found w2 Hp Hx Hrq Hc Hen).
  change (prove_claims ch rq found w2) with (an_proofs r). destruct (an_proofs r) as [[claims|] w3] eqn:Hcl;
    cbn [map_err]; [|intros [= <- _]; eauto].
  unfold bind at 1. destruct (now w3) as [t w4] eqn:Hn. unfold bind at 1.
  destruct (issue_all _ _ _ _ _ _ _ w4) as [out w5] eqn:Hi. intros H.
  assert (w5 = w') as -> by (destruct out as [[[] ?]|]; by injection H).
  destruct (match out with Ok ([], _) => true | _ => false end) eqn:Hb.
  { destruct out as [[[] ?]|]; [|done..]. injection H as <-; eauto. }
  right. exists r, claims, out. unfold an_now, an_issuing. rewrite Hcl; cbn [fst snd]. rewrite Hn.
  split_and!; [done|exact Hi|]. by destruct out as [[[] ?]|]; injection H as <-.
Qed.

Lemma fetch_answered s peer req w svids w' :
  fetch_jwtsvid s peer req w = (Ok svids, w') →
  svids ≠ [] ∧ ∃ r : answered s peer req w, ∀ sv, sv ∈ svids → ∃ cl c wt,
    claim_proven r c cl ∧ signed_in r cl wt
    ∧ issued s (an_consumer r) (an_exts r) (an_now r) wt cl sv
    ∧ (an_requested r = None → proof_cost c = Silent)
    ∧ (∀ want, an_requested r = Some want → cl_spiffe_id cl = want).
Proof.
  intros [[st E]|(r & claims & out & Hcl & Hi & Hout)]%fetch_stages; [done|].
  destruct out as [[svs ref]|e]; [|done]. destruct Hout as [[= <-] Hne].
  split; [done|]. exists r. intros sv Hsv.
  destruct (issue_all_elem _ _ _ _ _ _ _ _ _ _ Hi Hsv) as (cl & wt & Ht & Hiss).
  assert (signed_in r cl wt) as Hsi by (by exists claims).
  destruct (signed_proven r cl wt Hsi) as (c & Hc & Hs & Hw). by exists cl, c, wt.
Qed.

(** Once the claims are there, the answer is the issuing loop's. *)
Lemma fetch_issues s peer req w (r : answered s peer req w) claims :
  rq_audience req ≠ [] → (an_proofs r).1 = Ok claims →
  ∃ w', fetch_jwtsvid s peer req w =
    match (issue_all s claims (an_consumer r) (audience <$> an_exts r)
             (strictest_presence (an_exts r)) (tightest_age (an_exts r)) (an_now r)
             (an_issuing r)).1 with
    | Ok ([], ref) =>
        (Err (Failed (default (mkStatus Unauthenticated "no identity claims available") ref)), w')
    | Ok (svids, _) => (Ok svids, w')
    | Err e => (Err e, w')
    end.
Proof.
  destruct r as [consumer exts rq ch w1 found w2 Hp Hx Hrq Hc Hen]. unfold an_now, an_issuing, an_proofs.
  cbn [an_challenge an_requested an_found an_proving an_consumer an_exts].
  unfold fetch_jwtsvid. rewrite Hp. intros Hne Hcl.
  destruct (rq_audience req) as [|a0 auds]; [done|]. apply collect_results_Ok in Hx.
  unfold parse_requested in Hrq. unfold bind, failing, ret. rewrite Hx; cbn [map_err].
  assert ((if is_empty (rq_spiffe_id req) then Ok None
     else map_err (λ e, Failed (mkStatus InvalidArgument (show_spiffe_error e)))
            (let? id := parse_spiffe_id (rq_spiffe_id req) in Ok (Some id))) = Ok rq) as ->.
  { destruct (is_empty _); [congruence|]. destruct (parse_spiffe_id _); cbn; congruence. }
  rewrite Hc; cbn [map_err]. rewrite Hen. destruct (prove_claims ch rq found w2) as [res w3].
  cbn [fst snd] in *. subst res. cbn [map_err]. destruct (now w3) as [t w4].
  cbn [fst snd]. destruct (issue_all _ _ _ _ _ _ _ w4) as [[[[|] ref]|e] w5]; cbn [fst]; by exists w5.
Qed.

Lemma fetch_panics s peer req w msg w' :
  fetch_jwtsvid s peer req w = (Err (Panicked msg), w') →
  msg = "system clock before epoch"
  ∧ ∃ (r : answered s peer req w) cl c wt, claim_proven r c cl ∧ signed_in r cl wt
      ∧ (∀ e, e ∈ an_exts r → meets (an_now r) cl e) ∧ (now wt).1 < 0.
Proof.
  intros [[st E]|(r & claims & out & Hcl & Hi & Hout)]%fetch_stages; [done|].
  destruct out as [[svs ref]|e]; [by destruct Hout|]. injection Hout as <-.
  apply issue_all_panics in Hi as ([= ->] & cl & wt & Ht & Hm & Hneg). split; [done|].
  assert (signed_in r cl wt) as Hsi by (by exists claims).
  destruct (signed_proven r cl wt Hsi) as (c & Hc & _). by exists r, cl, c, wt.
Qed.
End Handler.

(** ** Interference *)
Section Interference.
Context `{M : Machine W} {R : OsRng W} {P : P256} {J : @JsonWebToken P} {B : Base64} {S : Sha2}
  {K : Hkdf} {N : Numbers}.

(** Two attestors that see the same candidates and answer the same for
    every candidate that cannot prompt. *)
Definition agree_silent (a a' : Attestor W) : Prop :=
  (∀ w, at_enumerate a w = at_enumerate a' w)
  ∧ ∀ c challenge w, proof_cost c = Silent →
      at_prove a c challenge w = at_prove a' c challenge w.

Definition same_candidate (p p' : Attestor W * Candidate) : Prop :=
  p.2 = p'.2 ∧ agree_silent p.1 p'.1.

Lemma enumerate_all_agree atts atts' w :
  Forall2 agree_silent atts atts' →
  Forall2 same_candidate (enumerate_all atts w).1 (enumerate_all atts' w).1
  ∧ (enumerate_all atts w).2 = (enumerate_all atts' w).2.
Proof.
  intros H; revert w; induction H as [|a a' atts atts' Ha _ IH]; intros w; [done|].
  cbn [enumerate_all]. unfold bind, ret. rewrite (proj1 Ha w).
  destruct (at_enumerate a' w) as [r w1]. destruct (IH w1) as [Hf Hw].
  destruct (enumerate_all atts w1) as [f w2], (enumerate_all atts' w1) as [f' w2'].
  cbn [fst snd] in *. split; [|done]. apply Forall2_app; [|done].
  destruct r as [cs|]; [|constructor].
  induction cs as [|c cs IHc]; cbn; constructor; [by split|exact IHc].
Qed.

Lemma prove_silent_agree challenge found found' w :
  Forall2 same_candidate found found' →
  prove_silent challenge found w = prove_silent challenge found' w.
Proof.
  intros H; revert w; induction H as [|[a c] [a' c'] f f' [E Ha] _ IH]; intros w; [done|].
  cbn in E, Ha. subst c'. cbn [prove_silent]. case_bool_decide as Hs; cbn [negb]; [|apply IH].
  unfold bind. rewrite (proj2 Ha c challenge w Hs).
  destruct (at_prove a' c challenge w) as [r w1]. by rewrite IH.
Qed.

Lemma issue_all_signer (s s' : WorkloadApiService (W := W)) claims consumer auds rp ma t w :
  signer s = signer s' →
  issue_all s claims consumer auds rp ma t w = issue_all s' claims consumer auds rp ma t w.
Proof.
  intros E. revert w; induction claims as [|cl claims IH]; intros w; [done|].
  cbn [issue_all]. assert (issue s cl consumer auds rp ma t w = issue s' cl consumer auds rp ma t w)
    as Ei by (unfold issue; by rewrite E).
  unfold bind, unwinding. rewrite Ei.
  destruct (issue s' cl consumer auds rp ma t w) as [[sv|[st|m]] w1]; [..|done]; by rewrite IH.
Qed.
End Interference.

(** ** Properties *)

Section Properties.
Context `{M : Machine W} {R : OsRng W} {P : P256} {J : @JsonWebToken P} {B : Base64} {S : Sha2}
  {K : Hkdf} {N : Numbers}.

(** C1: every SVID in an answer meets every policy in the request.  If the
    handler answers at all it answers a caller that was attested, every
    audience string parsed, and each SVID comes from a claim proven in this
    request whose presence — decayed to none once the observation is 300
    seconds old or cannot be dated — is at least what every one of the
    audiences requires, and whose observation is measurably and strictly
    younger than every bound any of them names, all at one reading of the
    clock.  No audience added to a request can loosen another's. *)
Theorem fetch_meets_every_policy (s : WorkloadApiService (W := W)) peer req w svids w' :
  fetch_jwtsvid s peer req w = (Ok svids, w') →
  svids ≠ [] ∧ ∃ r : answered s peer req w, ∀ sv, sv ∈ svids → ∃ cl c,
    claim_proven r c cl
    ∧ sv_spiffe_id sv = uri (pseudonymous_id (signer s) (cl_spiffe_id cl) (an_consumer r))
    ∧ ∀ e, e ∈ an_exts r → meets (an_now r) cl e.
Proof.
  intros [Hne (r & Hr)]%fetch_answered. split; [done|]. exists r.
  intros sv (cl & c & wt & Hc & _ & Hi & _)%Hr. exists cl, c. split_and!; [done|apply Hi|].
  by apply Hi.
Qed.

(** C2: nothing is issued without proof, and nothing but pseudonyms is.
    Each SVID's claim was derived from evidence one of the daemon's
    attestors gave in its turn, in this request, for the challenge drawn in
    this request, about a candidate that attestor enumerated in this request;
    the subject and the signed token carry only the consumer's pseudonym of
    the proven identity — never its URI — together with the levels of that
    claim; when an identity was named it is that one exactly, and when none
    was, the candidate is one whose proof cannot prompt. *)
Theorem fetch_issues_only_proven_identities (s : WorkloadApiService (W := W)) peer req w svids w' :
  fetch_jwtsvid s peer req w = (Ok svids, w') →
  ∃ r : answered s peer req w, ∀ sv, sv ∈ svids → ∃ cl c wt,
    claim_proven r c cl ∧ signed_in r cl wt
    ∧ issued s (an_consumer r) (an_exts r) (an_now r) wt cl sv
    ∧ (rq_spiffe_id req = "" → proof_cost c = Silent)
    ∧ (rq_spiffe_id req ≠ "" → parse_spiffe_id (rq_spiffe_id req) = Ok (cl_spiffe_id cl)).
Proof.
  intros [_ (r & Hall)]%fetch_answered. exists r.
  intros sv (cl & c & wt & Hc & Ht & Hi & Hs & Hw)%Hall. exists cl, c, wt.
  pose proof (an_selector r) as Hr. unfold parse_requested in Hr. split_and!; [done..| |].
  - intros E. rewrite E in Hr. cbn in Hr. injection Hr as Hr. by apply Hs.
  - intros E. destruct (is_empty (rq_spiffe_id req)) eqn:Ee; [by apply is_empty_true in Ee|].
    destruct (parse_spiffe_id (rq_spiffe_id req)) as [id|]; [|done].
    injection Hr as Hr. by rewrite (Hw id).
Qed.

(** C23: whoever deserves an SVID gets one.  Once a request has been parsed
    and its identities proven, and given a key the JWT crate can sign with,
    the handler issues one SVID for each proven claim that meets the policy of
    every audience, in the order of the claims; it refuses, as
    unauthenticated, exactly when no proven claim does; and it answers nothing
    at all only if the clock was before the epoch when one that does was to be
    signed for.  No refused claim costs another its SVID. *)
Theorem fetch_issues_every_worthy_claim (s : WorkloadApiService (W := W)) peer req w
    (r : answered s peer req w) claims :
  rq_audience req ≠ [] → (an_proofs r).1 = Ok claims →
  (∀ k c, ∃ t, jwt_encode (mkHeader ES256 k) c (encoding_key (signer s)) = Ok t) →
  let worthy := filter (λ cl, Forall (meets (an_now r) cl) (an_exts r)) claims in
  match (fetch_jwtsvid s peer req w).1 with
  | Ok svids => worthy ≠ []
      ∧ Forall2 (λ cl sv, ∃ wt, signed_in r cl wt
                   ∧ issued s (an_consumer r) (an_exts r) (an_now r) wt cl sv) worthy svids
  | Err (Failed st) => worthy = [] ∧ code st = Unauthenticated
  | Err (Panicked _) => ∃ cl wt, cl ∈ worthy ∧ signed_in r cl wt ∧ (now wt).1 < 0
  end.
Proof.
  intros Hne Hcl Henc worthy. destruct (fetch_issues s peer req w r claims Hne Hcl) as [w' ->].
  destruct (issue_all s claims _ _ _ _ _ (an_issuing r)) as [[[svids ref]|e] w2] eqn:Hi; cbn [fst].
  - apply issue_all_complete in Hi as [Hf' Hst]; [|done]. fold worthy in Hf'.
    assert (Hf : Forall2 (λ cl sv, ∃ wt, signed_in r cl wt
        ∧ issued s (an_consumer r) (an_exts r) (an_now r) wt cl sv) worthy svids).
    { eapply Forall2_impl; [exact Hf'|]. intros a b (wt & Ht & Hb). exists wt. split; [by exists claims|done]. }
    destruct svids as [|sv svids]; cbn [fst].
    + apply Forall2_nil_inv_r in Hf. split; [done|]. destruct ref as [st|]; [by apply Hst|done].
    + split; [|done]. intros E. rewrite E in Hf. by apply Forall2_nil_inv_l in Hf.
  - apply issue_all_panics in Hi as (-> & cl & wt & Ht & Hm & Hc). cbn [fst].
    exists cl, wt. split_and!; [|exists claims; split; [exact Hcl|exact Ht]|done].
    apply list_elem_of_filter. split; [by apply Forall_forall|].
    destruct Ht as (pre & post & -> & _). apply elem_of_app. right. by left.
Qed.

(** C16: a caller the daemon cannot name learns nothing and causes nothing:
    whatever it asks, well formed or not, it gets one fixed refusal and the
    world is untouched — no randomness drawn, no attestor asked, no clock
    read.  An attested caller whose audiences or selector do not parse is
    refused in the same way before anything happens; for the selector, the
    reply is the parse error's own text, the authority it was given
    included.  And the handler panics in one case only: the clock the signer
    reads for a claim that passed every gate is before the epoch. *)
Theorem fetch_refuses_before_effects (s : WorkloadApiService (W := W)) peer req w :
  ((let! p := peer in peer_get p) = None →
     fetch_jwtsvid s peer req w =
       (Err (Failed (mkStatus Unauthenticated "consumer could not be attested")), w))
  ∧ (∀ consumer, (let! p := peer in peer_get p) = Some consumer →
       rq_audience req = [] ∨ (∃ a e, a ∈ rq_audience req ∧ parse_audience a = Err e)
       ∨ (∃ e, parse_requested (rq_spiffe_id req) = Err e) →
       ∃ msg, fetch_jwtsvid s peer req w = (Err (Failed (mkStatus InvalidArgument msg)), w))
  ∧ (∀ consumer exts e, (let! p := peer in peer_get p) = Some consumer →
       rq_audience req ≠ [] → Forall2 (λ a x, parse_audience a = Ok x) (rq_audience req) exts →
       parse_requested (rq_spiffe_id req) = Err e →
       fetch_jwtsvid s peer req w = (Err (Failed (mkStatus InvalidArgument (show_spiffe_error e))), w))
  ∧ (∀ msg w', fetch_jwtsvid s peer req w = (Err (Panicked msg), w') →
       msg = "system clock before epoch"
       ∧ ∃ (r : answered s peer req w) cl c wt, claim_proven r c cl ∧ signed_in r cl wt
           ∧ (∀ e, e ∈ an_exts r → meets (an_now r) cl e) ∧ (now wt).1 < 0).
Proof.
  split; [by unfold fetch_jwtsvid; intros ->|]. split; [|split; [|by apply fetch_panics]].
  all: unfold fetch_jwtsvid.
  2: { intros consumer exts e -> Hne Hx He. apply collect_results_Ok in Hx.
    destruct (rq_audience req) as [|a0 auds]; [done|]. rewrite Hx. unfold bind, ret; cbn [map_err].
    unfold parse_requested in He. destruct (is_empty (rq_spiffe_id req)); [done|].
    destruct (parse_spiffe_id (rq_spiffe_id req)); [done|]. by injection He as ->. }
  intros consumer -> Hbad.
  destruct (rq_audience req) as [|a0 auds] eqn:Hauds; [by eexists|].
  destruct (collect_results parse_audience (a0 :: auds)) as [exts|e] eqn:Hx;
    [|by eexists].
  destruct Hbad as [?|[(a & e & Ha & He)|[e He]]]; [done| |].
  - exfalso. apply collect_results_Ok in Hx.
    apply list_elem_of_lookup in Ha as [i Hi].
    destruct (Forall2_lookup_l _ _ _ _ _ Hx Hi) as (x & _ & Hp). congruence.
  - unfold parse_requested in He. unfold bind, ret; cbn [map_err].
    destruct (is_empty (rq_spiffe_id req)); [done|].
    destruct (parse_spiffe_id (rq_spiffe_id req)) as [id|e']; [done|]. by eexists.
Qed.

(** C4: an unnamed request cannot prompt anybody.  Replace what every
    attestor does when asked to prove a candidate that may prompt — by
    anything, including doing it and recording it — and the answer to a
    request that names no identity, and the world it leaves, are the same:
    such a proof is never attempted. *)
Theorem unnamed_fetch_never_prompts (s s' : WorkloadApiService (W := W)) peer req w :
  signer s = signer s' → Forall2 agree_silent (attestors s) (attestors s') →
  rq_spiffe_id req = "" →
  fetch_jwtsvid s peer req w = fetch_jwtsvid s' peer req w.
Proof.
  intros Hs Hag Hr. unfold fetch_jwtsvid. rewrite Hr.
  destruct (match peer with Some p => peer_get p | None => None end) as [consumer|]; [|done].
  destruct (rq_audience req) as [|a0 auds]; [done|]. unfold bind, failing, ret. cbn [is_empty].
  destruct (collect_results parse_audience (a0 :: auds)) as [exts|]; cbn [map_err]; [|done].
  destruct (new_challenge w) as [[ch|e] w1]; cbn [map_err]; [|done].
  pose proof (enumerate_all_agree _ _ w1 Hag) as [Hf Hw].
  destruct (enumerate_all (attestors s) w1) as [found w2],
           (enumerate_all (attestors s') w1) as [found' w2']. cbn [fst snd] in Hf, Hw. subst w2'.
  cbn [prove_claims]. unfold bind, ret. rewrite (prove_silent_agree ch found found' w2 Hf).
  destruct (prove_silent ch found' w2) as [proven w3]; cbn [map_err].
  destruct (now w3) as [t w4]. by rewrite (issue_all_signer s s').
Qed.

(** C14: naming an identity buys one proof and one answer.  The branch for a
    named identity asks at most one attestor, once, about the first
    candidate carrying that path, so its only effect is that proof's; it
    yields either the single claim whose proven SPIFFE ID is the one named,
    or the one refusal, the same for an unknown identity, a declined proof,
    evidence that does not bind and a proof of another identity. *)
Theorem named_fetch_is_one_proof challenge want (found : list (Attestor W * Candidate)) w :
  ((prove_claims challenge (Some want) found w).1 = Err deny
   ∨ ∃ cl a c, (prove_claims challenge (Some want) found w).1 = Ok [cl] ∧ cl_spiffe_id cl = want
       ∧ proven_by challenge (Some want) found w a c cl)
  ∧ (prove_claims challenge (Some want) found w).2 =
      match find_first (λ p, String.eqb (c_path p.2) (path want)) found with
      | None => w
      | Some (a, c) => (at_prove a c challenge w).2
      end.
Proof.
  cbn [prove_claims]. pose proof (prove_named_cases challenge want found w) as H.
  destruct (find_first _ found) as [[a c]|] eqn:Hf; [|rewrite H; cbn; auto].
  apply find_first_split in Hf as (pre & post & ->).
  destruct (at_prove a c challenge w) as [r w1] eqn:Hp.
  destruct H as [->|(ev & cl & -> & Hd & Hw & ->)]; cbn [fst snd]; [auto|]. split; [|done].
  right. exists cl, a, c. split_and!; [done..|]. by exists pre, post, ev, w1.
Qed.

(** C15: the list a caller with no selector gets is best first, complete and
    without duplicates: assurance never rises along it, no SPIFFE ID occurs
    twice, every proven claim's identity is in it at an assurance at least
    as high, and claims of one assurance keep the order the attestors were
    registered in. *)
Theorem unnamed_claims_best_first (proven : list Claim) :
  let out := retain_unseen ∅ (sort_desc proven) in
  StronglySorted at_least out
  ∧ NoDup ((λ cl, uri (cl_spiffe_id cl)) <$> out)
  ∧ (∀ cl, cl ∈ out → cl ∈ proven)
  ∧ (∀ cl, cl ∈ proven → ∃ best, best ∈ out
       ∧ uri (cl_spiffe_id best) = uri (cl_spiffe_id cl) ∧ at_least best cl)
  ∧ (∀ a, List.filter (level a) out `sublist_of` List.filter (level a) proven).
Proof.
  cbv zeta. pose proof (sort_desc_sorted proven) as Hsort. split_and!.
  - eapply sublist_sorted; [apply retain_sublist|done].
  - apply retain_nodup.
  - intros cl [Hcl _]%retain_elem. by rewrite sort_desc_perm in Hcl.
  - intros cl Hcl. destruct (retain_first ∅ (sort_desc proven) cl) as (l1 & x & l2 & E & Hx & Hu & Hc & _).
    { by rewrite sort_desc_perm. } { apply not_elem_of_empty. }
    exists x. split_and!; [done..|]. rewrite E in Hsort.
    destruct Hc as [->|Hc]; [unfold at_least; by destruct (cl_assurance x)|].
    apply StronglySorted_app_1_r in Hsort as Hs. apply StronglySorted_inv in Hs as [_ Hs].
    by eapply Forall_forall in Hs.
  - intros a. rewrite <-(sort_desc_level a proven). apply sublist_filter_bool, retain_sublist.
Qed.
End Properties.

(** ** A daemon with one account, for the witnesses *)
#[local] Existing Instance toy_sha2.
#[local] Existing Instance toy_hkdf.
#[export] Instance script_rng : OsRng Script := λ w, (Ok (replicate 32 "055"%char), w).
#[export] Instance plain_numbers : Numbers :=
  {| number_as_f64 := λ n, match n with NPosInt n | NNegInt n | NFloat n => Some n end;
     number_to_string := λ _, "" |}.

Definition demo_account : Attestor Script := unix_attestor (mkUnix 1000 "alice").
Definition demo_service : WorkloadApiService (W := Script) (P := toy_p256) :=
  mkService toy_signer (upsert (local_bundle SshLocal toy_signer) store_new) [demo_account].
Definition demo_peer : option PeerIdentity := Some (mkPeer (Some (SnapName "app"))).
Definition demo_request : JwtsvidRequest :=
  mkJwtsvidRequest ["https://api.example/?hire_max_age=60"; "https://b.example"] "".
Abbreviation demo_fetch := (fetch_jwtsvid demo_service demo_peer demo_request demo_box).
Definition demo_svids : list Jwtsvid := match demo_fetch.1 with Ok l => l | Err _ => [] end.

Lemma demo_fetch_ok : demo_fetch = (Ok demo_svids, demo_fetch.2).
Proof.
  assert (is_ok demo_fetch.1 = true) as H by (vm_compute; reflexivity).
  unfold demo_svids. destruct demo_fetch as [[l|e] w]; [done|discriminate H].
Qed.

Lemma fetch_meets_every_policy_witness :
  demo_svids ≠ [] ∧ ∃ r : answered demo_service demo_peer demo_request demo_box,
    ∀ sv, sv ∈ demo_svids → ∃ cl c,
      claim_proven r c cl
      ∧ sv_spiffe_id sv
          = uri (pseudonymous_id (signer demo_service) (cl_spiffe_id cl) (an_consumer r))
      ∧ ∀ e, e ∈ an_exts r → meets (an_now r) cl e.
Proof.
  exact (fetch_meets_every_policy demo_service demo_peer demo_request demo_box demo_svids
    demo_fetch.2 demo_fetch_ok).
Defined.

Lemma fetch_issues_only_proven_identities_witness :
  ∃ r : answered demo_service demo_peer demo_request demo_box, ∀ sv, sv ∈ demo_svids → ∃ cl c wt,
    claim_proven r c cl ∧ signed_in r cl wt
    ∧ issued demo_service (an_consumer r) (an_exts r) (an_now r) wt cl sv
    ∧ (rq_spiffe_id demo_request = "" → proof_cost c = Silent)
    ∧ (rq_spiffe_id demo_request ≠ "" →
         parse_spiffe_id (rq_spiffe_id demo_request) = Ok (cl_spiffe_id cl)).
Proof.
  exact (fetch_issues_only_proven_identities demo_service demo_peer demo_request demo_box
    demo_svids demo_fetch.2 demo_fetch_ok).
Defined.

(** The request of [demo_box], whose one claim is worthy. *)
Lemma fetch_issues_every_worthy_claim_witness :
  ∃ (r : answered demo_service demo_peer demo_request demo_box) claims,
    (an_proofs r).1 = Ok claims ∧ ∃ cl sv wt, cl ∈ claims ∧ sv ∈ demo_svids ∧ signed_in r cl wt.
Proof.
  destruct (fetch_stages _ _ _ _ _ _ demo_fetch_ok) as [[st E]|(r & claims & out & Hcl & _ & _)];
    [discriminate E|].
  assert (∀ k c, ∃ t, jwt_encode (JsonWebToken := toy_jwt) (mkHeader ES256 k) c
            (encoding_key (signer demo_service)) = Ok t) as Henc.
  { intros k c. eexists. reflexivity. }
  pose proof (fetch_issues_every_worthy_claim demo_service demo_peer demo_request demo_box r claims
    ltac:(discriminate) Hcl Henc) as H.
  cbv zeta in H. rewrite demo_fetch_ok in H. cbn [fst] in H. destruct H as [Hne Hf].
  exists r, claims. split; [exact Hcl|].
  destruct Hf as [|cl sv worthy svids (wt & Hs & _) _]; [by destruct Hne|].
  exists cl, sv, wt. split; [|split; [by left|exact Hs]].
  destruct Hs as (claims' & Hcl' & pre & post & E & _). rewrite Hcl in Hcl'. injection Hcl' as <-.
  rewrite E. apply elem_of_app. right. by left.
Defined.


(** An attestor whose candidate may prompt, with what asking it does. *)
Definition prompting (tap : ST Script (result (list Evidence) AttestorError)) : Attestor Script :=
  mkAttestor "fido2" (ret (Ok [candidate_new "fido2" SaSshLocal "fido2/1" "key"]))
    (λ c _, match proof_cost c with Interactive => tap | Silent => ret (Err (Io "none")) end)
    default_freshness.

Lemma unnamed_fetch_never_prompts_witness :
  let quiet := mkService toy_signer store_new [demo_account; prompting (ret (Err (Io "no")))] in
  let noisy := mkService toy_signer store_new
    [demo_account; prompting (λ w, (Ok [HardwarePresence (mkTouch 0)], log_command ["tap"] w))] in
  fetch_jwtsvid quiet demo_peer demo_request demo_box
  = fetch_jwtsvid noisy demo_peer demo_request demo_box.
Proof.
  apply unnamed_fetch_never_prompts; [reflexivity| |reflexivity].
  constructor; [split; reflexivity|]. constructor; [|constructor].
  split; [reflexivity|]. intros c ch w Hc. cbn. rewrite Hc. reflexivity.
Defined.
