(* ===== verification/ValidateSpec.v ===== *)
(** * What [ValidateJWTSVID] guarantees

    Soundness of validation, the round trip from issuance, and the domains
    whose tokens it cannot accept. *)
From S2P Require Import Prelude RustStr RustNum External Assurance SpiffeId Consumer Pseudonym Audience Hint Json Jwt Signer TrustBundle Claim Machine ConsumerAttest Toy Unix Attestor Service ServiceSpec Validate.
Local Open Scope Z_scope.

Section Validation.
Context `{M : Machine W} {P : P256} {J : @JsonWebToken P} {B : Base64} {S : Sha2} {K : Hkdf}
  {N : Numbers}.

(** Every stage of a validation that answered. *)
Lemma validate_inv (s : WorkloadApiService (W := W)) req w resp w' :
  validate_jwtsvid s req w = (Ok resp, w') →
  ∃ header claims k claimed b key payload id,
    vr_svid req ≠ "" ∧ vr_audience req ≠ ""
    ∧ insecure_decode (vr_svid req) = Some (header, claims)
    ∧ h_kid header = Some k ∧ claimed_id claims = Some claimed
    ∧ store_get (trust_domain claimed) (bundles s) = Some b
    ∧ jwt_decoding_key b k = Some key
    ∧ jwt_decode (vr_svid req) key (mkValidation ES256 [vr_audience req] 0) (as_secs (now w).1)
        = Some payload
    ∧ claimed_id payload = Some id ∧ trust_domain id = trust_domain claimed
    ∧ resp = mkValidateResponse (uri id) (claims_struct payload).
Proof.
  unfold validate_jwtsvid. destruct (is_empty (vr_svid req)) eqn:E1; [done|].
  destruct (is_empty (vr_audience req)) eqn:E2; [done|]. intros H.
  apply bind_ok_inv in H as ([header claims] & ? & [Hd ->]%ok_or_inv & H).
  apply bind_ok_inv in H as (k & ? & [Hk ->]%ok_or_inv & H).
  apply bind_ok_inv in H as (claimed & ? & [Hc ->]%ok_or_inv & H).
  apply bind_ok_inv in H as (b & ? & [Hb ->]%ok_or_inv & H).
  apply bind_ok_inv in H as (key & ? & [Hkey ->]%ok_or_inv & H).
  unfold now_secs, bind at 1 2, ret at 1 in H. destruct (now w) as [t w1] eqn:Hn.
  apply bind_ok_inv in H as (payload & ? & [Hp ->]%ok_or_inv & H).
  apply bind_ok_inv in H as (id & ? & [Hid ->]%ok_or_inv & H).
  case_bool_decide as Htd; [|done]. injection H as <- <-.
  exists header, claims, k, claimed, b, key, payload, id.
  split_and!; try done; by intros E; rewrite E in *.
Qed.

(** One refusal for every token that is refused. *)
Lemma validate_errors (s : WorkloadApiService (W := W)) req w st w' :
  validate_jwtsvid s req w = (Err st, w') → vr_svid req ≠ "" → vr_audience req ≠ "" → st = reject.
Proof.
  unfold validate_jwtsvid. intros H H1 H2.
  destruct (is_empty (vr_svid req)) eqn:E1; [by apply is_empty_true in E1|].
  destruct (is_empty (vr_audience req)) eqn:E2; [by apply is_empty_true in E2|].
  unfold bind, ret, now_secs, ok_or in H.
  destruct (insecure_decode (vr_svid req)) as [[header claims]|]; [|congruence].
  destruct (h_kid header) as [k|]; [|congruence].
  destruct (claimed_id claims) as [claimed|]; [|congruence].
  destruct (store_get _ _) as [b|]; [|congruence].
  destruct (jwt_decoding_key b k) as [key|]; [|congruence].
  unfold bind in H. destruct (now w) as [t w1]. unfold ret in H.
  match type of H with context [jwt_decode ?a ?b ?c ?d] =>
    destruct (jwt_decode a b c d) as [j|]; [|congruence] end.
  destruct (claimed_id j) as [id|]; [|congruence].
  case_bool_decide; cbn in H; congruence.
Qed.

(** The key pair law: the public coordinates a signer publishes give the
    decoding half of its own key. *)
Definition published_pair (pair : EncodingKey → DecodingKey → Prop) (s : SvidSigner) : Prop :=
  ∃ dk, from_jwk (mkJwk (Some (kid s)) (AlgEC CurveP256 (public_xy s).1 (public_xy s).2)) = Some dk
    ∧ pair (encoding_key s) dk.

Lemma claimed_of_claims id auds ext t :
  td_canonical (trust_domain id) = true → path id ≠ "" →
  claimed_id (to_value (jwt_claims (uri id) auds ext t)) = Some id.
Proof.
  intros Ht Hp. unfold claimed_id. rewrite jwt_claims_spiffe_id. by rewrite parse_uri.
Qed.

(** A token of this daemon, in the hands of its own validator. *)
Lemma validate_issued pair (s : WorkloadApiService (W := W)) id auds ext t0 token aud w :
  insecure_decode_encode → decode_encode pair → integral_dates → jwkset_parses →
  b64url_roundtrip B → signer_wf (signer s) → published_pair pair (signer s) →
  td_canonical (trust_domain id) = true → path id ≠ "" →
  store_get (trust_domain id) (bundles s) = Some (local_bundle (trust_domain id) (signer s)) →
  sign_jwt_svid (signer s) (uri id) auds ext t0 = Ok token → token ≠ "" →
  aud ∈ auds → aud ≠ "" → 0 ≤ (now w).1 → as_secs (now w).1 ≤ as_secs t0 + 300 →
  (validate_jwtsvid s (mkValidateRequest aud token) w).1 =
    Ok (mkValidateResponse (uri id)
          (claims_struct (to_value (jwt_claims (uri id) auds ext (as_secs t0))))).
Proof.
  intros Hide Hde Hnd Hjp Hb Hwf (dk & Hdk & Hpair) Htd Hpath Hstore Hsign Hne Ha Hae H0 Ht.
  apply sign_jwt_svid_Ok in Hsign as [Ht0 Henc]. unfold validate_jwtsvid; cbn [vr_svid vr_audience].
  rewrite !is_empty_false by done.
  rewrite (Hide _ _ _ _ Henc); cbn [ok_or]. unfold bind, ret; cbn [h_kid ok_or].
  rewrite claimed_of_claims by done; cbn [ok_or]. rewrite Hstore; cbn [ok_or].
  rewrite local_decoding_key, String.eqb_refl, Hdk by done; cbn [ok_or].
  unfold now_secs, bind, ret. destruct (now w) as [t w1]. cbn [fst] in Ht, H0.
  rewrite (Hde _ _ _ dk (mkValidation ES256 [aud] 0) (as_secs t) _ Henc Hpair).
  - cbn [ok_or]. rewrite claimed_of_claims by done; cbn [ok_or]. by rewrite bool_decide_true.
  - done.
  - eexists. apply jwt_claims_aud_of.
  - apply jwt_claims_aud. exists aud. split; [done|by apply list_elem_of_singleton].
  - by apply Z.div_pos.
  - rewrite jwt_claims_exp by (try apply Z.div_pos; done). cbn [leeway]. apply Z.leb_le. lia.
Qed.

(** A token of a trust domain the store has no bundle for. *)
Lemma validate_unpublished (s : WorkloadApiService (W := W)) id auds ext t0 token aud w :
  insecure_decode_encode → td_canonical (trust_domain id) = true → path id ≠ "" →
  store_get (trust_domain id) (bundles s) = None →
  sign_jwt_svid (signer s) (uri id) auds ext t0 = Ok token → token ≠ "" → aud ≠ "" →
  validate_jwtsvid s (mkValidateRequest aud token) w = (Err reject, w).
Proof.
  intros Hide Htd Hpath Hstore Hsign Hnt Ha. apply sign_jwt_svid_Ok in Hsign as [_ Henc].
  unfold validate_jwtsvid; cbn [vr_svid vr_audience].
  rewrite !is_empty_false by done.
  rewrite (Hide _ _ _ _ Henc). unfold bind, ret; cbn [ok_or h_kid].
  rewrite claimed_of_claims by done. cbn [ok_or]. by rewrite Hstore.
Qed.

(** A token asked about for another audience, or too late. *)
Lemma validate_refused (s : WorkloadApiService (W := W)) id auds ext t0 token aud w :
  insecure_decode_encode → decode_sound → integral_dates →
  sign_jwt_svid (signer s) (uri id) auds ext t0 = Ok token →
  aud ∉ auds ∨ as_secs t0 + 300 < as_secs (now w).1 →
  ∃ st, (validate_jwtsvid s (mkValidateRequest aud token) w).1 = Err st.
Proof.
  intros Hide Hds Hnd [Ht0 Henc]%sign_jwt_svid_Ok Hbad.
  destruct (validate_jwtsvid s (mkValidateRequest aud token) w) as [[resp|st] w'] eqn:Hv;
    [|by eexists].
  apply validate_inv in Hv as (h & c & k & claimed & b & key & pl & id' & _ & _ & Hd & _ & _ & _
    & _ & Hj & _). cbn [vr_svid vr_audience] in *.
  destruct (Hds _ _ _ _ _ Hj) as ([h' Hd'] & Ha & He).
  assert (pl = to_value (jwt_claims (uri id) auds ext (as_secs t0))) as -> by (specialize (Hide _ _ _ _ Henc); congruence).
  exfalso. destruct Hbad as [Hbad|Hbad].
  - apply jwt_claims_aud in Ha as (a & Hin & Ha). apply list_elem_of_singleton in Ha as ->. done.
  - rewrite jwt_claims_exp in He by (try apply Z.div_pos; done). cbn [leeway] in He. zify_bool. lia.
Qed.

(** ** Properties *)

(** What an answer of [ValidateJWTSVID] vouches for at second [t]: a token
    verified under a published key of its own trust domain. *)
Definition vouched (s : WorkloadApiService (W := W)) (req : ValidateRequest) (t : Z)
    (id : SpiffeId) (payload : json) : Prop :=
  ∃ header k b key,
    insecure_decode (vr_svid req) = Some (header, payload) ∧ h_kid header = Some k
    ∧ claimed_id payload = Some id ∧ store_get (trust_domain id) (bundles s) = Some b
    ∧ jwt_decoding_key b k = Some key
    ∧ jwt_decode (vr_svid req) key (mkValidation ES256 [vr_audience req] 0) t = Some payload
    ∧ (∀ auds, aud_of payload = Some auds → vr_audience req ∈ auds)
    ∧ ∃ n e, json_get "exp" payload = Some (JNum n) ∧ numeric_date n = Some e ∧ t ≤ e.

(** C3: what validation vouches for was signed by a published key.  If the
    handler answers, the token verified — unexpired at this very second,
    with no leeway, and for the audience asked about if it names any — under
    the key that the bundle of the trust domain its verified claims name
    publishes for its [kid], and the SPIFFE ID returned is the one in the
    verified claims.  Every refusal of a non-empty request is the same
    status. *)
Theorem validation_is_sound (s : WorkloadApiService (W := W)) req w resp w' :
  decode_sound → validate_jwtsvid s req w = (Ok resp, w') →
  (∃ id payload, vouched s req (as_secs (now w).1) id payload
    ∧ resp = mkValidateResponse (uri id) (claims_struct payload))
  ∧ (∀ req' w2 st w3, validate_jwtsvid s req' w2 = (Err st, w3) →
       vr_svid req' ≠ "" → vr_audience req' ≠ "" → st = reject).
Proof.
  intros Hsound H. split; [|by intros; eapply validate_errors].
  apply validate_inv in H as (h & c & k & claimed & b & key & pl & id & _ & _ & Hd & Hk & _ & Hb
    & Hkey & Hdec & Hid & Htd & ->).
  destruct (Hsound _ _ _ _ _ Hdec) as ([h' Hd'] & Ha & He).
  rewrite Hd in Hd'. injection Hd' as <- <-. exists id, c. split; [|done]. exists h, k, b, key.
  rewrite Htd. split_and!; try done.
  - intros auds Hauds. unfold aud_ok in Ha. rewrite Hauds, bool_decide_eq_true, Exists_exists in Ha.
    destruct Ha as (a & Ha & Hin). by apply list_elem_of_singleton in Hin as ->.
  - unfold exp_ok in He. destruct (json_get "exp" c) as [[| |n| | |]|]; try done. exists n.
    destruct (numeric_date n) as [e|]; [|done]. exists e. cbn [leeway] in He. zify_bool.
    split_and!; [done..|lia].
Qed.

(** C9: what the daemon issues it accepts, for exactly as long as it said.
    Under the documented behaviour of the JWT crate, a token signed for a
    pseudonym in a domain whose published bundle is this signer's validates
    for every audience it names, at every second up to its expiry 300
    seconds after signing, and gives back the pseudonym; one second later,
    or for another audience, it does not. *)
Theorem issued_svid_validates pair (s : WorkloadApiService (W := W)) root consumer auds ext t0
    token w :
  insecure_decode_encode → decode_encode pair → decode_sound → integral_dates → jwkset_parses →
  b64url_roundtrip B → signer_wf (signer s) → published_pair pair (signer s) →
  td_canonical (trust_domain root) = true →
  store_get (trust_domain root) (bundles s) = Some (local_bundle (trust_domain root) (signer s)) →
  let id := pseudonymous_id (signer s) root consumer in
  sign_jwt_svid (signer s) (uri id) auds ext t0 = Ok token → token ≠ "" →
  (∀ aud, aud ∈ auds → aud ≠ "" → 0 ≤ (now w).1 → as_secs (now w).1 ≤ as_secs t0 + 300 →
     (validate_jwtsvid s (mkValidateRequest aud token) w).1 =
       Ok (mkValidateResponse (uri id)
             (claims_struct (to_value (jwt_claims (uri id) auds ext (as_secs t0))))))
  ∧ (∀ aud, aud ∉ auds ∨ as_secs t0 + 300 < as_secs (now w).1 →
       ∃ st, (validate_jwtsvid s (mkValidateRequest aud token) w).1 = Err st).
Proof.
  intros Hide Hde Hds Hnd Hjp Hb Hwf Hpair Htd Hstore id Hsign Hne. split.
  - intros aud Ha Hae H0 Ht. by eapply validate_issued.
  - intros aud Hbad. by eapply validate_refused.
Qed.

End Validation.

(** ** A seeded daemon and its token, for the witnesses *)
#[local] Existing Instance toy_sha2.
#[local] Existing Instance toy_hkdf.

Definition demo_root : SpiffeId := mkSpiffeId SshLocal "unix/1000".
Definition demo_id (td : TrustDomain) : SpiffeId :=
  pseudonymous_id toy_signer (mkSpiffeId td "unix/1000") (SnapName "app").
Definition demo_payload (td : TrustDomain) : json :=
  jwt_claims (uri (demo_id td)) ["https://b.example"] (JObj []) 0.
Definition demo_token (td : TrustDomain) : string :=
  token_of (Some (kid toy_signer), demo_payload td, toy_public (encoding_key toy_signer)).

Lemma demo_signed_token td :
  sign_jwt_svid (B := toy_base64) (S := toy_sha2) toy_signer (uri (demo_id td)) ["https://b.example"]
    (JObj []) 0 = Ok (demo_token td).
Proof. reflexivity. Qed.

Lemma demo_signer_wf : signer_wf toy_signer.
Proof. split; [reflexivity|]. by eexists. Qed.

Lemma demo_published : published_pair (J := toy_jwt) (B := toy_base64) toy_pair toy_signer.
Proof. eexists. split; reflexivity. Qed.

Definition demo_answer : ValidateResponse :=
  mkValidateResponse (uri (demo_id SshLocal)) (claims_struct (to_value (demo_payload SshLocal))).
Definition demo_question : ValidateRequest :=
  mkValidateRequest "https://b.example" (demo_token SshLocal).

Lemma demo_validates :
  validate_jwtsvid demo_service demo_question demo_box =
    (Ok demo_answer, (validate_jwtsvid demo_service demo_question demo_box).2).
Proof.
  rewrite (surjective_pairing (validate_jwtsvid demo_service demo_question demo_box)) at 1.
  apply pair_equal_spec. split; [|done]. apply (validate_issued (J := toy_jwt) toy_pair demo_service (demo_id SshLocal) ["https://b.example"]
    (JObj []) 0 (demo_token SshLocal) "https://b.example" demo_box
    toy_insecure_decode_encode toy_decode_encode toy_integral_dates toy_jwkset_parses toy_b64url demo_signer_wf
    demo_published eq_refl); try done.
  by apply list_elem_of_singleton.
Qed.

(** Nothing asks for an audience: under the crate's rule a token signed by a
    published key that names none validates for any. *)
Definition bare_token : string :=
  token_of (Some (kid toy_signer),
    JObj [("exp", JNum (NPosInt 300)); ("spiffe_id", JStr (uri (demo_id SshLocal)))],
    toy_public (encoding_key toy_signer)).
Example a_token_without_audience_validates :
  is_ok (validate_jwtsvid demo_service (mkValidateRequest "https://any.example" bare_token) demo_box).1
  = true.
Proof. vm_compute. reflexivity. Qed.

Lemma validation_is_sound_witness :
  (∃ id payload, vouched demo_service demo_question (as_secs (now demo_box).1) id payload
    ∧ demo_answer = mkValidateResponse (uri id) (claims_struct payload))
  ∧ (∀ req' w2 st w3, validate_jwtsvid demo_service req' w2 = (Err st, w3) →
       vr_svid req' ≠ "" → vr_audience req' ≠ "" → st = reject).
Proof.
  exact (validation_is_sound (J := toy_jwt) demo_service demo_question demo_box demo_answer _
    toy_decode_sound demo_validates).
Defined.

Lemma issued_svid_validates_witness :
  let id := demo_id SshLocal in
  (∀ aud, aud ∈ ["https://b.example"] → aud ≠ "" → 0 ≤ (now demo_box).1 → as_secs (now demo_box).1 ≤ 0 + 300 →
     (validate_jwtsvid demo_service (mkValidateRequest aud (demo_token SshLocal)) demo_box).1 =
       Ok (mkValidateResponse (uri id) (claims_struct (to_value (demo_payload SshLocal)))))
  ∧ (∀ aud, aud ∉ ["https://b.example"] ∨ 0 + 300 < as_secs (now demo_box).1 →
       ∃ st, (validate_jwtsvid demo_service (mkValidateRequest aud (demo_token SshLocal))
                demo_box).1 = Err st).
Proof.
  apply (issued_svid_validates (J := toy_jwt) toy_pair demo_service demo_root (SnapName "app")
    ["https://b.example"] (JObj []) 0 (demo_token SshLocal) demo_box
    toy_insecure_decode_encode toy_decode_encode toy_decode_sound toy_integral_dates toy_jwkset_parses toy_b64url
    demo_signer_wf demo_published eq_refl eq_refl (demo_signed_token SshLocal)).
  discriminate.
Defined.
