(* ===== verification/Hired.v ===== *)
(** * The daemon as it is built ([hired/src/main.rs])

    Start-up composed with the handlers: what the attestors the registry
    assembles can make [FetchJWTSVID] issue, in what form, and which of those
    SVIDs the daemon's own [ValidateJWTSVID] accepts.  The sources are used
    through [Conduct.WellBehaved] only. *)
From S2P Require Import Prelude RustStr RustNum External Assurance SpiffeId Consumer Pseudonym Audience Hint Json Jwt Signer TrustBundle Claim Machine ConsumerAttest Toy Unix Devices Attestor Conduct Service ServiceSpec Validate ValidateSpec.
Local Open Scope Z_scope.

(** ** The client's side of the attestor interface *)
Section Client.
Context `{M : Machine W} {R : OsRng W} {P : P256} {J : @JsonWebToken P} {B : Base64} {S : Sha2}
  {K : Hkdf} {N : Numbers}.

(** A claim as a source named [source] can make it about [c]. *)
Record local_claim (source : string) (c : Candidate) (cl : Claim) : Prop := {
  lc_prover : source ∈ PROVERS;
  lc_offered : offered source c;
  lc_claim : ∃ t, cl = mkClaim source (ceiling source) PresenceNone
    (mkSpiffeId (into_td (home_domain source)) (c_path c)) (c_display_name c) t;
}.

Lemma local_canonical source : td_canonical (into_td (home_domain source)) = true.
Proof. unfold home_domain. by destruct (String.eqb _ _). Qed.

Lemma claim_proven_local s peer req w (r : answered s peer req w) c cl :
  Forall (WellBehaved (W := W)) (attestors s) → claim_proven r c cl →
  ∃ source, local_claim source c cl.
Proof.
  intros Hwb (a & (pre & post & cs & w1 & Ha & He & Hc) & (pre' & post' & ev & w2 & _ & Hp & Hd)).
  assert (WellBehaved a) as Hbe.
  { rewrite Ha, Forall_app, Forall_cons in Hwb. naive_solver. }
  pose proof (wb_prove _ _ _ _ _ Hp) as Hpf. exists (at_name a).
  pose proof (wb_enumerate _ _ _ He) as Ho. rewrite Forall_forall in Ho. specialize (Ho c Hc).
  destruct (derive_proof _ _ _ _ _ Hpf Hd) as [t ->]. split; [apply Hpf|done|].
  exists t. unfold candidate_spiffe_id. by rewrite (of_source _ _ Ho), (of_domain _ _ Ho).
Qed.

(** A local claim carries no presence, so it satisfies no audience that asks
    for one. *)
Lemma local_claim_presence source c cl t e :
  local_claim source c cl → meets t cl e → require_presence e = PresenceNone.
Proof.
  intros [_ _ [t' ->]] [Hm _]. unfold decayed_presence in Hm. cbn [cl_presence] in Hm.
  destruct (age_at _ _) as [a|]; [destruct (a <? PRESENCE_TTL)|];
    by destruct (require_presence e).
Qed.

(** The tag of a local claim. *)
Lemma issue_hint_local source c cl t :
  local_claim source c cl →
  ∃ n, 0 ≤ n ∧ issue_hint cl (decayed_presence cl (age_at t cl)) (age_at t cl)
         = show_hint (mkHint source (ceiling source) PresenceNone n).
Proof.
  intros [_ _ [t' ->]]. unfold issue_hint, decayed_presence. cbn [cl_source cl_assurance cl_presence].
  destruct (age_at t _) as [a|] eqn:Ha; [|by exists U64_MAX].
  exists (as_secs a). assert (0 ≤ a) as H0.
  { unfold age_at, duration_since in Ha. cbn [attested_at] in Ha.
    destruct (Z.leb_spec t' t); [|done]. injection Ha as <-. lia. }
  split; [unfold as_secs; apply Z.div_pos; [lia|done]|]. by destruct (a <? PRESENCE_TTL).
Qed.
End Client.

(** ** Start-up *)
Section Hired.
Context `{M : Machine W} {R : OsRng W} {P : P256} {J : @JsonWebToken P} {B : Base64} {S : Sha2}
  {K : Hkdf} {N : Numbers} {Ed : Ed25519} {Js : SerdeJson} {Ft : Features} {Hd : Hid W}
  {U : Unicode}.

Lemma hired_startup_inv sk rng w s w1 :
  hired_startup sk rng w = (Ok s, w1) →
  signer_wf (signer s) ∧ bundles s = upsert (local_bundle SshLocal (signer s)) store_new
  ∧ Forall (WellBehaved (W := W)) (attestors s).
Proof.
  unfold hired_startup. intros H. apply bind_ok_inv in H as (sg & w2 & [= Hsg <-] & H).
  unfold bind, ret in H. pose proof (probed_well_behaved w) as Hp.
  destruct (probe_sources w) as [sources w3]. injection H as <- <-.
  split; [by eapply from_signing_key_wf|]. done.
Qed.

(** The documented behaviour of the crates validation goes through. *)
Record crates_documented (pair : EncodingKey → DecodingKey → Prop) : Prop := {
  cd_insecure : insecure_decode_encode;
  cd_decode : decode_encode pair;
  cd_sound : decode_sound;
  cd_dates : integral_dates;
  cd_jwks : jwkset_parses;
  cd_base64 : b64url_roundtrip B;
  cd_nonempty : ∀ h c k token, jwt_encode h c k = Ok token → token ≠ "";
}.

(** What [ValidateJWTSVID] of the daemon [s] makes of an SVID signed for
    [auds] at second [stamp], whatever the world it is asked in. *)
Record stands (s : WorkloadApiService (W := W)) (auds : list string) (stamp : Z) (sv : Jwtsvid)
    (id : SpiffeId) : Prop := {
  st_subject : parse_spiffe_id (sv_spiffe_id sv) = Ok id;
  st_accepted : trust_domain id = SshLocal → ∀ aud w,
    aud ∈ auds → aud ≠ "" → 0 ≤ (now w).1 → as_secs (now w).1 ≤ stamp + 300 → ∃ claims,
    (validate_jwtsvid s (mkValidateRequest aud (svid sv)) w).1
      = Ok (mkValidateResponse (sv_spiffe_id sv) claims);
  st_refused : ∀ aud w, aud ∉ auds ∨ stamp + 300 < as_secs (now w).1 → ∃ st,
    (validate_jwtsvid s (mkValidateRequest aud (svid sv)) w).1 = Err st;
  st_unpublished : trust_domain id ≠ SshLocal → trust_domain id = Tailscale ∧ ∀ aud w,
    aud ≠ "" → validate_jwtsvid s (mkValidateRequest aud (svid sv)) w = (Err reject, w);
}.

(** Every SVID [hired] issued stands this way. *)
Lemma hired_svid_stands pair sk rng w0 s w1 peer req w (r : answered s peer req w) c cl wt sv :
  crates_documented pair → hkdf_len K → published_pair pair (signer s) →
  hired_startup sk rng w0 = (Ok s, w1) → claim_proven r c cl →
  issued s (an_consumer r) (an_exts r) (an_now r) wt cl sv →
  ∃ id, stands s (audience <$> an_exts r) (as_secs (now wt).1) sv id.
Proof.
  intros [] Hlen Hpair (Hwf & Hb & Hwb)%hired_startup_inv Hc Hi.
  destruct (claim_proven_local _ _ _ _ _ _ _ Hwb Hc) as (source & [Hp Ho [t ->]]).
  destruct Hi as [_ Hsub Htok _]. cbn [cl_spiffe_id] in *.
  set (root := mkSpiffeId (into_td (home_domain source)) (c_path c)) in *.
  destruct (pseudonymous_id_shape (pseudonym_ikm (signer s)) root (an_consumer r) Hlen)
    as (Htd & (seg & Hseg & _) & Hparse).
  set (id := pseudonymous_id (signer s) root (an_consumer r)) in *.
  assert (td_canonical (trust_domain id) = true) as Hcan by apply local_canonical.
  assert (path id ≠ "") as Hpath by (intros E; change (split_char "/" (path id) = ["pseudonym"; seg]) in Hseg;
    by rewrite E in Hseg).
  assert (svid sv ≠ "") as Hne.
  { apply sign_jwt_svid_Ok in Htok as [_ Htok]. eauto. }
  exists id. rewrite Hsub in *. split.
  - rewrite Hsub. apply Hparse, local_canonical.
  - rewrite Hsub. intros Hs aud w2 Ha Hae H0 Ht2. eexists. eapply validate_issued; try done.
    rewrite Hb, store_get_upsert, Hs. by rewrite decide_True.
  - intros aud w2. by eapply validate_refused.
  - intros Hs. split.
    + change (trust_domain id) with (into_td (home_domain source)) in *. unfold home_domain in *.
      by destruct (String.eqb source "tailscale").
    + intros aud w2 Ha. eapply validate_unpublished; try done.
      rewrite Hb, store_get_upsert. by rewrite decide_False.
Qed.

(** ** Properties *)

(** C17: whatever sources this machine offers and in every build, [hired]
    never attests presence.  Each SVID it issues stands on the single proof
    of one source that can prove anything — tailscaled, the ssh agent, a
    [did:key], gpg or the Unix account — at exactly that source's level: two
    for tailscaled under the tailnet's domain, one for the others under
    [ssh.local], never three, and never more than the candidate was
    advertised to attain.  A request that names no identity is answered from
    tailscaled and the Unix account alone.  A request any of whose audiences
    requires presence is refused. *)
Theorem hired_issues_local_levels sk rng w0 s w1 peer req w :
  hired_startup sk rng w0 = (Ok s, w1) →
  (∀ svids w', fetch_jwtsvid s peer req w = (Ok svids, w') →
     ∃ r : answered s peer req w, ∀ sv, sv ∈ svids → ∃ cl c,
       claim_proven r c cl
       ∧ sv_spiffe_id sv = uri (pseudonymous_id (signer s) (cl_spiffe_id cl) (an_consumer r))
       ∧ cl_source cl ∈ PROVERS
       ∧ (rq_spiffe_id req = "" → cl_source cl ∈ ["tailscale"; "unix"])
       ∧ cl_presence cl = PresenceNone
       ∧ cl_assurance cl = (if String.eqb (cl_source cl) "tailscale" then Iaa2 else Iaa1)
       ∧ trust_domain (cl_spiffe_id cl)
           = (if String.eqb (cl_source cl) "tailscale" then Tailscale else SshLocal)
       ∧ (assurance_rank (cl_assurance cl) ≤ attainable_rank (attainable c))%nat)
  ∧ ((∃ a e, a ∈ rq_audience req ∧ parse_audience a = Ok e ∧ require_presence e ≠ PresenceNone) →
     ∃ st, (fetch_jwtsvid s peer req w).1 = Err (Failed st)).
Proof.
  intros (_ & _ & Hwb)%hired_startup_inv. split.
  - intros svids w' [_ (r & Hr)]%fetch_answered. exists r.
    intros sv (cl & c & wt & Hc & _ & Hi & Hs & _)%Hr. exists cl, c.
    destruct (claim_proven_local _ _ _ _ _ _ _ Hwb Hc) as (source & [Hp Ho [t ->]]).
    cbn [cl_source cl_presence cl_assurance cl_spiffe_id trust_domain]. split_and!; try done.
    + apply Hi.
    + intros E. pose proof (an_selector r) as Hq. rewrite E in Hq. injection Hq as Hq.
      pose proof (of_silent _ _ Ho (Hs (eq_sym Hq))) as Hq'. unfold PROVERS, PROMPTLESS in *. set_solver.
    + unfold home_domain. by destruct (String.eqb source "tailscale").
    + apply Ho.
  - intros (a & e & Ha & He & Hne).
    assert (Hno : ∀ (r : answered s peer req w) cl c, claim_proven r c cl →
      (∀ x, x ∈ an_exts r → meets (an_now r) cl x) → False).
    { intros r cl c Hc Hm. destruct (claim_proven_local _ _ _ _ _ _ _ Hwb Hc) as (source & Hl).
      apply Hne, (local_claim_presence source c cl (an_now r)), Hm; [done|].
      pose proof (an_parsed r) as Hx. apply list_elem_of_lookup in Ha as [i Hi'].
      destruct (Forall2_lookup_l _ _ _ _ _ Hx Hi') as (x & Hx' & E).
      rewrite He in E. injection E as <-. by eapply list_elem_of_lookup_2. }
    destruct (fetch_jwtsvid s peer req w) as [[svids|[st|msg]] w'] eqn:Hf; [|by eexists|]; exfalso.
    + apply fetch_answered in Hf as [Hsv (r & Hr)]. destruct svids as [|sv svids]; [done|].
      destruct (Hr sv ltac:(by left)) as (cl & c & wt & Hc & _ & Hi & _). apply (Hno r cl c Hc), Hi.
    + apply fetch_panics in Hf as (_ & r & cl & c & wt & Hc & _ & Hm & _). by apply (Hno r cl c).
Qed.

(** C35: what [hired] issues is well formed, in every part a consumer reads.
    The subject of each SVID parses back as a SPIFFE ID of one of two trust
    domains, with the two-segment pseudonym path of sixty-four hex digits; the
    signed payload carries that same string as its subject, the caller's
    audiences in order and an expiry 300 seconds after the clock as the signer
    read it when this claim had its turn, not before the epoch, under the ES256 header naming the signer's key; and the hint parses back to the
    four fields it was printed from — one of the proving sources at its
    level, no presence — whenever the age fits in 64 bits. *)
Theorem hired_svids_well_formed sk rng w0 s w1 peer req w svids w' :
  hkdf_len K → hired_startup sk rng w0 = (Ok s, w1) →
  fetch_jwtsvid s peer req w = (Ok svids, w') →
  ∃ r : answered s peer req w, ∀ sv, sv ∈ svids → ∃ id seg source n cl wt ext,
    parse_spiffe_id (sv_spiffe_id sv) = Ok id
    ∧ (trust_domain id = SshLocal ∨ trust_domain id = Tailscale)
    ∧ split_char "/"%char (path id) = ["pseudonym"; seg]
    ∧ String.length seg = 64%nat ∧ all_bytes is_hex_digit seg = true
    ∧ signed_in r cl wt ∧ 0 ≤ (now wt).1
    ∧ jwt_encode (mkHeader ES256 (Some (kid (signer s))))
        (jwt_claims (sv_spiffe_id sv) (audience <$> an_exts r) ext (as_secs (now wt).1))
        (encoding_key (signer s))
        = Ok (svid sv)
    ∧ source ∈ PROVERS
    ∧ (n ≤ U64_MAX → parse_hint (hint sv) = Ok (mkHint source (ceiling source) PresenceNone n)).
Proof.
  intros Hlen (_ & _ & Hwb)%hired_startup_inv [_ (r & Hr)]%fetch_answered.
  exists r. intros sv (cl & c & wt & Hc & Ht & Hi & _ & _)%Hr.
  destruct (claim_proven_local _ _ _ _ _ _ _ Hwb Hc) as (source & Hl).
  destruct (issue_hint_local _ _ _ (an_now r) Hl) as (n & Hn0 & Hn).
  destruct Hl as [Hp Ho [t ->]]. destruct Hi as [_ Hsub [H0 Htok]%sign_jwt_svid_Ok Hhint].
  destruct (pseudonymous_id_shape (pseudonym_ikm (signer s))
    (mkSpiffeId (into_td (home_domain source)) (c_path c)) (an_consumer r) Hlen)
    as (Htd & (seg & Hseg & Hsl & Hsh) & Hparse).
  exists (pseudonymous_id (signer s) (mkSpiffeId (into_td (home_domain source)) (c_path c))
    (an_consumer r)), seg, source, n. eexists _, wt, _. split_and!.
  - rewrite Hsub. apply Hparse, local_canonical.
  - unfold pseudonymous_id. rewrite Htd. cbn [trust_domain]. unfold home_domain.
    destruct (String.eqb source "tailscale"); [by right|by left].
  - done.
  - done.
  - done.
  - exact Ht.
  - exact H0.
  - exact Htok.
  - done.
  - intros Hn1. rewrite Hhint, Hn. apply hint_display_parse; [done|]. cbn.
    unfold PROVERS in Hp. repeat (apply elem_of_cons in Hp as [->|Hp]; [done|]).
    by apply elem_of_nil in Hp.
Qed.

(** C36: of what it issues, [hired] accepts exactly what it publishes a key
    for.  Each SVID of an answer stands in one of two trust domains.  One in
    [ssh.local] validates, at the same daemon, for every audience of the
    request and at every second up to 300 after it was stamped, and gives
    back its own subject; for another audience, or later, it is refused.  One
    in the tailnet's domain never validates: start-up seeds a bundle for
    [ssh.local] only, so whatever the audience and the time its token is
    rejected before the clock is read. *)
Theorem hired_validates_what_it_publishes pair sk rng w0 s w1 peer req w svids w' :
  crates_documented pair → hkdf_len K → published_pair pair (signer s) →
  hired_startup sk rng w0 = (Ok s, w1) → fetch_jwtsvid s peer req w = (Ok svids, w') →
  ∃ r : answered s peer req w, ∀ sv, sv ∈ svids → ∃ id cl wt,
    signed_in r cl wt ∧ stands s (audience <$> an_exts r) (as_secs (now wt).1) sv id.
Proof.
  intros Hcd Hlen Hpair Hs [_ (r & Hr)]%fetch_answered.
  exists r. intros sv (cl & c & wt & Hc & Ht & Hi & _ & _)%Hr.
  destruct (hired_svid_stands _ _ _ _ _ _ _ _ _ r c cl wt sv Hcd Hlen Hpair Hs Hc Hi) as [id Hid].
  by exists id, cl, wt.
Qed.
End Hired.

(** ** A daemon on a machine with one account, for the witnesses *)
#[local] Existing Instance toy_sha2.
#[local] Existing Instance ascii_tables.
#[local] Existing Instance toy_hkdf.
#[local] Existing Instance toy_ed25519.
#[local] Instance no_json : SerdeJson := λ _, Err "no json here".
#[local] Instance default_build : Features := mkFeatures false false false.
#[local] Instance no_hid : Hid Script := λ w, ([], w).

Abbreviation booting := (hired_startup (signing_key toy_signer) (Ok (pseudonym_ikm toy_signer)) demo_box).
Definition booted : WorkloadApiService (W := Script) (P := toy_p256) :=
  match booting.1 with Ok s => s | Err _ => mkService toy_signer store_new [] end.

Lemma booting_ok : booting = (Ok booted, booting.2).
Proof.
  assert (is_ok booting.1 = true) as H by (vm_compute; reflexivity).
  unfold booted. destruct booting as [[s|e] w]; [done|discriminate H].
Qed.

Abbreviation asking := (fetch_jwtsvid booted demo_peer demo_request demo_box).
Definition asked : list Jwtsvid := match asking.1 with Ok l => l | Err _ => [] end.

Lemma asking_ok : asking = (Ok asked, asking.2).
Proof.
  assert (is_ok asking.1 = true) as H by (vm_compute; reflexivity).
  unfold asked. destruct asking as [[l|e] w]; [done|discriminate H].
Qed.

Lemma asked_nonempty : asked ≠ [].
Proof.
  assert (match asked with [] => true | _ :: _ => false end = false) as H by (vm_compute; reflexivity).
  intros E. rewrite E in H. discriminate H.
Qed.

Lemma hired_issues_local_levels_witness :
  (∃ r : answered booted demo_peer demo_request demo_box, ∀ sv, sv ∈ asked → ∃ cl c,
     claim_proven r c cl ∧ cl_source cl ∈ ["tailscale"; "unix"])
  ∧ ∃ st, (fetch_jwtsvid booted demo_peer
             (mkJwtsvidRequest ["https://a.example/?hire_require_presence=hardware"] "") demo_box).1
          = Err (Failed st).
Proof.
  split.
  - destruct (hired_issues_local_levels _ _ _ _ _ demo_peer demo_request demo_box booting_ok) as [H _].
    destruct (H _ _ asking_ok) as [r Hr]. exists r. intros sv Hsv.
    destruct (Hr sv Hsv) as (cl & c & Hc & _ & _ & Hs & _). exists cl, c. split; [exact Hc|].
    exact (Hs eq_refl).
  - apply (hired_issues_local_levels _ _ _ _ _ demo_peer
      (mkJwtsvidRequest ["https://a.example/?hire_require_presence=hardware"] "") demo_box booting_ok).
    eexists _, _. split; [apply list_elem_of_here|]. split; [vm_compute; reflexivity|discriminate].
Defined.

Lemma hired_svids_well_formed_witness :
  asked ≠ [] ∧ ∃ r : answered booted demo_peer demo_request demo_box,
  ∀ sv, sv ∈ asked → ∃ id, parse_spiffe_id (sv_spiffe_id sv) = Ok id.
Proof.
  split; [exact asked_nonempty|].
  destruct (hired_svids_well_formed _ _ _ _ _ _ _ _ _ _ toy_hkdf_len booting_ok asking_ok)
    as (r & Hs). exists r. intros sv Hsv.
  destruct (Hs sv Hsv) as (id & _ & _ & _ & _ & _ & _ & Hp & _). exists id. exact Hp.
Defined.

Lemma toy_documented : crates_documented (J := toy_jwt) toy_pair.
Proof.
  split; [exact toy_insecure_decode_encode|exact toy_decode_encode|exact toy_decode_sound
         |exact toy_integral_dates|exact toy_jwkset_parses|exact toy_b64url|].
  intros [[] k] c key token; cbn; [|done]. by intros [= <-].
Qed.

Lemma booted_published : published_pair (J := toy_jwt) toy_pair (signer booted).
Proof. eexists. split; vm_compute; reflexivity. Qed.

Lemma hired_validates_what_it_publishes_witness :
  ∃ r : answered booted demo_peer demo_request demo_box, ∀ sv, sv ∈ asked → ∃ id cl wt,
    signed_in r cl wt ∧ stands booted (audience <$> an_exts r) (as_secs (now wt).1) sv id.
Proof.
  exact (hired_validates_what_it_publishes toy_pair _ _ _ _ _ _ _ _ _ _ toy_documented toy_hkdf_len
    booted_published booting_ok asking_ok).
Defined.
