(* ===== verification/Workload.v ===== *)
(** * The Workload API as it is served ([hire-grpc/src/server.rs],
    [consumer_attest.rs], [service.rs])

    [serve] hands every accepted connection to the transport wrapped in its
    attested peer; the transport reads that identity once per connection and
    gives it to each request.  Connections are accepted, used and closed in any
    order while the rest of the machine does as it likes: [serve_step] is one
    such event, and the log keeps what every call was answered.  A call is one
    event: what other processes do meanwhile is in the operations of [Machine],
    about which nothing is assumed. *)
From S2P Require Import Prelude RustStr RustNum External Assurance SpiffeId Consumer Pseudonym Audience Hint Json Jwt Signer TrustBundle Claim Machine ConsumerAttest Toy Unix Devices Attestor Conduct Service ServiceSpec Validate ValidateSpec Hired.
From stdpp Require Import relations.

(** ** The seven calls ([impl SpiffeWorkloadApi for WorkloadApiService]) *)
Inductive Call : Type :=
| FetchX509Svid
| FetchX509Bundles
| FetchJwtBundles
| FetchJwtSvid (req : JwtsvidRequest)
| ValidateJwtSvid (req : ValidateRequest)
| FetchWitSvid
| FetchWitBundles.

(** A reply: SVIDs, a validation, the one message of a bundle stream, or a
    status; and no reply at all, when the call's task panics and its stream is
    dropped. *)
Inductive Reply : Type :=
| Svids (svids : list Jwtsvid)
| Validated (resp : ValidateResponse)
| Bundles (bundles : gmap string (list byte))
| Refused (st : Status)
| Unanswered (panic : string).

Definition reply_of {A} (f : A → Reply) (r : result A (Fault Status)) : Reply :=
  match r with
  | Ok a => f a
  | Err (Failed st) => Refused st
  | Err (Panicked msg) => Unanswered msg
  end.

Section Workload.
Context `{M : Machine W} {R : OsRng W} {P : P256} {J : @JsonWebToken P} {B : Base64} {S : Sha2}
  {K : Hkdf} {N : Numbers} {Out : SerdeOut} {F : Files W} {T : TargetOs}.

(** One call on a connection whose identity is [peer]. *)
Definition dispatch (s : WorkloadApiService (W := W)) (peer : PeerIdentity) (call : Call)
    : ST W Reply :=
  match call with
  | FetchX509Svid => ret (reply_of Bundles (map_err Failed fetch_x509svid))
  | FetchX509Bundles => ret (Bundles (fetch_x509_bundles s))
  | FetchJwtBundles => ret (reply_of Bundles (map_err Failed (fetch_jwt_bundles s)))
  | FetchJwtSvid req =>
      let* r := fetch_jwtsvid s (Some peer) req in ret (reply_of Svids r)
  | ValidateJwtSvid req =>
      let* r := failing (validate_jwtsvid s req) in ret (reply_of Validated r)
  | FetchWitSvid => ret (reply_of Bundles (map_err Failed fetch_witsvid))
  | FetchWitBundles => ret (reply_of Bundles (map_err Failed fetch_wit_bundles))
  end.

(** What was answered, where, and the world before and after. *)
Record Entry : Type := mkEntry {
  conn : nat;
  call : Call;
  before : W;
  reply : Reply;
  after : W;
}.

(** The identities fixed at accept, the connections still open, the log. *)
Record Serve : Type := mkServe {
  world : W;
  accepted : gmap nat PeerIdentity;
  opened : gset nat;
  log : list Entry;
}.

(** [serve_with_incoming] over the stream of accepted connections. *)
Inductive serve_step (s : WorkloadApiService (W := W)) (x : Serve) : Serve → Prop :=
| serve_accept k sock fuel stream w :
    accepted x !! k = None → accept fuel sock (world x) = (Some stream, w) →
    serve_step s x (mkServe w (<[k := connect_info stream]> (accepted x)) ({[k]} ∪ opened x) (log x))
| serve_call k peer c r w :
    k ∈ opened x → accepted x !! k = Some peer → dispatch s peer c (world x) = (r, w) →
    serve_step s x (mkServe w (accepted x) (opened x) (log x ++ [mkEntry k c (world x) r w]))
| serve_close k :
    serve_step s x (mkServe (world x) (accepted x) (opened x ∖ {[k]}) (log x))
| serve_world w :
    serve_step s x (mkServe w (accepted x) (opened x) (log x)).

Definition serving (s : WorkloadApiService (W := W)) (x : Serve) : Prop :=
  ∃ w, rtc (serve_step s) (mkServe w ∅ ∅ []) x.

(** ** The invariant *)

(** An identity one attestation of one socket gave. *)
Definition shown (p : PeerIdentity) : Prop :=
  ∃ fuel sock w stream w', accept fuel sock w = (Some stream, w') ∧ connect_info stream = p.

Record serve_inv (s : WorkloadApiService (W := W)) (x : Serve) : Prop := {
  inv_shown : ∀ k p, accepted x !! k = Some p → shown p;
  inv_open : ∀ k, k ∈ opened x → is_Some (accepted x !! k);
  inv_log : Forall (λ e, ∃ p, accepted x !! conn e = Some p
    ∧ dispatch s p (call e) (before e) = (reply e, after e)) (log x);
}.

Lemma serve_inv_init s w : serve_inv s (mkServe w ∅ ∅ []).
Proof. split; cbn; [intros k p Hk|intros k Hk|constructor]; set_solver. Qed.

Lemma serve_inv_step s x y : serve_inv s x → serve_step s x y → serve_inv s y.
Proof.
  intros [Hs Ho Hl] [k sock fuel stream w Hk Ha|k peer c r w Hk Hp Hd|k|w]; split; cbn.
  - intros k' p. rewrite lookup_insert_Some. intros [[<- <-]|[_ Hp]]; [|by eapply Hs].
    by exists fuel, sock, (world x), stream, w.
  - intros k' [->%elem_of_singleton|Hk']%elem_of_union; [by rewrite lookup_insert_eq|].
    destruct (decide (k = k')) as [->|]; [by rewrite lookup_insert_eq|].
    rewrite lookup_insert_ne by done. auto.
  - eapply Forall_impl; [exact Hl|]. intros e (p & Hp & He). exists p. split; [|done].
    rewrite lookup_insert_ne; [done|]. intros E; congruence.
  - exact Hs.
  - exact Ho.
  - apply Forall_app. split; [exact Hl|]. apply Forall_singleton. cbn. by exists peer.
  - exact Hs.
  - intros k' [Hk' _]%elem_of_difference. auto.
  - exact Hl.
  - exact Hs.
  - exact Ho.
  - exact Hl.
Qed.

Lemma serving_inv s x : serving s x → serve_inv s x.
Proof.
  intros [w Hr]. assert (serve_inv s (mkServe w ∅ ∅ [])) as Hi by apply serve_inv_init.
  induction Hr as [x|x y z Hs _ IH]; [done|]. apply IH. by eapply serve_inv_step.
Qed.

(** Identities and answers are never taken back. *)
Lemma serve_step_monotone s x y :
  serve_step s x y → accepted x ⊆ accepted y ∧ log x `prefix_of` log y.
Proof.
  intros [k sock fuel stream w Hk Ha|k peer c r w Hk Hp Hd|k|w]; cbn.
  - split; [by apply insert_subseteq|done].
  - split; [done|by eexists].
  - done.
  - done.
Qed.

Lemma serve_monotone s x y :
  rtc (serve_step s) x y → accepted x ⊆ accepted y ∧ log x `prefix_of` log y.
Proof.
  induction 1 as [x|x y z Hs _ [IH1 IH2]]; [done|].
  apply serve_step_monotone in Hs as [H1 H2]. split; [by etrans|by etrans].
Qed.

(** ** What the log holds *)

(** The bytes of the file at the path of the executable of a peer of this
    user, when it was accepted. *)
Definition attested_hash (h : list byte) : Prop :=
  ∃ cred w pid path f w1 w2 chunks w3,
    cred_uid cred = (getuid w).1 ∧ cred_pid cred = Some pid
    ∧ exe_path_for_pid pid (getuid w).2 = (Some (Ok path), w1)
    ∧ file_open path w1 = (Some f, w2) ∧ reads f w2 chunks w3 ∧ h = sha256 (concat chunks).

Lemma shown_attested p c :
  shown p → peer_get p = Some c → ∃ h, c = BinarySha256 h ∧ attested_hash h.
Proof.
  intros (fuel & sock & w & stream & w' & Ha & <-) Hc.
  destruct (accept_inv _ _ _ _ _ _ Ha Hc) as (cred & w0 & _ & Hat).
  apply attest_peer_inv in Hat as (Hu & pid & path & f & w1 & w2 & chunks & Hpid & He & Ho & Hr & ->).
  eexists. split; [done|]. by exists cred, w0, pid, path, f, w1, w2, chunks, w'.
Qed.

Lemma dispatch_svids s p c w l w' :
  dispatch s p c w = (Svids l, w') →
  ∃ req, c = FetchJwtSvid req ∧ fetch_jwtsvid s (Some p) req w = (Ok l, w').
Proof.
  destruct c as [| | |req|req| |]; cbn [dispatch]; unfold bind, failing, ret, reply_of; try done.
  - destruct (fetch_jwt_bundles s); by intros [=].
  - destruct (fetch_jwtsvid s (Some p) req w) as [[l'|[]] w1] eqn:E; intros [=]; subst. by exists req.
  - destruct (validate_jwtsvid s req w) as [[] ?]; by intros [=].
Qed.

(** [sv] was issued on connection [k] for the identity [root], to the program
    whose executable hashes to [h]. *)
Definition issued_to (s : WorkloadApiService (W := W)) (x : Serve) (k : nat) (sv : Jwtsvid)
    (h : list byte) (root : SpiffeId) : Prop :=
  ∃ e l p req, e ∈ log x ∧ conn e = k ∧ reply e = Svids l ∧ sv ∈ l
    ∧ accepted x !! k = Some p ∧ peer_get p = Some (BinarySha256 h)
    ∧ ∃ (r : answered s (Some p) req (before e)) c cl,
        claim_proven r c cl ∧ cl_spiffe_id cl = root
        ∧ sv_spiffe_id sv = uri (pseudonymous_id (signer s) root (BinarySha256 h)).

Lemma log_issued_to s x e l sv :
  serve_inv s x → e ∈ log x → reply e = Svids l → sv ∈ l →
  ∃ h root, issued_to s x (conn e) sv h root ∧ attested_hash h.
Proof.
  intros [Hs _ Hl] He Hr Hsv. rewrite Forall_forall in Hl.
  destruct (Hl e He) as (p & Hp & Hd). rewrite Hr in Hd.
  apply dispatch_svids in Hd as (req & _ & Hf).
  apply fetch_answered in Hf as [_ (r & Hall)].
  destruct (Hall sv Hsv) as (cl & c & wt & Hc & _ & Hi & _). pose proof (an_attested r) as Hat. cbn in Hat.
  destruct (shown_attested p (an_consumer r) (Hs _ _ Hp) Hat) as (h & Eh & Hh).
  exists h, (cl_spiffe_id cl). split; [|done]. exists e, l, p, req.
  split_and!; try done; [by rewrite Hat, Eh|]. exists r, c, cl. split_and!; [done..|].
  rewrite <-Eh. apply Hi.
Qed.

(** ** Properties *)

(** C20: the identity of a connection is fixed when it is accepted.  Whatever
    happens afterwards — other connections, other calls, processes exec'ing
    and files changing — no later state gives an accepted connection another
    identity and no answer is ever taken back; every logged answer is the
    handler's, for the identity of its own connection; and a connection on
    which SVIDs were issued is one whose peer was this user's and is named by
    the hash of the whole file at its executable's path at accept.  A
    connection whose attestation failed is never issued any. *)
Theorem connection_identity_is_fixed s x y :
  serving s x → rtc (serve_step s) x y →
  (∀ k p, accepted x !! k = Some p → accepted y !! k = Some p)
  ∧ log x `prefix_of` log y
  ∧ ∀ e, e ∈ log y → ∃ p, accepted y !! conn e = Some p ∧ shown p
      ∧ dispatch s p (call e) (before e) = (reply e, after e)
      ∧ ∀ l, reply e = Svids l → ∃ h, peer_get p = Some (BinarySha256 h) ∧ attested_hash h.
Proof.
  intros [w Hx] Hxy. destruct (serve_monotone s x y Hxy) as [Ha Hl].
  assert (serve_inv s y) as [Hs Ho Hlog] by (apply serving_inv; exists w; by etrans).
  split_and!; [intros k p Hp; by eapply lookup_weaken|done|]. rewrite Forall_forall in Hlog.
  intros e He. destruct (Hlog e He) as (p & Hp & Hd). exists p. split_and!; [done|by eapply Hs|done|].
  intros l Hr. rewrite Hr in Hd. apply dispatch_svids in Hd as (req & _ & Hf).
  apply fetch_answered in Hf as [_ (r & _)]. pose proof (an_attested r) as Hat. cbn in Hat.
  destruct (shown_attested p (an_consumer r) (Hs _ _ Hp) Hat) as (h & Eh & Hh).
  exists h. by rewrite Hat, Eh.
Qed.

(** C19: over the whole life of a daemon a subject is one identity as one
    program knows it.  Every SVID it ever answered was issued to a program of
    this user, known by the hash of its executable, for an identity proven in
    that call.  Two of them, on any connections at any two times, carry the
    same subject when they were issued to the same executable for the same
    identity — and only then, unless HKDF collides on different inputs. *)
Theorem subject_is_program_and_identity s x :
  Forall (WellBehaved (W := W)) (attestors s) → serving s x →
  (∀ e l sv, e ∈ log x → reply e = Svids l → sv ∈ l →
     ∃ h root, issued_to s x (conn e) sv h root ∧ attested_hash h)
  ∧ ∀ k1 sv1 h1 root1 k2 sv2 h2 root2,
      issued_to s x k1 sv1 h1 root1 → issued_to s x k2 sv2 h2 root2 →
      (root1 = root2 → h1 = h2 → sv_spiffe_id sv1 = sv_spiffe_id sv2)
      ∧ (sv_spiffe_id sv1 = sv_spiffe_id sv2 →
           (root1 = root2 ∧ h1 = h2)
           ∨ ∃ salt m1 i1 m2 i2, (m1, i1) ≠ (m2, i2)
               ∧ hkdf_sha256 salt m1 i1 = hkdf_sha256 salt m2 i2).
Proof.
  intros Hwb Hx%serving_inv. split; [intros e l sv; by apply log_issued_to|].
  assert (Hcan : ∀ k sv h root, issued_to s x k sv h root →
    has_char "/"%char (show_td (trust_domain root)) = false
    ∧ sv_spiffe_id sv = uri (pseudonymous_id (signer s) root (BinarySha256 h))).
  { intros k sv h root (e & l & p & req & _ & _ & _ & _ & _ & _ & r & c & cl & Hc & <- & ->).
    split; [|done]. destruct (claim_proven_local _ _ _ _ _ _ _ Hwb Hc) as (source & [_ _ [t ->]]).
    apply show_td_no_slash, local_canonical. }
  intros k1 sv1 h1 root1 k2 sv2 h2 root2 [Hs1 E1]%Hcan [Hs2 E2]%Hcan. rewrite E1, E2.
  split; [by intros -> ->|]. intros E%uri_inj; [|done..].
  destruct (pseudonym_collision_is_hkdf_collision _ _ _ _ _ Hs1 Hs2 E) as [[Hr Hk]|Hcol]; [left|by right].
  split; [done|]. apply selector_key_inj_ok in Hk; [by injection Hk|done..].
Qed.
End Workload.

(** ** A daemon that served one program, for the witnesses *)
#[local] Existing Instance toy_sha2.
#[local] Existing Instance toy_hkdf.
#[local] Instance no_out : SerdeOut := λ _, None.
#[local] Instance on_linux : TargetOs := Linux.
#[local] Instance script_files : Files Script := {|
  File := unit;
  read_link := λ p w, (Some p, w);
  file_open := λ _ w, (Some tt, w);
  file_read := λ _ n w, (Some (take (Z.to_nat n) (sc_replies w)),
                         set_replies (drop (Z.to_nat n) (sc_replies w)) w);
  proc_pidpath := λ _ _ w, ((0%Z, []), w);
  ConsumerAttest.Socket := unit;
  peer_cred := λ _ w, (Ok (mkCred 1000 (Some 7%Z)), w);
|}.
Definition elf_box : Script := set_replies (as_bytes "ELF") demo_box.

Definition a_socket : ConsumerAttest.Socket (W := Script) := tt.

Abbreviation accepting := (accept 3 a_socket elf_box).
Definition program : PeerIdentity :=
  match accepting.1 with Some st => connect_info st | None => mkPeer None end.
Definition first_open : Serve := mkServe accepting.2 {[0%nat := program]} {[0%nat]} [].

Lemma first_open_serving (s : WorkloadApiService (W := Script)) : serving s first_open.
Proof.
  exists elf_box. apply rtc_once.
  assert (match accepting.1 with Some _ => true | None => false end = true) as H by (vm_compute; reflexivity).
  destruct accepting as [[st|] w] eqn:E; [|discriminate H].
  pose proof (serve_accept s (mkServe elf_box ∅ ∅ []) 0 a_socket 3 st w eq_refl E) as Hs.
  cbn in Hs. rewrite insert_empty, union_empty_r_L in Hs.
  unfold first_open, program. rewrite E. exact Hs.
Qed.

(** The daemon [s] once it answered one request of that program. *)
Section OneCall.
Context (s : WorkloadApiService (W := Script)) (req : JwtsvidRequest).
Abbreviation calling := (dispatch s program (FetchJwtSvid req) accepting.2).

Definition one_call : Serve :=
  mkServe calling.2 {[0%nat := program]} {[0%nat]}
    [mkEntry 0 (FetchJwtSvid req) accepting.2 calling.1 calling.2].

Lemma one_call_step : rtc (serve_step s) first_open one_call.
Proof.
  apply rtc_once. apply (serve_call s first_open 0 program (FetchJwtSvid req)).
  - by apply elem_of_singleton.
  - apply lookup_singleton_eq.
  - apply surjective_pairing.
Qed.

Lemma one_call_serving : serving s one_call.
Proof. destruct (first_open_serving s) as [w Hw]. exists w. etrans; [exact Hw|exact one_call_step]. Qed.
End OneCall.

Definition first_served : Serve := one_call demo_service demo_request.

Lemma connection_identity_is_fixed_witness :
  accepted first_served !! 0%nat = Some program
  ∧ ∃ p, accepted first_served !! 0%nat = Some p ∧ shown p.
Proof.
  destruct (connection_identity_is_fixed demo_service first_open first_served
    (first_open_serving _) (one_call_step _ _)) as (Ha & _ & He).
  split; [exact (Ha 0%nat program (lookup_singleton_eq 0%nat program))|].
  destruct (He _ (list_elem_of_here _ _)) as (p & Hp & Hs & _). by exists p.
Defined.

Lemma demo_well_behaved : Forall (WellBehaved (W := Script)) (attestors demo_service).
Proof. apply Forall_singleton. apply _. Qed.

Lemma subject_is_program_and_identity_witness :
  length (log first_served) = 1%nat
  ∧ ∀ e l sv, e ∈ log first_served → reply e = Svids l → sv ∈ l →
      ∃ h root, issued_to demo_service first_served (conn e) sv h root ∧ attested_hash h.
Proof.
  split; [reflexivity|].
  exact (proj1 (subject_is_program_and_identity demo_service first_served demo_well_behaved
    (one_call_serving _ _))).
Defined.
