(* ===== verification/Server.v ===== *)
(** * Binding the socket ([hire-grpc/src/server.rs])

    The socket directory, the lock and the listener, over the system calls
    they make, and [serve] around a server that is the transport's. *)
From S2P Require Import Prelude RustStr RustNum Machine.
Local Open Scope Z_scope.

(** [std::io::Error], by the kinds the code tells apart. *)
Inductive IoError : Type :=
| EkNotFound
| EkWouldBlock
| EkOther (text : string).

Record Metadata : Type := mkMetadata { md_is_dir : bool; md_mode : Z; md_uid : Z }.

Inductive ServeError : Type :=
| SocketDirNotADirectory (path : string)
| SocketDirNotOurs (path : string) (owner expected : Z)
| SocketDir (path : string) (source : IoError)
| StaleSocket (path : string) (source : IoError)
| Bind (path : string) (source : IoError)
| Permissions (path : string) (source : IoError)
| AlreadyRunning (path : string)
| Lock (path : string) (source : IoError)
| Transport (e : string).

(** The [#[error(...)]] texts; the sources are printed apart. *)
Definition show_serve_error (e : ServeError) : string :=
  match e with
  | SocketDirNotADirectory p => path_display p +:+ " exists and is not a directory"
  | SocketDirNotOurs p owner expected =>
      "refusing to use " +:+ path_display p +:+ ": owned by uid " +:+ show_u64 owner
      +:+ ", expected " +:+ show_u64 expected
  | SocketDir p _ => "cannot prepare the socket directory " +:+ path_display p
  | StaleSocket p _ => "cannot remove the stale socket at " +:+ path_display p
  | Bind p _ => "cannot bind the socket at " +:+ path_display p
  | Permissions p _ => "cannot restrict the socket at " +:+ path_display p +:+ " to this user"
  | AlreadyRunning p => "another hired is already serving " +:+ path_display p
  | Lock p _ => "cannot lock " +:+ path_display p
  | Transport _ => "the workload API server stopped"
  end.

Class Os (W : Type) := {
  process_uid : ST W Z;
  metadata : string → ST W (result Metadata IoError);
  set_permissions : string → Z → ST W (result unit IoError);
  (** [DirBuilder::new().recursive(true).mode(m).create(dir)] *)
  create_dir_all : string → Z → ST W (result unit IoError);
  remove_file : string → ST W (result unit IoError);
  (** [open(O_CREAT | O_WRONLY, mode)] and [flock(LOCK_EX | LOCK_NB)] *)
  LockFile : Type;
  open_lock : string → Z → ST W (result LockFile IoError);
  flock_ex_nb : LockFile → ST W (result unit IoError);
  (** dropping the [File] *)
  close_lock : LockFile → ST W unit;
  Listener : Type;
  unix_bind : string → ST W (result Listener IoError);
}.

(** [Path::parent], for a path with no repeated or trailing slash. *)
Definition parent (p : string) : option string :=
  match rsplit_once "/" p with
  | Some (pre, last) =>
      if is_empty pre then (if is_empty last then None else Some "/") else Some pre
  | None => if is_empty p then None else Some ""
  end.

(** [lock_path] *)
Definition lock_path (socket_path : string) : string := socket_path +:+ ".lock".

Section Server.
Context `{O : Os W}.

(** [prepare_socket_dir] *)
Definition prepare_socket_dir (dir : string) : ST W (result unit ServeError) :=
  let* md := metadata dir in
  match md with
  | Ok md =>
      if negb (md_is_dir md) then ret (Err (SocketDirNotADirectory dir))
      else
        let* uid := process_uid in
        let sticky := negb (Z.land (md_mode md) 512 =? 0) in
        if md_uid md =? uid then
          if negb (Z.land (md_mode md) 63 =? 0) then
            let* r := set_permissions dir 448 in
            ret (map_err (SocketDir dir) r)
          else ret (Ok ())
        else if negb ((md_uid md =? 0) && sticky) then
          ret (Err (SocketDirNotOurs dir (md_uid md) uid))
        else ret (Ok ())
  | Err EkNotFound =>
      let* r := create_dir_all dir 448 in ret (map_err (SocketDir dir) r)
  | Err e => ret (Err (SocketDir dir e))
  end.

(** [acquire_lock] *)
Definition acquire_lock (socket_path : string) : ST W (result LockFile ServeError) :=
  let path := lock_path socket_path in
  let* r := open_lock path 384 in
  let*? lock := ret (map_err (Lock path) r) in
  let* r := flock_ex_nb lock in
  match r with
  | Ok _ => ret (Ok lock)
  | Err e =>
      let* _ := close_lock lock in
      ret (Err (match e with EkWouldBlock => AlreadyRunning socket_path | _ => Lock path e end))
  end.

(** An early return drops the lock. *)
Definition or_drop {A} (lock : LockFile) (m : ST W (result A ServeError))
    : ST W (result A ServeError) :=
  let* r := m in
  match r with
  | Ok a => ret (Ok a)
  | Err e => let* _ := close_lock lock in ret (Err e)
  end.

(** [bind_listener] *)
Definition bind_listener (socket_path : string)
    : ST W (result (Listener * LockFile) ServeError) :=
  let*? _ := (match parent socket_path with
              | Some dir => prepare_socket_dir dir
              | None => ret (Ok ())
              end) in
  let*? lock := acquire_lock socket_path in
  or_drop lock (
    let* r := remove_file socket_path in
    let*? _ := ret (match r with
                    | Ok _ | Err EkNotFound => Ok ()
                    | Err source => Err (StaleSocket socket_path source)
                    end) in
    let* r := unix_bind socket_path in
    let*? listener := ret (map_err (Bind socket_path) r) in
    let* r := set_permissions socket_path 384 in
    let*? _ := ret (map_err (Permissions socket_path) r) in
    ret (Ok (listener, lock))).

(** How the server over a listener ends: by itself, or dropped because a
    signal won the [select!] of [main]. *)
Inductive Ending : Type :=
| ServerEnded (r : result unit string)
| SignalReceived.

(** [serve], with [run] the transport's server over the accepted stream; the
    lock is dropped when the future is. *)
Definition serve (run : Listener → ST W Ending) (socket_path : string)
    : ST W (result Ending ServeError) :=
  let*? (listener, lock) := bind_listener socket_path in
  let* ended := run listener in
  let* _ := close_lock lock in
  ret (match ended with
       | ServerEnded (Err e) => Err (Transport e)
       | _ => Ok ended
       end).

(** ** Lemmas *)

Lemma parent_neq p dir : parent p = Some dir → dir ≠ p.
Proof.
  unfold parent. destruct (rsplit_once "/" p) as [[pre last]|] eqn:H.
  - apply rsplit_once_Some in H as [-> _].
    destruct (is_empty pre) eqn:Hp.
    + apply is_empty_true in Hp as ->. destruct (is_empty last) eqn:Hl; [done|].
      intros [= <-]. rewrite str_app_nil. by destruct last.
    + intros [= <-] E. apply (f_equal String.length) in E. rewrite str_length_app in E.
      cbn in E. lia.
  - destruct p; [done|]. by intros [= <-].
Qed.

(** Mode bits, numbered from the lowest: group and others have the six low
    ones, the sticky bit is the tenth. *)
Definition open_to_others (md : Metadata) : Prop :=
  ∃ i, 0 ≤ i < 6 ∧ Z.testbit (md_mode md) i = true.
Definition sticky (md : Metadata) : Prop := Z.testbit (md_mode md) 9 = true.

(** [rwx------] *)
Definition owner_only : Z := Z.lor (2 ^ 8) (Z.lor (2 ^ 7) (2 ^ 6)).

(** A directory this user may bind in: their own, or a root-owned sticky
    one, whose entries only their owner can remove. *)
Definition safe_dir (md : Metadata) (uid : Z) : Prop :=
  md_is_dir md = true ∧ (md_uid md = uid ∨ (md_uid md = 0 ∧ sticky md)).

Lemma open_to_others_iff md : open_to_others md ↔ Z.land (md_mode md) 63 ≠ 0.
Proof.
  unfold open_to_others. change 63 with (Z.ones 6). split.
  - intros (i & Hi & Hb) E. apply (f_equal (λ n, Z.testbit n i)) in E.
    rewrite Z.land_spec, Hb, Z.ones_spec_low, Z.bits_0 in E by lia. done.
  - intros Hn. destruct (decide (Forall (λ i, Z.testbit (md_mode md) i = false) (seqZ 0 6)))
      as [H|H].
    + destruct Hn. apply Z.bits_inj'. intros i Hi. rewrite Z.land_spec, Z.bits_0.
      destruct (Z.ltb_spec i 6); [|by rewrite Z.ones_spec_high, andb_false_r by lia].
      rewrite Forall_forall in H. rewrite H; [done|]. apply elem_of_seqZ. lia.
    + apply not_Forall_Exists in H; [|apply _]. apply Exists_exists in H as (i & Hi & Hb).
      apply elem_of_seqZ in Hi. exists i. split; [lia|]. by apply not_false_iff_true.
Qed.

Lemma sticky_iff md : sticky md ↔ Z.land (md_mode md) 512 ≠ 0.
Proof.
  unfold sticky. assert (∀ i, 0 ≤ i → Z.testbit 512 i = (i =? 9)) as H512.
  { intros i Hi. change 512 with (2 ^ 9). rewrite Z.pow2_bits_eqb by lia. apply Z.eqb_sym. }
  split.
  - intros Hb E. apply (f_equal (λ n, Z.testbit n 9)) in E.
    by rewrite Z.land_spec, Hb, Z.bits_0 in E.
  - intros Hn. apply not_false_iff_true. intros Hb. destruct Hn. apply Z.bits_inj'. intros i Hi.
    rewrite Z.land_spec, Z.bits_0, H512 by done.
    destruct (Z.eqb_spec i 9) as [->|]; [by rewrite Hb|by rewrite andb_false_r].
Qed.

Lemma prepare_existing dir w md w1 :
  metadata dir w = (Ok md, w1) →
  prepare_socket_dir dir w =
    let uid := (process_uid w1).1 in
    let w2 := (process_uid w1).2 in
    if negb (md_is_dir md) then (Err (SocketDirNotADirectory dir), w1)
    else if md_uid md =? uid then
      if negb (Z.land (md_mode md) 63 =? 0) then
        (map_err (SocketDir dir) (set_permissions dir 448 w2).1, (set_permissions dir 448 w2).2)
      else (Ok (), w2)
    else if (md_uid md =? 0) && negb (Z.land (md_mode md) 512 =? 0) then (Ok (), w2)
    else (Err (SocketDirNotOurs dir (md_uid md) uid), w2).
Proof.
  intros H. unfold prepare_socket_dir, bind, ret. rewrite H.
  destruct (md_is_dir md); cbn [negb]; [|done].
  destruct (process_uid w1) as [uid w2]; cbn [fst snd].
  destruct (md_uid md =? uid).
  - destruct (negb (Z.land (md_mode md) 63 =? 0)); [|done].
    by destruct (set_permissions dir 448 w2).
  - by destruct ((md_uid md =? 0) && negb (Z.land (md_mode md) 512 =? 0)).
Qed.

Lemma prepare_missing dir wn e :
  (metadata dir wn).1 = Err e →
  (e = EkNotFound → prepare_socket_dir dir wn =
     (map_err (SocketDir dir) (create_dir_all dir 448 (metadata dir wn).2).1,
      (create_dir_all dir 448 (metadata dir wn).2).2))
  ∧ (e ≠ EkNotFound → prepare_socket_dir dir wn = (Err (SocketDir dir e), (metadata dir wn).2)).
Proof.
  intros He. unfold prepare_socket_dir, bind, ret.
  destruct (metadata dir wn) as [r wm]; cbn [fst snd] in *. subst r. split.
  - intros ->. by destruct (create_dir_all dir 448 wm).
  - by destruct e.
Qed.

Lemma or_drop_Ok {A} lock (m : ST W (result A ServeError)) w a w' :
  or_drop lock m w = (Ok a, w') ↔ m w = (Ok a, w').
Proof.
  unfold or_drop, bind, ret. destruct (m w) as [[x|e] w1]; [done|].
  by destruct (close_lock lock w1).
Qed.

Lemma acquire_lock_held p w lock w1 w2 :
  open_lock (lock_path p) 384 w = (Ok lock, w1) → flock_ex_nb lock w1 = (Err EkWouldBlock, w2) →
  acquire_lock p w = (Err (AlreadyRunning p), (close_lock lock w2).2).
Proof.
  intros Ho Hf. unfold acquire_lock, bind, ret. rewrite Ho. cbn [map_err]. rewrite Hf.
  by destruct (close_lock lock w2).
Qed.

Lemma bind_listener_inv p w l lock w' :
  bind_listener p w = (Ok (l, lock), w') →
  ∃ w1 w2 w3 w4 rm,
    (match parent p with Some dir => prepare_socket_dir dir | None => ret (Ok ()) end) w = (Ok (), w1)
    ∧ acquire_lock p w1 = (Ok lock, w2)
    ∧ remove_file p w2 = (rm, w3) ∧ (rm = Ok () ∨ rm = Err EkNotFound)
    ∧ unix_bind p w3 = (Ok l, w4) ∧ set_permissions p 384 w4 = (Ok (), w').
Proof.
  unfold bind_listener. intros H.
  apply bind_ok_inv in H as ([] & w1 & Hp & H).
  apply bind_ok_inv in H as (lk & w2 & Hl & H). apply or_drop_Ok in H. unfold bind at 1 in H.
  destruct (remove_file p w2) as [rm w3] eqn:Hr.
  apply bind_ok_inv in H as ([] & ? & Hrm & H). injection Hrm as Hrm <-.
  unfold bind at 1 in H. destruct (unix_bind p w3) as [[l'|e] w4] eqn:Hb; [|done].
  cbn [map_err] in H. rewrite (bind_ok _ _ _ l' w4) in H by done. unfold bind at 1 in H.
  destruct (set_permissions p 384 w4) as [[[]|e] w5] eqn:Hs; [|done].
  injection H as <- <- <-. exists w1, w2, w3, w4, rm. split_and!; try done.
  destruct rm as [[]|[| |]]; auto; done.
Qed.

(** ** Properties *)

(** C37: the socket directory is private or root's, or it is refused
    untouched.  An existing directory is accepted exactly when it is one and
    this user owns it — then it is set to 0700 if any group or other bit was
    set, the result being that of the chmod, and left as it is if none was —
    or when root owns it and it is sticky, and then it is left as it is.
    Anything else, a file in its place included, is the error that says so,
    after which nothing was created or changed.  A missing one is created
    0700, and no other error is mistaken for a missing one.  So the directory
    the socket is bound in may be open to others: the root-owned sticky one
    is. *)
Theorem socket_dir_private_or_refused dir w md w1 :
  metadata dir w = (Ok md, w1) →
  let uid := (process_uid w1).1 in
  let w2 := (process_uid w1).2 in
  (is_ok (prepare_socket_dir dir w).1 = true → safe_dir md uid)
  ∧ (md_is_dir md = true → md_uid md = uid → ¬ open_to_others md →
       prepare_socket_dir dir w = (Ok (), w2))
  ∧ (md_is_dir md = true → md_uid md = uid → open_to_others md →
       prepare_socket_dir dir w =
         (map_err (SocketDir dir) (set_permissions dir owner_only w2).1,
          (set_permissions dir owner_only w2).2))
  ∧ (md_is_dir md = true → md_uid md ≠ uid → md_uid md = 0 → sticky md →
       prepare_socket_dir dir w = (Ok (), w2))
  ∧ (¬ safe_dir md uid →
       (md_is_dir md = false ∧ prepare_socket_dir dir w = (Err (SocketDirNotADirectory dir), w1))
       ∨ (md_is_dir md = true
            ∧ prepare_socket_dir dir w = (Err (SocketDirNotOurs dir (md_uid md) uid), w2)))
  ∧ (∀ wn e, (metadata dir wn).1 = Err e →
       (e = EkNotFound → prepare_socket_dir dir wn =
          (map_err (SocketDir dir) (create_dir_all dir owner_only (metadata dir wn).2).1,
           (create_dir_all dir owner_only (metadata dir wn).2).2))
       ∧ (e ≠ EkNotFound → prepare_socket_dir dir wn = (Err (SocketDir dir e), (metadata dir wn).2))).
Proof.
  intros H uid w2. rewrite (prepare_existing _ _ _ _ H). cbv zeta. fold uid w2. unfold safe_dir.
  rewrite open_to_others_iff, sticky_iff. change owner_only with 448.
  destruct (md_is_dir md); cbn [negb]; destruct (Z.eqb_spec (md_uid md) uid) as [Hu|Hu],
    (Z.eqb_spec (Z.land (md_mode md) 63) 0), (Z.eqb_spec (md_uid md) 0),
    (Z.eqb_spec (Z.land (md_mode md) 512) 0); cbn [negb andb];
    split_and!; solve [exact (prepare_missing dir) | naive_solver].
Qed.

(** Binding goes directory, lock, unlink, bind, chmod, and stops at the
    first that fails.  A listener is returned only with the lock held and
    the socket at 0600, from exactly that sequence; when the directory is
    refused nothing is locked, and when the lock is taken the error is
    [AlreadyRunning] and the running daemon's socket has not been unlinked:
    the world is as closing the refused lock file left it. *)
Theorem bind_listener_order p w :
  (∀ l lock w', bind_listener p w = (Ok (l, lock), w') →
     ∃ w1 w2 w3 w4 rm,
       (match parent p with Some dir => prepare_socket_dir dir | None => ret (Ok ()) end) w = (Ok (), w1)
       ∧ acquire_lock p w1 = (Ok lock, w2)
       ∧ remove_file p w2 = (rm, w3) ∧ (rm = Ok () ∨ rm = Err EkNotFound)
       ∧ unix_bind p w3 = (Ok l, w4) ∧ set_permissions p 384 w4 = (Ok (), w'))
  ∧ (∀ dir e w1, parent p = Some dir → prepare_socket_dir dir w = (Err e, w1) →
       bind_listener p w = (Err e, w1))
  ∧ (∀ dir w1 lock w2 w3, parent p = Some dir → prepare_socket_dir dir w = (Ok (), w1) →
       open_lock (lock_path p) 384 w1 = (Ok lock, w2) →
       flock_ex_nb lock w2 = (Err EkWouldBlock, w3) →
       bind_listener p w = (Err (AlreadyRunning p), (close_lock lock w3).2)).
Proof.
  split_and!.
  - intros l lock w' H. by apply bind_listener_inv.
  - intros dir e w1 Hd Hp. unfold bind_listener. rewrite Hd.
    by rewrite (bind_err _ _ _ _ _ Hp).
  - intros dir w1 lock w2 w3 Hd Hp Ho Hf. unfold bind_listener. rewrite Hd.
    rewrite (bind_ok _ _ _ _ _ Hp).
    by rewrite (bind_err _ _ _ _ _ (acquire_lock_held _ _ _ _ _ Ho Hf)).
Qed.
End Server.

(** ** A machine that is one directory, for the witness *)
Definition one_dir_os : Os Metadata := {|
  process_uid := λ w, (1000, w);
  metadata := λ _ w, (Ok w, w);
  set_permissions := λ _ m w, (Ok (), mkMetadata (md_is_dir w) m (md_uid w));
  create_dir_all := λ _ m w, (Ok (), mkMetadata true m 1000);
  remove_file := λ _ w, (Ok (), w);
  LockFile := unit;
  open_lock := λ _ _ w, (Ok (), w);
  flock_ex_nb := λ _ w, (Ok (), w);
  close_lock := λ _ w, (tt, w);
  Listener := unit;
  unix_bind := λ _ w, (Ok (), w);
|}.

(** A group-readable directory of ours is tightened to 0700; one that is
    already private keeps its mode, and so does root's [/tmp]. *)
Lemma socket_dir_private_or_refused_witness :
  prepare_socket_dir (O := one_dir_os) "/run/user/1000/hire" (mkMetadata true 493 1000)
    = (Ok (), mkMetadata true 448 1000)
  ∧ prepare_socket_dir (O := one_dir_os) "/run/user/1000/hire" (mkMetadata true 320 1000)
    = (Ok (), mkMetadata true 320 1000)
  ∧ prepare_socket_dir (O := one_dir_os) "/tmp" (mkMetadata true 1023 0)
    = (Ok (), mkMetadata true 1023 0).
Proof.
  split_and!.
  - destruct (socket_dir_private_or_refused (O := one_dir_os) "/run/user/1000/hire"
      (mkMetadata true 493 1000) (mkMetadata true 493 1000) (mkMetadata true 493 1000) eq_refl)
      as (_ & _ & H & _).
    exact (H eq_refl eq_refl ltac:(exists 0; split; [lia|reflexivity])).
  - destruct (socket_dir_private_or_refused (O := one_dir_os) "/run/user/1000/hire"
      (mkMetadata true 320 1000) (mkMetadata true 320 1000) (mkMetadata true 320 1000) eq_refl)
      as (_ & H & _).
    exact (H eq_refl eq_refl ltac:(rewrite open_to_others_iff; vm_compute; by auto)).
  - destruct (socket_dir_private_or_refused (O := one_dir_os) "/tmp"
      (mkMetadata true 1023 0) (mkMetadata true 1023 0) (mkMetadata true 1023 0) eq_refl)
      as (_ & _ & _ & H & _).
    exact (H eq_refl ltac:(done) eq_refl eq_refl).
Defined.
