(* ===== verification/Daemon.v ===== *)
(** * Daemons sharing one socket ([hired/src/main.rs], [server.rs])

    Start-up and shutdown of any number of daemons of one user, interleaved
    at the granularity of their system calls: who holds the lock, whose
    socket file the path names, and where each daemon is in [main]. *)
From S2P Require Import Prelude RustStr RustNum Machine External Json Jwt Signer SpiffeId TrustBundle Claim Devices Attestor Socket Service Server.
From stdpp Require Import relations.

(** ** The end of [main]: serve until a signal, then tidy up *)
Section Main.
Context `{O : Os W}.

(** [if socket_path_cleanup.exists() { let _ = remove_file(..); }] *)
Definition cleanup (socket_path : string) : ST W unit :=
  let* md := metadata socket_path in
  match md with
  | Ok _ => let* _ := remove_file socket_path in ret tt
  | Err _ => ret tt
  end.

(** The [select!] of [main] and what follows it.  It polls its branches in an
    order it draws: with [signal_first], a signal delivered since the handlers
    were registered is seen before [serve] was ever polled.  [serve] runs up
    to the server on its first poll, so from there a signal finds it inside
    [run]. *)
Definition hired_main (signal_first : bool) (run : Listener → ST W Ending)
    (socket_path : string) : ST W (result unit ServeError) :=
  let*? _ := (if signal_first then ret (Ok SignalReceived) else serve run socket_path) in
  let* _ := cleanup socket_path in
  ret (Ok ()).
End Main.

(** ** [main] *)

(** [tokio::signal::unix::signal], by the context a failure is given. *)
Class Signals (W : Type) := register_signal : string → ST W (result unit string).

Inductive Fatal : Type :=
| NoSigner (e : SignerError)
| NoSignal (context e : string)
| NoServer (e : ServeError).

(** From the generated key to the exit; [run] is the transport's server over
    the service and the listener. *)
Definition hired `{O : Os W} {M : Machine W} {R : OsRng W} {P : P256} {J : @JsonWebToken P}
    {B : Base64} {S : Sha2} {K : Hkdf} {N : Numbers} {Ed : Ed25519} {Js : SerdeJson}
    {Ft : Features} {Hd : Hid W} {U : Unicode} {Da : Darwin W} {T : TargetOs} {Sig : Signals W}
    (sk : SigningKey) (rng : result (list byte) string) (signal_first : bool)
    (run : WorkloadApiService (W := W) → Listener → ST W Ending) : ST W (result unit Fatal) :=
  let* started := hired_startup sk rng in
  let*? service := ret (map_err NoSigner started) in
  let* socket_path := workload_socket_path in
  let* r := register_signal "SIGTERM handler" in
  let*? _ := ret (map_err (NoSignal "SIGTERM handler") r) in
  let* r := register_signal "SIGINT handler" in
  let*? _ := ret (map_err (NoSignal "SIGINT handler") r) in
  let* ended := hired_main signal_first (run service) socket_path in
  ret (map_err NoServer ended).

(** ** The shared state *)

(** The path's socket file, by the daemon that bound it, and the holder of
    the lock file, which is never removed. *)
Record Shared : Type := mkShared { sock : option nat; holder : option nat }.

Inductive Phase : Type :=
| Starting     (* before [acquire_lock]; the signal handlers are registered *)
| Locked       (* the lock is held, the stale socket not yet removed *)
| Unlinked     (* removed, not yet bound *)
| Bound        (* bound, not yet 0600 *)
| Serving      (* inside [serve_with_incoming] *)
| Released     (* a signal won the [select!]: the serve future is dropped,
                  listener closed and lock released *)
| Removing     (* [socket_path_cleanup.exists()] was true *)
| Stopped.

Record Cluster : Type := mkCluster { shared : Shared; phase : nat → Phase }.

Definition goto (d : nat) (p : Phase) (c : Cluster) (s : Shared) : Cluster :=
  mkCluster s (λ e, if Nat.eqb e d then p else phase c e).

(** The kernel drops a [flock] when its holder closes it or dies. *)
Definition release (d : nat) (s : Shared) : Shared :=
  mkShared (sock s) (if bool_decide (holder s = Some d) then None else holder s).

(** One system call, or one internal transition, of daemon [d]: those from
    [step_lock] to [step_chmod] are [bind_listener]'s ([server.rs]), the ones
    after it [main]'s. *)
Inductive step (d : nat) (c : Cluster) : Cluster → Prop :=
| step_lock :
    phase c d = Starting → holder (shared c) = None →
    step d c (goto d Locked c (mkShared (sock (shared c)) (Some d)))
| step_refused h :
    phase c d = Starting → holder (shared c) = Some h →
    step d c (goto d Stopped c (shared c))
| step_unlink :
    phase c d = Locked → step d c (goto d Unlinked c (mkShared None (holder (shared c))))
| step_bind :
    phase c d = Unlinked → sock (shared c) = None →
    step d c (goto d Bound c (mkShared (Some d) (holder (shared c))))
| step_bind_fails :
    phase c d = Unlinked → step d c (goto d Stopped c (release d (shared c)))
| step_chmod :
    phase c d = Bound → step d c (goto d Serving c (shared c))
| step_signal :
    phase c d = Serving → step d c (goto d Released c (release d (shared c)))
| step_signal_first :   (* [select!] polls a signal that is already there first *)
    phase c d = Starting → step d c (goto d Released c (shared c))
| step_exists o :
    phase c d = Released → sock (shared c) = Some o →
    step d c (goto d Removing c (shared c))
| step_absent :
    phase c d = Released → sock (shared c) = None →
    step d c (goto d Stopped c (shared c))
| step_remove :
    phase c d = Removing →
    step d c (goto d Stopped c (mkShared None (holder (shared c))))
| step_crash :
    phase c d ≠ Stopped → step d c (goto d Stopped c (release d (shared c))).

Definition any_step (c c' : Cluster) : Prop := ∃ d, step d c c'.

(** Some socket file may be left over from a crash before any of them ran. *)
Definition initial (c : Cluster) : Prop :=
  holder (shared c) = None ∧ (∀ d, phase c d = Starting).

Definition reachable (c : Cluster) : Prop := ∃ c0, initial c0 ∧ rtc any_step c0 c.

(** The phases between taking the lock and giving it back. *)
Definition holds (p : Phase) : bool :=
  match p with Locked | Unlinked | Bound | Serving => true | _ => false end.

(** ** The calls of [bind_listener], on the shared state *)
Definition daemon_os (d : nat) (path : string) : Os Shared := {|
  process_uid := λ s, (1000%Z, s);
  metadata := λ p s,
    (if String.eqb p path then
       match sock s with Some _ => Ok (mkMetadata false 384 1000) | None => Err EkNotFound end
     else Ok (mkMetadata true 448 1000), s);
  set_permissions := λ _ _ s, (Ok (), s);
  create_dir_all := λ _ _ s, (Ok (), s);
  remove_file := λ _ s,
    match sock s with
    | Some _ => (Ok (), mkShared None (holder s))
    | None => (Err EkNotFound, s)
    end;
  LockFile := unit;
  open_lock := λ _ _ s, (Ok (), s);
  flock_ex_nb := λ _ s,
    match holder s with
    | None => (Ok (), mkShared (sock s) (Some d))
    | Some h => if Nat.eqb h d then (Ok (), s) else (Err EkWouldBlock, s)
    end;
  close_lock := λ _ s, (tt, release d s);
  Listener := unit;
  unix_bind := λ _ s,
    match sock s with
    | None => (Ok (), mkShared (Some d) (holder s))
    | Some _ => (Err (EkOther "EADDRINUSE"), s)
    end;
|}.

(** ** Lemmas *)
Lemma goto_same d p c s : phase (goto d p c s) d = p.
Proof. cbn. by rewrite Nat.eqb_refl. Qed.
Lemma goto_other d p c s e : e ≠ d → phase (goto d p c s) e = phase c e.
Proof. intros H. cbn. by rewrite (proj2 (Nat.eqb_neq e d)). Qed.

(** The lock invariant: a daemon past the lock and not yet out of it holds
    it, and nobody else does. *)
Definition lock_inv (c : Cluster) : Prop :=
  ∀ d, holds (phase c d) = true ↔ holder (shared c) = Some d.

Ltac at_daemon e d :=
  destruct (decide (e = d)) as [->|]; [rewrite ?goto_same|rewrite ?goto_other by done].

Lemma lock_inv_step d c c' : lock_inv c → step d c c' → lock_inv c'.
Proof.
  intros Hi Hs e. pose proof (Hi d) as Hd. pose proof (Hi e) as He.
  destruct Hs as [Hp Hh|h Hp Hh|Hp|Hp Hk|Hp|Hp|Hp|Hp|o Hp Hk|Hp Hk|Hp|Hp]; rewrite ?Hp in Hd;
    at_daemon e d; cbn [goto shared holder sock release holds] in *; rewrite ?Hh in *;
    try (rewrite <-Hd); try (case_bool_decide); try done; try naive_solver.
  all: destruct (phase c d) eqn:Hpd; cbn in *; naive_solver.
Qed.

Lemma reachable_ind_inv (P : Cluster → Prop) :
  (∀ c, initial c → P c) → (∀ d c c', P c → step d c c' → P c') → ∀ c, reachable c → P c.
Proof.
  intros H0 Hs c (c0 & Hi & Hr). apply H0 in Hi. clear H0.
  induction Hr as [c|c c1 c2 [d Hd] _ IH]; [done|]. apply IH. by eapply Hs.
Qed.

Lemma reachable_lock_inv c : reachable c → lock_inv c.
Proof.
  apply reachable_ind_inv; [|intros; by eapply lock_inv_step].
  intros c0 [Hh Hp] d. rewrite Hh, Hp. done.
Qed.

(** A bound socket stays the binder's as long as nobody runs the shutdown
    cleanup: the second half of the invariant, for runs without it. *)
Definition no_cleanup_step (c c' : Cluster) : Prop :=
  ∃ d, step d c c' ∧ phase c d ≠ Removing.

Definition owner_inv (c : Cluster) : Prop :=
  lock_inv c
  ∧ ∀ d, (phase c d = Bound ∨ phase c d = Serving → sock (shared c) = Some d)
       ∧ (phase c d = Unlinked → sock (shared c) = None).

Lemma holder_unique c d e :
  lock_inv c → holds (phase c d) = true → holds (phase c e) = true → d = e.
Proof. intros Hi Hd%Hi He%Hi. congruence. Qed.

Lemma owner_inv_step d c c' :
  owner_inv c → step d c c' → phase c d ≠ Removing → owner_inv c'.
Proof.
  intros [Hi Ho] Hs Hr. split; [by eapply lock_inv_step|]. intros e.
  assert (Hex : e ≠ d → holds (phase c d) = true → holds (phase c e) = false).
  { intros Hne Hd. apply not_true_iff_false. intros He. by destruct (Hne (holder_unique _ _ _ Hi He Hd)). }
  pose proof (Ho e) as [Ho1 Ho2]. pose proof (proj1 (Ho d)) as Hod.
  destruct Hs as [Hp Hh|h Hp Hh|Hp|Hp Hk|Hp|Hp|Hp|Hp|o Hp Hk|Hp Hk|Hp|Hp]; rewrite ?Hp in *;
    at_daemon e d; cbn [goto shared holder sock release holds] in *; try done;
    try (split; [intros [?|?]|intros ?]; try done; auto; fail);
    try (specialize (Hex ltac:(done) eq_refl); split; [intros [E|E]|intros E];
         rewrite E in Hex; done).
Qed.

(** ** Properties *)

(** C6: at most one daemon serves.  In every reachable state of any number
    of daemons, started, refused, signalled and killed in any interleaving,
    the daemons between taking the lock and leaving the server are exactly the
    lock's holder: never two at once, and none when the lock is free. *)
Theorem one_daemon_per_socket c d e :
  reachable c →
  (holds (phase c d) = true ↔ holder (shared c) = Some d)
  ∧ (phase c d = Serving → phase c e = Serving → d = e).
Proof.
  intros Hr%reachable_lock_inv. split; [apply Hr|].
  intros Hd He. eapply holder_unique; [exact Hr|by rewrite Hd|by rewrite He].
Qed.

(** Along a run without the shutdown removal the owner invariant holds. *)
Lemma no_cleanup_serving_owns c0 c d :
  initial c0 → rtc no_cleanup_step c0 c → phase c d = Serving →
  sock (shared c) = Some d ∧ holder (shared c) = Some d.
Proof.
  intros [Hh Hp] Hr Hs.
  assert (H0 : owner_inv c0).
  { split; [|intros e; rewrite Hp; by split; [intros [|]|]]. intros e. by rewrite Hh, Hp. }
  assert (H : owner_inv c).
  { clear Hs Hh Hp. induction Hr as [c|c c1 c2 [e [He Hn]] _ IH]; [done|]. apply IH.
    by eapply owner_inv_step. }
  destruct H as [Hi Ho]. split; [apply Ho; auto|]. apply Hi. by rewrite Hs.
Qed.

(** One daemon started from a crash's leftovers. *)
Definition fresh_cluster : Cluster := mkCluster (mkShared (Some 7%nat) None) (λ _, Starting).
Definition serving_cluster : Cluster :=
  goto 0 Serving (goto 0 Bound (goto 0 Unlinked (goto 0 Locked fresh_cluster
    (mkShared (Some 7%nat) (Some 0%nat))) (mkShared None (Some 0%nat)))
    (mkShared (Some 0%nat) (Some 0%nat))) (mkShared (Some 0%nat) (Some 0%nat)).

Lemma fresh_initial : initial fresh_cluster.
Proof. by split. Qed.

Lemma serving_run : rtc no_cleanup_step fresh_cluster serving_cluster.
Proof.
  eapply rtc_l; [exists 0%nat; split; [by apply step_lock|done]|].
  eapply rtc_l; [exists 0%nat; split; [by apply step_unlink|done]|].
  eapply rtc_l; [exists 0%nat; split; [by apply step_bind|done]|].
  eapply rtc_l; [exists 0%nat; split; [by apply step_chmod|done]|]. apply rtc_refl.
Qed.

(** The run in which the first daemon's removal comes last. *)
Lemma shutdown_unlink_reachable :
  ∃ c, reachable c ∧ phase c 1 = Serving ∧ holder (shared c) = Some 1%nat
    ∧ sock (shared c) = None ∧ phase c 0 = Stopped.
Proof.
  set (c0 := mkCluster (mkShared None None) (λ _, Starting)).
  assert (Hrun : ∃ c, rtc any_step c0 c ∧ phase c 1 = Serving ∧ holder (shared c) = Some 1%nat
    ∧ sock (shared c) = None ∧ phase c 0 = Stopped).
  { eexists. split.
    - eapply rtc_l; [exists 0%nat; by apply step_lock|].
      eapply rtc_l; [exists 0%nat; by apply step_unlink|].
      eapply rtc_l; [exists 0%nat; by apply step_bind|].
      eapply rtc_l; [exists 0%nat; by apply step_chmod|].
      eapply rtc_l; [exists 0%nat; by apply step_signal|].
      eapply rtc_l; [exists 0%nat; by eapply step_exists|].
      eapply rtc_l; [exists 1%nat; by apply step_lock|].
      eapply rtc_l; [exists 1%nat; by apply step_unlink|].
      eapply rtc_l; [exists 1%nat; by apply step_bind|].
      eapply rtc_l; [exists 1%nat; by apply step_chmod|].
      eapply rtc_l; [exists 0%nat; by apply step_remove|]. apply rtc_refl.
    - done. }
  destruct Hrun as (c & Hr & H). exists c. split; [|done]. exists c0. split; [by split|done].
Qed.

(** The run in which a second daemon is signalled before it polls [serve]. *)
Lemma early_signal_unlinks :
  ∃ c c', reachable c ∧ phase c 0 = Serving ∧ sock (shared c) = Some 0%nat
    ∧ phase c 1 = Starting ∧ rtc (step 1) c c'
    ∧ phase c' 0 = Serving ∧ holder (shared c') = Some 0%nat ∧ sock (shared c') = None.
Proof.
  exists serving_cluster. eexists. split_and!.
  - exists fresh_cluster. split; [apply fresh_initial|].
    eapply rtc_subrel; [|apply serving_run]. intros c c' [d [Hd _]]. by exists d.
  - done.
  - done.
  - done.
  - eapply rtc_l; [by apply step_signal_first|].
    eapply rtc_l; [by eapply step_exists|].
    eapply rtc_l; [by apply step_remove|]. apply rtc_refl.
  - done.
  - done.
  - done.
Qed.

(** C24: a serving daemon loses its socket through another daemon's shutdown
    removal and in no other way.  Along every run in which no daemon performs
    that removal — crashes, refused starts and stale-socket cleanups
    included — a serving daemon's socket is the file the path names and it
    holds the lock.  With it there is a loss: [main] drops the serve future,
    and with it the lock, before it looks at the socket path, so a second
    daemon can start in between; a state is reachable in which that daemon is
    serving and holds the lock while the path names no socket at all.  A
    daemon that a signal reaches before it ever tried the lock does the same
    to a daemon serving all along, by its own steps alone. *)
Theorem only_shutdown_displaces :
  (∀ c0 c d, initial c0 → rtc no_cleanup_step c0 c → phase c d = Serving →
     sock (shared c) = Some d ∧ holder (shared c) = Some d)
  ∧ (∃ c, reachable c ∧ phase c 1 = Serving ∧ holder (shared c) = Some 1%nat
      ∧ sock (shared c) = None ∧ phase c 0 = Stopped)
  ∧ (∃ c c', reachable c ∧ phase c 0 = Serving ∧ sock (shared c) = Some 0%nat
      ∧ phase c 1 = Starting ∧ rtc (step 1) c c'
      ∧ phase c' 0 = Serving ∧ holder (shared c') = Some 0%nat ∧ sock (shared c') = None).
Proof.
  split_and!; [exact no_cleanup_serving_owns|exact shutdown_unlink_reachable|
               exact early_signal_unlinks].
Qed.

(** Binding alone, with the lock free: [d]'s four steps to [Serving]. *)
Lemma bind_listener_serves d path dir c :
  parent path = Some dir → phase c d = Starting → holder (shared c) = None →
  ∃ c', rtc (step d) c c' ∧ phase c' d = Serving
     ∧ bind_listener (O := daemon_os d path) path (shared c) = (Ok (tt, tt), shared c').
Proof.
  intros Hpath Hp Hh. eexists. split_and!.
  - eapply rtc_l; [by apply step_lock|].
    eapply rtc_l; [apply step_unlink; apply goto_same|].
    eapply rtc_l; [apply step_bind; [apply goto_same|done]|].
    eapply rtc_l; [apply step_chmod; apply goto_same|]. apply rtc_refl.
  - apply goto_same.
  - pose proof (parent_neq _ _ Hpath) as Hn%String.eqb_neq.
    unfold bind_listener. rewrite Hpath. destruct (shared c) as [so ho]; cbn in Hh; subst ho.
    cbv [bind prepare_socket_dir metadata daemon_os]. rewrite Hn. by destruct so.
Qed.

(** With it held elsewhere: refused, and nothing changes. *)
Lemma bind_listener_refused d path dir c h :
  parent path = Some dir → holder (shared c) = Some h → h ≠ d →
  bind_listener (O := daemon_os d path) path (shared c) = (Err (AlreadyRunning path), shared c).
Proof.
  intros Hpath Hh Hne. pose proof (parent_neq _ _ Hpath) as Hn%String.eqb_neq.
  unfold bind_listener. rewrite Hpath. destruct (shared c) as [so ho]; cbn in Hh; subst ho.
  rewrite (bind_ok _ _ _ tt (mkShared so (Some h)))
    by (by cbv [bind prepare_socket_dir metadata daemon_os]; rewrite Hn).
  apply bind_err. rewrite (acquire_lock_held (O := daemon_os d path) path _ tt (mkShared so (Some h))
    (mkShared so (Some h))); [|done|by cbn; rewrite (proj2 (Nat.eqb_neq h d))].
  cbn. unfold release. cbn. by rewrite bool_decide_eq_false_2 by congruence.
Qed.

(** The removal at the end of [main], from where a signal left the daemon. *)
Lemma cleanup_stops d path c :
  phase c d = Released →
  ∃ c', rtc (step d) c c' ∧ phase c' d = Stopped
     ∧ cleanup (O := daemon_os d path) path (shared c) = (tt, shared c')
     ∧ sock (shared c') = None.
Proof.
  intros Hp. unfold cleanup, bind, ret. cbn. rewrite String.eqb_refl.
  destruct (shared c) as [[o|] ho] eqn:Hs; cbn.
  - eexists. split_and!.
    + eapply rtc_l; [eapply (step_exists _ _ o); [done|by rewrite Hs]|].
      eapply rtc_l; [apply step_remove; apply goto_same|]. apply rtc_refl.
    + apply goto_same.
    + by cbn; rewrite Hs.
    + done.
  - eexists. split_and!.
    + eapply rtc_l; [apply step_absent; [done|by rewrite Hs]|]. apply rtc_refl.
    + apply goto_same.
    + by cbn; rewrite Hs.
    + by cbn; rewrite Hs.
Qed.

(** C25: the interleaving model runs the code.  Over the system calls of
    daemon [d]: with the lock free [bind_listener] returns a listener and
    leaves exactly the shared state [d]'s steps from [Starting] to [Serving]
    reach; with the lock held by another, the end of [main] is [AlreadyRunning]
    with nothing changed, as in the refused step.  Whatever the cluster has
    become while the server ran, a signal takes [main] from there exactly where
    [d]'s steps take it, to [Stopped] with no socket at the path; and so does
    a signal the [select!] sees first, from [Starting]: there [main] reports
    success having removed a socket [d] never bound, whoever holds the lock. *)
Theorem hired_main_refines_steps d path dir c :
  parent path = Some dir → phase c d = Starting →
  let main := hired_main (O := daemon_os d path) in
  (holder (shared c) = None → ∃ c1,
     rtc (step d) c c1 ∧ phase c1 d = Serving
     ∧ bind_listener (O := daemon_os d path) path (shared c) = (Ok (tt, tt), shared c1)
     ∧ ∀ run c2, run tt (shared c1) = (SignalReceived, shared c2) → phase c2 d = Serving → ∃ c3,
         rtc (step d) c2 c3 ∧ phase c3 d = Stopped ∧ sock (shared c3) = None
         ∧ main false run path (shared c) = (Ok (), shared c3))
  ∧ (∀ h run, holder (shared c) = Some h → h ≠ d → ∃ c1,
     step d c c1 ∧ phase c1 d = Stopped
     ∧ main false run path (shared c) = (Err (AlreadyRunning path), shared c1))
  ∧ (∀ run, ∃ c1,
     rtc (step d) c c1 ∧ phase c1 d = Stopped ∧ sock (shared c1) = None
     ∧ main true run path (shared c) = (Ok (), shared c1)).
Proof.
  intros Hpath Hp main. split_and!.
  - intros Hh. destruct (bind_listener_serves d path dir c Hpath Hp Hh) as (c1 & Hr & H1 & Hb).
    exists c1. split_and!; [done..|]. intros run c2 Hrun H2.
    destruct (cleanup_stops d path (goto d Released c2 (release d (shared c2)))) as (c3 & Hs & H3 & Hc & Hn).
    { apply goto_same. }
    exists c3. split_and!; [|done..|].
    + eapply rtc_l; [by apply step_signal|done].
    + unfold main, hired_main. rewrite (bind_ok _ _ _ SignalReceived (release d (shared c2))).
      * cbn [goto shared] in Hc. unfold bind, ret. by rewrite Hc.
      * unfold serve. rewrite (bind_ok _ _ _ _ _ Hb). unfold bind. by rewrite Hrun.
  - intros h run Hh Hne. eexists. split_and!; [by eapply step_refused|apply goto_same|].
    apply bind_err, bind_err. cbn [goto shared]. by eapply bind_listener_refused.
  - intros run.
    destruct (cleanup_stops d path (goto d Released c (shared c))) as (c3 & Hs & H3 & Hc & Hn).
    { apply goto_same. }
    exists c3. split_and!; [|done..|].
    + eapply rtc_l; [by apply step_signal_first|done].
    + unfold main, hired_main. rewrite (bind_ok _ _ _ SignalReceived (shared c)) by done.
      cbn [goto shared] in Hc. unfold bind, ret. by rewrite Hc.
Qed.

Lemma one_daemon_per_socket_witness :
  (holds (phase serving_cluster 0) = true ↔ holder (shared serving_cluster) = Some 0%nat)
  ∧ (phase serving_cluster 0 = Serving → phase serving_cluster 1 = Serving → 0%nat = 1%nat).
Proof.
  apply (one_daemon_per_socket serving_cluster 0 1). exists fresh_cluster.
  split; [apply fresh_initial|].
  eapply rtc_subrel; [|apply serving_run]. intros c c' [d [Hd _]]. by exists d.
Defined.

Lemma only_shutdown_displaces_witness :
  sock (shared serving_cluster) = Some 0%nat ∧ holder (shared serving_cluster) = Some 0%nat.
Proof.
  apply (proj1 only_shutdown_displaces fresh_cluster serving_cluster 0%nat fresh_initial serving_run).
  reflexivity.
Defined.

(** The daemon of the witness serves, is signalled, and leaves no socket. *)
Lemma hired_main_refines_steps_witness :
  ∃ c3, phase c3 0 = Stopped ∧ sock (shared c3) = None
    ∧ hired_main (O := daemon_os 0 "/run/hire/workload.sock") false
        (λ _ s, (SignalReceived, s)) "/run/hire/workload.sock" (shared fresh_cluster)
      = (Ok (), shared c3).
Proof.
  destruct (hired_main_refines_steps 0 "/run/hire/workload.sock" "/run/hire" fresh_cluster
    eq_refl eq_refl) as (H & _ & _).
  destruct (H eq_refl) as (c1 & _ & H1 & _ & Hs).
  destruct (Hs (λ _ s, (SignalReceived, s)) c1 eq_refl H1) as (c3 & _ & H3 & Hn & Hm).
  exists c3. split_and!; assumption.
Defined.
