(* ===== verification/Nmh.v ===== *)
(** * The native messaging host ([hire-nmh/src/main.rs])

    Framing, request dispatch and the main loop.  Standard input is the bytes
    that arrive and how they end, the browser closing the pipe or a read that
    fails; standard output is any [Write] value, of which a byte vector and a
    pipe that breaks are instances.  Parsing a request from JSON text and
    printing JSON are [serde]'s; a response's shape is the derived one. *)
From S2P Require Import Prelude RustStr RustNum External Json Jwt SpiffeId Machine Socket Service.
Local Open Scope Z_scope.

Inductive BrowserRequest : Type :=
| FetchJwt (audience : list string)
| StatusRequest.

Inductive BrowserResponse : Type :=
| JwtResponse (svid spiffe_id : string)
| StatusResponse (running : bool) (version : string)
| ErrorResponse (message : string).

Definition MAX_REQUEST : Z := 64 * 1024.
Definition MAX_RESPONSE : Z := 1024 * 1024.

Abbreviation blen l := (Z.of_nat (length l)).

Inductive NmhError : Type :=
| FrameTooLong (len : Z)
| UnexpectedEof
| ReadFailed (e : string)
| ResponseTooLong (len : Z)
| WriteFailed (e : string).

(** [impl Read]: the bytes still to come, and the error the read after them
    meets; without one the input ends there. *)
Record Stdin := mkStdin { pending : list byte; read_fault : option string }.

(** [input.read_exact(&mut [0; n])]: the bytes and what is left.  An input
    that ends first is [UnexpectedEof]. *)
Definition stdin_read_exact (n : Z) (input : Stdin) : result (list byte * Stdin) NmhError :=
  if blen (pending input) <? n then
    Err (match read_fault input with Some e => ReadFailed e | None => UnexpectedEof end)
  else Ok (take (Z.to_nat n) (pending input),
           mkStdin (drop (Z.to_nat n) (pending input)) (read_fault input)).

(** [read_message]: a frame and the rest of the input, or [None] at its end. *)
Definition read_message (input : Stdin) : result (option (list byte * Stdin)) NmhError :=
  match stdin_read_exact 4 input with
  | Ok ([b0; b1; b2; b3], rest) =>
      let len := u32_from_le b0 b1 b2 b3 in
      if MAX_REQUEST <? len then Err (FrameTooLong len)
      else match stdin_read_exact len rest with
           | Ok (buf, rest) => Ok (Some (buf, rest))
           | Err e => Err e
           end
  | Ok _ | Err UnexpectedEof => Ok None
  | Err e => Err e
  end.

(** [impl Write], with [wrote] for what has reached the other end. *)
Class Write (Out : Type) := {
  write_all : list byte → Out → result unit string * Out;
  flush : Out → result unit string * Out;
  wrote : Out → list byte;
}.

(** What [std::io::Write] documents: a successful [write_all] writes all of
    the buffer, a failed one may have written a part of it, and [flush] adds
    nothing of its own. *)
Class WriteLaws (Out : Type) `{Write Out} := {
  write_all_Ok l o o' : write_all l o = (Ok (), o') → wrote o' = wrote o ++ l;
  write_all_Err l o e o' : write_all l o = (Err e, o') →
    ∃ part, part `prefix_of` l ∧ wrote o' = wrote o ++ part;
  flush_wrote o : wrote (flush o).2 = wrote o;
}.

(** [Vec<u8>] as a writer: it never fails. *)
#[export] Instance vec_write : Write (list byte) := {|
  write_all l o := (Ok (), o ++ l);
  flush o := (Ok (), o);
  wrote o := o;
|}.

(** A pipe whose reader goes away after [room] more bytes. *)
Record Pipe := mkPipe { delivered : list byte; room : Z }.
#[export] Instance pipe_write : Write Pipe := {|
  write_all l o :=
    if blen l <=? room o then (Ok (), mkPipe (delivered o ++ l) (room o - blen l))
    else (Err "Broken pipe", mkPipe (delivered o ++ take (Z.to_nat (room o)) l) 0);
  flush o := (Ok (), o);
  wrote := delivered;
|}.

(** [write_message] *)
Definition write_message `{Write Out} (msg : list byte) (output : Out) : result unit NmhError * Out :=
  if MAX_RESPONSE <? blen msg then (Err (ResponseTooLong (blen msg)), output)
  else
    match write_all (u32_to_le (blen msg)) output with
    | (Err e, output) => (Err (WriteFailed e), output)
    | (Ok _, output) =>
        match write_all msg output with
        | (Err e, output) => (Err (WriteFailed e), output)
        | (Ok _, output) =>
            match flush output with
            | (Err e, output) => (Err (WriteFailed e), output)
            | (Ok _, output) => (Ok (), output)
            end
        end
    end.

(** The derived [Serialize]. *)
Definition encode_response (r : BrowserResponse) : json :=
  match r with
  | JwtResponse svid id =>
      JObj [("type", JStr "jwt"); ("svid", JStr svid); ("spiffe_id", JStr id)]
  | StatusResponse running version =>
      JObj [("type", JStr "status"); ("running", JBool running); ("version", JStr version)]
  | ErrorResponse message => JObj [("type", JStr "error"); ("message", JStr message)]
  end.

(** [serde_json]: the derived [Deserialize] of a request, with its error
    text, and JSON to bytes. *)
Class NmhSerde := {
  request_from_slice : list byte → result BrowserRequest string;
  response_bytes : json → list byte;
}.

(** The daemon at the other end of a socket: [Endpoint::connect_with_connector]
    over the path, and the call on that channel. *)
Class DaemonClient (W : Type) := {
  nmh_connect : string → ST W (result unit string);
  nmh_fetch_jwtsvid : JwtsvidRequest → ST W (result (list Jwtsvid) string);
}.

(** [send_response].  The derived [Serialize] of a response never fails. *)
Definition send_response `{NmhSerde, Write Out} (output : Out) (resp : BrowserResponse)
    : result unit NmhError * Out :=
  write_message (response_bytes (encode_response resp)) output.

Section Nmh.
Context `{M : Machine W} {C : DaemonClient W} {Sd : NmhSerde} {Da : Darwin W} {T : TargetOs}.

Definition VERSION : string := "0.1.0".

(** [fetch_jwt].  A failure is its outermost context, which is all that
    [handle_request] prints. *)
Definition nmh_fetch_jwt (audience : list string) : ST W (result (string * string) string) :=
  let* path := workload_socket_path in
  let* channel := nmh_connect path in
  let*? _ := ret (map_err (λ _, "connect to hired") channel) in
  let* resp := nmh_fetch_jwtsvid (mkJwtsvidRequest audience "") in
  let*? svids := ret (map_err (λ _, "FetchJWTSVID failed") resp) in
  match svids with
  | [] => ret (Err "no SVIDs returned")
  | s :: _ => ret (Ok (svid s, sv_spiffe_id s))
  end.

(** [handle_request] *)
Definition handle_request (req : BrowserRequest) : ST W BrowserResponse :=
  match req with
  | StatusRequest =>
      let* path := workload_socket_path in
      let* running := path_exists path in
      ret (StatusResponse running VERSION)
  | FetchJwt audience =>
      let* r := nmh_fetch_jwt audience in
      match r with
      | Ok (svid, id) => ret (JwtResponse svid id)
      | Err e => ret (ErrorResponse e)
      end
  end.

Definition parse_request (msg : list byte) : result BrowserRequest string :=
  map_err (λ e, "invalid request: " +:+ e) (request_from_slice msg).

(** One turn of the main loop, after a frame was read. *)
Definition answer (msg : list byte) : ST W BrowserResponse :=
  match parse_request msg with
  | Err e => ret (ErrorResponse e)
  | Ok req => handle_request req
  end.

(** The main loop: how it ended and what it left of the output.  Every turn
    reads at least the four bytes of a length, so [length (pending input)]
    turns are enough; [None] is fuel running out. *)
Fixpoint nmh_loop `{Write Out} (fuel : nat) (input : Stdin) (output : Out)
    : ST W (option (result unit NmhError * Out)) :=
  match fuel with
  | O => ret None
  | S fuel =>
      match read_message input with
      | Err e => ret (Some (Err e, output))
      | Ok None => ret (Some (Ok (), output))
      | Ok (Some (msg, rest)) =>
          let* resp := answer msg in
          match send_response output resp with
          | (Err e, output) => ret (Some (Err e, output))
          | (Ok _, output) => nmh_loop fuel rest output
          end
      end
  end.

Definition nmh_main `{Write Out} (input : Stdin) (output : Out)
    : ST W (option (result unit NmhError * Out)) :=
  nmh_loop (S (length (pending input))) input output.

(** ** Lemmas *)

(** The frame of a message, as either side writes it. *)
Definition nmh_frame (msg : list byte) : list byte := u32_to_le (blen msg) ++ msg.

Lemma length_u32_to_le n : length (u32_to_le n) = 4%nat.
Proof. done. Qed.

Lemma u32_le_bytes n : ∃ b0 b1 b2 b3, u32_to_le n = [b0; b1; b2; b3]
  ∧ (0 ≤ n < 2 ^ 32 → u32_from_le b0 b1 b2 b3 = n).
Proof.
  unfold u32_to_le, u32_from_le. pose proof (u32_be_roundtrip n) as H.
  unfold u32_to_be in *. cbn [rev app]. eexists _, _, _, _. split; [done|exact H].
Qed.

Lemma read_exact_app l rest f :
  stdin_read_exact (blen l) (mkStdin (l ++ rest) f) = Ok (l, mkStdin rest f).
Proof.
  unfold stdin_read_exact. cbn [pending read_fault].
  rewrite (proj2 (Z.ltb_ge _ _)) by (rewrite length_app; lia).
  by rewrite Nat2Z.id, take_app_length, drop_app_length.
Qed.

Lemma read_exact_Ok n input a b : 0 ≤ n → stdin_read_exact n input = Ok (a, b) →
  input = mkStdin (a ++ pending b) (read_fault b) ∧ blen a = n.
Proof.
  unfold stdin_read_exact. intros Hn. destruct input as [p f]. cbn [pending read_fault].
  destruct (Z.ltb_spec (blen p) n); [done|].
  intros [= <- <-]. cbn [pending read_fault]. rewrite take_drop, length_take. split; [done|lia].
Qed.

Lemma read_exact_short n input : blen (pending input) < n →
  stdin_read_exact n input = Err (match read_fault input with Some e => ReadFailed e | None => UnexpectedEof end).
Proof. intros H. unfold stdin_read_exact. by rewrite (proj2 (Z.ltb_lt _ _)) by done. Qed.

Lemma read_header n rest f : 0 ≤ n < 2 ^ 32 →
  read_message (mkStdin (u32_to_le n ++ rest) f) =
    if MAX_REQUEST <? n then Err (FrameTooLong n)
    else match stdin_read_exact n (mkStdin rest f) with
         | Ok (buf, rest) => Ok (Some (buf, rest))
         | Err e => Err e
         end.
Proof.
  intros Hn. destruct (u32_le_bytes n) as (b0 & b1 & b2 & b3 & E & Hw). rewrite E.
  unfold read_message. change 4 with (blen [b0; b1; b2; b3]). rewrite read_exact_app.
  by rewrite Hw.
Qed.

Lemma read_frame msg rest f : blen msg ≤ MAX_REQUEST →
  read_message (mkStdin (nmh_frame msg ++ rest) f) = Ok (Some (msg, mkStdin rest f)).
Proof.
  intros H. assert (MAX_REQUEST = 65536) as Hm by done. unfold nmh_frame.
  rewrite <-app_assoc, read_header by lia.
  by rewrite (proj2 (Z.ltb_ge _ _)), read_exact_app by lia.
Qed.

Lemma read_message_Some input msg rest :
  read_message input = Ok (Some (msg, rest)) →
  input = mkStdin (nmh_frame msg ++ pending rest) (read_fault rest) ∧ blen msg ≤ MAX_REQUEST.
Proof.
  unfold read_message. destruct (stdin_read_exact 4 input) as [[hd r]|[]] eqn:E; [|done..].
  apply read_exact_Ok in E as [-> _]; [|lia].
  destruct hd as [|b0 [|b1 [|b2 [|b3 [|]]]]]; try done.
  pose proof (u32_from_be_range b3 b2 b1 b0) as Hr. fold (u32_from_le b0 b1 b2 b3) in Hr.
  destruct (Z.ltb_spec MAX_REQUEST (u32_from_le b0 b1 b2 b3)); [done|].
  destruct (stdin_read_exact (u32_from_le b0 b1 b2 b3) r) as [[m r']|] eqn:E; [|done].
  apply read_exact_Ok in E as [-> El]; [|lia]. intros [= -> ->]. cbn [pending read_fault].
  split; [|by rewrite El]. unfold nmh_frame. rewrite El. unfold u32_to_le, u32_from_le.
  by rewrite u32_to_from_be.
Qed.

(** The end of the input, exactly: fewer than four bytes, and no fault. *)
Lemma read_message_None input :
  read_message input = Ok None ↔ blen (pending input) < 4 ∧ read_fault input = None.
Proof.
  unfold read_message. destruct (stdin_read_exact 4 input) as [[hd r]|e] eqn:E.
  - apply read_exact_Ok in E as [-> El]; [|lia]. cbn [pending read_fault]. rewrite length_app.
    destruct hd as [|b0 [|b1 [|b2 [|b3 [|]]]]]; cbn in El; try lia.
    split; [|cbn; lia]. destruct (_ <? _); [done|]. by case_match; [case_match|].
  - unfold stdin_read_exact in E. destruct (Z.ltb_spec (blen (pending input)) 4); [|done].
    destruct (read_fault input); injection E as <-; split; naive_solver.
Qed.

Lemma nmh_loop_total `{Write Out} fuel input (output : Out) w :
  (length (pending input) < fuel)%nat → ∃ r, (nmh_loop fuel input output w).1 = Some r.
Proof.
  revert input output w; induction fuel as [|fuel IH]; intros input output w Hf; [lia|].
  cbn [nmh_loop]. destruct (read_message input) as [[[msg rest]|]|e] eqn:Hr; [|by eexists..].
  unfold bind. destruct (answer msg w) as [resp w1].
  destruct (send_response output resp) as [[] ?]; [|by eexists]. apply IH.
  apply read_message_Some in Hr as [-> _]. cbn [pending] in Hf.
  unfold nmh_frame in Hf. rewrite !length_app, length_u32_to_le in Hf. lia.
Qed.

(** A frame that was written whole, and one that was not. *)
Lemma write_message_spec `{WriteLaws Out} msg (output : Out) :
  match write_message msg output with
  | (Ok _, output') => blen msg ≤ MAX_RESPONSE ∧ wrote output' = wrote output ++ nmh_frame msg
  | (Err (ResponseTooLong n), output') => n = blen msg ∧ MAX_RESPONSE < n ∧ output' = output
  | (Err (WriteFailed _), output') => blen msg ≤ MAX_RESPONSE
      ∧ ∃ part, part `prefix_of` nmh_frame msg ∧ wrote output' = wrote output ++ part
  | (Err _, _) => False
  end.
Proof.
  unfold write_message. destruct (Z.ltb_spec MAX_RESPONSE (blen msg)) as [Hl|Hl]; [done|].
  destruct (write_all (u32_to_le (blen msg)) output) as [[[]|e] o1] eqn:E1.
  2: { split; [done|]. apply write_all_Err in E1 as (part & Hp & ->). exists part.
       split; [by apply prefix_app_r|done]. }
  apply write_all_Ok in E1.
  destruct (write_all msg o1) as [[[]|e] o2] eqn:E2.
  2: { split; [done|]. apply write_all_Err in E2 as (part & Hp & ->).
       exists (u32_to_le (blen msg) ++ part). split; [by apply prefix_app|].
       by rewrite E1, app_assoc. }
  apply write_all_Ok in E2. pose proof (flush_wrote o2) as E3.
  destruct (flush o2) as [[[]|e] o3]; cbn [snd] in E3; rewrite E3, E2, E1, <-app_assoc.
  - done.
  - split; [done|]. by exists (nmh_frame msg).
Qed.

Lemma write_message_vec msg (output : list byte) : blen msg ≤ MAX_RESPONSE →
  write_message msg output = (Ok (), output ++ nmh_frame msg).
Proof.
  intros H. unfold write_message, nmh_frame. rewrite (proj2 (Z.ltb_ge _ _)) by done.
  cbn. by rewrite <-app_assoc.
Qed.

(** ** What a run does *)

(** Answers to a sequence of messages, in order, threading the world. *)
Fixpoint answers (msgs : list (list byte)) : ST W (list BrowserResponse) :=
  match msgs with
  | [] => ret []
  | m :: msgs => let* r := answer m in let* rs := answers msgs in ret (r :: rs)
  end.

Definition response_frame (r : BrowserResponse) : list byte :=
  nmh_frame (response_bytes (encode_response r)).

(** How a run over [msgs] may end, [rs] being the answers it came to: all of
    them written, or all but a last one that is written in part. *)
Definition run_ends `{Write Out} (fault : option string) (count : nat)
    (rs : list BrowserResponse) (output : Out) (r : result unit NmhError) (output' : Out) : Prop :=
  match r with
  | Ok _ => fault = None ∧ length rs = count
      ∧ wrote output' = wrote output ++ concat (response_frame <$> rs)
  | Err (ReadFailed e) => fault = Some e ∧ length rs = count
      ∧ wrote output' = wrote output ++ concat (response_frame <$> rs)
  | Err (ResponseTooLong n) => ∃ whole last, rs = whole ++ [last]
      ∧ n = blen (response_bytes (encode_response last)) ∧ MAX_RESPONSE < n
      ∧ wrote output' = wrote output ++ concat (response_frame <$> whole)
  | Err (WriteFailed _) => ∃ whole last part, rs = whole ++ [last]
      ∧ part `prefix_of` response_frame last
      ∧ wrote output' = wrote output ++ concat (response_frame <$> whole) ++ part
  | Err _ => False
  end.

Lemma run_ends_cons `{Write Out} fault count rs (output output1 : Out) r output' resp :
  wrote output1 = wrote output ++ response_frame resp →
  run_ends fault count rs output1 r output' →
  run_ends fault (S count) (resp :: rs) output r output'.
Proof.
  intros E. unfold run_ends. rewrite E, <-!app_assoc. destruct r as [|[]]; [|done|done|..].
  - by intros (-> & <- & ->).
  - by intros (-> & <- & ->).
  - intros (whole & last & -> & -> & Hn & ->). exists (resp :: whole), last.
    split_and!; [done..|]. cbn [fmap list_fmap concat]. by rewrite <-!app_assoc.
  - intros (whole & last & part & -> & Hp & ->). exists (resp :: whole), last, part.
    split_and!; [done..|]. cbn [fmap list_fmap concat]. by rewrite <-!app_assoc.
Qed.

Lemma nmh_loop_runs `{WriteLaws Out} msgs tail fault :
  Forall (λ m, blen m ≤ MAX_REQUEST) msgs → (length tail < 4)%nat →
  ∀ fuel (output : Out) w, (length (concat (nmh_frame <$> msgs) ++ tail) < fuel)%nat →
  ∃ k r output',
    nmh_loop fuel (mkStdin (concat (nmh_frame <$> msgs) ++ tail) fault) output w =
      (Some (r, output'), (answers (take k msgs) w).2)
    ∧ run_ends fault (length msgs) (answers (take k msgs) w).1 output r output'.
Proof.
  intros Hm Ht. induction Hm as [|m msgs Hml _ IH]; intros fuel output w Hf.
  - destruct fuel as [|fuel]; [lia|]. cbn [fmap list_fmap concat app nmh_loop].
    exists 0%nat. destruct fault as [e|].
    + eexists (Err (ReadFailed e)), output. unfold read_message.
      rewrite read_exact_short by (cbn [pending]; lia). cbn. by rewrite app_nil_r.
    + exists (Ok ()), output. rewrite (proj2 (read_message_None _)) by (cbn [pending]; split; [lia|done]).
      cbn. by rewrite app_nil_r.
  - destruct fuel as [|fuel]; [lia|]. cbn [fmap list_fmap concat] in *.
    rewrite <-app_assoc in Hf |- *. cbn [nmh_loop]. rewrite read_frame by done.
    unfold bind at 1. destruct (answer m w) as [resp w1] eqn:Ha.
    pose proof (write_message_spec (response_bytes (encode_response resp)) output) as Hw.
    fold (send_response output resp) in Hw. fold (response_frame resp) in Hw.
    destruct (send_response output resp) as [[[]|e] output1].
    + destruct (IH fuel output1 w1) as (k & r & output' & Hl & He).
      { unfold nmh_frame at 1 in Hf. rewrite !length_app, length_u32_to_le in Hf.
        rewrite length_app. lia. }
      exists (S k), r, output'. cbn [take answers]. unfold bind, ret. rewrite Ha, Hl.
      destruct (answers (take k msgs) w1) as [rs w2]. cbn [fst snd] in *. split; [done|].
      destruct Hw as [_ Hw]. by apply run_ends_cons with output1.
    + exists 1%nat, (Err e), output1. change (take 1 (m :: msgs)) with [m]. cbn [answers]. unfold bind, ret.
      rewrite Ha. cbn [fst snd]. split; [done|].
      destruct e; try done; cbn [run_ends].
      * destruct Hw as (-> & Hl & ->). exists [], resp. by rewrite app_nil_r.
      * destruct Hw as (_ & part & Hp & ->). by exists [], resp, part.
Qed.

Lemma nmh_loop_frames msgs fuel (output : list byte) w tail :
  Forall (λ m, blen m ≤ MAX_REQUEST) msgs → (length tail < 4)%nat →
  Forall (λ r, blen (response_bytes (encode_response r)) ≤ MAX_RESPONSE) (answers msgs w).1 →
  (length (concat (nmh_frame <$> msgs) ++ tail) < fuel)%nat →
  nmh_loop fuel (mkStdin (concat (nmh_frame <$> msgs) ++ tail) None) output w =
    (Some (Ok (), output ++ concat (response_frame <$> (answers msgs w).1)), (answers msgs w).2).
Proof.
  intros Hm Ht. revert fuel output w; induction Hm as [|m msgs Hml _ IH]; intros fuel output w Hr Hf.
  - destruct fuel as [|fuel]; [lia|]. cbn [fmap list_fmap concat app nmh_loop answers].
    rewrite (proj2 (read_message_None _)) by (cbn [pending]; split; [lia|done]).
    cbn. by rewrite app_nil_r.
  - destruct fuel as [|fuel]; [lia|]. cbn [fmap list_fmap concat] in *.
    rewrite <-app_assoc in Hf |- *. cbn [nmh_loop]. rewrite read_frame by done.
    cbn [answers] in *. unfold bind, ret in Hr |- *. destruct (answer m w) as [r w1].
    specialize (IH fuel). destruct (answers msgs w1) as [rs w2] eqn:Ha.
    cbn [fst snd fmap list_fmap concat] in *. apply Forall_cons in Hr as [Hr1 Hr].
    unfold send_response. rewrite write_message_vec by done.
    rewrite (IH _ w1); rewrite ?Ha; cbn [fst snd]; [|done|].
    + by rewrite <-app_assoc.
    + unfold nmh_frame at 1 in Hf. rewrite !length_app, length_u32_to_le in *. lia.
Qed.

Lemma length_answers msgs w : length (answers msgs w).1 = length msgs.
Proof.
  revert w; induction msgs as [|m msgs IH]; intros w; [done|]. cbn [answers].
  unfold bind, ret. destruct (answer m w) as [r w1]. specialize (IH w1).
  destruct (answers msgs w1) as [rs w2]. cbn in *. lia.
Qed.
End Nmh.

#[export] Instance vec_laws : WriteLaws (list byte).
Proof.
  split; [by intros l o o' [= <-]|done|done].
Qed.

#[export] Instance pipe_laws : WriteLaws Pipe.
Proof.
  split; [| |done]; intros l o *; cbn; destruct (blen l <=? room o); try done.
  - by intros [= <-].
  - intros [= _ <-]. exists (take (Z.to_nat (room o)) l). split; [apply prefix_take|done].
Qed.

(** ** Properties *)

(** Framing is exact in both directions.  A frame is read exactly when
    the input starts with a four-byte little-endian length of at most 64 KiB
    and that many bytes, and then that is the message and nothing more is
    consumed; a longer announced length is refused on its prefix alone,
    whatever follows; the host takes the input as finished exactly when
    fewer than four bytes are left — none, or a truncated length — and the
    read did not fail.  A message is written to a byte vector exactly when it
    is at most 1 MiB, as one such frame. *)
Lemma nmh_framing :
  (∀ input msg rest, read_message input = Ok (Some (msg, rest)) ↔
     input = mkStdin (nmh_frame msg ++ pending rest) (read_fault rest) ∧ blen msg ≤ MAX_REQUEST)
  ∧ (∀ n rest fault, MAX_REQUEST < n < 2 ^ 32 →
       read_message (mkStdin (u32_to_le n ++ rest) fault) = Err (FrameTooLong n))
  ∧ (∀ input, read_message input = Ok None ↔ blen (pending input) < 4 ∧ read_fault input = None)
  ∧ (∀ msg (output output' : list byte), write_message msg output = (Ok (), output') ↔
       output' = output ++ nmh_frame msg ∧ blen msg ≤ MAX_RESPONSE).
Proof.
  split_and!; [| |apply read_message_None|].
  - intros input msg [rest fault]. split; [apply read_message_Some|]. intros [-> H].
    by apply read_frame.
  - intros n rest fault Hn. assert (MAX_REQUEST = 65536) as Hm by done.
    rewrite read_header by lia. by rewrite (proj2 (Z.ltb_lt _ _)) by lia.
  - intros msg output output'. split; [|by intros [-> H]; apply write_message_vec].
    pose proof (write_message_spec msg output) as Hw. intros E. rewrite E in Hw. by destruct Hw.
Qed.

(** C38: the host reads and writes exactly the framed protocol and answers
    every request, once, in order.  A frame is read exactly when the input
    starts with a four-byte little-endian length of at most 64 KiB and that
    many bytes; a longer announced length is refused on its prefix alone; the
    input counts as finished exactly when fewer than four bytes are left; a
    message is written exactly when it is at most 1 MiB, as one frame.  Fed
    any well-sized messages, valid requests or not, over any writer that keeps
    [std::io::Write]'s promises, the run answers the first of them in order,
    the daemon's state threaded through, and no others: all of them when it
    ends normally, which needs the input to end without an error, or up to
    the first answer that does not fit in 1 MiB, of which nothing is written,
    or that the writer refuses, of which only a part is.  Every answer before
    that is one whole frame.  Over a byte vector, when every answer fits, all
    are answered; and on any input and writer the run ends. *)
Theorem nmh_protocol `{M : Machine W} {C : DaemonClient W} {Sd : NmhSerde} {Da : Darwin W} {T : TargetOs}
    `{WriteLaws Out} msgs tail fault (output : Out) w :
  Forall (λ m, blen m ≤ MAX_REQUEST) msgs → (length tail < 4)%nat →
  (∀ input msg rest, read_message input = Ok (Some (msg, rest)) ↔
     input = mkStdin (nmh_frame msg ++ pending rest) (read_fault rest) ∧ blen msg ≤ MAX_REQUEST)
  ∧ (∀ n rest fault, MAX_REQUEST < n < 2 ^ 32 →
       read_message (mkStdin (u32_to_le n ++ rest) fault) = Err (FrameTooLong n))
  ∧ (∀ input, read_message input = Ok None ↔ blen (pending input) < 4 ∧ read_fault input = None)
  ∧ (∀ msg (output output' : list byte), write_message msg output = (Ok (), output') ↔
       output' = output ++ nmh_frame msg ∧ blen msg ≤ MAX_RESPONSE)
  ∧ (∃ k r output',
       nmh_main (mkStdin (concat (nmh_frame <$> msgs) ++ tail) fault) output w =
         (Some (r, output'), (answers (take k msgs) w).2)
       ∧ run_ends fault (length msgs) (answers (take k msgs) w).1 output r output')
  ∧ (Forall (λ r, blen (response_bytes (encode_response r)) ≤ MAX_RESPONSE) (answers msgs w).1 →
       nmh_main (mkStdin (concat (nmh_frame <$> msgs) ++ tail) None) ([] : list byte) w =
         (Some (Ok (), concat (response_frame <$> (answers msgs w).1)), (answers msgs w).2))
  ∧ length (answers msgs w).1 = length msgs
  ∧ ∀ input (output : Out) w', ∃ r, (nmh_main input output w').1 = Some r.
Proof.
  intros Hm Ht. destruct nmh_framing as (F1 & F2 & F3 & F4).
  unfold nmh_main. split_and!; [done..| | | |].
  - apply nmh_loop_runs; [done..|]. cbn [pending]. lia.
  - intros Hr. by rewrite nmh_loop_frames by (done || (cbn [pending]; lia)).
  - apply length_answers.
  - intros input output1 w'. apply nmh_loop_total. lia.
Qed.

(** ** A host whose messages are the request names, for the witness *)
#[local] Instance name_nmh : NmhSerde := {|
  request_from_slice := λ b,
    if String.eqb (of_bytes b) "status" then Ok StatusRequest
    else if String.eqb (of_bytes b) "fetch_jwt" then Ok (FetchJwt ["a"])
    else Err "unknown variant";
  response_bytes := λ v, as_bytes (default "" (get_str "type" v));
|}.
#[local] Instance not_darwin : Darwin Script := λ _ w, ((0%Z, []), w).
#[local] Instance on_linux : TargetOs := Linux.
#[local] Instance no_daemon : DaemonClient Script := {|
  nmh_connect _ w := (Err "transport error", w);
  nmh_fetch_jwtsvid _ w := (Err "unreachable", w);
|}.
Definition browser_box : Script :=
  mkScript 0 [("XDG_RUNTIME_DIR", "/run/user/1000")] ["/run/user/1000/hire/workload.sock"] [] [] []
    (λ _ _, Err StdinNotPiped) 1000 [].

(** Three messages and a truncated length; and a pipe that breaks inside the
    second answer, so that the third message is never answered. *)
Lemma nmh_protocol_witness :
  let input := mkStdin (nmh_frame (as_bytes "status") ++ nmh_frame (as_bytes "fetch_jwt")
                        ++ nmh_frame (as_bytes "dance") ++ [as_u8 1]) None in
  nmh_main input ([] : list byte) browser_box =
    (Some (Ok (), nmh_frame (as_bytes "status") ++ nmh_frame (as_bytes "error")
                  ++ nmh_frame (as_bytes "error")), browser_box)
  ∧ nmh_main input (mkPipe [] 15) browser_box =
      (Some (Err (WriteFailed "Broken pipe"),
             mkPipe (nmh_frame (as_bytes "status") ++ take 5 (nmh_frame (as_bytes "error"))) 0),
       browser_box)
  ∧ ∃ k r output', nmh_main input (mkPipe [] 15) browser_box =
      (Some (r, output'), (answers (take k [as_bytes "status"; as_bytes "fetch_jwt"; as_bytes "dance"])
                             browser_box).2).
Proof.
  destruct (nmh_protocol [as_bytes "status"; as_bytes "fetch_jwt"; as_bytes "dance"]
    [as_u8 1] None (mkPipe [] 15) browser_box) as (_ & _ & _ & _ & Hrun & Hvec & _).
  - repeat constructor; vm_compute; discriminate.
  - vm_compute. repeat constructor.
  - split; [|split].
    + apply Hvec. repeat constructor; vm_compute; discriminate.
    + vm_compute. reflexivity.
    + destruct Hrun as (k & r & o & Hk & _). exists k, r, o. exact Hk.
Defined.
