(* ===== verification/Install.v ===== *)
(** * The client's host ([hire/src/main.rs]): how a command ends, and the
    service files

    [show_log] and [install_service] on Linux, the BSDs and macOS, with the
    two service files the client carries. *)
From S2P Require Import Prelude RustStr Json Machine Server.

(** A finished command: what it wrote and its exit status. *)
Record Exit : Type := mkExit { out : list string; err : list string; status : Z }.

Definition fail (lines : list string) : Exit := mkExit [] lines 1.

(** [anyhow::Error]: [{}] prints the outermost context, [{:?}] — what a
    failing [main] prints — the whole chain.  A bare message is both. *)
Record AnyhowError : Type := mkAnyhow { e_display : string; e_debug : string }.
Definition bail (msg : string) : AnyhowError := mkAnyhow msg msg.

(** What the commands use of their libraries: [serde_json]'s pretty printer,
    the texts of a base64 error, of a missing or non-UTF-8 variable and of an
    I/O error, [anyhow]'s [{:?}] of a context around a cause, the report of a
    panic at a slice index, and the file write of [install-service]. *)
Class CliLib (W : Type) := {
  json_pretty : json → result string string;
  b64url_error : string → string;
  var_error : string → ST W string;
  io_error_text : IoError → string;
  anyhow_chain : string → string → string;
  slice_panic : string → nat → list string;
  fs_write : string → string → ST W (result unit IoError);
}.

(** [.context(ctx)] around an error whose text is [cause]. *)
Definition with_context `{L : CliLib W} (ctx cause : string) : AnyhowError :=
  mkAnyhow ctx (anyhow_chain ctx cause).

(** The unit file [install-service] writes, pulled in by [include_str!]. *)
Definition SYSTEMD_UNIT : list string :=
  ["[Unit]";
   "Description=HIRE identity daemon (SPIFFE Workload API)";
   "After=tailscaled.service";
   "Documentation=https://github.com/MarkAtwood/project-HIRE";
   "";
   "[Service]";
   "Type=simple";
   "ExecStart=%h/.cargo/bin/hired";
   "Restart=on-failure";
   "RestartSec=5";
   "Environment=RUST_LOG=info";
   "";
   "[Install]";
   "WantedBy=default.target"].

(** A quoted attribute. *)
Definition quoted (s : string) : string := String "034" (s +:+ String "034" "").

(** The launchd template. *)
Definition LAUNCHD_PLIST : list string :=
  ["<?xml version=" +:+ quoted "1.0" +:+ " encoding=" +:+ quoted "UTF-8" +:+ "?>";
   "<!--";
   "  Template. launchd expands nothing in this file: no ~, no $HOME, no systemd-style";
   "  specifiers, so every path must be absolute and literal. `hire install-service`";
   "  substitutes __HOME__ and writes the result to ~/Library/LaunchAgents/hired.plist.";
   "  Copying this file into place unedited will not work.";
   "";
   "  Output goes to ~/Library/Logs/hired.log. launchd sends the stdout and stderr of";
   "  an agent with no StandardOutPath to /dev/null, not to the unified log -- measured on";
   "  macOS 26.6.2, where a test agent ran but produced no log entries. ~/Library is mode";
   "  0700, so the file is unreadable by other local users even though launchd creates it";
   "  0644. Do not move this to /tmp: the daemon logs SPIFFE IDs, attestor sources and";
   "  assurance levels, and a predictable name in a world-writable directory can be";
   "  pre-created by another user.";
   "-->";
   "<plist version=" +:+ quoted "1.0" +:+ ">";
   "<dict>";
   "    <key>Label</key>";
   "    <string>hired</string>";
   "    <key>ProgramArguments</key>";
   "    <array>";
   "        <string>__HOME__/.cargo/bin/hired</string>";
   "    </array>";
   "    <key>RunAtLoad</key>";
   "    <true/>";
   "    <key>KeepAlive</key>";
   "    <true/>";
   "    <key>StandardOutPath</key>";
   "    <string>__HOME__/Library/Logs/hired.log</string>";
   "    <key>StandardErrorPath</key>";
   "    <string>__HOME__/Library/Logs/hired.log</string>";
   "    <key>EnvironmentVariables</key>";
   "    <dict>";
   "        <key>RUST_LOG</key>";
   "        <string>info</string>";
   "    </dict>";
   "</dict>";
   "</plist>"].

Definition unlines (l : list string) : string :=
  foldr (λ x acc, x +:+ String "010" acc) "" l.

Section Install.
Context `{M : Machine W} {O : Os W} {L : CliLib W} {T : TargetOs}.

(** [systemd_is_running] *)
Definition systemd_is_running : ST W bool :=
  let* md := metadata "/run/systemd/system" in
  ret (match md with Ok md => md_is_dir md | Err _ => false end).

(** [show_log] *)
Definition show_log : ST W Exit :=
  let first := "hired writes structured audit events to its stderr." in
  match target_os with
  | MacOS =>
      ret (mkExit [first; "launchd routes that to a file; the unified log never sees it.";
                   "To follow it: tail -f ~/Library/Logs/hired.log"] [] 0)
  | Linux | OtherUnix =>
      let* systemd := systemd_is_running in
      ret (mkExit (first
        :: (if systemd then ["systemd routes that to the journal.";
                             "To follow it: journalctl --user -u hired -f"]
            else ["systemd is not running here, so there is no journal to read.";
                  "Read the stderr of however hired was started."])) [] 0)
  end.

(** The macOS half of [install_service]; an I/O error without a context is
    its own text.  A log directory that cannot be made fails the command
    after the plist was written and said to be. *)
Definition install_launchd (home : string) : ST W Exit :=
  let dir := path_join home "Library/LaunchAgents" in
  let* made := create_dir_all dir 511 in
  match made with
  | Err e => ret (fail ["Error: " +:+ io_error_text e])
  | Ok _ =>
      let dest := path_join dir "hired.plist" in
      let plist := replace "__HOME__" home (unlines LAUNCHD_PLIST) in
      let* written := fs_write dest plist in
      match written with
      | Err e => ret (fail ["Error: " +:+ io_error_text e])
      | Ok _ =>
          let* logs := create_dir_all (path_join home "Library/Logs") 511 in
          ret (match logs with
               | Err e => mkExit ["installed hired.plist"] ["Error: " +:+ io_error_text e] 1
               | Ok _ => mkExit
                   ["installed hired.plist"; "logs: ~/Library/Logs/hired.log";
                    "run: launchctl load ~/Library/LaunchAgents/hired.plist"] [] 0
               end)
      end
  end.

(** The other half. *)
Definition install_systemd (home : string) : ST W Exit :=
  let dir := path_join home ".config/systemd/user" in
  let* systemd := systemd_is_running in
  if negb systemd then
    ret (mkExit SYSTEMD_UNIT
      ["error: systemd is not running here, so nothing was installed.";
       "The unit is on stdout. Install it by hand at";
       dir +:+ "/hired.service"] 1)
  else
    let* made := create_dir_all dir 511 in
    match made with
    | Err e => ret (fail ["Error: " +:+ anyhow_chain ("create " +:+ dir) (io_error_text e)])
    | Ok _ =>
        let dest := path_join dir "hired.service" in
        let* written := fs_write dest (unlines SYSTEMD_UNIT) in
        ret (match written with
             | Err e => fail ["Error: " +:+ anyhow_chain ("write " +:+ dest) (io_error_text e)]
             | Ok _ => mkExit
                 ["installed hired.service, run: systemctl --user enable --now hired"] [] 0
             end)
    end.

(** [install_service] *)
Definition install_service : ST W Exit :=
  let* home := env_var "HOME" in
  match home with
  | None => let* e := var_error "HOME" in
            ret (fail ["Error: " +:+ anyhow_chain "HOME not set" e])
  | Some home =>
      match target_os with
      | MacOS => install_launchd home
      | Linux | OtherUnix => install_systemd home
      end
  end.

(** ** Lemmas *)

(** Where the service file goes and what it holds. *)
Definition service_file (home : string) : string * string :=
  match target_os with
  | MacOS => (path_join (path_join home "Library/LaunchAgents") "hired.plist",
              replace "__HOME__" home (unlines LAUNCHD_PLIST))
  | Linux | OtherUnix =>
      (path_join (path_join home ".config/systemd/user") "hired.service", unlines SYSTEMD_UNIT)
  end.

(** Every end of [install_service] is a zero after the file was written or a
    one. *)
Lemma install_service_exit w e w' :
  install_service w = (e, w') →
  (status e = 0%Z ∧ ∃ home w0 w1 w2, env_var "HOME" w = (Some home, w0)
     ∧ fs_write (service_file home).1 (service_file home).2 w1 = (Ok (), w2))
  ∨ status e = 1%Z.
Proof.
  unfold install_service, service_file. unfold bind at 1.
  destruct (env_var "HOME" w) as [[home|] w0] eqn:Hh.
  2: { unfold bind. destruct (var_error "HOME" w0). intros [= <- _]. by right. }
  assert (Hl : install_launchd home w0 = (e, w') →
    (status e = 0%Z ∧ ∃ w1 w2, fs_write (path_join (path_join home "Library/LaunchAgents") "hired.plist")
       (replace "__HOME__" home (unlines LAUNCHD_PLIST)) w1 = (Ok (), w2)) ∨ status e = 1%Z).
  { unfold install_launchd, bind, ret. destruct (create_dir_all _ _ w0) as [[[]|x] w1];
      [|intros [= <- _]; by right].
    destruct (fs_write _ _ w1) as [[[]|x] w2] eqn:Hw; [|intros [= <- _]; by right].
    destruct (create_dir_all _ _ w2) as [[[]|x] w3]; intros [= <- _]; [left|by right]. eauto. }
  assert (Hs : install_systemd home w0 = (e, w') →
    (status e = 0%Z ∧ ∃ w1 w2, fs_write (path_join (path_join home ".config/systemd/user") "hired.service")
       (unlines SYSTEMD_UNIT) w1 = (Ok (), w2)) ∨ status e = 1%Z).
  { unfold install_systemd, bind, ret. destruct (systemd_is_running w0) as [[] w1]; cbn [negb];
      [|intros [= <- _]; by right].
    destruct (create_dir_all _ _ w1) as [[[]|x] w2]; [|intros [= <- _]; by right].
    destruct (fs_write _ _ w2) as [[[]|x] w3] eqn:Hw; intros [= <- _]; [left|by right]. eauto. }
  intros He. destruct target_os; apply Hs in He || apply Hl in He;
    destruct He as [[He (w1 & w2 & Hw)]|He]; [left|by right|left|by right|left|by right];
    (split; [done|]; by exists home, w0, w1, w2).
Qed.
End Install.
