(* ===== verification/Cli.v ===== *)
(** * The command line client ([hire/src/main.rs])

    Argument parsing, the dispatch of [main] and what each command prints and
    exits with.  The RPCs are the daemon's. *)
From S2P Require Import Prelude RustStr RustNum External Assurance SpiffeId Json Jwt Audience Claim Machine Devices Attestor Socket Service Server Install.

(** The daemon, over its socket; [rpc_connect] is the gRPC connection after
    the path was found, a failure being the text of its error.  The bundle stream is the responses it yields in
    order, each the pairs of one [HashMap] in its iteration order; a failure
    is the text of its [Status]. *)
Class DaemonRpc (W : Type) := {
  rpc_connect : string → ST W (result unit string);
  rpc_fetch_jwtsvid : JwtsvidRequest → ST W (result (list Jwtsvid) Status);
  rpc_fetch_jwt_bundles :
    ST W (result (list (result (list (string * list byte)) string)) string);
}.

(** ** Argument parsing *)
Record FetchArgs : Type := mkFetchArgs {
  fa_audience : option string;
  fa_spiffe_id : string;
  fa_decode : bool;
}.

(** The loop of [fetch_jwt]: a flag at the end of the line has no value. *)
Fixpoint fetch_args (a : FetchArgs) (args : list string) : result FetchArgs string :=
  match args with
  | [] => Ok a
  | flag :: rest =>
      if String.eqb flag "--audience" then
        match rest with
        | v :: rest => fetch_args (mkFetchArgs (Some v) (fa_spiffe_id a) (fa_decode a)) rest
        | [] => Ok (mkFetchArgs None (fa_spiffe_id a) (fa_decode a))
        end
      else if String.eqb flag "--spiffe-id" then
        match rest with
        | v :: rest => fetch_args (mkFetchArgs (fa_audience a) v (fa_decode a)) rest
        | [] => Ok (mkFetchArgs (fa_audience a) "" (fa_decode a))
        end
      else if String.eqb flag "--decode" then
        fetch_args (mkFetchArgs (fa_audience a) (fa_spiffe_id a) true) rest
      else Err ("unknown flag: " +:+ flag)
  end.

(** The loop of [prove]. *)
Fixpoint prove_args (audience challenge : option string) (args : list string)
    : result (option string * option string) string :=
  match args with
  | [] => Ok (audience, challenge)
  | flag :: rest =>
      if String.eqb flag "--audience" then
        match rest with
        | v :: rest => prove_args (Some v) challenge rest
        | [] => Ok (None, challenge)
        end
      else if String.eqb flag "--challenge" then
        match rest with
        | v :: rest => prove_args audience (Some v) rest
        | [] => Ok (audience, None)
        end
      else Err ("unknown flag: " +:+ flag)
  end.

(** [format!("{audience}?challenge={challenge}")] *)
Definition audience_with_challenge (audience challenge : string) : string :=
  audience +:+ "?challenge=" +:+ challenge.

(** [enumerate_summary] *)
Definition enumerate_summary (sources candidates : Z) : string :=
  show_u64 sources +:+ " identity " +:+ (if (sources =? 1)%Z then "source" else "sources")
  +:+ " active, " +:+ show_u64 candidates +:+ " "
  +:+ (if (candidates =? 1)%Z then "candidate" else "candidates") +:+ " found".

(** [&s[..s.len().min(40)]] *)
Definition truncate40 (s : string) : option string := str_slice_to (Nat.min (String.length s) 40) s.

Section Cli.
Context `{M : Machine W} {D : DaemonRpc W} {O : Os W} {B : Base64} {H : Sha2} {Ed : Ed25519}
  {J : SerdeJson} {L : CliLib W} {Ft : Features} {Hd : Hid W} {Da : Darwin W} {T : TargetOs}
  {U : Unicode}.

(** [connect_to_daemon] *)
Definition connect_to_daemon : ST W (result unit AnyhowError) :=
  let* path := workload_socket_path in
  let* e := path_exists path in
  if negb e then
    ret (Err (bail ("hired socket not found at " +:+ path_display path +:+ String "010"
              "Is hired running? Try: systemctl --user start hired")))
  else
    let* r := rpc_connect path in
    ret (match r with
         | Ok u => Ok u
         | Err x => Err (with_context ("cannot connect to hired at " +:+ path_display path) x)
         end).

(** A command that fails with an [anyhow] error exits 1 and prints it. *)
Definition or_error (m : ST W (result unit AnyhowError)) (k : ST W Exit) : ST W Exit :=
  let* r := m in match r with Ok _ => k | Err e => ret (fail ["Error: " +:+ e_debug e]) end.

(** The lines [whoami] prints of the SVIDs it got.  A token with a character
    across its fortieth byte panics, which ends the process with 101. *)
Fixpoint print_svids (printed : list string) (svids : list Jwtsvid) : Exit :=
  match svids with
  | [] => mkExit printed [] 0
  | s :: svids =>
      let printed := printed ++ ["spiffe_id: " +:+ sv_spiffe_id s] in
      match truncate40 (svid s) with
      | None => mkExit printed (slice_panic (svid s) 40) 101
      | Some t => print_svids (printed ++ ["token:     " +:+ t +:+ " (truncated)"]) svids
      end
  end.

(** [whoami] *)
Definition whoami : ST W Exit :=
  or_error connect_to_daemon (
    let* r := rpc_fetch_jwtsvid (mkJwtsvidRequest ["hire:whoami"] "") in
    match r with
    | Ok [] => ret (fail ["error: no identity"])
    | Ok svids => ret (print_svids [] svids)
    | Err st => ret (fail ["hired: " +:+ message st])
    end).

(** One half of a token: [decode] then [from_slice]. *)
Definition decode_part (name part : string) : result json AnyhowError :=
  match b64url_decode part with
  | None => Err (with_context ("base64 decode JWT " +:+ name) (b64url_error part))
  | Some bytes => match json_from_slice bytes with
                  | Ok v => Ok v
                  | Err e => Err (with_context ("parse JWT " +:+ name) e)
                  end
  end.

(** [fetch_jwt]'s [--decode]: both halves are decoded before the first line. *)
Definition decode_jwt (jwt : string) : Exit :=
  match splitn 3 "." jwt with
  | header :: claims :: _ =>
      match decode_part "header" header with
      | Err e => fail ["Error: " +:+ e_debug e]
      | Ok header =>
          match decode_part "claims" claims with
          | Err e => fail ["Error: " +:+ e_debug e]
          | Ok claims =>
              match json_pretty header with
              | Err e => fail ["Error: " +:+ e]
              | Ok h => match json_pretty claims with
                        | Err e => mkExit ["header: " +:+ h] ["Error: " +:+ e] 1
                        | Ok c => mkExit ["header: " +:+ h; "claims: " +:+ c] [] 0
                        end
              end
          end
      end
  | _ => fail ["error: malformed JWT"]
  end.

(** [fetch_jwt] *)
Definition fetch_jwt (args : list string) : ST W Exit :=
  match fetch_args (mkFetchArgs None "" false) args with
  | Err e => ret (fail [e])
  | Ok a =>
      match fa_audience a with
      | None => ret (fail ["error: --audience is required";
          "usage: hire fetch-jwt --audience <url> [--spiffe-id <id>] [--decode]"])
      | Some audience =>
          or_error connect_to_daemon (
            let* r := rpc_fetch_jwtsvid (mkJwtsvidRequest [audience] (fa_spiffe_id a)) in
            match r with
            | Ok [] => ret (fail ["error: no SVIDs returned"])
            | Ok (s :: _) =>
                ret (if fa_decode a then decode_jwt (svid s) else mkExit [svid s] [] 0)
            | Err st => ret (fail ["error: hired: " +:+ message st])
            end)
      end
  end.

(** [prove] *)
Definition prove (args : list string) : ST W Exit :=
  match prove_args None None args with
  | Err e => ret (fail [e])
  | Ok (None, _) => ret (fail ["error: --audience is required";
                               "usage: hire prove --audience <url> --challenge <nonce>"])
  | Ok (Some _, None) => ret (fail ["error: --challenge is required";
                                    "usage: hire prove --audience <url> --challenge <nonce>"])
  | Ok (Some audience, Some challenge) =>
      or_error connect_to_daemon (
        let* r := rpc_fetch_jwtsvid
                    (mkJwtsvidRequest [audience_with_challenge audience challenge] "") in
        match r with
        | Ok [] => ret (fail ["error: no SVIDs returned"])
        | Ok (s :: _) => ret (mkExit [svid s] [] 0)
        | Err st => ret (fail ["error: hired: " +:+ message st])
        end)
  end.

(** [fetch_x509] and [enroll] *)
Definition fetch_x509 : Exit := fail ["error: X.509-SVID issuance not yet implemented (hire-4qm)"].

Definition enroll (args : list string) : Exit :=
  let subcmd := default "--help" (head args) in
  if String.eqb subcmd "app" || String.eqb subcmd "origin" then
    fail ["error: enroll " +:+ subcmd +:+ " is not implemented";
          "There is no enrollment store. The CLI records nothing and hired keeps";
          "no enrollment state, so this command grants no origin or application any";
          "scope, and un-enrolled callers are not denied anything."]
  else if String.eqb subcmd "--help" || String.eqb subcmd "-h" then
    mkExit ["usage: hire enroll app | origin <url>"] [] 0
  else fail ["unknown enroll subcommand: " +:+ subcmd; "usage: hire enroll app | origin <url>"].

(** The bundles of [trust-bundle list], response by response. *)
Fixpoint print_bundles (printed : list string)
    (stream : list (result (list (string * list byte)) string)) : Exit :=
  match stream with
  | [] => mkExit printed [] 0
  | Ok bundles :: stream =>
      print_bundles (printed ++ ((λ '(domain, jwks),
        "  domain: " +:+ domain +:+ "  (jwks: " +:+ show_u64 (Z.of_nat (length jwks))
          +:+ " bytes)") <$> bundles)) stream
  | Err e :: _ => mkExit printed ["Error: " +:+ anyhow_chain "stream error" e] 1
  end.

(** [trust_bundle] *)
Definition trust_bundle (args : list string) : ST W Exit :=
  let subcmd := default "--help" (head args) in
  let usage := "usage: hire trust-bundle <list|add <url>|remove <domain>>" in
  if String.eqb subcmd "list" then
    or_error connect_to_daemon (
      let* r := rpc_fetch_jwt_bundles in
      ret (match r with
           | Err e => fail ["Error: " +:+ anyhow_chain "fetch_jwt_bundles" e]
           | Ok stream => print_bundles [] stream
           end))
  else if String.eqb subcmd "add" then
    ret (fail ["error: trust-bundle add is not implemented (requires hired support)";
               "No trust anchor was added. hired was not contacted."])
  else if String.eqb subcmd "remove" then
    ret (fail ["error: trust-bundle remove is not implemented";
               "No trust anchor was removed. hired was not contacted, so any anchor";
               "for that domain is still live and tokens from it still validate."])
  else if String.eqb subcmd "--help" || String.eqb subcmd "-h" then
    ret (mkExit [usage] [] 0)
  else ret (fail ["unknown trust-bundle subcommand: " +:+ subcmd; usage]).

(** The candidates [enumerate] prints, source by source. *)
Fixpoint enumerate_sources (sources : list (Attestor W))
    : ST W (list string * list string * Z) :=
  match sources with
  | [] => ret ([], [], 0%Z)
  | a :: sources =>
      let* r := at_enumerate a in
      let* (o, e, n) := enumerate_sources sources in
      ret (match r with
           | Ok found =>
               (((λ c, c_source c +:+ " | " +:+ uri (candidate_spiffe_id c) +:+ " | "
                       +:+ c_display_name c) <$> found) ++ o, e,
                (Z.of_nat (length found) + n)%Z)
           | Err x => (o, ("warning: " +:+ at_name a +:+ " enumerate failed: "
                             +:+ show_attestor_error x) :: e, n)
           end)
  end.

(** [enumerate] *)
Definition enumerate : ST W Exit :=
  let* sources := probe_sources in
  let* (o, e, n) := enumerate_sources sources in
  ret (mkExit o
    (e ++ [enumerate_summary (Z.of_nat (length sources)) n;
           "This list is what this shell can see. hired probes its own environment,";
           "which this command does not read and cannot report: the daemon can hold";
           "identities missing from this list and miss ones this list shows. Ask hired";
           "directly with 'hire whoami'."]) 0).

(** [unix_timestamp] *)
Definition unix_timestamp : ST W Z :=
  let* t := now in ret (as_secs (default 0 (duration_since t UNIX_EPOCH))).

(** One tick of [watch], at the second it stamps. *)
Definition watch_tick : ST W (list string * list string) :=
  let* now := unix_timestamp in
  let stamp := "[" +:+ show_u64 now +:+ "] " in
  let* c := connect_to_daemon in
  match c with
  | Err e => ret ([], [stamp +:+ "error: " +:+ e_display e])
  | Ok _ =>
      let* r := rpc_fetch_jwtsvid (mkJwtsvidRequest ["hire:watch"] "") in
      match r with
      | Ok [] => ret ([stamp +:+ "no identity"], [])
      | Ok svids => ret ((λ s, stamp +:+ sv_spiffe_id s) <$> svids, [])
      | Err st => ret ([], [stamp +:+ "error: " +:+ message st])
      end
  end.

(** [watch], interrupted after [ticks] ticks. *)
Fixpoint watch (ticks : nat) : ST W Exit :=
  match ticks with
  | 0%nat => ret (mkExit [] [] 0)
  | S ticks =>
      let* (o, e) := watch_tick in
      let* rest := watch ticks in
      ret (mkExit (o ++ out rest) (e ++ err rest) (status rest))
  end.

(** [main], on [argv] with the program's name first; a [watch] is interrupted
    after [ticks] ticks. *)
Definition main (ticks : nat) (argv : list string) : ST W Exit :=
  let subcmd := default "--help" (argv !! 1%nat) in
  let args := drop 2 argv in
  if String.eqb subcmd "whoami" then whoami
  else if String.eqb subcmd "enumerate" then enumerate
  else if String.eqb subcmd "fetch-jwt" then fetch_jwt args
  else if String.eqb subcmd "fetch-x509" then ret fetch_x509
  else if String.eqb subcmd "prove" then prove args
  else if String.eqb subcmd "enroll" then ret (enroll args)
  else if String.eqb subcmd "install-service" then install_service
  else if String.eqb subcmd "trust-bundle" then trust_bundle args
  else if String.eqb subcmd "watch" then watch ticks
  else if String.eqb subcmd "log" then show_log
  else if String.eqb subcmd "--help" || String.eqb subcmd "-h" then
    ret (mkExit
      ["usage: hire <command>";
       "";
       "commands:";
       "  whoami           print current SPIFFE identity";
       "  enumerate        list locally-detected identity sources";
       "  fetch-jwt        fetch a JWT-SVID from the daemon";
       "  fetch-x509       (not implemented) fetch an X.509-SVID from the daemon";
       "  prove            prove identity to a peer (JWT with challenge)";
       "  enroll           (not implemented) enroll an application or origin";
       "  install-service  write hired service file (systemd or launchd)";
       "  trust-bundle     list trust bundles (add and remove not implemented)";
       "  watch            poll for JWT-SVID changes every 30 seconds";
       "  log              show how to view hired logs"] [] 0)
  else ret (fail ["unknown command: " +:+ subcmd; "run 'hire --help' for usage"]).
End Cli.

(** ** Lemmas *)

(** The signed audience of a proof, when neither half holds a delimiter. *)
Lemma audience_with_challenge_split a c :
  has_char "?" a = false → audience_split (audience_with_challenge a c) = (a, Some ("challenge=" +:+ c)).
Proof.
  intros Ha. unfold audience_split, audience_with_challenge.
  change ("?challenge=" +:+ c) with (String "?" ("challenge=" +:+ c)).
  by rewrite split_once_app.
Qed.

Lemma challenge_kept c st :
  audience_step st ("challenge=" +:+ c) = let '(rp, ma, kept) := st in Ok (rp, ma, kept ++ ["challenge=" +:+ c]).
Proof. by destruct st as [[rp ma] kept]. Qed.

Lemma prove_challenge_kept a c :
  has_char "?" a = false → has_char "&" c = false →
  parse_audience (audience_with_challenge a c) =
    Ok (mkAudience (audience_with_challenge a c) PresenceNone None).
Proof.
  intros Ha Hc. unfold parse_audience. rewrite audience_with_challenge_split by done.
  unfold query_params. rewrite split_char_no
    by (rewrite has_char_app, Hc, orb_false_r; reflexivity).
  cbn [audience_loop filter list_filter]. done.
Qed.

(** A command line [main] answers with a not-implemented notice. *)
Definition unimplemented (argv : list string) : bool :=
  match argv with
  | [_; cmd] => String.eqb cmd "fetch-x509"
  | _ :: cmd :: sub :: _ =>
      String.eqb cmd "fetch-x509"
      || (String.eqb cmd "enroll" && (String.eqb sub "app" || String.eqb sub "origin"))
      || (String.eqb cmd "trust-bundle" && (String.eqb sub "add" || String.eqb sub "remove"))
  | _ => false
  end.

(** A command that reports failure and says nothing on stdout. *)
Definition refusal (e : Exit) : Prop := status e = 1%Z ∧ out e = [].

Section Exits.
Context `{M : Machine W} {D : DaemonRpc W} {O : Os W} {B : Base64} {H : Sha2} {Ed : Ed25519}
  {J : SerdeJson} {L : CliLib W} {Ft : Features} {Hd : Hid W} {Da : Darwin W} {T : TargetOs}
  {U : Unicode}.

(** From [w] the daemon was reached and answered [req] with the SVIDs [s :: l]. *)
Definition answered_with (w w' : W) (req : JwtsvidRequest) (s : Jwtsvid) (l : list Jwtsvid) : Prop :=
  ∃ w1, connect_to_daemon w = (Ok tt, w1) ∧ rpc_fetch_jwtsvid req w1 = (Ok (s :: l), w').

(** The shape the asking commands share. *)
Lemma ask_exit req none refused (k : Jwtsvid → list Jwtsvid → Exit) w e w' :
  or_error connect_to_daemon (
    let* r := rpc_fetch_jwtsvid req in
    match r with
    | Ok [] => ret (fail none)
    | Ok (s :: l) => ret (k s l)
    | Err st => ret (fail (refused st))
    end) w = (e, w') →
  (∃ s l, answered_with w w' req s l ∧ e = k s l) ∨ refusal e.
Proof.
  unfold or_error, answered_with, bind. destruct (connect_to_daemon w) as [[[]|x] w1].
  - destruct (rpc_fetch_jwtsvid req w1) as [[[|s l]|st] w2] eqn:Hr; intros [= <- <-];
      [by right| |by right]. left. exists s, l. split; [by exists w1|done].
  - intros [= <- <-]. by right.
Qed.

Lemma decode_jwt_exit t :
  refusal (decode_jwt t)
  ∨ (∃ h, status (decode_jwt t) = 1%Z ∧ out (decode_jwt t) = ["header: " +:+ h])
  ∨ (∃ hp cp rest hj cj h c, splitn 3 "." t = hp :: cp :: rest
       ∧ decode_part "header" hp = Ok hj ∧ decode_part "claims" cp = Ok cj
       ∧ json_pretty hj = Ok h ∧ json_pretty cj = Ok c
       ∧ decode_jwt t = mkExit ["header: " +:+ h; "claims: " +:+ c] [] 0).
Proof.
  unfold decode_jwt. destruct (splitn 3 "." t) as [|hp [|cp rest]]; [by left..|].
  destruct (decode_part "header" hp) as [hj|x] eqn:Hh; [|by left].
  destruct (decode_part "claims" cp) as [cj|x] eqn:Hc; [|by left].
  destruct (json_pretty hj) as [h|x] eqn:Ph; [|by left].
  destruct (json_pretty cj) as [c|x] eqn:Pc; [|right; left; by exists h].
  right. right. by exists hp, cp, rest, hj, cj, h, c.
Qed.

(** The two lines of an SVID. *)
Definition svid_lines (s : Jwtsvid) : option (list string) :=
  t ← truncate40 (svid s);
  Some ["spiffe_id: " +:+ sv_spiffe_id s; "token:     " +:+ t +:+ " (truncated)"].

Lemma print_svids_exit printed svids :
  (∃ ls, mapM svid_lines svids = Some ls
     ∧ print_svids printed svids = mkExit (printed ++ concat ls) [] 0)
  ∨ (status (print_svids printed svids) = 101%Z ∧ mapM svid_lines svids = None).
Proof.
  revert printed. induction svids as [|s svids IH]; intros printed.
  - left. exists []. by rewrite app_nil_r.
  - assert (mapM svid_lines (s :: svids)
            = y ← svid_lines s; ls ← mapM svid_lines svids; Some (y :: ls)) as -> by done.
    cbn [print_svids]. destruct (truncate40 (svid s)) as [t|] eqn:Ht.
    + destruct (IH ((printed ++ ["spiffe_id: " +:+ sv_spiffe_id s])
                    ++ ["token:     " +:+ t +:+ " (truncated)"])) as [(ls & -> & ->)|[-> ->]].
      * left. unfold svid_lines. rewrite Ht. cbn. eexists. split; [done|].
        cbn. by rewrite <-!app_assoc.
      * right. split; [done|]. by destruct (svid_lines s).
    + right. unfold svid_lines. by rewrite Ht.
Qed.

Lemma whoami_exit w e w' :
  whoami w = (e, w') →
  (∃ s l, answered_with w w' (mkJwtsvidRequest ["hire:whoami"] "") s l
     ∧ ((∃ ls, mapM svid_lines (s :: l) = Some ls ∧ e = mkExit (concat ls) [] 0)
        ∨ (status e = 101%Z ∧ mapM svid_lines (s :: l) = None)))
  ∨ refusal e.
Proof.
  unfold whoami, or_error, answered_with, bind.
  destruct (connect_to_daemon w) as [[[]|x] w1]; [|intros [= <- <-]; by right].
  destruct (rpc_fetch_jwtsvid _ w1) as [[[|s l]|st] w2] eqn:Hr; intros [= <- <-];
    [by right| |by right].
  left. exists s, l. split; [by exists w1|].
  destruct (print_svids_exit [] (s :: l)) as [(ls & Hl & He)|Hp]; [left|by right].
  exists ls. split; [exact Hl|exact He].
Qed.

Lemma fetch_jwt_exit args w e w' :
  fetch_jwt args w = (e, w') →
  (∃ a aud s l, fetch_args (mkFetchArgs None "" false) args = Ok a ∧ fa_audience a = Some aud
     ∧ answered_with w w' (mkJwtsvidRequest [aud] (fa_spiffe_id a)) s l
     ∧ e = if fa_decode a then decode_jwt (svid s) else mkExit [svid s] [] 0)
  ∨ refusal e.
Proof.
  unfold fetch_jwt. destruct (fetch_args _ args) as [a|x] eqn:Ha; [|intros [= <- <-]; by right].
  destruct (fa_audience a) as [aud|] eqn:Haud; [|intros [= <- <-]; by right].
  intros He. destruct (ask_exit (mkJwtsvidRequest [aud] (fa_spiffe_id a)) ["error: no SVIDs returned"] (λ st, ["error: hired: " +:+ message st])
    (λ s _, if fa_decode a then decode_jwt (svid s) else mkExit [svid s] [] 0) w e w')
    as [(s & l & Hw & ->)|Hr]; [exact He| |by right].
  left. by exists a, aud, s, l.
Qed.

Lemma prove_exit args w e w' :
  prove args w = (e, w') →
  (∃ aud c s l, prove_args None None args = Ok (Some aud, Some c)
     ∧ answered_with w w' (mkJwtsvidRequest [audience_with_challenge aud c] "") s l
     ∧ e = mkExit [svid s] [] 0)
  ∨ refusal e.
Proof.
  unfold prove. destruct (prove_args _ _ args) as [[[aud|] [c|]]|x] eqn:Ha;
    try (intros [= <- <-]; by right).
  intros He. destruct (ask_exit (mkJwtsvidRequest [audience_with_challenge aud c] "") ["error: no SVIDs returned"] (λ st, ["error: hired: " +:+ message st])
    (λ s _, mkExit [svid s] [] 0) w e w') as [(s & l & Hw & ->)|Hr]; [exact He| |by right].
  left. by exists aud, c, s, l.
Qed.

Lemma unimplemented_exit ticks argv w e w' :
  unimplemented argv = true → main ticks argv w = (e, w') → refusal e ∧ w' = w.
Proof.
  destruct argv as [|prog [|cmd [|sub args]]]; [done..| |]; cbn [unimplemented].
  - intros ->%String.eqb_eq. by intros [= <- <-].
  - rewrite !orb_true_iff, !andb_true_iff, !orb_true_iff, !String.eqb_eq.
    intros [[->|[-> Ha]]|[-> Ha]]; [by intros [= <- <-]| |].
    + unfold main, enroll. cbn. by destruct Ha as [-> | ->]; intros [= <- <-].
    + unfold main, trust_bundle. cbn. by destruct Ha as [-> | ->]; intros [= <- <-].
Qed.
End Exits.

(** ** Properties *)

(** The nonce of [hire prove] reaches the signature when it is a nonce: for
    an audience without a query and a challenge without [&], the daemon signs
    exactly [audience?challenge=nonce] and the request carries no policy.  A
    challenge the peer extends with a [hire_] parameter does not reach it
    whole: the parameter is taken as policy and stripped, so the audience
    signed for it is the one signed for the shorter challenge; and an audience
    that already has a [hire_max_age] at its end is refused. *)
Lemma prove_signs_the_challenge a c :
  has_char "?" a = false → has_char "&" c = false →
  parse_audience (audience_with_challenge a c) =
    Ok (mkAudience (audience_with_challenge a c) PresenceNone None)
  ∧ (∃ ext, parse_audience (audience_with_challenge a (c +:+ "&hire_require_presence=none")) = Ok ext
       ∧ audience ext = audience_with_challenge a c)
  ∧ (∀ age, has_char "&" age = false → ∃ v,
       parse_audience (audience_with_challenge (a +:+ "?hire_max_age=" +:+ age) c) = Err (InvalidMaxAge v)).
Proof.
  intros Ha Hc. split; [by apply prove_challenge_kept|]. split.
  - eexists. unfold parse_audience. rewrite audience_with_challenge_split by done. split.
    + unfold query_params.
      assert (split_char "&" ("challenge=" +:+ c +:+ "&hire_require_presence=none")
              = ["challenge=" +:+ c; "hire_require_presence=none"]) as ->; [|reflexivity].
      rewrite <-str_app_assoc.
      change ("&hire_require_presence=none") with (String "&" "hire_require_presence=none").
      rewrite split_char_app; [done|]. by rewrite has_char_app, Hc.
    + reflexivity.
  - intros age Hage. exists (age +:+ "?challenge=" +:+ c).
    unfold parse_audience, audience_with_challenge, audience_split.
    rewrite !str_app_assoc.
    change ("?hire_max_age=" +:+ age +:+ "?challenge=" +:+ c)
      with (String "?" ("hire_max_age=" +:+ age +:+ "?challenge=" +:+ c)).
    rewrite split_once_app by done. unfold query_params.
    rewrite split_char_no by (rewrite !has_char_app, Hage, Hc; reflexivity).
    assert (parse_u64 (age +:+ "?challenge=" +:+ c) = None) as Hn
      by (by apply (parse_u64_bad age "?" ("challenge=" +:+ c))).
    set (v := age +:+ "?challenge=" +:+ c) in *.
    change (filter (λ s, is_empty s = false) ["hire_max_age=" +:+ v]) with ["hire_max_age=" +:+ v].
    cbn [audience_loop]. unfold audience_step.
    change (strip_prefix "hire_require_presence=" ("hire_max_age=" +:+ v)) with (@None string).
    change (strip_prefix "hire_max_age=" ("hire_max_age=" +:+ v)) with (Some v).
    cbn. by rewrite Hn.
Qed.

(** C34: a command line that exits 0 got what it asked for, so a script may
    gate on the status.  The commands that are not implemented exit 1, print
    nothing on stdout and touch nothing.  [whoami], [fetch-jwt] and [prove]
    exit 0 only after the daemon was reached and answered the one request the
    arguments name with at least one SVID, and then print that answer —
    every identity, or the first token, or its two decoded halves.  Every
    other end of the three exits 1 with an empty stdout, except that a pretty
    printer failing on the claims leaves the header printed, and that a token
    whose fortieth byte splits a character panics [whoami], which exits 101.
    [install-service] exits 0 only after the platform's service file was
    written where the service manager looks, and otherwise 1.  What [prove]
    asks for is signed whole when the audience has no query and the challenge
    no [&]: exactly [audience?challenge=nonce], with no policy.  A challenge
    extended with a [hire_] parameter loses it to the policy, so its audience
    is the one signed for the shorter challenge, and an audience that already
    ends in a [hire_max_age] is refused. *)
Theorem exit_zero_is_an_answer `{M : Machine W} {D : DaemonRpc W} {O : Os W} {B : Base64}
    {H : Sha2} {Ed : Ed25519} {J : SerdeJson} {L : CliLib W} {Ft : Features} {Hd : Hid W} {Da : Darwin W} {T : TargetOs} {U : Unicode} ticks prog cmd args w e w' :
  main ticks (prog :: cmd :: args) w = (e, w') →
  (unimplemented (prog :: cmd :: args) = true → refusal e ∧ w' = w)
  ∧ (cmd = "whoami" →
      (∃ s l, answered_with w w' (mkJwtsvidRequest ["hire:whoami"] "") s l
         ∧ ((∃ ls, mapM svid_lines (s :: l) = Some ls ∧ e = mkExit (concat ls) [] 0)
            ∨ (status e = 101%Z ∧ mapM svid_lines (s :: l) = None)))
      ∨ refusal e)
  ∧ (cmd = "fetch-jwt" →
      (∃ a aud s l, fetch_args (mkFetchArgs None "" false) args = Ok a ∧ fa_audience a = Some aud
         ∧ answered_with w w' (mkJwtsvidRequest [aud] (fa_spiffe_id a)) s l
         ∧ (if fa_decode a
            then refusal e ∨ (∃ h, status e = 1%Z ∧ out e = ["header: " +:+ h])
              ∨ (∃ hp cp rest hj cj h c, splitn 3 "." (svid s) = hp :: cp :: rest
                  ∧ decode_part "header" hp = Ok hj ∧ decode_part "claims" cp = Ok cj
                  ∧ json_pretty hj = Ok h ∧ json_pretty cj = Ok c
                  ∧ e = mkExit ["header: " +:+ h; "claims: " +:+ c] [] 0)
            else e = mkExit [svid s] [] 0))
      ∨ refusal e)
  ∧ (cmd = "prove" →
      (∃ aud c s l, prove_args None None args = Ok (Some aud, Some c)
         ∧ answered_with w w' (mkJwtsvidRequest [audience_with_challenge aud c] "") s l
         ∧ e = mkExit [svid s] [] 0)
      ∨ refusal e)
  ∧ (cmd = "install-service" →
      (status e = 0%Z ∧ ∃ home w0 w1 w2, env_var "HOME" w = (Some home, w0)
         ∧ fs_write (service_file home).1 (service_file home).2 w1 = (Ok (), w2))
      ∨ status e = 1%Z)
  ∧ ∀ a c, has_char "?" a = false → has_char "&" c = false →
      parse_audience (audience_with_challenge a c) =
        Ok (mkAudience (audience_with_challenge a c) PresenceNone None)
      ∧ (∃ ext, parse_audience (audience_with_challenge a (c +:+ "&hire_require_presence=none")) = Ok ext
           ∧ audience ext = audience_with_challenge a c)
      ∧ (∀ age, has_char "&" age = false → ∃ v,
           parse_audience (audience_with_challenge (a +:+ "?hire_max_age=" +:+ age) c)
             = Err (InvalidMaxAge v)).
Proof.
  intros He. split; [|split; [|split; [|split; [|split]]]].
  - intros Hu. by eapply unimplemented_exit.
  - intros ->. by apply whoami_exit.
  - intros ->. change (fetch_jwt args w = (e, w')) in He.
    apply fetch_jwt_exit in He as [(a & aud & s & l & Ha & Haud & Hw & ->)|Hr]; [|by right].
    left. exists a, aud, s, l. split_and!; [done..|].
    destruct (fa_decode a); [apply decode_jwt_exit|done].
  - intros ->. by apply prove_exit.
  - intros ->. change (install_service w = (e, w')) in He. by eapply install_service_exit.
  - by apply prove_signs_the_challenge.
Qed.

(** ** A daemon that answers, for the witness *)
#[local] Instance one_answer : DaemonRpc Script := {|
  rpc_connect := λ _ w, (Ok tt, w);
  rpc_fetch_jwtsvid := λ _ w, (Ok [mkJwtsvid "spiffe://ssh.local/key/1" "h.c.s" ""], w);
  rpc_fetch_jwt_bundles := λ w, (Ok [], w);
|}.
#[local] Instance bare_os : Os Script := {|
  process_uid := λ w, (sc_uid w, w);
  metadata := λ _ w, (Err EkNotFound, w);
  set_permissions := λ _ _ w, (Ok tt, w);
  create_dir_all := λ _ _ w, (Ok tt, w);
  remove_file := λ _ w, (Ok tt, w);
  LockFile := unit;
  open_lock := λ _ _ w, (Ok tt, w);
  flock_ex_nb := λ _ w, (Ok tt, w);
  close_lock := λ _ w, (tt, w);
  Listener := unit;
  unix_bind := λ _ w, (Ok tt, w);
|}.
#[local] Instance plain_base64 : Base64 := {|
  b64_std_nopad := of_bytes;
  b64url_encode := of_bytes;
  b64url_decode := λ s, Some (as_bytes s);
|}.
#[local] Instance plain_json : SerdeJson := λ bs, Ok (JStr (of_bytes bs)).
#[local] Instance plain_lib : CliLib Script := {|
  json_pretty := λ v, Ok (default "?" (as_str v));
  b64url_error := λ _, "invalid symbol";
  var_error := λ _ w, ("environment variable not found", w);
  io_error_text := λ _, "os error";
  anyhow_chain := λ c e, c +:+ ": " +:+ e;
  slice_panic := λ _ _, ["byte index is not a char boundary"];
  fs_write := λ _ _ w, (Ok tt, w);
|}.
#[local] Existing Instance toy_sha2.
#[local] Existing Instance ascii_tables.
#[local] Existing Instance toy_ed25519.
#[local] Instance default_build : Features := mkFeatures false false false.
#[local] Instance not_darwin : Darwin Script := λ _ w, ((0, []), w).
#[local] Instance on_linux : TargetOs := Linux.
#[local] Instance no_hid : Hid Script := λ w, ([], w).

Definition running_script : Script :=
  mkScript 0 [] ["/tmp/hire-1000/workload.sock"] [] [] [] (λ _ _, Err StdinNotPiped) 1000 [].

(** [hire fetch-jwt --audience a --decode] prints the two halves. *)
Lemma exit_zero_is_an_answer_witness :
  ∃ a aud s l, fetch_args (mkFetchArgs None "" false) ["--audience"; "a"; "--decode"] = Ok a
    ∧ fa_audience a = Some aud
    ∧ answered_with running_script running_script (mkJwtsvidRequest [aud] (fa_spiffe_id a)) s l
    ∧ svid s = "h.c.s".
Proof.
  assert (Hm : main 0 ["hire"; "fetch-jwt"; "--audience"; "a"; "--decode"] running_script
    = (mkExit ["header: h"; "claims: c"] [] 0, running_script)) by (vm_compute; reflexivity).
  destruct (exit_zero_is_an_answer 0 "hire" "fetch-jwt" ["--audience"; "a"; "--decode"]
    running_script (mkExit ["header: h"; "claims: c"] [] 0) running_script Hm)
    as (_ & _ & Hf & _).
  destruct (Hf eq_refl) as [(a & aud & s & l & Ha & Haud & Hw & _)|[Hr _]]; [|discriminate Hr].
  exists a, aud, s, l. split; [exact Ha|]. split; [exact Haud|]. split; [exact Hw|].
  destruct Hw as (w1 & Hc & Hr). cbn in Hr. injection Hr as <- _ _. reflexivity.
Defined.
