(* ===== verification/EndToEnd.v ===== *)
(** * From a client to a verifier

    [hire] and [hire-nmh] on one side of the socket, a daemon as [hired] builds
    it on the other, and a peer that asks the daemon to validate what it was
    shown.  A client and the daemon are two processes, each with a world of
    its own, the daemon's being a part of what the client's stands in; what
    joins them is one promise of the transport, a class the clients' theorem
    is proved against: the SVIDs a call returns are a reply the daemon has
    logged, by then, for that very request. *)
From S2P Require Import Prelude RustStr RustNum External Assurance SpiffeId Consumer Pseudonym Audience Hint Json Jwt Signer TrustBundle Claim Machine ConsumerAttest Toy Unix Devices Attestor Conduct Socket Service ServiceSpec Validate ValidateSpec Hired Workload Server Nmh Install Cli.
From stdpp Require Import relations.
Local Open Scope Z_scope.

(** The pair a proof is made for can be read off the audience it signs. *)
Lemma audience_with_challenge_inj a c a' c' :
  has_char "?" a = false → has_char "?" a' = false →
  audience_with_challenge a c = audience_with_challenge a' c' → a = a' ∧ c = c'.
Proof.
  intros Ha Ha' E. apply (f_equal audience_split) in E.
  rewrite !audience_with_challenge_split in E by done. injection E as -> E.
  split; [done|exact E].
Qed.

(** ** The two sides *)
Section EndToEnd.
Context `{M : Machine W} {R : OsRng W} {P : P256} {J : @JsonWebToken P} {B : Base64} {S : Sha2}
  {K : Hkdf} {N : Numbers} {Ed : Ed25519} {Js : SerdeJson} {Ft : Features} {HidW : Hid W}
  {Out : SerdeOut} {F : Files W} {T : TargetOs} {U : Unicode}.
Context `{Mc : Machine C} {Rpc : DaemonRpc C} {Cl : DaemonClient C} {O : Os C} {L : CliLib C}
  {HidC : Hid C} {Da : Darwin C} {Sd : NmhSerde}.

(** The daemon, in the state [x], has answered [req] with [svids]. *)
Definition replied (x : Serve (W := W)) (req : JwtsvidRequest) (svids : list Jwtsvid) : Prop :=
  ∃ e, e ∈ log x ∧ call e = FetchJwtSvid req ∧ reply e = Svids svids.

(** What the transport promises either client, where [far c] is the state of
    the daemon in the client's world [c]. *)
Class Carries (far : C → Serve (W := W)) : Prop := {
  rpc_carries req c svids c' : rpc_fetch_jwtsvid req c = (Ok svids, c') → replied (far c') req svids;
  nmh_carries req c svids c' : nmh_fetch_jwtsvid req c = (Ok svids, c') → replied (far c') req svids;
}.

(** [sv] is one SVID of a logged reply to [req]: issued to the program whose
    executable hashes to [h], on its own connection, for an identity proven in
    that call (the one named, if the request names one), and standing with the
    daemon for the audiences [auds] from the second [stamp] it was signed. *)
Definition delivered (s : WorkloadApiService (W := W)) (x : Serve (W := W)) (req : JwtsvidRequest)
    (sv : Jwtsvid) (auds : list string) (stamp : Z) (id : SpiffeId) : Prop :=
  ∃ e p h (r : answered s (Some p) req (before e)) c cl wt,
    e ∈ log x ∧ call e = FetchJwtSvid req ∧ accepted x !! conn e = Some p
    ∧ peer_get p = Some (BinarySha256 h) ∧ attested_hash h
    ∧ claim_proven r c cl ∧ signed_in r cl wt
    ∧ (∀ want, an_requested r = Some want → cl_spiffe_id cl = want)
    ∧ sv_spiffe_id sv = uri (pseudonymous_id (signer s) (cl_spiffe_id cl) (BinarySha256 h))
    ∧ auds = audience <$> an_exts r ∧ stamp = as_secs (now wt).1
    ∧ stands s auds stamp sv id.

(** A token the native messaging host hands a page came with the SVID. *)
Lemma handled_jwt audience c token subject c' :
  handle_request (FetchJwt audience) c = (JwtResponse token subject, c') →
  ∃ sv l c1, nmh_fetch_jwtsvid (mkJwtsvidRequest audience "") c1 = (Ok (sv :: l), c')
    ∧ token = svid sv ∧ subject = sv_spiffe_id sv.
Proof.
  cbn [handle_request]. unfold nmh_fetch_jwt, bind, ret.
  destruct (workload_socket_path c) as [path c1]. destruct (nmh_connect path c1) as [[[]|] c2]; [|done].
  cbn [map_err]. destruct (nmh_fetch_jwtsvid _ c2) as [[[|sv l]|] c3] eqn:Hr; cbn [map_err]; try done.
  intros [= <- <- <-]. by exists sv, l, c2.
Qed.

Section Daemon.
Context (pair : EncodingKey → DecodingKey → Prop) (sk : SigningKey) (rng : result (list byte) string)
  (w0 w1 : W) (s : WorkloadApiService (W := W)).
Hypothesis documented : crates_documented pair.
Hypothesis hkdf_32 : hkdf_len K.
Hypothesis published : published_pair pair (signer s).
Hypothesis started : hired_startup sk rng w0 = (Ok s, w1).

Lemma replied_delivered x req svids sv :
  serving s x → replied x req svids → sv ∈ svids → ∃ auds stamp id, delivered s x req sv auds stamp id.
Proof.
  intros [Hs _ Hl]%serving_inv (e & He & Hcall & Hr) Hsv.
  rewrite Forall_forall in Hl. destruct (Hl e He) as (p & Hp & Hdis).
  rewrite Hcall, Hr in Hdis. apply dispatch_svids in Hdis as (req' & [= <-] & Hf).
  apply fetch_answered in Hf as [_ (r & Hall)].
  destruct (Hall sv Hsv) as (cl & c & wt & Hcl & Ht & Hi & _ & Hw).
  pose proof (an_attested r) as Hat. cbn in Hat.
  destruct (shown_attested p (an_consumer r) (Hs _ _ Hp) Hat) as (h & Eh & Hh).
  destruct (hired_svid_stands pair sk rng w0 s w1 _ _ _ r c cl wt sv documented hkdf_32 published
    started Hcl Hi) as [id Hid].
  exists (audience <$> an_exts r), (as_secs (now wt).1), id, e, p, h, r, c, cl, wt.
  split_and!; try done; [by rewrite Hat, Eh|]. rewrite <-Eh. apply Hi.
Qed.

(** The audiences of a delivered SVID are those of its request, parsed. *)
Lemma delivered_auds x req sv auds stamp id :
  delivered s x req sv auds stamp id →
  Forall2 (λ a aud, ∃ ext, parse_audience a = Ok ext ∧ audience ext = aud) (rq_audience req) auds.
Proof.
  intros (e & p & h & r & c & cl & wt & _ & _ & _ & _ & _ & _ & _ & _ & _ & -> & _).
  apply Forall2_fmap_r. eapply Forall2_impl; [exact (an_parsed r)|]. cbn. eauto.
Qed.
(** A proof of possession is for its own pair of audience and challenge. *)
Lemma delivered_challenge x aud ch sv auds stamp id :
  delivered s x (mkJwtsvidRequest [audience_with_challenge aud ch] "") sv auds stamp id →
  has_char "?" aud = false → has_char "&" ch = false →
  auds = [audience_with_challenge aud ch]
  ∧ ∀ aud' ch' w, has_char "?" aud' = false → (aud', ch') ≠ (aud, ch) → ∃ st,
      (validate_jwtsvid s (mkValidateRequest (audience_with_challenge aud' ch') (svid sv)) w).1 = Err st.
Proof.
  intros Hd Ha Hch. assert (auds = [audience_with_challenge aud ch]) as ->.
  { pose proof (delivered_auds _ _ _ _ _ _ Hd) as Hf. cbn [rq_audience] in Hf.
    apply Forall2_cons_inv_l in Hf as (a & l & (ext & Hp & <-) & ->%Forall2_nil_inv_l & ->).
    rewrite prove_challenge_kept in Hp by done. by injection Hp as <-. }
  split; [done|]. intros aud' ch' w Ha' Hne.
  destruct Hd as (e & p & h & r & c & cl & wt & _ & _ & _ & _ & _ & _ & _ & _ & _ & _ & _ & Hst).
  apply Hst. left. intros E%list_elem_of_singleton.
  apply audience_with_challenge_inj in E as [-> ->]; done.
Qed.

(** ** Properties *)

(** C12: what a client hands out is what a peer can check.  A daemon that
    [hired] started serves, and the transport delivers only what it logged.
    Then [hire prove] that exits 0 prints exactly one token, and [hire
    fetch-jwt] and the native messaging host give one only likewise: issued to
    the attested executable of that very connection, for an identity proven in
    that call — the one named, when one is named — under the pseudonym of
    that identity for that executable.  Shown back to the daemon within 300
    seconds of its signing, a token of [ssh.local] validates for each of its
    audiences and gives back that subject; for anything else, or later, every
    token is refused.  The audience [hire prove] asked for, when it has no
    query and the challenge no [&], is the one it is signed for, so a peer
    that sent another nonce refuses it, as does any other peer. *)
Theorem clients_get_what_verifies (far : C → Serve (W := W)) {Tr : Carries far} :
  (∀ c, serving s (far c)) →
  (∀ ticks prog args c e c',
     main ticks (prog :: "prove" :: args) c = (e, c') → status e = 0 →
     ∃ aud ch sv auds stamp id,
       prove_args None None args = Ok (Some aud, Some ch) ∧ e = mkExit [svid sv] [] 0
       ∧ delivered s (far c') (mkJwtsvidRequest [audience_with_challenge aud ch] "") sv auds stamp id
       ∧ (has_char "?" aud = false → has_char "&" ch = false →
            auds = [audience_with_challenge aud ch]
            ∧ ∀ aud' ch' w, has_char "?" aud' = false → (aud', ch') ≠ (aud, ch) → ∃ st,
                (validate_jwtsvid s
                   (mkValidateRequest (audience_with_challenge aud' ch') (svid sv)) w).1 = Err st))
  ∧ (∀ ticks prog args c e c',
       main ticks (prog :: "fetch-jwt" :: args) c = (e, c') → status e = 0 →
       ∃ a aud sv auds stamp id,
         fetch_args (mkFetchArgs None "" false) args = Ok a ∧ fa_audience a = Some aud
         ∧ delivered s (far c') (mkJwtsvidRequest [aud] (fa_spiffe_id a)) sv auds stamp id
         ∧ e = if fa_decode a then decode_jwt (svid sv) else mkExit [svid sv] [] 0)
  ∧ (∀ audience c token subject c',
       handle_request (FetchJwt audience) c = (JwtResponse token subject, c') →
       ∃ sv auds stamp id, token = svid sv ∧ subject = sv_spiffe_id sv
         ∧ delivered s (far c') (mkJwtsvidRequest audience "") sv auds stamp id).
Proof.
  intros running. split_and!.
  - intros ticks prog args c e c' He H0. change (prove args c = (e, c')) in He.
    apply prove_exit in He as [(aud & ch & sv & l & Ha & (c1 & _ & Hr%rpc_carries) & ->)|[H1 _]]; [|lia].
    destruct (replied_delivered _ _ _ sv (running c') Hr ltac:(by left)) as (auds & stamp & id & Hd).
    exists aud, ch, sv, auds, stamp, id. split_and!; try done. by eapply delivered_challenge.
  - intros ticks prog args c e c' He H0. change (fetch_jwt args c = (e, c')) in He.
    apply fetch_jwt_exit in He as [(a & aud & sv & l & Ha & Haud & (c1 & _ & Hr%rpc_carries) & ->)|[H1 _]];
      [|lia].
    destruct (replied_delivered _ _ _ sv (running c') Hr ltac:(by left)) as (auds & stamp & id & Hd).
    by exists a, aud, sv, auds, stamp, id.
  - intros audience c token subject c' (sv & l & c1 & Hr & -> & ->)%handled_jwt.
    apply nmh_carries in Hr.
    destruct (replied_delivered _ _ _ sv (running c') Hr ltac:(by left)) as (auds & stamp & id & Hd).
    by exists sv, auds, stamp, id.
Qed.
End Daemon.
End EndToEnd.

(** ** A terminal beside the daemon of [Hired], for the witness *)
#[local] Existing Instance toy_sha2.
#[local] Existing Instance ascii_tables.
#[local] Existing Instance toy_hkdf.
#[local] Existing Instance toy_ed25519.
#[local] Existing Instance Hired.no_json.
#[local] Existing Instance Hired.default_build.
#[local] Existing Instance Hired.no_hid.
#[local] Existing Instance Workload.no_out.
#[local] Existing Instance Workload.on_linux.
#[local] Existing Instance script_files.
#[local] Existing Instance bare_os.
#[local] Existing Instance plain_lib.
#[local] Existing Instance Cli.not_darwin.
#[local] Existing Instance name_nmh.

#[local] Instance JwtsvidRequest_eq_dec : EqDecision JwtsvidRequest.
Proof. solve_decision. Defined.

(** The reply to a request a log holds, as a transport would carry it. *)
Definition logged (x : Serve (W := Script)) (req : JwtsvidRequest) : option (list Jwtsvid) :=
  head (omap (λ e, match call e, reply e with
                   | FetchJwtSvid req', Svids l => if decide (req' = req) then Some l else None
                   | _, _ => None
                   end) (log x)).

Lemma logged_replied x req l : logged x req = Some l → replied x req l.
Proof.
  intros (e & He & Hl)%head_Some_elem_of%list_elem_of_omap. exists e. split; [done|].
  destruct (call e) as [| | |req'| | |] eqn:Hc; try done. destruct (reply e) eqn:Hr; try done.
  case_decide; [subst|done]. by injection Hl as ->.
Qed.

Definition nonce_request : JwtsvidRequest :=
  mkJwtsvidRequest [audience_with_challenge "https://b.example" "n-1"] "".
Definition proven_to : Serve (W := Script) := one_call booted nonce_request.

#[local] Instance over_log_rpc : DaemonRpc Script := {|
  rpc_connect := λ _ w, (Ok tt, w);
  rpc_fetch_jwtsvid := λ req w,
    (ok_or (logged proven_to req) (mkStatus Internal "transport"), w);
  rpc_fetch_jwt_bundles := λ w, (Ok [], w);
|}.
#[local] Instance over_log_client : DaemonClient Script := {|
  nmh_connect := λ _ w, (Ok tt, w);
  nmh_fetch_jwtsvid := λ req w, (ok_or (logged proven_to req) "transport", w);
|}.
#[local] Instance over_log_carries : Carries (λ _ : Script, proven_to).
Proof.
  split; intros req c l c' [= H _]; apply logged_replied; by apply ok_or_Ok in H.
Qed.

Definition proof_line : list string := ["--audience"; "https://b.example"; "--challenge"; "n-1"].
Abbreviation proving := (main 0 ("hire" :: "prove" :: proof_line) running_script).

(** [hire prove] prints the daemon's token, and a peer that sent another
    nonce refuses it. *)
Lemma clients_get_what_verifies_witness :
  status proving.1 = 0 ∧ ∃ sv auds stamp id, proving.1 = mkExit [svid sv] [] 0
    ∧ delivered booted proven_to nonce_request sv auds stamp id
    ∧ ∃ st, (validate_jwtsvid booted
        (mkValidateRequest (audience_with_challenge "https://b.example" "n-2") (svid sv)) demo_box).1
        = Err st.
Proof.
  assert (status proving.1 = 0) as H0 by (vm_compute; reflexivity). split; [exact H0|].
  destruct (clients_get_what_verifies (P := toy_p256) (J := toy_jwt) toy_pair _ _ _ _ booted toy_documented toy_hkdf_len
    booted_published booting_ok (λ _, proven_to) (λ _, one_call_serving booted nonce_request))
    as [Hp _].
  destruct (Hp 0%nat "hire" proof_line running_script proving.1 proving.2
    (surjective_pairing _) H0) as (aud & ch & sv & auds & stamp & id & [= <- <-] & He & Hd & Hn).
  exists sv, auds, stamp, id. split; [exact He|]. split; [exact Hd|].
  apply (proj2 (Hn eq_refl eq_refl)); [reflexivity|intros [=]].
Defined.
