(* ===== verification/Standards.v ===== *)
(** * The published algorithms behind the parameters

    SHA-256 (FIPS 180-4), HMAC (RFC 2104), HKDF (RFC 5869) and base64
    (RFC 4648) as executable instances of [Sha2], [Hkdf] and [Base64], with the
    laws the theorems ask of those classes.  No theorem about the program
    depends on them: they let the known-answer tests of the repository run. *)
From S2P Require Import Prelude RustStr RustNum External.
Local Open Scope Z_scope.

(** ** SHA-256 *)
Definition M32 : Z := 4294967295.
Definition add32 (a b : Z) : Z := Z.land (a + b) M32.
Definition rotr (x n : Z) : Z := Z.lor (Z.shiftr x n) (Z.land (Z.shiftl x (32 - n)) M32).
Definition lnot32 (x : Z) : Z := Z.lxor x M32.

Definition big_sigma0 (x : Z) : Z := Z.lxor (rotr x 2) (Z.lxor (rotr x 13) (rotr x 22)).
Definition big_sigma1 (x : Z) : Z := Z.lxor (rotr x 6) (Z.lxor (rotr x 11) (rotr x 25)).
Definition small_sigma0 (x : Z) : Z := Z.lxor (rotr x 7) (Z.lxor (rotr x 18) (Z.shiftr x 3)).
Definition small_sigma1 (x : Z) : Z := Z.lxor (rotr x 17) (Z.lxor (rotr x 19) (Z.shiftr x 10)).

(** The constants as the standard defines them: the first 32 bits of the
    fractional parts of the cube roots, and of the square roots, of the first
    primes. *)
Definition is_prime (n : Z) : bool :=
  forallb (λ d, negb (n mod (2 + Z.of_nat d) =? 0)) (seq 0 (Z.to_nat (Z.sqrt n) - 1)).
Definition primes (count : nat) : list Z :=
  take count (List.filter is_prime ((λ n, 2 + Z.of_nat n) <$> seq 0 310)).
(** The greatest cube root, by bisection of an interval of [2 ^ fuel]. *)
Fixpoint cube_root (fuel : nat) (lo x : Z) : Z :=
  match fuel with
  | O => lo
  | S fuel =>
      let mid := lo + 2 ^ Z.of_nat fuel in
      cube_root fuel (if mid ^ 3 <=? x then mid else lo) x
  end.
Definition K256 : list Z :=
  Eval vm_compute in (λ p, Z.land (cube_root 36 0 (p * 2 ^ 96)) M32) <$> primes 64.

Record Hash : Type := mkHash { h0 : Z; h1 : Z; h2 : Z; h3 : Z; h4 : Z; h5 : Z; h6 : Z; h7 : Z }.
Definition initial_hash (ps : list Z) : Hash :=
  match (λ p, Z.land (Z.sqrt (p * 2 ^ 64)) M32) <$> ps with
  | [a; b; c; d; e; f; g; h] => mkHash a b c d e f g h
  | _ => mkHash 0 0 0 0 0 0 0 0
  end.
Definition H256 : Hash := Eval vm_compute in initial_hash (primes 8).

(** The message schedule, over a window of the last sixteen words. *)
Fixpoint schedule (n : nat) (win : list Z) : list Z :=
  match n, win with
  | S n, w0 :: rest =>
      let at_ k := nth k win 0 in
      let next := add32 (add32 (small_sigma1 (at_ 14%nat)) (at_ 9%nat))
                        (add32 (small_sigma0 (at_ 1%nat)) w0) in
      w0 :: schedule n (rest ++ [next])
  | _, _ => []
  end.

Definition sha_round (h : Hash) (kw : Z * Z) : Hash :=
  let ch := Z.lxor (Z.land (h4 h) (h5 h)) (Z.land (lnot32 (h4 h)) (h6 h)) in
  let maj := Z.lxor (Z.land (h0 h) (h1 h)) (Z.lxor (Z.land (h0 h) (h2 h)) (Z.land (h1 h) (h2 h))) in
  let t1 := add32 (add32 (h7 h) (big_sigma1 (h4 h))) (add32 ch (add32 kw.1 kw.2)) in
  let t2 := add32 (big_sigma0 (h0 h)) maj in
  mkHash (add32 t1 t2) (h0 h) (h1 h) (h2 h) (add32 (h3 h) t1) (h4 h) (h5 h) (h6 h).

(** A big-endian word. *)
Fixpoint words (bs : list byte) : list Z :=
  match bs with
  | a :: b :: c :: d :: rest =>
      (((u8_val a * 256 + u8_val b) * 256 + u8_val c) * 256 + u8_val d) :: words rest
  | _ => []
  end.
Definition word_bytes (w : Z) : list byte :=
  [as_u8 (w / 16777216); as_u8 (w / 65536); as_u8 (w / 256); as_u8 w].

Definition sha_block (h : Hash) (block : list byte) : Hash :=
  let r := foldl sha_round h (zip K256 (schedule 64 (words block))) in
  mkHash (add32 (h0 h) (h0 r)) (add32 (h1 h) (h1 r)) (add32 (h2 h) (h2 r)) (add32 (h3 h) (h3 r))
         (add32 (h4 h) (h4 r)) (add32 (h5 h) (h5 r)) (add32 (h6 h) (h6 r)) (add32 (h7 h) (h7 r)).

Fixpoint sha_blocks (n : nat) (h : Hash) (bs : list byte) : Hash :=
  match n with O => h | S n => sha_blocks n (sha_block h (take 64 bs)) (drop 64 bs) end.

Definition sha_pad (m : list byte) : list byte :=
  let len := Z.of_nat (length m) in
  m ++ [as_u8 128] ++ replicate (Z.to_nat ((55 - len) mod 64)) "000"%char
    ++ word_bytes (len * 8 / 4294967296) ++ word_bytes (len * 8).

Definition fips_sha256 : Sha2 := λ m,
  let padded := sha_pad m in
  let h := sha_blocks (length padded / 64) H256 padded in
  concat (word_bytes <$> [h0 h; h1 h; h2 h; h3 h; h4 h; h5 h; h6 h; h7 h]).

Lemma fips_sha256_len : sha256_len fips_sha256.
Proof. intros m. reflexivity. Qed.

(** ** HMAC and HKDF *)
Definition xor_pad (pad : Z) (key : list byte) : list byte :=
  (λ b, as_u8 (Z.lxor (u8_val b) pad)) <$> key.
Definition hmac_sha256 (key m : list byte) : list byte :=
  let key := if Nat.ltb 64 (length key) then fips_sha256 key else key in
  let key := take 64 (key ++ replicate 64 "000"%char) in
  fips_sha256 (xor_pad 92 key ++ fips_sha256 (xor_pad 54 key ++ m)).

(** Extract, then the one block thirty-two bytes of output take. *)
Definition rfc5869_hkdf : Hkdf := λ salt ikm info,
  hmac_sha256 (hmac_sha256 salt ikm) (info ++ [as_u8 1]).

Lemma rfc5869_hkdf_len : hkdf_len rfc5869_hkdf.
Proof. intros salt ikm info. reflexivity. Qed.

(** ** Base64, without padding *)
Definition STANDARD : list ascii :=
  as_bytes "ABCDEFGHIJKLMNOPQRSTUVWXYZabcdefghijklmnopqrstuvwxyz0123456789+/".
Definition URL_SAFE : list ascii :=
  as_bytes "ABCDEFGHIJKLMNOPQRSTUVWXYZabcdefghijklmnopqrstuvwxyz0123456789-_".
Definition digit (alphabet : list ascii) (v : Z) : ascii := nth (Z.to_nat v) alphabet "A"%char.

Fixpoint b64_encode (al : list ascii) (bs : list byte) : string :=
  match bs with
  | a :: b :: c :: rest =>
      let n := (u8_val a * 256 + u8_val b) * 256 + u8_val c in
      String (digit al (n / 262144)) (String (digit al (n / 4096 mod 64))
        (String (digit al (n / 64 mod 64)) (String (digit al (n mod 64)) (b64_encode al rest))))
  | [a; b] =>
      let n := (u8_val a * 256 + u8_val b) * 4 in
      String (digit al (n / 4096)) (String (digit al (n / 64 mod 64))
        (String (digit al (n mod 64)) ""))
  | [a] =>
      let n := u8_val a * 16 in String (digit al (n / 64)) (String (digit al (n mod 64)) "")
  | [] => ""
  end.

Fixpoint digit_value (al : list ascii) (c : ascii) : option Z :=
  match al with
  | [] => None
  | d :: al => if Ascii.eqb c d then Some 0 else let! v := digit_value al c in Some (v + 1)
  end.

(** The bits past the last whole byte have to be zero. *)
Fixpoint b64_decode (al : list ascii) (s : string) : option (list byte) :=
  match s with
  | String a (String b (String c (String d rest))) =>
      let! va := digit_value al a in let! vb := digit_value al b in
      let! vc := digit_value al c in let! vd := digit_value al d in
      let n := ((va * 64 + vb) * 64 + vc) * 64 + vd in
      let! tail := b64_decode al rest in
      Some (as_u8 (n / 65536) :: as_u8 (n / 256) :: as_u8 n :: tail)
  | String a (String b (String c "")) =>
      let! va := digit_value al a in let! vb := digit_value al b in
      let! vc := digit_value al c in
      let n := (va * 64 + vb) * 64 + vc in
      if n mod 4 =? 0 then Some [as_u8 (n / 1024); as_u8 (n / 4)] else None
  | String a (String b "") =>
      let! va := digit_value al a in let! vb := digit_value al b in
      let n := va * 64 + vb in
      if n mod 16 =? 0 then Some [as_u8 (n / 16)] else None
  | "" => Some []
  | String _ "" => None
  end.

Definition rfc4648_base64 : Base64 := {|
  b64_std_nopad := b64_encode STANDARD;
  b64url_encode := b64_encode URL_SAFE;
  b64url_decode := b64_decode URL_SAFE;
|}.

(** ** Decoding inverts encoding *)
Lemma digit_value_digit v :
  0 ≤ v < 64 → digit_value URL_SAFE (digit URL_SAFE v) = Some v.
Proof.
  intros Hv.
  assert (forallb (λ n, bool_decide (digit_value URL_SAFE (digit URL_SAFE (Z.of_nat n)) = Some (Z.of_nat n)))
            (seq 0 64) = true) as H by (vm_compute; reflexivity).
  rewrite forallb_forall in H.
  specialize (H (Z.to_nat v)). rewrite bool_decide_eq_true, Z2Nat.id in H by lia.
  apply H, in_seq. lia.
Qed.

Lemma as_u8_div n d b : n / d mod 256 = u8_val b → as_u8 (n / d) = b.
Proof. intros H. apply u8_val_inj. by rewrite u8_val_as_u8. Qed.

Lemma rfc4648_roundtrip : b64url_roundtrip rfc4648_base64.
Proof.
  intros m. cbn [b64url_decode b64url_encode rfc4648_base64].
  induction m as [m IH] using (induction_ltof1 _ (@length byte)). unfold ltof in IH.
  destruct m as [|a [|b [|c rest]]]; [done|..];
    pose proof (u8_val_range a) as Ha; cbn [b64_encode].
  - set (n := u8_val a * 16). assert (0 ≤ n < 4096) as Hn by lia. cbn [b64_decode].
    rewrite !digit_value_digit by (Z.div_mod_to_equations; lia).
    replace (n / 64 * 64 + n mod 64) with n by (Z.div_mod_to_equations; lia).
    replace (n mod 16) with 0 by (unfold n; Z.div_mod_to_equations; lia). cbn.
    do 2 f_equal. apply as_u8_div. unfold n. Z.div_mod_to_equations; lia.
  - pose proof (u8_val_range b) as Hb. set (n := (u8_val a * 256 + u8_val b) * 4).
    assert (0 ≤ n < 262144) as Hn by lia. cbn [b64_decode].
    rewrite !digit_value_digit by (Z.div_mod_to_equations; lia).
    replace ((n / 4096 * 64 + n / 64 mod 64) * 64 + n mod 64) with n
      by (Z.div_mod_to_equations; lia).
    replace (n mod 4) with 0 by (unfold n; Z.div_mod_to_equations; lia). cbn.
    do 2 f_equal; [|f_equal]; apply as_u8_div; unfold n; Z.div_mod_to_equations; lia.
  - pose proof (u8_val_range b) as Hb. pose proof (u8_val_range c) as Hc.
    set (n := (u8_val a * 256 + u8_val b) * 256 + u8_val c).
    assert (0 ≤ n < 16777216) as Hn by lia. cbn [b64_decode].
    rewrite !digit_value_digit by (Z.div_mod_to_equations; lia).
    replace (((n / 262144 * 64 + n / 4096 mod 64) * 64 + n / 64 mod 64) * 64 + n mod 64) with n
      by (Z.div_mod_to_equations; lia).
    rewrite IH by (cbn; lia). f_equal. f_equal; [|f_equal; [|f_equal]].
    + apply as_u8_div. unfold n. Z.div_mod_to_equations; lia.
    + apply as_u8_div. unfold n. Z.div_mod_to_equations; lia.
    + apply u8_val_inj. rewrite u8_val_as_u8. unfold n. Z.div_mod_to_equations; lia.
Qed.

(** ** Known answers *)

(** FIPS 180-4's [abc], the first vector of RFC 5869 (its first 32 bytes) and
    the last of RFC 4648. *)
Example sha256_abc :
  hex (fips_sha256 (as_bytes "abc"))
  = "ba7816bf8f01cfea414140de5dae2223b00361a396177a9cb410ff61f20015ad".
Proof. vm_compute. reflexivity. Qed.
Example hkdf_case_1 :
  hex (rfc5869_hkdf (as_u8 <$> [0; 1; 2; 3; 4; 5; 6; 7; 8; 9; 10; 11; 12]) (replicate 22 (as_u8 11))
         (as_u8 <$> [240; 241; 242; 243; 244; 245; 246; 247; 248; 249]))
  = "3cb25f25faacd57a90434f64d0362f2a2d2d0a90cf1a5a4c5db02d56ecc4c5bf".
Proof. vm_compute. reflexivity. Qed.
Example base64_foobar : b64_encode STANDARD (as_bytes "foobar") = "Zm9vYmFy".
Proof. reflexivity. Qed.
