(* ===== verification/CoreTests.v ===== *)
(** * The unit tests of [hire-core], run on the model

    Each [#[test]] of the crate's pure modules, assertion by assertion, as an
    executable check under its own name, on the inputs it has in the source.
    A check that fails would mean the model and the code differ. *)
From S2P Require Import Prelude RustStr RustNum Assurance SpiffeId Consumer Audience Hint.
Local Open Scope Z_scope.

(** [assert_eq!], [assert_ne!] and [unwrap_err] followed by a look at the error. *)
Definition same {A} `{EqDecision A} (x y : A) : bool := bool_decide (x = y).
Definition errs {A E} (r : result A E) (p : E → bool) : bool :=
  match r with Ok _ => false | Err e => p e end.
Definition gives {A E} (r : result A E) (p : A → bool) : bool :=
  match r with Ok a => p a | Err _ => false end.

(** ** [assurance.rs] *)
Definition assurance_levels_are_ordered : bool :=
  negb (assurance_leb Iaa2 Iaa1) && negb (assurance_leb Iaa3 Iaa2).
Definition presence_levels_are_ordered : bool :=
  presence_ltb PresenceNone PresenceSession && presence_ltb PresenceSession PresenceSoftware
  && presence_ltb PresenceSoftware PresenceHardware.

(** ** [spiffe_id.rs] *)
Definition every_variant : list TrustDomain :=
  [Tailscale; SshLocal; PgpLocal; OrgOidc "example.com"; OrgOidc "tailscale";
   OrgOidc "personal.example"; OrgOidc "piv.acme.example"; PersonalDid "example";
   PivIssuer "acme.example"].

Definition the_string_form_round_trips : bool :=
  forallb (λ td, gives (parse_td (show_td td)) (same td)) every_variant.

(** Sorting and deduplicating changes no length exactly when there is no
    duplicate. *)
Definition the_string_form_is_injective : bool := bool_decide (NoDup (show_td <$> every_variant)).

Definition an_issuer_cannot_name_another_variants_namespace : bool :=
  let id := mkSpiffeId (OrgOidc "piv.acme.example") "user/mark" in
  gives (parse_spiffe_id (uri id)) (λ reparsed,
    same reparsed id && negb (same (trust_domain reparsed) (PivIssuer "acme.example"))).

Definition is_unknown (authority : string) (e : SpiffeIdError) : bool :=
  match e with UnknownTrustDomain s => String.eqb s authority | _ => false end.

Definition an_authority_in_no_reserved_namespace_does_not_parse : bool :=
  forallb (λ a, errs (parse_td a) (is_unknown a))
    ["example.com"; "localhost"; "tailscale.com"; "personal"; "piv"]
  && forallb (λ a, errs (parse_td a) (λ e, match e with UnknownTrustDomain _ => true | _ => false end))
       ["oidc."; "personal."; "piv."; "personalx.example"; "oidcx.example"].

Definition an_authority_outside_the_spiffe_character_set_is_malformed : bool :=
  forallb (λ a, errs (parse_td a) (λ e,
             match e with IllegalTrustDomain s => String.eqb s a | _ => false end))
    ["OIDC.example.com"; "oidc.Example.com"; "oidc.a/b"; "oidc.a%2fb"]
  && errs (parse_td "") (λ e, match e with MissingTrustDomain => true | _ => false end).

Definition spiffe_id_parsing_refuses_an_unknown_authority : bool :=
  errs (parse_spiffe_id "spiffe://example.com/user/mark") (is_unknown "example.com")
  && is_ok (parse_spiffe_id "spiffe://oidc.example.com/user/mark").

Definition reads_the_source_from_the_forms_the_spec_gives : bool :=
  forallb (λ '(u, source), gives (parse_spiffe_id u) (λ id, same (provenance id) (Some source)))
    [("spiffe://oidc.example.com/user/mark/via/google-workspace", "google-workspace");
     ("spiffe://oidc.example.com/user/mark/via/piv-smartcard", "piv-smartcard");
     ("spiffe://oidc.example.com/user/mark/via/tailscale", "tailscale")].

Definition reads_the_source_the_oidc_attestor_actually_mints : bool :=
  same (provenance (mkSpiffeId (OrgOidc "example.com") "user/mark/via/oidc-cached"))
    (Some "oidc-cached").
Definition via_alone_is_a_prefix : bool :=
  same (provenance (mkSpiffeId SshLocal "via/ssh-agent")) (Some "ssh-agent").
Definition a_segment_merely_ending_in_via_is_not_a_provenance_marker : bool :=
  forallb (λ p, same (provenance (mkSpiffeId SshLocal p)) None)
    ["user/trivia/x"; "user/alice/servia/bob"; "user/bolivia/c"].
Definition a_path_with_no_via_segment_has_no_provenance : bool :=
  forallb (λ p, same (provenance (mkSpiffeId SshLocal p)) None)
    ["user/alice"; "alice"; "pseudonym/abcdef"; "user/alice/for/app"].

(** ** [consumer.rs] *)
Definition binary_sha256_selector_key : bool :=
  String.eqb (selector_key (BinarySha256 (replicate 32 (as_u8 171))))
    "binary_sha256:abababababababababababababababababababababababababababababababab".
Definition macos_bundle_id_selector_key : bool :=
  String.eqb (selector_key (MacosBundleId "com.example.app" "ABCDE12345"))
    "macos:bundle_id:com.example.app:team_id:ABCDE12345".
Definition flatpak_selector_key : bool :=
  String.eqb (selector_key (FlatpakApp "org.gnome.Gedit")) "flatpak:app:org.gnome.Gedit".
Definition snap_selector_key : bool :=
  String.eqb (selector_key (SnapName "firefox")) "snap:name:firefox".
Definition chrome_extension_selector_key : bool :=
  String.eqb (selector_key (ChromeExtension "aabbccddeeffgghh")) "chrome_extension:id:aabbccddeeffgghh".

(** ** [audience.rs] *)
Definition is_unknown_presence (e : AudienceParseError) : bool :=
  match e with AudUnknownPresence _ => true | _ => false end.
Definition is_invalid_max_age (e : AudienceParseError) : bool :=
  match e with InvalidMaxAge _ => true | _ => false end.

Definition plain_url_no_extensions : bool :=
  gives (parse_audience "https://example.com") (λ ext,
    String.eqb (audience ext) "https://example.com" && same (require_presence ext) PresenceNone
    && same (max_age ext) None).
Definition hardware_presence_is_parsed : bool :=
  gives (parse_audience "https://example.com?hire_require_presence=hardware") (λ ext,
    String.eqb (audience ext) "https://example.com" && same (require_presence ext) PresenceHardware).
Definition non_hire_params_are_kept : bool :=
  gives (parse_audience "https://example.com?foo=bar&hire_require_presence=software&baz=qux") (λ ext,
    String.eqb (audience ext) "https://example.com?foo=bar&baz=qux"
    && same (require_presence ext) PresenceSoftware).
Definition unknown_presence_level_is_rejected : bool :=
  errs (parse_audience "https://example.com?hire_require_presence=biometric") is_unknown_presence.
Definition capitalised_presence_level_is_rejected : bool :=
  errs (parse_audience "https://example.com?hire_require_presence=Hardware") is_unknown_presence.
Definition empty_presence_value_is_rejected : bool :=
  errs (parse_audience "https://example.com?hire_require_presence=") is_unknown_presence.
Definition repeated_presence_key_takes_the_strictest : bool :=
  forallb (λ raw, gives (parse_audience raw) (λ ext, same (require_presence ext) PresenceHardware))
    ["https://example.com?hire_require_presence=none&hire_require_presence=hardware";
     "https://example.com?hire_require_presence=hardware&hire_require_presence=none"].
Definition max_age_is_parsed_as_a_bound : bool :=
  gives (parse_audience "https://example.com?hire_max_age=300") (λ ext,
    String.eqb (audience ext) "https://example.com" && same (max_age ext) (Some (from_secs 300))).
Definition max_age_zero_is_parsed_not_rejected : bool :=
  gives (parse_audience "https://example.com?hire_max_age=0") (λ ext, same (max_age ext) (Some 0)).
Definition non_numeric_max_age_is_rejected : bool :=
  errs (parse_audience "https://example.com?hire_max_age=soon") is_invalid_max_age.
Definition negative_max_age_is_rejected : bool :=
  errs (parse_audience "https://example.com?hire_max_age=-1") is_invalid_max_age.
Definition overflowing_max_age_is_rejected : bool :=
  errs (parse_audience "https://example.com?hire_max_age=99999999999999999999") is_invalid_max_age.
Definition repeated_max_age_key_takes_the_strictest : bool :=
  forallb (λ raw, gives (parse_audience raw) (λ ext, same (max_age ext) (Some (from_secs 60))))
    ["https://example.com?hire_max_age=60&hire_max_age=3600";
     "https://example.com?hire_max_age=3600&hire_max_age=60"].
Definition unknown_hire_parameter_is_rejected : bool :=
  errs (parse_audience "https://example.com?hire_require_tpm=true")
    (λ e, match e with UnsupportedExtension _ => true | _ => false end).
Definition only_hire_params_no_other_query : bool :=
  gives (parse_audience "https://example.com?hire_require_presence=session") (λ ext,
    String.eqb (audience ext) "https://example.com" && same (require_presence ext) PresenceSession).
Definition unprefixed_require_presence_is_refused_not_kept : bool :=
  errs (parse_audience "https://app.example?require_presence=hardware")
    (λ e, match e with UnprefixedExtension n => String.eqb n "require_presence" | _ => false end).
Definition unprefixed_max_age_is_refused_not_kept : bool :=
  errs (parse_audience "https://app.example?max_age=60")
    (λ e, match e with UnprefixedExtension _ => true | _ => false end).
Definition ordinary_query_params_are_still_kept : bool :=
  gives (parse_audience "https://app.example?tenant=acme&region=eu") (λ ext,
    String.eqb (audience ext) "https://app.example?tenant=acme&region=eu"
    && same (require_presence ext) PresenceNone).

(** ** [hint.rs] *)
#[local] Instance SvidHint_eq_dec : EqDecision SvidHint.
Proof. solve_decision. Defined.

(** The cases of [tags_for_every_provable_source], the hint and its tag. *)
Definition tag_cases : list (SvidHint * string) :=
  [(mkHint "tailscale" Iaa2 PresenceNone 3,
    "source=tailscale&identity_assurance=iaa2&presence=none&age=3");
   (mkHint "unix" Iaa1 PresenceNone 0,
    "source=unix&identity_assurance=iaa1&presence=none&age=0");
   (mkHint "ssh-agent" Iaa1 PresenceNone 0,
    "source=ssh-agent&identity_assurance=iaa1&presence=none&age=0");
   (mkHint "gpg" Iaa1 PresenceNone 1,
    "source=gpg&identity_assurance=iaa1&presence=none&age=1");
   (mkHint "did:key" Iaa1 PresenceNone 0,
    "source=did:key&identity_assurance=iaa1&presence=none&age=0");
   (mkHint "fido2" Iaa3 PresenceHardware 12,
    "source=fido2&identity_assurance=iaa3&presence=hardware&age=12")].
Definition tags_for_every_provable_source : bool :=
  forallb (λ '(parsed, encoded),
    String.eqb (show_hint parsed) encoded && gives (parse_hint encoded) (same parsed)) tag_cases.

Definition field_order_does_not_matter_when_parsing : bool :=
  let forwards := "source=gpg&identity_assurance=iaa1&presence=none&age=7" in
  let backwards := "age=7&presence=none&identity_assurance=iaa1&source=gpg" in
  gives (parse_hint forwards) (λ f, gives (parse_hint backwards) (λ b,
    same f b && String.eqb (show_hint b) forwards)).
Definition an_unknown_key_is_refused_rather_than_ignored : bool :=
  errs (parse_hint "source=gpg&identity_assurance=iaa1&presence=none&age=0&attested_by=nobody")
    (λ e, match e with UnknownKey k => String.eqb k "attested_by" | _ => false end)
  && errs (parse_hint "source") (λ e, match e with UnknownKey _ => true | _ => false end).
Definition a_repeated_key_is_refused_rather_than_resolved : bool :=
  errs (parse_hint "source=gpg&identity_assurance=iaa1&presence=none&age=0&presence=hardware")
    (λ e, match e with RepeatedKey k => String.eqb k "presence" | _ => false end).
Definition every_field_is_required : bool :=
  let full := "source=gpg&identity_assurance=iaa1&presence=none&age=0" in
  forallb (λ '(dropped, name),
    let partial := replace dropped "" full in
    negb (String.eqb partial full)
    && errs (parse_hint partial) (λ e, match e with Missing f => String.eqb f name | _ => false end))
    [("source=gpg&", "source"); ("identity_assurance=iaa1&", "identity_assurance");
     ("presence=none&", "presence"); ("&age=0", "age")].
Definition a_value_outside_its_vocabulary_is_refused : bool :=
  forallb (λ '(raw, key), errs (parse_hint raw) (λ e,
    match e with BadValue k _ => String.eqb k key | _ => false end))
    [("source=gpg&identity_assurance=iaa4&presence=none&age=0", "identity_assurance");
     ("source=gpg&identity_assurance=iaa1&presence=present&age=0", "presence");
     ("source=gpg&identity_assurance=iaa1&presence=none&age=-1", "age");
     ("source=gpg&identity_assurance=iaa1&presence=none&age=", "age")].

(** ** They pass *)
Lemma assurance_tests_pass : assurance_levels_are_ordered && presence_levels_are_ordered = true.
Proof. vm_compute. reflexivity. Qed.

Lemma spiffe_id_tests_pass :
  forallb id [the_string_form_round_trips; the_string_form_is_injective;
    an_issuer_cannot_name_another_variants_namespace;
    an_authority_in_no_reserved_namespace_does_not_parse;
    an_authority_outside_the_spiffe_character_set_is_malformed;
    spiffe_id_parsing_refuses_an_unknown_authority;
    reads_the_source_from_the_forms_the_spec_gives;
    reads_the_source_the_oidc_attestor_actually_mints; via_alone_is_a_prefix;
    a_segment_merely_ending_in_via_is_not_a_provenance_marker;
    a_path_with_no_via_segment_has_no_provenance] = true.
Proof. vm_compute. reflexivity. Qed.

Lemma consumer_tests_pass :
  forallb id [binary_sha256_selector_key; macos_bundle_id_selector_key; flatpak_selector_key;
    snap_selector_key; chrome_extension_selector_key] = true.
Proof. vm_compute. reflexivity. Qed.

Lemma audience_tests_pass :
  forallb id [plain_url_no_extensions; hardware_presence_is_parsed; non_hire_params_are_kept;
    unknown_presence_level_is_rejected; capitalised_presence_level_is_rejected;
    empty_presence_value_is_rejected; repeated_presence_key_takes_the_strictest;
    max_age_is_parsed_as_a_bound; max_age_zero_is_parsed_not_rejected;
    non_numeric_max_age_is_rejected; negative_max_age_is_rejected;
    overflowing_max_age_is_rejected; repeated_max_age_key_takes_the_strictest;
    unknown_hire_parameter_is_rejected; only_hire_params_no_other_query;
    unprefixed_require_presence_is_refused_not_kept; unprefixed_max_age_is_refused_not_kept;
    ordinary_query_params_are_still_kept] = true.
Proof. vm_compute. reflexivity. Qed.

Lemma hint_tests_pass :
  forallb id [tags_for_every_provable_source; field_order_does_not_matter_when_parsing;
    an_unknown_key_is_refused_rather_than_ignored;
    a_repeated_key_is_refused_rather_than_resolved; every_field_is_required;
    a_value_outside_its_vocabulary_is_refused] = true.
Proof. vm_compute. reflexivity. Qed.
