(* ===== verification/SourceTests.v ===== *)
(** * The unit tests of [hire-attestors], run on the model

    The tests of [claim.rs], [gpg.rs], [tailscale.rs], [did_key.rs] and
    [unix.rs] that need no cryptography and no real agent, on the inputs they
    have in the source.  [SystemTime::now] is one fixed instant. *)
From S2P Require Import Prelude RustStr RustNum Assurance SpiffeId Json Claim GpgKeys Tailscale DidKey Unix CoreTests.
Local Open Scope Z_scope.
#[local] Existing Instance ascii_tables.

(** ** [claim.rs]: the fixtures *)
Definition candidate : Candidate := candidate_new "test" SaSshLocal "user/alice" "Alice".
Definition TEST_CHALLENGE : list byte := as_bytes "the challenge this request opened".
Definition epoch_plus (secs : Z) : SystemTime := secs * 1000000000.
Definition the_clock : SystemTime := epoch_plus 1789521390.

Definition possession_over (challenge : list byte) : Evidence :=
  Possession (mkSignature (mkAssertion (as_bytes "sig") "application/test") challenge the_clock).
Definition possession : Evidence := possession_over TEST_CHALLENGE.
Definition verified_token (issuer : string) (at_ : SystemTime) : Evidence :=
  IdpVerified (mkToken issuer at_).
Definition hardware_touch (at_ : SystemTime) : Evidence := HardwarePresence (mkTouch at_).
Definition platform_assertion_for (account : string) (at_ : SystemTime) : Evidence :=
  PlatformAssertion (mkPlatform account at_).
Definition platform_assertion (at_ : SystemTime) : Evidence :=
  platform_assertion_for (c_path candidate) at_.
Definition daemon_assertion_for (subject : string) (at_ : SystemTime) : Evidence :=
  DaemonAssertion (mkDaemon subject at_).
Definition daemon_assertion (at_ : SystemTime) : Evidence :=
  daemon_assertion_for (c_path candidate) at_.

(** [Claim::derive(..).unwrap()] and the assertions about it; [is_none]. *)
Definition derives (ev : list Evidence) (p : Claim → bool) : bool :=
  match derive candidate TEST_CHALLENGE ev with Some cl => p cl | None => false end.
Definition is_none {A} (o : option A) : bool := match o with None => true | Some _ => false end.
Definition levels (a : IdentityAssurance) (p : PresenceLevel) (cl : Claim) : bool :=
  same (cl_assurance cl) a && same (cl_presence cl) p.

(** ** gpg status lines *)
Definition PRIMARY_STATUS : string := "[GNUPG:] PLAINTEXT 62 1789521390 
[GNUPG:] PLAINTEXT_LENGTH 32
[GNUPG:] NEWSIG
[GNUPG:] KEY_CONSIDERED 20DCA9F2E1B7C47E06A538BB88517BBD78C58B5B 0
[GNUPG:] SIG_ID cMBTR7s3PmAtiDTLwRir+asEc4k 2026-09-16 1789521390
[GNUPG:] GOODSIG 88517BBD78C58B5B HIRE Live <live@example.invalid>
[GNUPG:] VALIDSIG 20DCA9F2E1B7C47E06A538BB88517BBD78C58B5B 2026-09-16 1789521390 0 4 0 22 10 00 20DCA9F2E1B7C47E06A538BB88517BBD78C58B5B
[GNUPG:] TRUST_ULTIMATE 0 pgp
".
Definition SUBKEY_STATUS : string := "[GNUPG:] GOODSIG F226257F32E27917 HIRE Sub <sub@example.invalid>
[GNUPG:] VALIDSIG A13119992BE42992574A25B0F226257F32E27917 2026-09-16 1789521400 0 4 0 22 10 00 9167765339732645FAC5E0E1BA6F7EB235577CCC
".
Definition PRIMARY_FPR : string := "20DCA9F2E1B7C47E06A538BB88517BBD78C58B5B".
Definition SUBKEY_PRIMARY_FPR : string := "9167765339732645FAC5E0E1BA6F7EB235577CCC".
Definition SUBKEY_SIGNING_FPR : string := "A13119992BE42992574A25B0F226257F32E27917".

Definition validsig_names_the_signing_primary : bool :=
  names_key PRIMARY_STATUS PRIMARY_FPR
  && names_key PRIMARY_STATUS (to_ascii_lowercase PRIMARY_FPR).
Definition validsig_names_the_primary_of_a_signing_subkey : bool :=
  names_key SUBKEY_STATUS SUBKEY_PRIMARY_FPR && names_key SUBKEY_STATUS SUBKEY_SIGNING_FPR.
Definition a_fingerprint_in_neither_position_is_refused : bool :=
  negb (names_key PRIMARY_STATUS SUBKEY_PRIMARY_FPR)
  && negb (names_key PRIMARY_STATUS "88517BBD78C58B5B").
Definition goodsig_without_validsig_is_not_a_verdict : bool :=
  let goodsig := join (String "010" "")
    (List.filter (λ l, negb (starts_with "[GNUPG:] VALIDSIG" l)) (lines PRIMARY_STATUS)) in
  negb (names_key goodsig PRIMARY_FPR) && negb (names_key "" PRIMARY_FPR).

(** ** Derivation *)
Definition no_evidence_yields_no_claim : bool := is_none (derive candidate TEST_CHALLENGE []).
Definition possession_alone_is_the_floor : bool := derives [possession] (levels Iaa1 PresenceNone).
Definition a_daemon_assertion_is_iaa2_with_no_presence : bool :=
  derives [daemon_assertion (epoch_plus 1000)] (λ cl,
    levels Iaa2 PresenceNone cl && same (attested_at cl) (epoch_plus 1000)).
Definition a_daemon_assertion_about_another_subject_is_not_evidence : bool :=
  is_none (derive candidate TEST_CHALLENGE
    [daemon_assertion_for "user/someone-else" (epoch_plus 1000)]).
Definition touch_alone_is_hardware_presence_but_not_iaa3 : bool :=
  derives [hardware_touch (epoch_plus 1000)] (levels Iaa1 PresenceHardware).
Definition verified_token_alone_is_iaa2_session : bool :=
  derives [verified_token "example.com" (epoch_plus 1000)] (levels Iaa2 PresenceSession).
Definition touch_plus_verified_token_is_iaa3 : bool :=
  derives [hardware_touch (epoch_plus 1000); verified_token "example.com" (epoch_plus 1000)]
    (levels Iaa3 PresenceHardware).
Definition verified_issuer_anchors_the_trust_domain : bool :=
  derives [verified_token "example.com" (epoch_plus 1000)] (λ cl,
    same (trust_domain (cl_spiffe_id cl)) (OrgOidc "example.com")
    && String.eqb (path (cl_spiffe_id cl)) "user/alice").
Definition without_a_verified_token_the_domain_stays_self_asserted : bool :=
  derives [possession] (λ cl, same (trust_domain (cl_spiffe_id cl)) SshLocal).
Definition a_claims_display_and_source_come_from_the_candidate : bool :=
  derives [possession] (λ cl,
    String.eqb (cl_source cl) "test" && String.eqb (cl_display_name cl) "Alice").
Definition age_at_measures_a_past_attestation : bool :=
  derives [hardware_touch (epoch_plus 1000)] (λ cl,
    same (age_at (epoch_plus 1600) cl) (Some (from_secs 600))).
Definition a_future_attestation_has_no_measurable_age : bool :=
  derives [hardware_touch (epoch_plus 10000)] (λ cl, same (age_at (epoch_plus 9000) cl) None).
Definition a_touch_dates_the_claim : bool :=
  derives [hardware_touch (epoch_plus 1000)] (λ cl, same (attested_at cl) (epoch_plus 1000)).

(** Both orders of two items. *)
Definition either_way (e e' : Evidence) (p : Claim → bool) : bool :=
  derives [e; e'] p && derives [e'; e] p.
Definition the_observation_follows_the_evidence_that_set_the_presence_level : bool :=
  either_way (hardware_touch (epoch_plus 1000)) (verified_token "example.com" (epoch_plus 9000))
    (λ cl, same (cl_presence cl) PresenceHardware && same (attested_at cl) (epoch_plus 1000)).
Definition a_fresh_signature_does_not_refresh_a_stale_touch : bool :=
  either_way (hardware_touch (epoch_plus 1000)) possession
    (λ cl, same (attested_at cl) (epoch_plus 1000)).
Definition two_touches_take_the_newer : bool :=
  either_way (hardware_touch (epoch_plus 1000)) (hardware_touch (epoch_plus 2000))
    (λ cl, same (attested_at cl) (epoch_plus 2000)).
Definition a_platform_assertion_is_the_floor_and_asserts_no_presence : bool :=
  derives [platform_assertion (epoch_plus 10)] (λ cl,
    levels Iaa1 PresenceNone cl && same (attested_at cl) (epoch_plus 10)).
Definition a_platform_assertion_does_not_re_date_a_touch : bool :=
  derives [hardware_touch (epoch_plus 10); platform_assertion (epoch_plus 900)] (λ cl,
    same (cl_presence cl) PresenceHardware && same (attested_at cl) (epoch_plus 10)).
Definition possession_alone_dates_the_claim_from_the_signature : bool :=
  derives [possession] (λ cl, same (attested_at cl) the_clock).

(** ** The challenge filter *)
Definition evidence_answering_another_challenge_is_not_evidence : bool :=
  is_none (derive candidate (as_bytes "this request") [possession_over (as_bytes "some other")]).
Definition the_filter_drops_the_replayed_proof_and_keeps_the_fresh_one : bool :=
  either_way (possession_over (as_bytes "some other")) possession (levels Iaa1 PresenceNone).
Definition a_platform_assertion_is_refused_for_an_account_it_does_not_name : bool :=
  let root := candidate_new "unix" SaSshLocal "unix/0" "root" in
  let owner := candidate_new "unix" SaSshLocal "unix/1000" "mark" in
  let harvested := platform_assertion_for "unix/1000" the_clock in
  is_none (derive root TEST_CHALLENGE [harvested])
  && match derive owner TEST_CHALLENGE [harvested] with
     | Some cl => String.eqb (uri (cl_spiffe_id cl)) "spiffe://ssh.local/unix/1000"
     | None => false
     end.
Definition an_attainable_tier_does_not_raise_the_derived_claim : bool :=
  let boastful := with_attainable AIaa3 (candidate_new "unix" SaSshLocal "unix/1000" "mark") in
  same (attainable boastful) AIaa3
  && match derive boastful TEST_CHALLENGE [platform_assertion_for "unix/1000" the_clock] with
     | Some cl => levels Iaa1 PresenceNone cl
     | None => false
     end.
Definition an_undeclared_candidate_defaults_to_the_safe_end_of_both_axes : bool :=
  same (attainable candidate) AIaa1 && same (proof_cost candidate) Interactive.
Definition each_declaration_sets_only_its_own_field : bool :=
  let tiered := with_attainable AIaa2 candidate in
  let costed := with_proof_cost Silent candidate in
  same (attainable tiered) AIaa2 && same (proof_cost tiered) Interactive
  && same (proof_cost costed) Silent && same (attainable costed) AIaa1.

(** ** [gpg.rs] *)
Definition HELD_KEY : string := "sec:u:2048:1:F89B03DD7C1C7CF3:1789436346:::u:::scESC:::+:::23::0:
fpr:::::::::DCA433D5E52C0E3BC2FFAACAF89B03DD7C1C7CF3:
grp:::::::::C9E63BA28950B26CF2F13D1A1289897C30999B96:
uid:u::::1789436346::65805A6326CC48AD8A80F5C110E268E179B67F2D::HIRE Fixture <fixture@example.invalid>::::::::::0:
ssb:u:2048:1:95F75069F2C940FA:1789436346::::::e:::+:::23:
fpr:::::::::6FF79DE07E215542036AC32495F75069F2C940FA:
grp:::::::::DD661844847F70FA2E22834031A6C409CF9FB1DC:
".
Definition STUB_KEY : string := "sec:u:2048:1:4912B1B94BCC7CE7:1789436364:::u:::scESC:::#:::23::0:
fpr:::::::::0A4CDBE63C2E43AD2F713ED74912B1B94BCC7CE7:
grp:::::::::3F2BC44A4B128F52542DB5CB2D7F7C1673702F09:
uid:u::::1789436364::F30D1032B443A9B75F65D20D35BCF78F968AD20B::HIRE Stub <stub@example.invalid>::::::::::0:
ssb:u:2048:1:FA6F485F7C9D2A23:1789436364::::::e:::+:::23:
fpr:::::::::5C279EBDFC1ED9498785B16FFA6F485F7C9D2A23:
grp:::::::::205EF534C20346592E8EA09DDE80AAC06C0D06D8:
".
Definition REVOKED_KEY : string := "sec:r:2048:1:ACDA14AE1B81B6E6:1789437608:::-:::sc:::+:::23::0:
fpr:::::::::C48C869670DD7FDADADE70C5ACDA14AE1B81B6E6:
uid:r::::1789437609::7708B404760C34E3AEFB2FC069C86D79AA921DD5::HIRE Current <current@example.invalid>::::::::::0:
uid:r::::::776A75185DC89FE288065594A412DF1ACA1D95D5::HIRE Retired <retired@example.invalid>::::::::::0:
".
Definition REVOKED_UID_KEY : string := "sec:u:2048:1:ACDA14AE1B81B6E6:1789437608:::u:::scSC:::+:::23::0:
fpr:::::::::C48C869670DD7FDADADE70C5ACDA14AE1B81B6E6:
uid:r::::::776A75185DC89FE288065594A412DF1ACA1D95D5::HIRE Retired <retired@example.invalid>::::::::::0:
uid:u::::1789437609::7708B404760C34E3AEFB2FC069C86D79AA921DD5::HIRE Current <current@example.invalid>::::::::::0:
".
Definition HELD_FP : string := "dca433d5e52c0e3bc2ffaacaf89b03dd7c1c7cf3".
Definition HELD_SUBKEY_FP : string := "6ff79de07e215542036ac32495f75069f2c940fa".
Definition STUB_FP : string := "0a4cdbe63c2e43ad2f713ed74912b1b94bcc7ce7".

Definition names (fp : string) (c : Candidate) : bool := contains fp (uri (candidate_spiffe_id c)).
Definition parse_gpg_colons_extracts_candidate : bool :=
  match parse_gpg_colons HELD_KEY with
  | [c] => String.eqb (c_source c) "gpg"
      && String.eqb (c_display_name c) "HIRE Fixture <fixture@example.invalid>"
      && names HELD_FP c && negb (names HELD_SUBKEY_FP c) && negb (names "f2c940fa" c)
  | _ => false
  end.
Definition parse_gpg_colons_rejects_offline_primary_stub : bool :=
  bool_decide (parse_gpg_colons STUB_KEY = []).
Definition parse_gpg_colons_accepts_smartcard_serial : bool :=
  match parse_gpg_colons
    (replace "scESC:::+:::" "scESC:::D2760001240103040006123456789012:::" HELD_KEY) with
  | [c] => names HELD_FP c
  | _ => false
  end.
Definition parse_gpg_colons_rejects_revoked_primary : bool :=
  let live_uid := replace "uid:r::::1789437609:" "uid:u::::1789437609:" REVOKED_KEY in
  bool_decide (parse_gpg_colons REVOKED_KEY = []) && negb (String.eqb live_uid REVOKED_KEY)
  && bool_decide (parse_gpg_colons live_uid = []).
Definition parse_gpg_colons_accepts_expired_primary : bool :=
  match parse_gpg_colons (replace "sec:u:" "sec:e:" HELD_KEY) with
  | [c] => names HELD_FP c
  | _ => false
  end.
Definition parse_gpg_colons_skips_revoked_uid_for_display_name : bool :=
  match parse_gpg_colons REVOKED_UID_KEY with
  | [c] => String.eqb (c_display_name c) "HIRE Current <current@example.invalid>"
  | _ => false
  end.
Definition parse_gpg_colons_separates_keys_in_one_listing : bool :=
  let held_stub := replace "scESC:::#:::" "scESC:::+:::" STUB_KEY in
  match parse_gpg_colons (HELD_KEY +:+ STUB_KEY +:+ held_stub) with
  | [c; c'] => names HELD_FP c
      && String.eqb (c_display_name c) "HIRE Fixture <fixture@example.invalid>"
      && names STUB_FP c'
      && String.eqb (c_display_name c') "HIRE Stub <stub@example.invalid>"
  | _ => false
  end.

(** ** [tailscale.rs] *)

(** [STATUS], with the name of its [DNSName] field and of its user entry. *)
Definition STATUS (dns_name user : string) : json :=
  JObj [("Self", JObj [("UserID", JNum (NPosInt 2443048902535570)); ("HostName", JStr "heft");
                       (dns_name, JStr "heft.cougar-ordinal.ts.net.")]);
        ("User", JObj [(user, JObj [("ID", JNum (NPosInt 2443048902535570));
                                    ("LoginName", JStr "someone@github");
                                    ("DisplayName", JStr "Some One")])])].
Definition identity_of_reads_the_login_through_the_user_map : bool :=
  gives (identity_of (STATUS "DNSName" "2443048902535570")) (λ '(p, display),
    String.eqb p "user/someone@github/node/heft.cougar-ordinal.ts.net"
    && String.eqb display "Some One").
Definition identity_of_falls_back_to_the_hostname : bool :=
  gives (identity_of (STATUS "Unused" "2443048902535570")) (λ '(p, _),
    String.eqb p "user/someone@github/node/heft").
Definition identity_of_refuses_a_node_with_no_user_entry : bool :=
  negb (is_ok (identity_of (STATUS "DNSName" "999"))) && negb (is_ok (identity_of (JObj []))).

(** A line of a header or body, with its CRLF. *)
Definition line (s : string) : list byte := as_bytes s ++ CRLF.
Definition detects_the_chunked_header_case_insensitively : bool :=
  header_says_chunked (line "HTTP/1.1 200 OK" ++ line "Transfer-Encoding: chunked" ++ CRLF)
  && header_says_chunked (line "HTTP/1.1 200 OK" ++ line "transfer-encoding: Chunked" ++ CRLF)
  && negb (header_says_chunked (line "HTTP/1.1 200 OK" ++ line "Content-Type: application/json" ++ CRLF)).
Definition q : string := String "034" "".
Definition reassembles_the_shape_tailscaled_actually_sends : bool :=
  let status := "{" +:+ q +:+ "Self" +:+ q +:+ ":{" +:+ q +:+ "x" +:+ q +:+ ":1}}" in
  gives (dechunk (line "10" ++ line status ++ line "0" ++ CRLF)) (same (as_bytes status)).
Definition joins_several_chunks : bool :=
  gives (dechunk (line "5" ++ line ("{" +:+ q +:+ "a" +:+ q +:+ ":") ++ line "3" ++ line "1} "
                  ++ line "0" ++ CRLF))
    (same (as_bytes ("{" +:+ q +:+ "a" +:+ q +:+ ":1} "))).
Definition ignores_a_chunk_extension : bool :=
  gives (dechunk (line "4;name=value" ++ line "abcd" ++ line "0" ++ CRLF)) (same (as_bytes "abcd")).
Definition refuses_a_truncated_chunk : bool :=
  negb (is_ok (dechunk (line "ff" ++ line "short"))).
Definition refuses_a_non_hex_length : bool :=
  negb (is_ok (dechunk (line ("{" +:+ q +:+ "Self" +:+ q +:+ ":{}}")))).

(** ** [did_key.rs] *)
Definition ED25519_DID : string := "did:key:z6MkhaXgBZDvotDkL5257faiztiGiC2QtKLGpbnnEGta2doK".
Definition ED25519_KEY : list byte :=
  as_u8 <$> [46; 111; 204; 227; 103; 1; 220; 121; 20; 136; 224; 208; 177; 116; 92; 193;
             227; 58; 76; 28; 159; 204; 65; 198; 59; 211; 67; 219; 190; 9; 112; 230].
Definition X25519_DID : string := "did:key:z6LSeoSo7cnMZoT2JxZ8xk8qUPNkjmHgB3G51ZbXtTa5pnnh".
Definition OVERSIZE_DID : string := "did:key:z2oAtJSedW8DmsVVAfKadgfm8AyLcNuNaMnCUAzMvTEUsD8pd".
Definition SHORT_DID : string := "did:key:zAq9wshcffbQriXyLzqN7tSZvg".

Definition ed25519_point_decodes_the_spec_vector : bool :=
  same (ed25519_point ED25519_DID) (Some ED25519_KEY).
Definition ed25519_point_refuses_another_curve : bool :=
  forallb (λ did, is_none (ed25519_point did)) [X25519_DID; OVERSIZE_DID; SHORT_DID].
Definition ed25519_point_refuses_anything_that_is_not_a_did_key : bool :=
  is_none (ed25519_point "did:web:example.com")
  && is_none (ed25519_point (replace "did:key:z" "did:key:" ED25519_DID))
  && is_none (ed25519_point (replace "o" "0" ED25519_DID)).
Definition parse_single_did_key : bool :=
  match parse_did_keys_from ED25519_DID with [d] => starts_with "did:key:" d | _ => false end.
Definition parse_multiple_did_keys : bool :=
  let dids := parse_did_keys_from (ED25519_DID +:+ " did:key:z6MkiTBz1234") in
  Nat.eqb (length dids) 2 && forallb (starts_with "did:key:") dids.
Definition parse_empty_returns_empty : bool := same (parse_did_keys_from "") [].
Definition parse_ignores_non_did_key_entries : bool :=
  same (parse_did_keys_from "did:web:example.com did:key:z6MkhaX did:ethr:0x123")
    ["did:key:z6MkhaX"].

(** ** [unix.rs] *)
Definition the_path_names_the_uid_not_the_account_name : bool :=
  String.eqb (unix_spiffe_path 1000) "unix/1000".

(** ** They pass *)
Lemma names_key_tests_pass :
  forallb id [validsig_names_the_signing_primary; validsig_names_the_primary_of_a_signing_subkey;
    a_fingerprint_in_neither_position_is_refused; goodsig_without_validsig_is_not_a_verdict] = true.
Proof. vm_compute. reflexivity. Qed.

Lemma derive_tests_pass :
  forallb id [no_evidence_yields_no_claim; possession_alone_is_the_floor;
    a_daemon_assertion_is_iaa2_with_no_presence;
    a_daemon_assertion_about_another_subject_is_not_evidence;
    touch_alone_is_hardware_presence_but_not_iaa3; verified_token_alone_is_iaa2_session;
    touch_plus_verified_token_is_iaa3; verified_issuer_anchors_the_trust_domain;
    without_a_verified_token_the_domain_stays_self_asserted;
    a_claims_display_and_source_come_from_the_candidate; age_at_measures_a_past_attestation;
    a_future_attestation_has_no_measurable_age; a_touch_dates_the_claim;
    the_observation_follows_the_evidence_that_set_the_presence_level;
    a_fresh_signature_does_not_refresh_a_stale_touch; two_touches_take_the_newer;
    a_platform_assertion_is_the_floor_and_asserts_no_presence;
    a_platform_assertion_does_not_re_date_a_touch;
    possession_alone_dates_the_claim_from_the_signature;
    evidence_answering_another_challenge_is_not_evidence;
    the_filter_drops_the_replayed_proof_and_keeps_the_fresh_one;
    a_platform_assertion_is_refused_for_an_account_it_does_not_name;
    an_attainable_tier_does_not_raise_the_derived_claim;
    an_undeclared_candidate_defaults_to_the_safe_end_of_both_axes;
    each_declaration_sets_only_its_own_field] = true.
Proof. vm_compute. reflexivity. Qed.

Lemma gpg_tests_pass :
  forallb id [parse_gpg_colons_extracts_candidate; parse_gpg_colons_rejects_offline_primary_stub;
    parse_gpg_colons_accepts_smartcard_serial; parse_gpg_colons_rejects_revoked_primary;
    parse_gpg_colons_accepts_expired_primary; parse_gpg_colons_skips_revoked_uid_for_display_name;
    parse_gpg_colons_separates_keys_in_one_listing] = true.
Proof. vm_compute. reflexivity. Qed.

Lemma tailscale_tests_pass :
  forallb id [identity_of_reads_the_login_through_the_user_map;
    identity_of_falls_back_to_the_hostname; identity_of_refuses_a_node_with_no_user_entry;
    detects_the_chunked_header_case_insensitively;
    reassembles_the_shape_tailscaled_actually_sends; joins_several_chunks;
    ignores_a_chunk_extension; refuses_a_truncated_chunk; refuses_a_non_hex_length] = true.
Proof. vm_compute. reflexivity. Qed.

Lemma did_key_and_unix_tests_pass :
  forallb id [ed25519_point_decodes_the_spec_vector; ed25519_point_refuses_another_curve;
    ed25519_point_refuses_anything_that_is_not_a_did_key; parse_single_did_key;
    parse_multiple_did_keys; parse_empty_returns_empty; parse_ignores_non_did_key_entries;
    the_path_names_the_uid_not_the_account_name] = true.
Proof. vm_compute. reflexivity. Qed.
