(* ===== verification/KnownAnswers.v ===== *)
(** * The known-answer tests of the repository, run on the model

    The tests of [pseudonym.rs], [did_key.rs], [signer.rs] and of the ssh
    verification in [claim.rs] whose expected values come from outside:
    RFC 8032, pyca/cryptography, openssl and sha256sum.  Hashes, HKDF and
    base64 are those of [Standards].  Of Ed25519 and P-256 the model knows what
    the vectors say and no more: a signature verifies when it is one of
    theirs, and the fixture key has the fixture's point and signature. *)
From S2P Require Import Prelude RustStr RustNum Assurance SpiffeId Consumer External Standards Json Jwt Pseudonym Signer Claim Machine SshWire DidKey Verify CoreTests SourceTests.
Local Open Scope Z_scope.
#[local] Existing Instance ascii_tables.
#[local] Existing Instance fips_sha256.
#[local] Existing Instance rfc5869_hkdf.
#[local] Existing Instance rfc4648_base64.

(** ** [pseudonym.rs] *)
Definition org : TrustDomain := OrgOidc "example.com".
Definition abab : ConsumerIdentity := BinarySha256 (replicate 32 (as_u8 171)).
Definition known_vector_org_oidc_binary_consumer : bool :=
  String.eqb (hex (derive_pseudonym (as_bytes "secret-ikm") org abab))
    "7d8204dd56110454850c7b941aba99c1bcef5d233228c268a736e05bd53fbb3d".
Definition known_vector_tailscale_macos_consumer : bool :=
  String.eqb (hex (derive_pseudonym (as_bytes "secret-ikm") Tailscale
                     (MacosBundleId "com.example.app" "ABCDE12345")))
    "f6e2eceb0996627a38cae52a3a941c12eecfec3a1d0828163808db133944c17f".
Definition known_vector_ssh_local_flatpak_consumer : bool :=
  String.eqb (hex (derive_pseudonym (as_bytes "ikm") SshLocal (FlatpakApp "org.gnome.Gedit")))
    "9c21e702df5b78608e3a9f7b943b6b709d3cd5d5e0cdba489bab36ddbcbefadd".
Definition the_scheme_label_is_part_of_the_derivation : bool :=
  negb (String.eqb (hex (derive_pseudonym (as_bytes "secret-ikm") org abab))
          "b2f13ec714e5e28bdfff08a00a411df23c4fd35083857be052c24d371c145767").
Definition output_is_64_hex_chars : bool :=
  let out := hex (derive_pseudonym (as_bytes "ikm") SshLocal (SnapName "firefox")) in
  Nat.eqb (String.length out) 64 && all_bytes is_hex_digit out.
Definition deterministic : bool :=
  same (derive_pseudonym (as_bytes "secret-ikm") Tailscale (SnapName "firefox"))
       (derive_pseudonym (as_bytes "secret-ikm") Tailscale (SnapName "firefox")).
Definition different_consumers_produce_different_pseudonyms : bool :=
  negb (same (derive_pseudonym (as_bytes "ikm") org (SnapName "one"))
             (derive_pseudonym (as_bytes "ikm") org (SnapName "two"))).
Definition different_trust_domains_produce_different_pseudonyms : bool :=
  negb (same (derive_pseudonym (as_bytes "ikm") (OrgOidc "domain-a.example") (SnapName "firefox"))
             (derive_pseudonym (as_bytes "ikm") (OrgOidc "domain-b.example") (SnapName "firefox"))).
Definition different_ikm_produces_different_pseudonyms : bool :=
  negb (same (derive_pseudonym (as_bytes "ikm-alice") SshLocal (SnapName "firefox"))
             (derive_pseudonym (as_bytes "ikm-bob") SshLocal (SnapName "firefox"))).

Definition root : SpiffeId := mkSpiffeId SshLocal "user/testuser".
Definition bytes32 (n : Z) : list byte := replicate 32 (as_u8 n).
Definition distinct_consumers_get_distinct_pseudonymous_ids : bool :=
  negb (same (derive_pseudonymous_id (bytes32 7) root (BinarySha256 (bytes32 1)))
             (derive_pseudonymous_id (bytes32 7) root (BinarySha256 (bytes32 2)))).
Definition the_same_consumer_gets_the_same_pseudonymous_id : bool :=
  same (derive_pseudonymous_id (bytes32 7) root (BinarySha256 (bytes32 3)))
       (derive_pseudonymous_id (bytes32 7) root (BinarySha256 (bytes32 3))).
Definition a_different_key_yields_a_different_pseudonymous_id : bool :=
  negb (same (derive_pseudonymous_id (bytes32 7) root (BinarySha256 (bytes32 3)))
             (derive_pseudonymous_id (bytes32 8) root (BinarySha256 (bytes32 3)))).
Definition a_different_root_yields_a_different_pseudonymous_id : bool :=
  negb (same (derive_pseudonymous_id (bytes32 7) root (BinarySha256 (bytes32 3)))
             (derive_pseudonymous_id (bytes32 7) (mkSpiffeId SshLocal "user/someone-else")
                (BinarySha256 (bytes32 3)))).
Definition the_pseudonymous_id_does_not_carry_the_root_path : bool :=
  let id := derive_pseudonymous_id (bytes32 7) root (BinarySha256 (bytes32 3)) in
  negb (contains "user/testuser" (uri id)) && negb (same id root).
Definition every_path_segment_is_a_legal_spiffe_segment : bool :=
  let id := derive_pseudonymous_id (bytes32 7) root (MacosBundleId "com.example.app" "ABCDE12345") in
  let legal c := is_hex_digit c || ((97 <=? u8_val c) && (u8_val c <=? 122))
                 || ((65 <=? u8_val c) && (u8_val c <=? 90))
                 || existsb (Ascii.eqb c) (as_bytes ".-_") in
  gives (parse_spiffe_id (uri id)) (same id)
  && forallb (λ seg, negb (is_empty seg) && all_bytes legal seg) (split_char "/" (path id)).

(** ** [did_key.rs] *)
Definition spiffe_path_is_the_hash_of_the_whole_did : bool :=
  negb (String.eqb (did_spiffe_path ED25519_DID) (did_spiffe_path X25519_DID))
  && String.eqb (did_spiffe_path ED25519_DID) ("did/" +:+ did_id ED25519_DID).
Definition did_id_is_stable : bool :=
  String.eqb (did_id ED25519_DID)
    "8551f404ecfe6403c2fe960ab267cd8c74a9a0701628ce24b1753946f2ebb16e".
Definition did_id_differs_for_different_dids : bool :=
  negb (String.eqb (did_id ED25519_DID) (did_id "did:key:z6MkiTBz1234")).

(** ** The ssh verification of [claim.rs] *)

(** [u8::from_str_radix] over pairs of digits. *)
Fixpoint unhex (s : string) : list byte :=
  match s with
  | String a (String b rest) =>
      match from_str_radix 16 255 (String a (String b "")) with
      | Some v => as_u8 v :: unhex rest
      | None => []
      end
  | _ => []
  end.
Definition candidate_naming (p : string) : Candidate :=
  candidate_new "ssh-agent" SaSshLocal p "Test Key".

Definition KEY_A_PATH : string := "key/hypfbr3urYfzkHDZVEL25Nfwd0reLKQq+dAsi48SBq4".
Definition KEY_A_BLOB : string := "0000000b7373682d6564323535313900000020db995fe25169d141cab9bbba92baa01f9f2e1ece7df4cb2ac05190f37fcc1f9d".
Definition KEY_A_SIG : string := "0000000b7373682d656432353531390000004024aa9e2c440f78a2fe6d110f539179631c6265229b7b083bfb22a5cb7cc40a4dcfe99e0a0323d787d709f94241b10a4808002f06f04d4b421ee324b2eae04c06".
Definition KEY_B_PATH : string := "key/ZsrOVCtcb1bouzun0GIHz5vL5oCjVhVIQ3jfIBIgZ8g".
Definition KEY_B_BLOB : string := "0000000b7373682d65643235353139000000202152f8d19b791d24453242e15f2eab6cb7cffa7b6a5ed30097960e069881db12".
Definition KEY_B_SIG : string := "0000000b7373682d65643235353139000000401bbdbb894c1f0026792d3cba5c74eed9e8c00d09680de18e8aea654ebb007f77a642da6cae45a6c782601b719acf972a984486fcf1a8e89e416f1a4679608c0e".
Definition CHALLENGE : string := "000102030405060708090a0b0c0d0e0f101112131415161718191a1b1c1d1e1f".
Definition ECDSA_PATH : string := "key/tqnTrJ8h0Tph2jhd1rW9SOLL+jq2kKxUvzS0Wg2A190".
Definition ECDSA_BLOB : string := "0000001365636473612d736861322d6e69737470323536000000086e6973747032353600000041040050a4e9d0bdd2c23ddd8c8f01b8414133c5c7126a8913040dd84a2f2669eae9816511317b14463b5462f8cb47a7b63a66f4fe2a528189b74f1b83fdf00388a5".

(** Path, key blob, message and signature of the RFC 8032 section 7.1 rows. *)
Definition rfc8032_vectors : list (string * string * string * string) :=
  [("key/bbXpuKG6zhzdmnxq256TlqzFBzRl2f6OOg722cYNbU8", "0000000b7373682d6564323535313900000020d75a980182b10ab7d54bfed3c964073a0ee172f3daa62325af021a68f707511a", "", "0000000b7373682d6564323535313900000040e5564300c360ac729086e2cc806e828a84877f1eb8e5d974d873e065224901555fb8821590a33bacc61e39701cf9b46bd25bf5f0595bbe24655141438e7a100b");
   ("key/F34nin7tcaYH6WR5LSWSfj6weFBPfBpuyUUoPFP9YjA", "0000000b7373682d65643235353139000000203d4017c3e843895a92b70aa74d1b7ebc9c982ccf2ec4968cc0cd55f12af4660c", "72", "0000000b7373682d656432353531390000004092a009a9f0d4cab8720e820b5f642540a2b27b5416503f8fb3762223ebdb69da085ac1e43e15996e458f3613d0f11d8c387b2eaeb4302aeeb00d291612bb0c00");
   ("key/s3Z2A+mldeflHo5TMMEUA7MlkMg96xvtqH9DGLHHZmE", "0000000b7373682d6564323535313900000020fc51cd8e6218a1a38da47ed00230f0580816ed13ba3303ac5deb911548908025", "af82", "0000000b7373682d65643235353139000000406291d657deec24024827e69c3abe01a30ce548a284743a445e3680d7db5ac3ac18ff9b538d16f290ae67f760984dc6594a7c15e9716ed28dc027beceea1ec40a");
   ("key/LuQFmSsJbAkjYpb1LObnHa6mOAGiucbY/zOy8nrd28I", "0000000b7373682d6564323535313900000020ec172b93ad5e563bf4932c70e1245034c35467ef2efd4d64ebf819683467e2bf", "ddaf35a193617abacc417349ae20413112e6fa4e89a97ea20a9eeee64b55d39a2192992a274fc1a836ba3c23a3feebbd454d4423643ce80e2a9ac94fa54ca49f", "0000000b7373682d6564323535313900000040dc2a4459e7369633a52b1bf277839a00201009a3efbf3ecb69bea2186c26b58909351fc9ac90b3ecfdfbc7c66431e0303dca179c138ac17ad9bef1177331a704")].

(** Every signature the fixtures hold: the point, the message, the 64 bytes.
    Key blobs and signatures carry 19 bytes of framing. *)
Definition signed : list (list byte * list byte * list byte) :=
  ((λ '(_, blob, message, sig), (drop 19 (unhex blob), unhex message, drop 19 (unhex sig)))
     <$> rfc8032_vectors)
  ++ [(drop 19 (unhex KEY_A_BLOB), unhex CHALLENGE, drop 19 (unhex KEY_A_SIG));
      (drop 19 (unhex KEY_B_BLOB), unhex CHALLENGE, drop 19 (unhex KEY_B_SIG))].
#[local] Instance fixture_ed25519 : Ed25519 := {|
  point_valid := λ _, true;
  verify_strict := λ p m s, bool_decide ((p, m, s) ∈ signed);
|}.

Definition rfc_8032_vectors_verify : bool :=
  forallb (λ '(p, blob, message, sig),
    is_ok (check_ssh_ed25519 (candidate_naming p) (unhex message) (unhex blob) (unhex sig)))
    rfc8032_vectors.
Definition an_rfc_vector_with_one_message_byte_flipped_is_refused : bool :=
  forallb (λ '(p, blob, message, sig),
    negb (is_ok (check_ssh_ed25519 (candidate_naming p) (unhex message ++ [as_u8 1])
                   (unhex blob) (unhex sig))))
    rfc8032_vectors.

(** The whole constructor, on a scripted clock. *)
Definition a_machine : Script := mkScript 0 [] [] [] [] [] (λ _ _, Err StdinNotPiped) 1000 [].
Definition a_genuine_signature_over_this_challenge_verifies : bool :=
  gives (verify_ssh_ed25519 (candidate_naming KEY_A_PATH) (unhex CHALLENGE) (unhex KEY_A_BLOB)
           (unhex KEY_A_SIG) a_machine).1 (λ s,
    same (cs_challenge s) (unhex CHALLENGE)
    && String.eqb (sa_format (cs_assertion s)) "application/vnd.hire.ssh-ed25519-signature").
Definition a_signature_over_a_different_challenge_is_refused : bool :=
  match unhex CHALLENGE with
  | b :: rest => negb (is_ok (check_ssh_ed25519 (candidate_naming KEY_A_PATH)
                   (as_u8 (Z.lxor (u8_val b) 1) :: rest) (unhex KEY_A_BLOB) (unhex KEY_A_SIG)))
  | [] => false
  end.
Definition a_genuine_signature_by_another_key_is_refused : bool :=
  errs (check_ssh_ed25519 (candidate_naming KEY_A_PATH) (unhex CHALLENGE) (unhex KEY_B_BLOB)
          (unhex KEY_B_SIG))
    (λ e, contains "the candidate does not name" (show_attestor_error e)).
Definition key_bs_own_signature_verifies_for_key_b : bool :=
  is_ok (check_ssh_ed25519 (candidate_naming KEY_B_PATH) (unhex CHALLENGE) (unhex KEY_B_BLOB)
           (unhex KEY_B_SIG)).
Definition an_ecdsa_key_is_refused_by_name : bool :=
  errs (check_ssh_ed25519 (candidate_naming ECDSA_PATH) (unhex CHALLENGE) (unhex ECDSA_BLOB)
          (unhex KEY_A_SIG))
    (λ e, contains "ecdsa-sha2-nistp256" (show_attestor_error e)).

(** Refused even where every signature verifies. *)
Definition malformed_blobs_are_refused_and_never_panic : bool :=
  let accept_all : Ed25519 := {| point_valid := λ _, true; verify_strict := λ _ _ _, true |} in
  let sig := unhex KEY_A_SIG in
  let blob := unhex KEY_A_BLOB in
  let reframed len := take 15 sig ++ u32_to_be (Z.of_nat len)
                        ++ take len (drop 19 sig ++ replicate len "000"%char) in
  let refused key bad := negb (is_ok (check_ssh_ed25519 (Ed := accept_all)
                           (candidate_naming (ssh_spiffe_path key)) (unhex CHALLENGE) key bad)) in
  forallb (refused blob) [[]; take 3 sig; take 8 sig; sig ++ [as_u8 0]; reframed 63%nat; reframed 65%nat]
  && refused (take (length blob - 1) blob) sig
  && negb (refused blob sig).

(** ** [signer.rs] *)
Definition TEST_PKCS8_HEX : string := "308187020100301306072a8648ce3d020106082a8648ce3d030107046d306b02010104205cc28f43751c40760f2c13143e0001ff32b7aee71161f9114fa09e0d7b361e36a14403420004fe3e909303ea44121e359ecdec67c166bbfae904d90846e8d0b670903e9485e5ccf81d4ab7490092473e3b53c8159665f57faab541bd7ec613853087da07f4fa".
Definition TEST_SEC1_HEX : string := "04fe3e909303ea44121e359ecdec67c166bbfae904d90846e8d0b670903e9485e5ccf81d4ab7490092473e3b53c8159665f57faab541bd7ec613853087da07f4fa".
Definition TEST_SIG_HEX : string := "d34088ca63c7f9733869c7b28a52706bb64ba4d2517a226759ea46d9011a54ef11de38cbf5ba7b4ca67a273997f1973e8755ed275720644039771dcf44c1a3f8".
Definition TEST_MSG : list byte := as_bytes "persona ring-removal known-answer vector v1".
Definition TEST_JWK_X : string := "_j6QkwPqRBIeNZ7N7GfBZrv66QTZCEbo0LZwkD6UheU".
Definition TEST_JWK_Y : string := "zPgdSrdJAJJHPjtTyBWWZfV_qrVBvX7GE4Uwh9oH9Po".
Definition TEST_JWK_KID : string := "fdGIPrvovavwHlqBF_eSYE7EpaCnB7m3IPAOaQAgdT8".

#[local] Instance fixture_p256 : P256 := {|
  SigningKey := unit;
  EncodingKey := list byte;
  to_encoded_point := λ _, unhex TEST_SEC1_HEX;
  to_pkcs8_der := λ _, Ok (unhex TEST_PKCS8_HEX);
  from_ec_der := λ der, der;
  try_sign := λ _ m, if bool_decide (m = TEST_MSG) then Ok (unhex TEST_SIG_HEX) else Err "unknown";
|}.
Definition fixed_key_signer : result SvidSigner SignerError :=
  from_signing_key tt (Ok (bytes32 0)).

Definition known_vector_public_key_and_pkcs8 : bool :=
  gives fixed_key_signer (λ s, String.eqb (hex (public_key_sec1 s)) TEST_SEC1_HEX
    && gives (to_pkcs8_der (signing_key s)) (λ der, String.eqb (hex der) TEST_PKCS8_HEX)).
Definition known_vector_sign_raw : bool :=
  gives fixed_key_signer (λ s,
    gives (sign_raw s TEST_MSG) (λ sig, Nat.eqb (length sig) 64 && String.eqb (hex sig) TEST_SIG_HEX)
    && negb (gives (sign_raw s (as_bytes "a different message"))
               (λ sig, String.eqb (hex sig) TEST_SIG_HEX))).
Definition known_vector_jwks_for_fixture_key : bool :=
  gives fixed_key_signer (λ s,
    match json_get "keys" (jwks s) with
    | Some (JArr [k]) =>
        forallb (λ '(field, v), same (get_str field k) (Some v))
          [("kty", "EC"); ("crv", "P-256"); ("alg", "ES256"); ("use", "sig");
           ("x", TEST_JWK_X); ("y", TEST_JWK_Y); ("kid", TEST_JWK_KID)]
    | _ => false
    end).
(** The last assertion of [issued_token_header_names_the_published_key]. *)
Definition the_fixture_key_has_the_published_kid : bool :=
  gives fixed_key_signer (λ s, String.eqb (kid s) TEST_JWK_KID).
Definition sign_x509_svid_returns_not_implemented : bool :=
  gives fixed_key_signer (λ s, errs (sign_x509_svid s "spiffe://example.org/workload")
    (λ e, match e with NotImplemented _ => true | _ => false end)).

(** ** They pass *)
Lemma pseudonym_tests_pass :
  forallb id [known_vector_org_oidc_binary_consumer; known_vector_tailscale_macos_consumer;
    known_vector_ssh_local_flatpak_consumer; the_scheme_label_is_part_of_the_derivation;
    output_is_64_hex_chars; deterministic; the_same_consumer_gets_the_same_pseudonymous_id;
    different_consumers_produce_different_pseudonyms;
    different_trust_domains_produce_different_pseudonyms;
    different_ikm_produces_different_pseudonyms;
    distinct_consumers_get_distinct_pseudonymous_ids;
    a_different_key_yields_a_different_pseudonymous_id;
    a_different_root_yields_a_different_pseudonymous_id;
    the_pseudonymous_id_does_not_carry_the_root_path;
    every_path_segment_is_a_legal_spiffe_segment] = true.
Proof. vm_compute. reflexivity. Qed.

Lemma did_id_tests_pass :
  forallb id [spiffe_path_is_the_hash_of_the_whole_did; did_id_is_stable;
    did_id_differs_for_different_dids] = true.
Proof. vm_compute. reflexivity. Qed.

Lemma ssh_verification_tests_pass :
  forallb id [rfc_8032_vectors_verify; an_rfc_vector_with_one_message_byte_flipped_is_refused;
    a_genuine_signature_over_this_challenge_verifies;
    a_signature_over_a_different_challenge_is_refused;
    a_genuine_signature_by_another_key_is_refused; key_bs_own_signature_verifies_for_key_b;
    an_ecdsa_key_is_refused_by_name; malformed_blobs_are_refused_and_never_panic] = true.
Proof. vm_compute. reflexivity. Qed.

Lemma signer_tests_pass :
  forallb id [known_vector_public_key_and_pkcs8; known_vector_sign_raw;
    known_vector_jwks_for_fixture_key; the_fixture_key_has_the_published_kid;
    sign_x509_svid_returns_not_implemented] = true.
Proof. vm_compute. reflexivity. Qed.
