(* ===== verification/ApiTests.v ===== *)
(** * The unit tests of [hire-grpc], [hire-nmh] and [hire], run on the model

    With those of [hvid.rs], [signer.rs] and [trust_bundle.rs], whose inputs
    are JSON and keys; the key and token layer is [Toy]'s.  The tests that
    ask the host for its directories, accounts or processes are in [HostTests]. *)
From S2P Require Import Prelude RustStr RustNum Assurance SpiffeId External Json Jwt Toy Pseudonym Signer TrustBundle RwLock SharedStore Machine Server Socket Service Nmh Install Cli CoreTests KnownAnswers.
Local Open Scope Z_scope.
#[local] Existing Instance ascii_tables.

(** ** [hvid.rs] *)
Definition spec_claims : HireClaims :=
  mkHireClaims "example.com" ["tailscale"; "piv-smartcard"] Iaa3
    (mkPresenceInfo true "fido2_up" 1745999640 1745999940) ["tailscale_oidc"; "fido2_up"].
Definition has_exactly (keys : list string) (o : list (string * json)) : bool :=
  Nat.eqb (length o) (length keys) && forallb (λ k, bool_decide (k ∈ o.*1)) keys.
Definition serialises_to_the_spec_shape : bool :=
  match claims_to_json spec_claims with
  | JObj obj =>
      has_exactly ["auth_methods"; "identity_assurance"; "presence"; "root_trust_domain"; "sources"] obj
      && forallb (λ '(k, v), same (json_get k (JObj obj)) (Some v))
           [("root_trust_domain", JStr "example.com");
            ("sources", JArr [JStr "tailscale"; JStr "piv-smartcard"]);
            ("identity_assurance", JStr "iaa3");
            ("auth_methods", JArr [JStr "tailscale_oidc"; JStr "fido2_up"])]
      && match json_get "presence" (JObj obj) with
         | Some (JObj p) =>
             has_exactly ["attested_at"; "attested_by"; "present"; "present_until"] p
             && same (json_get "present" (JObj p)) (Some (JBool true))
             && same (json_get "attested_by" (JObj p)) (Some (JStr "fido2_up"))
             && same (let! v := json_get "attested_at" (JObj p) in as_u64 v) (Some 1745999640)
             && same (let! v := json_get "present_until" (JObj p) in as_u64 v) (Some 1745999940)
         | _ => false
         end
  | _ => false
  end.

(** The level inside the object, not its text. *)
Definition presence_level_in_claims_serialises_lowercase : bool :=
  same (get_str "identity_assurance"
          (claims_to_json (mkHireClaims "t" [] Iaa2 (mkPresenceInfo false "" 0 0) []))) (Some "iaa2").

(** ** [trust_bundle.rs] *)
#[local] Existing Instance toy_sha2.
Definition a_signer : SvidSigner :=
  mkSigner (P := toy_p256) (as_bytes "key") (toy_point (as_bytes "key")) (as_bytes "key") (bytes32 0).
Definition local (td : TrustDomain) : TrustBundle := local_bundle td a_signer.

Definition a_bundle_is_found_by_the_trust_domain_it_was_stored_under : bool :=
  let store := upsert (local SshLocal) store_new in
  match store_get SshLocal store with
  | Some found => same (b_trust_domain found) SshLocal
  | None => false
  end && negb (bool_decide (is_Some (store_get Tailscale store))).
Definition a_bundle_is_stored_under_its_own_trust_domain : bool :=
  let store := upsert (local Tailscale) (upsert (local SshLocal) store_new) in
  let domains s := (λ b, show_td (b_trust_domain b)) <$> snapshot s in
  has_exactly ["ssh.local"; "tailscale"] ((λ d, (d, JNull)) <$> domains store)
  && Nat.eqb (length (snapshot (upsert (local SshLocal) store))) 2.
Definition local_bundle_publishes_a_jwt_authority_and_no_x509_authority : bool :=
  let bundle := local SshLocal in
  bool_decide (x509_authorities bundle = [])
  && bool_decide (is_Some (jwt_decoding_key bundle (kid a_signer)))
  && negb (bool_decide (is_Some (jwt_decoding_key bundle "not-a-published-kid"))).

(** The poisoning thread runs to its end, then the store is asked. *)
Definition a_panic_elsewhere_does_not_stop_the_store_serving_bundles : bool :=
  let store := upsert (local SshLocal) store_new in
  let call c n := (Invoke 1 c :: replicate n (Run 1))%nat in
  match exec_all false (([Invoke 0 Unwind; Run 0; Run 0] ++ call Snapshot 5
          ++ call (Upsert (local Tailscale)) 3 ++ call Snapshot 6)%nat) (spawned store 2) with
  | Some ([Called _ _; Panicked _; Called _ _; Returned _ (Listed one);
           Called _ _; Returned _ Stored; Called _ _; Returned _ (Listed two)], p) =>
      is_poisoned (lock p) && Nat.eqb (length one) 1 && Nat.eqb (length two) 2
  | _ => false
  end.

(** ** [signer.rs] *)
Definition new_generates_keypair : bool :=
  gives (from_signing_key (P := toy_p256) (as_bytes "random") (Ok (bytes32 1))) (λ s,
    Nat.eqb (length (public_key_sec1 s)) 65).
Definition sign_raw_produces_signature : bool :=
  gives (sign_raw a_signer (as_bytes "hello hire")) (λ sig, negb (bool_decide (sig = []))).
Definition jwt_svid_claims_are_correct : bool :=
  let spiffe_id := "spiffe://example.org/workload" in
  let audience := "api.example.org" in
  let hire_val := JObj [("level", JStr "asserted")] in
  gives (sign_jwt_svid a_signer spiffe_id [audience] hire_val (from_secs 1700000000)) (λ token,
    match insecure_decode token with
    | Some (_, claims) =>
        let number k := let! v := json_get k claims in as_u64 v in
        same (get_str "sub" claims) (Some spiffe_id)
        && match json_get "aud" claims with
           | Some (JArr l) => existsb (λ v, bool_decide (v = JStr audience)) l
           | _ => false
           end
        && match number "exp", number "iat" with
           | Some exp, Some iat => iat <? exp
           | _, _ => false
           end
        && same (get_str "spiffe_id" claims) (Some spiffe_id)
        && bool_decide (json_get "hire" claims = Some hire_val)
    | None => false
    end).

(** ** [service.rs] *)

(** A double by the integer it holds. *)
#[local] Instance integral : Numbers := {|
  number_as_f64 := λ n, match n with NPosInt z | NNegInt z => Some z | NFloat _ => None end;
  number_to_string := λ _, "";
|}.
Definition BOUND : Duration := from_secs 60.
Definition field_of (k : string) (fields : list (string * pb_value)) : option pb_value :=
  find_map (λ '(n, v), if String.eqb n k then Some v else None) fields.
Definition is_string (s : string) (v : option pb_value) : bool :=
  match v with Some (PString t) => String.eqb s t | _ => false end.
Definition the_validated_payload_reaches_the_consumer_as_a_struct : bool :=
  let payload := JObj [("spiffe_id", JStr "spiffe://ssh.local/unix/1000");
    ("exp", JNum (NPosInt 1700000000));
    ("hire", JObj [("identity_assurance", JStr "iaa1"); ("presence", JStr "none")]);
    ("aud", JArr [JStr "one"; JStr "two"])] in
  match claims_struct payload with
  | Some fields =>
      is_string "spiffe://ssh.local/unix/1000" (field_of "spiffe_id" fields)
      && match field_of "exp" fields with Some (PNumber n) => n =? 1700000000 | _ => false end
      && match field_of "aud" fields with
         | Some (PList [one; two]) => is_string "one" (Some one) && is_string "two" (Some two)
         | _ => false
         end
      && match field_of "hire" fields with
         | Some (PStruct hire) => is_string "iaa1" (field_of "identity_assurance" hire)
         | _ => false
         end
  | None => false
  end.
Definition an_observation_younger_than_the_bound_is_served : bool :=
  within_max_age (Some (from_secs 59)) (Some BOUND).
Definition an_observation_older_than_the_bound_is_refused : bool :=
  negb (within_max_age (Some (from_secs 61)) (Some BOUND)).
Definition an_observation_exactly_at_the_bound_is_refused : bool :=
  negb (within_max_age (Some BOUND) (Some BOUND)) && negb (within_max_age (Some 0) (Some 0)).
Definition an_unmeasurable_age_satisfies_no_bound : bool := negb (within_max_age None (Some BOUND)).
Definition no_bound_asks_no_question : bool :=
  within_max_age (Some (from_secs 86400)) None && within_max_age None None.

(** ** [socket.rs] *)
Definition runtime_dir_gives_the_documented_systemd_path : bool :=
  String.eqb (socket_under (Some "/run/user/1000") 1000) "/run/user/1000/hire/workload.sock".
Definition runtime_dir_gives_the_documented_macos_path : bool :=
  String.eqb (socket_under (Some "/var/folders/1s/8j5xq0000gn/T/") 501)
    "/var/folders/1s/8j5xq0000gn/T/hire/workload.sock".
Definition fallback_gives_the_documented_non_systemd_path : bool :=
  String.eqb (socket_under None 1000) "/tmp/hire-1000/workload.sock".
Definition fallback_is_scoped_per_uid : bool :=
  negb (String.eqb (socket_under None 1000) (socket_under None 1001))
  && negb (same (parent (socket_under None 1000)) (Some "/tmp")).

(** ** [hire-nmh/src/main.rs] *)
Definition REQUEST_FRAME_HEX : string :=
  "370000007b2274797065223a2266657463685f6a7774222c2261756469656e6365223a5b2268747470733a2f2f6578616d706c652e636f6d225d7d".
Definition reads_a_frame_the_browser_would_send : bool :=
  let s k := quoted k in
  gives (read_message (mkStdin (unhex REQUEST_FRAME_HEX) None)) (λ r,
    match r with
    | Some (msg, rest) =>
        String.eqb (of_bytes msg)
          ("{" +:+ s "type" +:+ ":" +:+ s "fetch_jwt" +:+ "," +:+ s "audience" +:+ ":["
           +:+ s "https://example.com" +:+ "]}")
    | None => false
    end).
Definition a_closed_stdin_is_end_of_stream_not_an_error : bool :=
  gives (read_message (mkStdin [] None)) (λ r, match r with None => true | Some _ => false end).
Definition refuses_a_length_prefix_it_would_have_to_allocate_for : bool :=
  errs (read_message (mkStdin (u32_to_le 4294967295) None)) (λ e, match e with FrameTooLong _ => true | _ => false end).
Definition the_limit_itself_is_accepted_and_one_byte_over_is_not : bool :=
  gives (read_message (mkStdin (u32_to_le MAX_REQUEST ++ replicate (Z.to_nat MAX_REQUEST) "x"%char) None)) (λ r,
    match r with Some (msg, _) => blen msg =? MAX_REQUEST | None => false end)
  && negb (is_ok (read_message (mkStdin (u32_to_le (MAX_REQUEST + 1)) None))).
Definition writes_the_frame_the_browser_expects : bool :=
  let '(r, out) := write_message (as_bytes "hi") ([] : list byte) in
  is_ok r && same (unhex "020000006869") out.
Definition refuses_a_response_the_browser_would_kill_the_host_over : bool :=
  let huge := replicate (Z.to_nat (MAX_RESPONSE + 1)) "x"%char in
  let '(r, out) := write_message huge ([] : list byte) in
  errs r (λ e, match e with ResponseTooLong _ => true | _ => false end)
  && match out with [] => true | _ => false end.

(** ** [hire/src/main.rs] *)
Definition enumerate_summary_counts_sources_and_candidates_separately : bool :=
  forallb (λ '(sources, candidates, text), String.eqb (enumerate_summary sources candidates) text)
    [(1, 0, "1 identity source active, 0 candidates found");
     (4, 7, "4 identity sources active, 7 candidates found");
     (2, 1, "2 identity sources active, 1 candidate found");
     (0, 0, "0 identity sources active, 0 candidates found")].
Definition enumerate_summary_never_denies_sources_it_found : bool :=
  forallb (λ n, let line := enumerate_summary n 0 in
    starts_with (show_u64 n +:+ " identity source") line && negb (contains "0 identity" line))
    [1; 2; 3; 4; 5; 6; 7].
Definition plist_for_example : string := replace "__HOME__" "/Users/example" (unlines LAUNCHD_PLIST).
Definition launchd_plist_is_a_template_that_substitutes_cleanly : bool :=
  contains "__HOME__" (unlines LAUNCHD_PLIST) && negb (contains "__HOME__" plist_for_example)
  && contains "<string>/Users/example/.cargo/bin/hired</string>" plist_for_example
  && negb (contains "/usr/local/bin" plist_for_example).
Definition launchd_plist_logs_under_the_home_library_and_never_to_tmp : bool :=
  negb (contains "/tmp/" plist_for_example)
  && contains "StandardOutPath" plist_for_example && contains "StandardErrorPath" plist_for_example
  && contains "<string>/Users/example/Library/Logs/hired.log</string>" plist_for_example.

(** ** They pass *)
Lemma hvid_and_bundle_tests_pass :
  forallb id [serialises_to_the_spec_shape; presence_level_in_claims_serialises_lowercase;
    a_bundle_is_found_by_the_trust_domain_it_was_stored_under;
    a_bundle_is_stored_under_its_own_trust_domain;
    local_bundle_publishes_a_jwt_authority_and_no_x509_authority;
    a_panic_elsewhere_does_not_stop_the_store_serving_bundles;
    new_generates_keypair; sign_raw_produces_signature; jwt_svid_claims_are_correct] = true.
Proof. vm_compute. reflexivity. Qed.

Lemma service_and_socket_tests_pass :
  forallb id [the_validated_payload_reaches_the_consumer_as_a_struct;
    an_observation_younger_than_the_bound_is_served;
    an_observation_older_than_the_bound_is_refused;
    an_observation_exactly_at_the_bound_is_refused; an_unmeasurable_age_satisfies_no_bound;
    no_bound_asks_no_question; runtime_dir_gives_the_documented_systemd_path;
    runtime_dir_gives_the_documented_macos_path; fallback_gives_the_documented_non_systemd_path;
    fallback_is_scoped_per_uid] = true.
Proof. vm_compute. reflexivity. Qed.

Lemma nmh_tests_pass :
  forallb id [reads_a_frame_the_browser_would_send; a_closed_stdin_is_end_of_stream_not_an_error;
    refuses_a_length_prefix_it_would_have_to_allocate_for;
    the_limit_itself_is_accepted_and_one_byte_over_is_not; writes_the_frame_the_browser_expects;
    refuses_a_response_the_browser_would_kill_the_host_over] = true.
Proof. vm_compute. reflexivity. Qed.

Lemma cli_tests_pass :
  forallb id [enumerate_summary_counts_sources_and_candidates_separately;
    enumerate_summary_never_denies_sources_it_found;
    launchd_plist_is_a_template_that_substitutes_cleanly;
    launchd_plist_logs_under_the_home_library_and_never_to_tmp] = true.
Proof. vm_compute. reflexivity. Qed.
