(* ===== verification/ServerTests.v ===== *)
(** * The unit tests of [hire-grpc/src/server.rs], run on a model file system

    [Posix] is a small file system with owners, modes, symbolic links and
    per-open-file locks, an instance of [Os] in which the calls of [server.rs]
    do what their manual pages say; the tests of the file run on it.  The one
    about [Send] and [Sync] is the Rust compiler's. *)
From S2P Require Import Prelude RustStr RustNum Machine Server Daemon CoreTests.
Local Open Scope Z_scope.

(** ** The file system *)
Inductive Kind : Type := Dir | Regular | SocketFile | Symlink (target : string).
Record Inode : Type := mkInode { kind : Kind; mode : Z; owner : Z }.

(** The names, who holds the lock of each lock file, by the handle that took
    it, the next handle, the caller's uid and umask. *)
Record Posix : Type := mkPosix {
  inodes : gmap string Inode;
  locked : gmap string nat;
  next_handle : nat;
  me : Z;
  umask : Z;
}.
Definition set_inodes (i : gmap string Inode) (s : Posix) : Posix :=
  mkPosix i (locked s) (next_handle s) (me s) (umask s).
Definition set_locked (l : gmap string nat) (s : Posix) : Posix :=
  mkPosix (inodes s) l (next_handle s) (me s) (umask s).

Definition is_dir (k : Kind) : bool := match k with Dir => true | _ => false end.

(** [stat]: a link is followed, here once. *)
Definition stat (p : string) (s : Posix) : option Inode :=
  match inodes s !! p with
  | Some (mkInode (Symlink target) _ _) => inodes s !! target
  | r => r
  end.
(** Is the parent of a name a directory? *)
Definition parent_is_dir (p : string) (s : Posix) : bool :=
  match parent p with
  | Some d => match stat d s with Some i => is_dir (kind i) | None => false end
  | None => true
  end.

#[export] Instance posix_os : Os Posix := {|
  process_uid := λ s, (me s, s);
  metadata := λ p s,
    (match stat p s with
     | Some i => Ok (mkMetadata (is_dir (kind i)) (mode i) (owner i))
     | None => Err EkNotFound
     end, s);
  set_permissions := λ p m s,
    match inodes s !! p with
    | Some i => if owner i =? me s
                then (Ok (), set_inodes (<[p := mkInode (kind i) m (owner i)]> (inodes s)) s)
                else (Err (EkOther "EPERM"), s)
    | None => (Err EkNotFound, s)
    end;
  create_dir_all := λ p m s,
    (Ok (), set_inodes (<[p := mkInode Dir (Z.ldiff m (umask s)) (me s)]> (inodes s)) s);
  remove_file := λ p s,
    if negb (parent_is_dir p s) then (Err (EkOther "ENOTDIR"), s)
    else match inodes s !! p with
         | None => (Err EkNotFound, s)
         | Some (mkInode Dir _ _) => (Err (EkOther "EISDIR"), s)
         | Some _ => (Ok (), set_inodes (delete p (inodes s)) s)
         end;
  LockFile := string * nat;
  open_lock := λ p m s,
    if negb (parent_is_dir p s) then (Err (EkOther "ENOTDIR"), s)
    else
      let created := match inodes s !! p with
                     | Some _ => inodes s
                     | None => <[p := mkInode Regular (Z.ldiff m (umask s)) (me s)]> (inodes s)
                     end in
      (Ok (p, next_handle s), mkPosix created (locked s) (Datatypes.S (next_handle s)) (me s) (umask s));
  flock_ex_nb := λ '(p, h) s,
    match locked s !! p with
    | None => (Ok (), set_locked (<[p := h]> (locked s)) s)
    | Some h' => (if Nat.eqb h h' then Ok () else Err EkWouldBlock, s)
    end;
  close_lock := λ '(p, h) s,
    (tt, if bool_decide (locked s !! p = Some h) then set_locked (delete p (locked s)) s else s);
  Listener := string;
  unix_bind := λ p s,
    match inodes s !! p with
    | Some _ => (Err (EkOther "EADDRINUSE"), s)
    | None => if parent_is_dir p s
              then (Ok p, set_inodes (<[p := mkInode SocketFile (Z.ldiff 511 (umask s)) (me s)]>
                                        (inodes s)) s)
              else (Err (EkOther "ENOENT"), s)
    end;
|}.

(** ** Scenes *)

(** A user's machine: [/tmp] is root's and sticky, [/usr] root's and not. *)
Definition fresh : Posix :=
  mkPosix {["/tmp" := mkInode Dir 1023 0; "/usr" := mkInode Dir 493 0]} ∅ 0 1000 18.
Definition scratch (name : string) : string := path_join "/tmp" ("hire-srvtest-7-" +:+ name).
Definition put (p : string) (i : Inode) (s : Posix) : Posix := set_inodes (<[p := i]> (inodes s)) s.
Definition mode_is (m : Z) (p : string) (s : Posix) : bool :=
  match inodes s !! p with Some i => Z.land (mode i) 511 =? m | None => false end.
(** [Path::exists] *)
Definition exists_ (p : string) (s : Posix) : bool := bool_decide (is_Some (stat p s)).
(** [drop] of what [bind_listener] returned. *)
Definition drop_bound (r : result (string * (string * nat)) ServeError) (s : Posix) : Posix :=
  match r with Ok (_, lock) => (close_lock (Os := posix_os) lock s).2 | Err _ => s end.

(** ** The tests *)
Definition creates_a_missing_directory_private_to_this_user : bool :=
  let dir := scratch "missing" in
  let '(r, s) := prepare_socket_dir dir fresh in
  is_ok r && match inodes s !! dir with Some i => is_dir (kind i) | None => false end
  && mode_is 448 dir s.
Definition tightens_a_directory_we_own_that_is_too_permissive : bool :=
  let dir := scratch "loose" in
  let '(r, s) := prepare_socket_dir dir (put dir (mkInode Dir 493 1000) fresh) in
  is_ok r && mode_is 448 dir s.
Definition accepts_a_root_owned_sticky_directory : bool :=
  is_ok (prepare_socket_dir "/tmp" fresh).1.
Definition refuses_a_directory_owned_by_another_user_without_the_sticky_bit : bool :=
  errs (prepare_socket_dir "/usr" fresh).1 (λ e, contains "refusing to use" (show_serve_error e)).
Definition the_bound_socket_is_unreachable_by_other_users : bool :=
  let dir := scratch "bound" in
  let sock := path_join dir "workload.sock" in
  let '(r, s) := bind_listener sock fresh in
  is_ok r && mode_is 448 dir s && mode_is 384 sock s.
Definition binds_over_a_dangling_symlink_left_at_the_socket_path : bool :=
  let dir := scratch "dangling" in
  let sock := path_join dir "workload.sock" in
  let before := put sock (mkInode (Symlink (path_join dir "no-such-target")) 511 1000)
                  (put dir (mkInode Dir 493 1000) fresh) in
  let '(r, s) := bind_listener sock before in
  negb (exists_ sock before) && is_ok r
  && match inodes s !! sock with Some (mkInode SocketFile _ _) => true | _ => false end.
Definition vets_the_directory_before_touching_anything_inside_it : bool :=
  let parent := scratch "notdir" in
  errs (bind_listener (path_join parent "workload.sock")
          (put parent (mkInode Regular 420 1000) fresh)).1
    (λ e, match e with SocketDirNotADirectory p => String.eqb p parent | _ => false end).
Definition a_directory_another_user_owns_is_refused_as_a_matchable_variant : bool :=
  errs (bind_listener "/usr/hire-never-created.sock" fresh).1 (λ e,
    match e with
    | SocketDirNotOurs p owner expected =>
        String.eqb p "/usr" && (owner =? 0) && (expected =? me fresh)
    | _ => false
    end).
Definition a_second_daemon_is_refused_while_the_first_still_holds_the_socket : bool :=
  let sock := path_join (scratch "occupied") "workload.sock" in
  let '(first, s) := bind_listener sock fresh in
  let '(second, s') := bind_listener sock s in
  is_ok first
  && errs second (λ e, match e with AlreadyRunning p => String.eqb p sock | _ => false end)
  && exists_ sock s'.
Definition the_socket_is_reclaimed_once_the_first_daemon_is_gone : bool :=
  let sock := path_join (scratch "reclaim") "workload.sock" in
  let '(first, s) := bind_listener sock fresh in
  let s := drop_bound first s in
  is_ok first && exists_ sock s && is_ok (bind_listener sock s).1.
Definition the_lock_covers_one_socket_and_not_its_directory : bool :=
  let dir := scratch "siblings" in
  let '(first, s) := bind_listener (path_join dir "a.sock") fresh in
  is_ok first && is_ok (bind_listener (path_join dir "b.sock") s).1.

Lemma server_tests_pass :
  forallb id [creates_a_missing_directory_private_to_this_user;
    tightens_a_directory_we_own_that_is_too_permissive; accepts_a_root_owned_sticky_directory;
    refuses_a_directory_owned_by_another_user_without_the_sticky_bit;
    the_bound_socket_is_unreachable_by_other_users;
    binds_over_a_dangling_symlink_left_at_the_socket_path;
    vets_the_directory_before_touching_anything_inside_it;
    a_directory_another_user_owns_is_refused_as_a_matchable_variant;
    a_second_daemon_is_refused_while_the_first_still_holds_the_socket;
    the_socket_is_reclaimed_once_the_first_daemon_is_gone;
    the_lock_covers_one_socket_and_not_its_directory] = true.
Proof. vm_compute. reflexivity. Qed.

(** What the tests do not try: a daemon told to stop before it ever tried the
    lock takes the running one's socket away ([Daemon.hired_main]). *)
Example an_early_signal_unlinks_a_running_daemons_socket :
  let sock := path_join (scratch "early") "workload.sock" in
  let '(first, s) := bind_listener sock fresh in
  let '(second, s') := hired_main true (λ _ s, (SignalReceived, s)) sock s in
  is_ok first && exists_ sock s && is_ok second && negb (exists_ sock s')
  && bool_decide (is_Some (locked s' !! lock_path sock)) = true.
Proof. vm_compute. reflexivity. Qed.
