(* ===== verification/IntegrationTests.v ===== *)
(** * The integration tests of [hire-grpc] and the scripted agent of
    [hire-attestors], run on the model

    [hire-grpc/tests] starts a daemon over test doubles and looks at what its
    calls answer; the same doubles, requests and assertions are here, over
    [Standards]' hashes and [Toy]'s keys and tokens.  An ed25519 key is the
    point of its seed.  The socket between the two ends carries the peer's
    identity and the messages unchanged, so a call is the handler's.
    [ssh_agent_refusals.rs] scripts what an agent replies.  The tests that need a real
    agent, another process or openssl have no counterpart. *)
From S2P Require Import Prelude RustStr RustNum Assurance SpiffeId Consumer External Hint Json Jwt Toy Pseudonym Signer TrustBundle Claim Machine SshWire Verify Agent ConsumerAttest Devices Attestor Service Validate Standards CoreTests.
Local Open Scope Z_scope.
#[local] Existing Instance ascii_tables.

#[local] Existing Instance fips_sha256.
#[local] Existing Instance rfc5869_hkdf.
#[local] Existing Instance toy_ed25519.

(** ** [tests/common/mod.rs] *)
#[local] Instance wire_base64 : Base64 := {|
  b64_std_nopad := @b64_std_nopad rfc4648_base64;
  b64url_encode := @b64url_encode toy_base64;
  b64url_decode := @b64url_decode toy_base64;
|}.

Definition SEED : Z := 7.
Definition verifying_key (seed : Z) : list byte := replicate 32 (as_u8 seed).
Definition key_blob (seed : Z) : list byte :=
  push_string (push_string [] SSH_ED25519) (verifying_key seed).
Definition candidate_for (seed : Z) (source : string) : Candidate :=
  with_proof_cost Silent (candidate_new source SaSshLocal
    ("key/" +:+ b64_std_nopad (sha256 (key_blob seed))) "Test User").
Definition possession_for (seed : Z) (c : Candidate) (challenge : list byte)
    : ST Script (result (list Evidence) AttestorError) :=
  let sig_blob := push_string (push_string [] SSH_ED25519) (toy_sign (verifying_key seed) challenge) in
  let*? s := verify_ssh_ed25519 c challenge (key_blob seed) sig_blob in
  ret (Ok [Possession s]).

(** ** A daemon under test *)
Definition host : Script :=
  mkScript (1800000000 * NANOS) [] [] [] [] [] (λ _ _, Err StdinNotPiped) 1000 [].
#[local] Instance host_rng : OsRng Script := λ w, (Ok (replicate 32 "055"%char), w).
#[local] Instance host_numbers : Numbers :=
  {| number_as_f64 := λ n, match n with NPosInt n | NNegInt n | NFloat n => Some n end;
     number_to_string := λ _, "" |}.

Definition signer_of (key : string) : SvidSigner :=
  mkSigner (P := toy_p256) (as_bytes key) (toy_point (as_bytes key)) (as_bytes key)
    (sha256 (as_bytes key)).
Definition own : SvidSigner := signer_of "service".
Definition foreign : SvidSigner := signer_of "foreign".
Definition start_with (published : list SvidSigner) (atts : list (Attestor Script))
    : WorkloadApiService (P := toy_p256) :=
  mkService own (fold_right (λ sg, upsert (local_bundle SshLocal sg)) store_new published) atts.

(** A double: what it enumerates and how it proves. *)
Definition double (name : string) (c : Candidate)
    (prove : Candidate → list byte → ST Script (result (list Evidence) AttestorError))
    : Attestor Script := mkAttestor name (ret (Ok [c])) prove default_freshness.
Definition proving (seed : Z) (c : Candidate) : Attestor Script :=
  double (c_source c) c (possession_for seed).
Definition TestAttestor : Attestor Script := proving SEED (candidate_for SEED "test").
Definition AUDIENCE : string := "https://test.example.com".
Definition app (n : Z) : PeerIdentity := mkPeer (Some (BinarySha256 (sha256 [as_u8 n]))).

Definition answer (atts : list (Attestor Script)) (peer : option PeerIdentity) (audiences : list string)
    (spiffe_id : string) : result (list Jwtsvid) (Fault Status) :=
  (fetch_jwtsvid (start_with [own] atts) peer (mkJwtsvidRequest audiences spiffe_id) host).1.
Definition refused (r : result (list Jwtsvid) (Fault Status)) (p : Code → string → bool) : bool :=
  errs r (λ f, match f with Failed st => p (code st) (message st) | Panicked _ => false end).
Definition unauthenticated (k : Code) (_ : string) : bool :=
  match k with Unauthenticated => true | _ => false end.
Definition invalid_argument (k : Code) (_ : string) : bool :=
  match k with InvalidArgument => true | _ => false end.
Definition not_found (k : Code) (_ : string) : bool := match k with NotFound => true | _ => false end.

(** The claims of a token, [token["hire"]["sources"]], every string of a value. *)
Definition claims_of (token : string) : json :=
  match insecure_decode token with Some (_, c) => c | None => JNull end.
Definition at_key (ks : list string) (v : json) : json :=
  fold_left (λ v k, default JNull (json_get k v)) ks v.
Definition sources_of (token : string) : json := at_key ["hire"; "sources"] (claims_of token).
Definition from_source (name : string) (sv : Jwtsvid) : bool :=
  bool_decide (sources_of (svid sv) = JArr [JStr name]).
Fixpoint strings_in (v : json) : list string :=
  match v with
  | JStr s => [s]
  | JArr l => concat (map strings_in l)
  | JObj fs => concat (map (λ '(k, v), k :: strings_in v) fs)
  | JNull | JBool _ | JNum _ => []
  end.
Definition u64_at (ks : list string) (v : json) : option Z := as_u64 (at_key ks v).

(** ** [no_prompt.rs] *)

(** [TouchCounter]: every request for a proof leaves a mark. *)
Definition TouchCounter (cost : ProofCost) : Attestor Script :=
  double "touch-counter" (with_proof_cost cost (candidate_for SEED "touch-counter")) (λ c challenge w,
    possession_for SEED c challenge (log_written ["*"%char] w)).
Definition fetch_once (cost : ProofCost) : bool * nat :=
  let '(r, w) := fetch_jwtsvid (start_with [own] [TouchCounter cost]) (Some (app 1))
                   (mkJwtsvidRequest [AUDIENCE] "") host in
  (is_ok r, length (sc_written w)).
Definition an_interactive_candidate_is_never_proved_by_fetch_jwtsvid : bool :=
  bool_decide (fetch_once Silent = (true, 1%nat) ∧ fetch_once Interactive = (false, 0%nat)).

(** ** [no_prove.rs] *)
Definition CandidateOnlyAttestor : Attestor Script :=
  double "candidate-only"
    (with_proof_cost Silent (candidate_new "candidate-only" SaSshLocal "user/testuser" "Test User"))
    (default_prove "candidate-only").
Definition attestor_without_prove_issues_nothing : bool :=
  refused (answer [CandidateOnlyAttestor] (Some (app 1)) ["https://example.test"] "") (λ k m,
    unauthenticated k m && String.eqb m "no identity claims available").
Definition attestor_without_prove_cannot_satisfy_hardware_presence : bool :=
  refused (answer [CandidateOnlyAttestor] (Some (app 1))
    ["https://example.test?hire_require_presence=hardware"] "") unauthenticated.

(** ** [consumer_gate.rs] *)
Definition a_request_with_no_attested_consumer_is_refused : bool :=
  refused (answer [TestAttestor] None ["https://example.test"] "") (λ k m,
    unauthenticated k m && String.eqb m "consumer could not be attested").
Definition the_consumer_gate_runs_before_the_audience_is_parsed : bool :=
  refused (answer [TestAttestor] None [] "") (λ k m,
    unauthenticated k m && String.eqb m "consumer could not be attested").

(** ** [selector.rs] *)
Definition Source (name : string) (cost : ProofCost) (provable : bool) : Attestor Script :=
  double name (with_proof_cost cost (candidate_for SEED name)) (λ c challenge,
    if provable then possession_for SEED c challenge else ret (Err (ChallengeFailed "declined"))).
Definition silent (name : string) : Attestor Script := Source name Silent true.
Definition interactive (name : string) : Attestor Script := Source name Interactive true.
Definition offered_id : string := "spiffe://ssh.local/" +:+ c_path (candidate_for SEED "any").
Definition fetch_named (sources : list (Attestor Script)) (spiffe_id : string) :=
  answer sources (Some (app 1)) [AUDIENCE] spiffe_id.
Definition first_is (name : string) (r : result (list Jwtsvid) (Fault Status)) : bool :=
  gives r (λ l, match l with sv :: _ => from_source name sv | [] => false end).

Definition naming_an_identity_is_the_consent_to_prove_it : bool :=
  refused (fetch_named [interactive "gpg-like"] "") unauthenticated
  && first_is "gpg-like" (fetch_named [interactive "gpg-like"] offered_id).
Definition a_selector_nobody_can_prove_is_not_found : bool :=
  let unknown := "spiffe://ssh.local/key/no-such-key" in
  refused (fetch_named [silent "present"] unknown) not_found
  && refused (fetch_named [Source "declines" Silent false] offered_id) not_found
  && refused (fetch_named [silent "other"] unknown) not_found.
Definition a_malformed_selector_is_refused_rather_than_ignored : bool :=
  refused (fetch_named [silent "present"] "not-a-spiffe-id") invalid_argument.
Definition the_first_registered_attestor_wins_a_tie : bool :=
  first_is "first" (fetch_named [silent "first"; silent "second"] "")
  && first_is "second" (fetch_named [silent "second"; silent "first"] "").

(** ** [svid_list.rs] *)
Record ListSource : Type := mkSource { ls_name : string; ls_seed : Z; ls_attains : AttainableAssurance; ls_cost : ProofCost }.
Definition source (name : string) (seed : Z) : ListSource := mkSource name seed AIaa1 Silent.
Definition list_attestor (s : ListSource) : Attestor Script :=
  proving (ls_seed s)
    (with_proof_cost (ls_cost s) (with_attainable (ls_attains s) (candidate_for (ls_seed s) (ls_name s)))).
Definition fetch_all (sources : list ListSource) : list Jwtsvid :=
  match answer (list_attestor <$> sources) (Some (app 1)) [AUDIENCE] "" with
  | Ok svids => svids
  | Err _ => []
  end.
Definition tags_like (svids : list Jwtsvid) (names : list string) : bool :=
  Nat.eqb (length svids) (length names)
  && forallb (λ '(sv, name), from_source name sv) (zip svids names).

Definition every_silently_provable_identity_is_returned_once : bool :=
  let svids := fetch_all [source "first" 1; source "second" 2; source "third" 3] in
  Nat.eqb (length svids) 3 && bool_decide (NoDup (sv_spiffe_id <$> svids)).
Definition one_identity_proved_twice_is_returned_once : bool :=
  tags_like (fetch_all [source "first" 9; source "second" 9]) ["first"].
Definition the_tag_says_what_the_token_says : bool :=
  match fetch_all [source "only" 4] with
  | sv :: _ =>
      let claims := claims_of (svid sv) in
      gives (parse_hint (hint sv)) (λ h,
        bool_decide (at_key ["hire"; "sources"] claims = JArr [JStr (Hint.source h)])
        && bool_decide (at_key ["hire"; "identity_assurance"] claims = JStr (show_assurance (Hint.identity_assurance h)))
        && bool_decide (at_key ["hire"; "presence"; "present"] claims
                        = JBool (negb (String.eqb (show_presence (Hint.presence h)) "none")))
        && (Hint.age h <? 60))
  | [] => false
  end.
Definition an_interactive_source_stays_out_of_the_list : bool :=
  tags_like (fetch_all [source "silent" 6; mkSource "prompts" 5 AIaa1 Interactive]) ["silent"].
Definition the_order_follows_the_proof_and_not_the_declaration : bool :=
  tags_like (fetch_all [source "first" 7; mkSource "second" 8 AIaa3 Silent]) ["first"; "second"].

(** ** [two_consumers.rs] *)
Definition token_for (consumer : Z) : string :=
  match answer [TestAttestor] (Some (app consumer)) ["https://example.test"] "" with
  | Ok (sv :: _) => svid sv
  | _ => ""
  end.
Definition window_ok (claims : json) : bool :=
  match u64_at ["hire"; "presence"; "attested_at"] claims,
        u64_at ["hire"; "presence"; "present_until"] claims, u64_at ["iat"] claims with
  | Some attested_at, Some present_until, Some iat =>
      (present_until =? attested_at + 300) && (attested_at <=? iat)
  | _, _, _ => false
  end.
Definition two_consumers_get_two_pseudonyms : bool :=
  let a1 := claims_of (token_for 1) in
  let b := claims_of (token_for 2) in
  let a2 := claims_of (token_for 1) in
  let sub v := default "" (get_str "sub" v) in
  let root := c_path (candidate_for SEED "test") in
  forallb (starts_with "spiffe://ssh.local/pseudonym/") [sub a1; sub b]
  && negb (contains root (sub a1)) && negb (contains root (sub b))
  && negb (String.eqb (sub a1) (sub b)) && String.eqb (sub a2) (sub a1)
  && forallb (λ k, bool_decide (at_key ["hire"; k] a1 = at_key ["hire"; k] b))
       ["root_trust_domain"; "sources"; "auth_methods"]
  && forallb window_ok [a1; b; a2].

(** ** [e2e.rs] *)
Definition validate (s : WorkloadApiService (P := toy_p256)) (token audience : string) (w : Script)
    : result ValidateResponse Status :=
  (validate_jwtsvid s (mkValidateRequest audience token) w).1.
Definition issue_from (s : WorkloadApiService (P := toy_p256)) : option Jwtsvid * Script :=
  let '(r, w) := fetch_jwtsvid s (Some (app 1)) (mkJwtsvidRequest [AUDIENCE] "") host in
  (match r with Ok (sv :: _) => Some sv | _ => None end, w).
Definition fetch_and_validate_jwt_svid : bool :=
  let s := start_with [own] [TestAttestor] in
  match issue_from s with
  | (Some sv, w) =>
      let claims := claims_of (svid sv) in
      let root := c_path (candidate_for SEED "test") in
      negb (is_empty (svid sv))
      && starts_with "spiffe://ssh.local/pseudonym/" (sv_spiffe_id sv)
      && forallb (λ t, negb (contains root t) && negb (contains "Test User" t)) (strings_in claims)
      && bool_decide (is_Some (json_get "sub" claims)) && bool_decide (is_Some (json_get "aud" claims))
      && gives (validate s (svid sv) AUDIENCE w) (λ v, String.eqb (vp_spiffe_id v) (sv_spiffe_id sv))
  | (None, _) => false
  end.

Definition ask (audiences : list string) : result (list Jwtsvid) (Fault Status) :=
  answer [TestAttestor] (Some (app 1)) audiences "".
Definition in_both_orders (a b : string) (p : Code → string → bool) : bool :=
  refused (ask [a; b]) p && refused (ask [b; a]) p.
Definition presence_requirement_is_taken_from_every_audience : bool :=
  in_both_orders "https://harmless.example" "https://bank.example?hire_require_presence=hardware"
    (λ k m, unauthenticated k m && contains "presence" m).
Definition unrecognised_presence_requirement_is_refused_not_ignored : bool :=
  forallb (λ a, refused (ask [a]) invalid_argument)
    ["https://bank.example?hire_require_presence=biometric";
     "https://bank.example?hire_require_presence=Hardware"].
Definition signed_audience_has_hire_params_stripped : bool :=
  gives (ask ["https://app.example?hire_require_presence=none&tenant=acme"]) (λ l,
    match l with
    | sv :: _ => bool_decide (at_key ["aud"] (claims_of (svid sv))
                              = JArr [JStr "https://app.example?tenant=acme"])
    | [] => false
    end).

(** A daemon that publishes another signer's key, or none. *)
Definition some_id : string := "spiffe://ssh.local/pseudonym/deadbeef".
Definition token_of_signer (sg : SvidSigner) (w : Script) : string :=
  match sign_jwt_svid sg some_id [AUDIENCE] (JObj []) (sc_clock w) with
  | Ok t => t
  | Err _ => ""
  end.
Definition validate_follows_the_bundle_not_the_in_memory_key : bool :=
  let s := start_with [foreign] [TestAttestor] in
  gives (validate s (token_of_signer foreign host) AUDIENCE host) (λ v,
    String.eqb (vp_spiffe_id v) some_id)
  && match issue_from s with
     | (Some sv, w) => negb (is_ok (validate s (svid sv) AUDIENCE w))
     | (None, _) => false
     end.
Definition validate_refuses_a_trust_domain_with_no_published_authority : bool :=
  negb (is_ok (validate (start_with [] [TestAttestor]) (token_of_signer own host) AUDIENCE host)).

Definition a_zero_max_age_refuses_a_claim_dated_this_instant : bool :=
  refused (ask ["https://bank.example?hire_max_age=0"]) (λ k m,
    unauthenticated k m && contains "hire_max_age" m).
Definition a_generous_max_age_issues_a_token : bool :=
  gives (ask ["https://bank.example?hire_max_age=3600"]) (λ l, Nat.eqb (length l) 1).
Definition max_age_is_taken_from_every_audience : bool :=
  in_both_orders "https://harmless.example" "https://bank.example?hire_max_age=0" unauthenticated.
Definition the_token_publishes_the_observation_and_its_window : bool :=
  gives (ask [AUDIENCE]) (λ l, match l with sv :: _ => window_ok (claims_of (svid sv)) | [] => false end).
Definition one_observation_fails_a_tight_bound_and_passes_a_loose_one : bool :=
  a_zero_max_age_refuses_a_claim_dated_this_instant && a_generous_max_age_issues_a_token.

(** [ReplayingAttestor] *)
Definition ReplayingAttestor : Attestor Script :=
  let c := candidate_for SEED "replaying" in
  double "replaying" c (λ _ _, possession_for SEED c (as_bytes "a challenge from an earlier request")).
Definition a_replayed_proof_is_denied : bool :=
  refused (answer [ReplayingAttestor] (Some (app 1)) [AUDIENCE] "") (λ k m,
    unauthenticated k m && String.eqb m "no identity claims available").

(** [token_expiring_at] *)
Definition token_expiring_at (sg : SvidSigner) (spiffe_id : string) (exp : Z) : string :=
  let claims := JObj [("sub", JStr spiffe_id); ("aud", JArr [JStr AUDIENCE]);
    ("exp", JNum (NPosInt exp)); ("iat", JNum (NPosInt (exp - 300)));
    ("spiffe_id", JStr spiffe_id); ("hire", JObj [])] in
  match jwt_encode (mkHeader ES256 (Some (kid sg))) claims (encoding_key sg) with
  | Ok t => t
  | Err _ => ""
  end.
Definition a_token_seconds_past_exp_is_refused : bool :=
  let s := start_with [foreign] [TestAttestor] in
  let unix_now := as_secs (sc_clock host) in
  gives (validate s (token_expiring_at foreign some_id (unix_now + 300)) AUDIENCE host) (λ v,
    String.eqb (vp_spiffe_id v) some_id)
  && negb (is_ok (validate s (token_expiring_at foreign some_id (unix_now - 5)) AUDIENCE host)).

(** ** [ssh_agent_refusals.rs]: what the agent replies, connection by connection *)
Definition agent_message (ty : Z) (payload : list byte) : list byte :=
  u32_to_be (1 + Z.of_nat (length payload)) ++ as_u8 ty :: payload.
Definition identities_answer (keys : list (list byte)) : list byte :=
  fold_left (λ out blob, push_string (push_string out blob) (as_bytes "fake")) keys
    (u32_to_be (Z.of_nat (length keys))).
Definition agent_with (replies : list byte) : Script :=
  mkScript (1800000000 * NANOS) [("SSH_AUTH_SOCK", "/tmp/agent.sock")] ["/tmp/agent.sock"] replies
    [] [] (λ _ _, Err StdinNotPiped) 1000 [].
Definition an_agent_that_will_not_sign_yields_no_evidence : bool :=
  let blob := key_blob 17 in
  let c := candidate_new "ssh-agent" SaSshLocal (ssh_spiffe_path blob) "fake" in
  let challenge := as_bytes "a challenge" in
  let '(gone, w) := ssh_prove c challenge (agent_with
    (agent_message 12 (identities_answer [])
     ++ agent_message 12 (identities_answer [blob]) ++ agent_message 5 [])) in
  let '(declined, w') := ssh_prove c challenge w in
  errs gone (λ e, contains "no longer holds" (show_attestor_error e))
  && bool_decide (sc_written w = agent_message 11 [])
  && errs declined (λ e, contains "declined to sign" (show_attestor_error e))
  && bool_decide (sc_replies w' = []).

(** ** They pass *)
Lemma consent_and_gate_tests_pass :
  forallb id [an_interactive_candidate_is_never_proved_by_fetch_jwtsvid;
    attestor_without_prove_issues_nothing; attestor_without_prove_cannot_satisfy_hardware_presence;
    a_request_with_no_attested_consumer_is_refused;
    the_consumer_gate_runs_before_the_audience_is_parsed;
    naming_an_identity_is_the_consent_to_prove_it; a_selector_nobody_can_prove_is_not_found;
    a_malformed_selector_is_refused_rather_than_ignored;
    the_first_registered_attestor_wins_a_tie] = true.
Proof. vm_compute. reflexivity. Qed.

Lemma list_and_consumer_tests_pass :
  forallb id [every_silently_provable_identity_is_returned_once;
    one_identity_proved_twice_is_returned_once; the_tag_says_what_the_token_says;
    an_interactive_source_stays_out_of_the_list;
    the_order_follows_the_proof_and_not_the_declaration; two_consumers_get_two_pseudonyms] = true.
Proof. vm_compute. reflexivity. Qed.

Lemma end_to_end_tests_pass :
  forallb id [fetch_and_validate_jwt_svid; presence_requirement_is_taken_from_every_audience;
    unrecognised_presence_requirement_is_refused_not_ignored;
    signed_audience_has_hire_params_stripped; validate_follows_the_bundle_not_the_in_memory_key;
    validate_refuses_a_trust_domain_with_no_published_authority;
    a_zero_max_age_refuses_a_claim_dated_this_instant; a_generous_max_age_issues_a_token;
    max_age_is_taken_from_every_audience; the_token_publishes_the_observation_and_its_window;
    one_observation_fails_a_tight_bound_and_passes_a_loose_one; a_replayed_proof_is_denied;
    a_token_seconds_past_exp_is_refused] = true.
Proof. vm_compute. reflexivity. Qed.

Lemma agent_tests_pass : an_agent_that_will_not_sign_yields_no_evidence = true.
Proof. vm_compute. reflexivity. Qed.
