(* ===== verification/HostTests.v ===== *)
(** * The unit tests that ask the machine they run on, run on scripted ones

    The tests of [socket.rs], [unix.rs], [oidc.rs] and [consumer_attest.rs]
    whose inputs are the host's own runtime directory, passwd database, token
    caches and executables.  Each is a check over a scripted machine, evaluated
    on machines that differ in what the test is about. *)
From S2P Require Import Prelude RustStr RustNum External Consumer Json Claim Machine Unix Oidc ConsumerAttest Socket Server Standards Toy CoreTests Workload.
Local Open Scope Z_scope.
#[local] Existing Instance fips_sha256.
#[local] Existing Instance script_files.

Definition host (env : list (string * string)) (uid : Z) (texts : list (string * string)) : Script :=
  mkScript 50 env [] [] [] []
    (λ argv _, if bool_decide (argv = ["id"; "-un"])
               then Ok (mkOutput true (as_bytes ("alice" +:+ String "010" "")) []) else Err StdinNotPiped)
    uid texts.

(** ** [socket.rs] *)
Section SocketTests.
Context {T : TargetOs} {Da : Darwin Script} (w : Script).
Definition host_path : string := (workload_socket_path w).1.
Definition SUN_PATH_MAX : nat := match target_os with MacOS => 103 | _ => 107 end.
Definition host_path_is_absolute_and_named_for_the_workload_api : bool :=
  starts_with "/" host_path && ends_with "/workload.sock" host_path
  && negb (same (parent host_path) (Some "/tmp")).
Definition host_path_fits_in_sun_path : bool :=
  Nat.leb (String.length host_path) SUN_PATH_MAX.
Definition host_path_is_the_same_for_every_caller : bool :=
  same (workload_socket_path w).1 (workload_socket_path w).1.
End SocketTests.

Definition no_confstr : Darwin Script := λ _ w, ((0, []), w).
Definition var_folders : Darwin Script := λ n w,
  let dir := as_bytes "/var/folders/1s/8j5xq0000gn/T/" in
  ((Z.of_nat (length dir) + 1, dir ++ replicate (Z.to_nat n - length dir) "000"%char), w).
(** With a runtime directory, without one, and the two answers of a Mac. *)
Definition socket_hosts : list (TargetOs * Darwin Script * Script) :=
  [(Linux, no_confstr, host [("XDG_RUNTIME_DIR", "/run/user/1000")] 1000 []);
   (Linux, no_confstr, host [] 4294967295 []);
   (MacOS, no_confstr, host [] 501 []); (MacOS, var_folders, host [] 501 [])].

(** ** [unix.rs] *)
Definition the_resolved_name_matches_id (w : Script) : bool :=
  match (run_command "id" ["-un"] None w).1 with
  | Ok out => o_success out
      && match (username_for (getuid w).1 w).1 with
         | Some r => gives r (same (Some (trim (of_bytes (o_stdout out)))))
         | None => false
         end
  | Err _ => false
  end.

(** A machine whose passwd database ends before that uid. *)
Definition bounded_passwd : Machine Script := {|
  now := now; env_var := env_var; env_var_os := env_var_os; path_exists := path_exists;
  Stream := Stream; stream_connect := stream_connect; write_all := write_all;
  read_exact := read_exact; read_to_end := read_to_end; read_to_string := read_to_string;
  getuid := getuid; sysconf_pwbuf := sysconf_pwbuf;
  getpwuid_r := λ uid cap w, if uid <? 4000000000 then getpwuid_r uid cap w else ((0, None), w);
  os_error := os_error; join_error := join_error; run_command := run_command;
|}.
Definition a_uid_with_no_passwd_entry_is_an_answer_not_an_error (w : Script) : bool :=
  match (username_for (M := bounded_passwd) 4000000000 w).1 with
  | Some r => gives r (same None)
  | None => false
  end.

(** ** [oidc.rs] *)
Definition the_scan_round_trips_through_the_blocking_pool (w : Script) : bool :=
  match (scan_token_caches_off_reactor (B := toy_base64) (J := one_token_json) w).1 with
  | Ok scanned => forallb (λ '(candidate, token),
      negb (is_empty token) && contains "/via/oidc-cached" (c_path candidate)) scanned
  | Err _ => false
  end.

(** ** [consumer_attest.rs] *)

(** The peer is the test's own process, whose executable the machine holds. *)
Definition attests_a_real_peer_as_the_hash_of_its_executable (w : Script) : bool :=
  match (peer_cred a_socket w).1, (hash_file (Datatypes.length (sc_replies w)) "/proc/self/exe" w).1 with
  | Ok cred, Some (Ok expected) =>
      match (attest_peer (T := Linux) (Datatypes.length (sc_replies w)) cred w).1 with
      | Some (Ok attested) => bool_decide (attested = BinarySha256 expected)
      | _ => false
      end
  | _, _ => false
  end.

(** ** They pass *)
Lemma socket_host_tests_pass :
  forallb (λ '(T, Da, w),
    forallb id [host_path_is_absolute_and_named_for_the_workload_api (T := T) (Da := Da) w;
      host_path_fits_in_sun_path (T := T) (Da := Da) w;
      host_path_is_the_same_for_every_caller (T := T) (Da := Da) w]) socket_hosts = true.
Proof. vm_compute. reflexivity. Qed.

Lemma account_and_cache_tests_pass :
  forallb (λ w, forallb id [the_resolved_name_matches_id w;
      a_uid_with_no_passwd_entry_is_an_answer_not_an_error w;
      the_scan_round_trips_through_the_blocking_pool w])
    [host [] 1000 []; host (sc_env gcloud_home) 1000 (sc_texts gcloud_home)] = true.
Proof. vm_compute. reflexivity. Qed.

Lemma peer_attestation_test_passes :
  attests_a_real_peer_as_the_hash_of_its_executable elf_box = true.
Proof. vm_compute. reflexivity. Qed.
